(** * Lowzip: a shallow embedding of lowzip.c and the properties of its
    ZIP reader and inflate engine.

    Conventions of the embedding.

    - [unsigned int] is a 32-bit value kept in [Z]; every arithmetic step of
      the source that can wrap is written with [add32], [sub32] or [shl32].
    - Pointers into the output area are addresses in [Z]; [memory] is the
      byte store they point into.  Pointer differences are exact integers
      ([ptrdiff_t] is taken wide enough to hold them).
    - [scratch] is the byte view of [st->scratch]; a pointer into it is a
      byte offset from its start and a 16-bit element is two bytes, low byte
      first.  The byte and the 16-bit views of the source never overlap on
      live data, so nothing proved below depends on that byte order.
    - [lowzip_locate_file] writes the [lowzip_file] record to the start of
      the scratch area, field by field ([store_file]); the component [file]
      is the typed view of that record, the one [lowzip_get_data] reads
      through its [lowzip_file] pointer.  [lowzip_get_data] reads every field
      it needs before the inflate engine writes to the scratch area.
    - [int] is a 32-bit value in two's complement; a conversion to [int] and
      a decrement below the least [int] are taken to wrap around, as the
      usual compilers do.
    - The read callback and its user data are one function from offsets to
      the returned [unsigned int].
    - Loops with a trip count known on entry recurse on that count; the
      [for (;;)] loops take a fuel argument and return [None] when it runs
      out. *)

From Stdlib Require Import ZArith List Lia Bool.
Import ListNotations.
Local Open Scope Z_scope.

(** ** Machine arithmetic *)

Definition u32 (x : Z) : Z := x mod 2 ^ 32.
Definition u16 (x : Z) : Z := x mod 2 ^ 16.
Definition u8 (x : Z) : Z := x mod 2 ^ 8.

Definition add32 (a b : Z) : Z := u32 (a + b).
Definition sub32 (a b : Z) : Z := u32 (a - b).
Definition shl32 (a n : Z) : Z := u32 (Z.shiftl a n).

(** Byte store with one cell replaced. *)
Definition upd (m : Z -> Z) (a v : Z) : Z -> Z :=
  fun a' => if a' =? a then v else m a'.

(** 16-bit element at byte offset [off] of a byte store. *)
Definition get16 (m : Z -> Z) (off : Z) : Z := m off + 256 * m (off + 1).

Definition set16 (m : Z -> Z) (off v : Z) : Z -> Z :=
  upd (upd m off (v mod 256)) (off + 1) (v / 256 mod 256).

(** ** ZIP defines *)

Definition LOWZIP_MIN_EOCDIR_LENGTH : Z := 22.
Definition LOWZIP_MAX_EOCDIR_LENGTH : Z := 65535 + 22.
Definition LOWZIP_MIN_CDIRFILE_LENGTH : Z := 46.
Definition LOWZIP_MIN_LOCFILE_LENGTH : Z := 30.
Definition LOWZIP_COMPRESSION_STORE : Z := 0.
Definition LOWZIP_COMPRESSION_DEFLATE : Z := 8.

(** ** Inflate defines and tables *)

Definition LOWZIP_SCRATCH_HUFF_LIT : Z := 0.
Definition LOWZIP_SCRATCH_HUFF_DIST : Z := 604.

Definition lowzip_len_bits_tab : list Z :=
  [0; 0; 0; 0; 0; 0; 0; 0; 1; 1; 1; 1; 2; 2; 2; 2;
   3; 3; 3; 3; 4; 4; 4; 4; 5; 5; 5; 5; 0].

Definition lowzip_len_base_tab : list Z :=
  [0; 1; 2; 3; 4; 5; 6; 7; 8; 10; 12; 14; 16; 20; 24; 28;
   32; 40; 48; 56; 64; 80; 96; 112; 128; 160; 192; 224; 255].

Definition lowzip_dist_bits_tab : list Z :=
  [0; 0; 0; 0; 1; 1; 2; 2; 3; 3; 4; 4; 5; 5; 6; 6; 7; 7;
   8; 8; 9; 9; 10; 10; 11; 11; 12; 12; 13; 13].

Definition lowzip_dist_base_tab : list Z :=
  [1; 2; 3; 4; 5; 7; 9; 13; 17; 25; 33; 49; 65; 97; 129;
   193; 257; 385; 513; 769; 1025; 1537; 2049; 3073; 4097;
   6145; 8193; 12289; 16385; 24577].

Definition lowzip_codelen_order_tab : list Z :=
  [16; 17; 18; 0; 8; 7; 9; 6; 10; 5; 11; 4; 12; 3; 13; 2; 14; 1; 15].

(** Constant table lookup; every use in the source is in range. *)
Definition tab (l : list Z) (i : Z) : Z := nth (Z.to_nat i) l 0.

Definition lowzip_len_bits := tab lowzip_len_bits_tab.
Definition lowzip_len_base := tab lowzip_len_base_tab.
Definition lowzip_dist_bits := tab lowzip_dist_bits_tab.
Definition lowzip_dist_base := tab lowzip_dist_base_tab.
Definition lowzip_codelen_order := tab lowzip_codelen_order_tab.

(** ** State structures *)

Record lowzip_file : Type := mkFile {
  have_data_descriptor : Z;
  compression_method : Z;
  crc32 : Z;
  compressed_size : Z;
  uncompressed_size : Z;
  data_offset : Z;
  filename : list Z
}.

Record lowzip_state : Type := mkState {
  read_callback : Z -> Z;
  zip_length : Z;
  output_start : Z;
  output_end : Z;
  output_next : Z;
  memory : Z -> Z;
  central_dir_offset : Z;
  have_error : Z;
  read_offset : Z;
  curr : Z;
  have : Z;
  scratch : Z -> Z;
  file : lowzip_file
}.

Definition set_output_next (st : lowzip_state) (v : Z) : lowzip_state :=
  mkState (read_callback st) (zip_length st) (output_start st) (output_end st)
          v (memory st) (central_dir_offset st) (have_error st)
          (read_offset st) (curr st) (have st) (scratch st) (file st).

Definition set_memory (st : lowzip_state) (v : Z -> Z) : lowzip_state :=
  mkState (read_callback st) (zip_length st) (output_start st) (output_end st)
          (output_next st) v (central_dir_offset st) (have_error st)
          (read_offset st) (curr st) (have st) (scratch st) (file st).

Definition set_central_dir_offset (st : lowzip_state) (v : Z) : lowzip_state :=
  mkState (read_callback st) (zip_length st) (output_start st) (output_end st)
          (output_next st) (memory st) v (have_error st)
          (read_offset st) (curr st) (have st) (scratch st) (file st).

Definition set_have_error (st : lowzip_state) (v : Z) : lowzip_state :=
  mkState (read_callback st) (zip_length st) (output_start st) (output_end st)
          (output_next st) (memory st) (central_dir_offset st) v
          (read_offset st) (curr st) (have st) (scratch st) (file st).

Definition set_read_offset (st : lowzip_state) (v : Z) : lowzip_state :=
  mkState (read_callback st) (zip_length st) (output_start st) (output_end st)
          (output_next st) (memory st) (central_dir_offset st) (have_error st)
          v (curr st) (have st) (scratch st) (file st).

Definition set_curr (st : lowzip_state) (v : Z) : lowzip_state :=
  mkState (read_callback st) (zip_length st) (output_start st) (output_end st)
          (output_next st) (memory st) (central_dir_offset st) (have_error st)
          (read_offset st) v (have st) (scratch st) (file st).

Definition set_have (st : lowzip_state) (v : Z) : lowzip_state :=
  mkState (read_callback st) (zip_length st) (output_start st) (output_end st)
          (output_next st) (memory st) (central_dir_offset st) (have_error st)
          (read_offset st) (curr st) v (scratch st) (file st).

Definition set_scratch (st : lowzip_state) (v : Z -> Z) : lowzip_state :=
  mkState (read_callback st) (zip_length st) (output_start st) (output_end st)
          (output_next st) (memory st) (central_dir_offset st) (have_error st)
          (read_offset st) (curr st) (have st) v (file st).

Definition set_file (st : lowzip_state) (v : lowzip_file) : lowzip_state :=
  mkState (read_callback st) (zip_length st) (output_start st) (output_end st)
          (output_next st) (memory st) (central_dir_offset st) (have_error st)
          (read_offset st) (curr st) (have st) (scratch st) v.

(** ** The file entry in the scratch area *)

(** Byte offsets of the fields of [lowzip_file], in the order in which
    lowzip.h declares them: an [unsigned int] takes four bytes, low byte
    first, and the fields follow each other without padding. *)
Definition file_compression_method : Z := 0.
Definition file_crc32 : Z := 4.
Definition file_compressed_size : Z := 8.
Definition file_uncompressed_size : Z := 12.
Definition file_data_offset : Z := 16.
Definition file_filename : Z := 20.

(** Modelled from the spec: the place of the field [have_data_descriptor],
    which lowzip.c assigns and reads but which the declaration of
    [lowzip_file] in lowzip.h lacks.  The spec lists the data-descriptor
    flag last among the fields of the entry, behind the 256 bytes of the
    name. *)
Definition file_have_data_descriptor : Z := 276.

(** [sizeof(lowzip_file)] with that layout. *)
Definition file_size : Z := 280.

(** An [unsigned int] stored at byte offset [off] of a byte store. *)
Definition set32 (m : Z -> Z) (off v : Z) : Z -> Z :=
  upd (upd (upd (upd m off (v mod 256)) (off + 1) (v / 256 mod 256))
           (off + 2) (v / 65536 mod 256))
      (off + 3) (v / 16777216 mod 256).

(** The bytes [l] stored from byte offset [off] on. *)
Fixpoint store_bytes (m : Z -> Z) (off : Z) (l : list Z) : Z -> Z :=
  match l with
  | [] => m
  | b :: l' => store_bytes (upd m off b) (off + 1) l'
  end.

(** The stores [lowzip_locate_file] does through its [lowzip_file] pointer,
    in the order of the source: the six fields, the bytes of the name and
    the zero byte behind them. *)
Definition store_file (m : Z -> Z) (fi : lowzip_file) : Z -> Z :=
  let m1 := set32 m file_have_data_descriptor (have_data_descriptor fi) in
  let m2 := set32 m1 file_compression_method (compression_method fi) in
  let m3 := set32 m2 file_crc32 (crc32 fi) in
  let m4 := set32 m3 file_compressed_size (compressed_size fi) in
  let m5 := set32 m4 file_uncompressed_size (uncompressed_size fi) in
  let m6 := set32 m5 file_data_offset (data_offset fi) in
  let m7 := store_bytes m6 file_filename (filename fi) in
  upd m7 (file_filename + Z.of_nat (length (filename fi))) 0.

(** The state with the entry [fi] written to the scratch area. *)
Definition put_file (st : lowzip_state) (fi : lowzip_file) : lowzip_state :=
  set_file (set_scratch st (store_file (scratch st) fi)) fi.

(** ** Read/write helpers *)

(** Write an output byte; at the end of the output flag an error and do
    nothing. *)
Definition lowzip_write_byte (st : lowzip_state) (ch : Z) : lowzip_state :=
  if output_end st <=? output_next st then set_have_error st 1
  else set_output_next (set_memory st (upd (memory st) (output_next st) ch))
                       (output_next st + 1).

(** The [while (count-- > 0)] loop of [lowzip_read_little_endian]; [count]
    is the value after the decrement. *)
Fixpoint read_little_endian_loop (st : lowzip_state) (offset : Z) (count : nat)
    (res : Z) : lowzip_state * Z :=
  match count with
  | O => (st, res)
  | S count' =>
      let t := read_callback st (add32 offset (Z.of_nat count')) in
      if negb (Z.land t 0x100 =? 0) then (set_have_error st 1, 0)
      else read_little_endian_loop st offset count' (add32 (shl32 res 8) t)
  end.

Definition lowzip_read_little_endian (st : lowzip_state) (offset : Z)
    (count : nat) : lowzip_state * Z :=
  read_little_endian_loop st offset count 0.

Definition lowzip_read4 (st : lowzip_state) (offset : Z) :=
  lowzip_read_little_endian st offset 4.
Definition lowzip_read2 (st : lowzip_state) (offset : Z) :=
  lowzip_read_little_endian st offset 2.
Definition lowzip_read1 (st : lowzip_state) (offset : Z) :=
  lowzip_read_little_endian st offset 1.

(** Read the next input byte at [read_offset]; out of input, feed in a zero
    and flag the error. *)
Definition lowzip_read_byte (st : lowzip_state) : lowzip_state * Z :=
  let x := read_callback st (read_offset st) in
  if Z.land x 0x100 =? 0 then (set_read_offset st (add32 (read_offset st) 1), x)
  else (set_have_error st 1, 0).

(** The [while (have < nbits)] loop of [lowzip_read_bits].  Every turn adds
    8 to [have], so [nbits] turns are enough; [n] counts them down. *)
Fixpoint read_bits_loop (n : nat) (st : lowzip_state) (cur hav nbits : Z)
    : lowzip_state * Z * Z :=
  match n with
  | O => (st, cur, hav)
  | S n' =>
      if hav <? nbits then
        let '(st1, x) := lowzip_read_byte st in
        read_bits_loop n' st1 (Z.lor cur (shl32 x hav)) (add32 hav 8) nbits
      else (st, cur, hav)
  end.

Definition lowzip_read_bits (st : lowzip_state) (nbits : Z) : lowzip_state * Z :=
  let '(st1, cur, hav) :=
    read_bits_loop (Z.to_nat nbits) st (curr st) (have st) nbits in
  let mask := sub32 (shl32 1 nbits) 1 in
  let res := Z.land cur mask in
  (set_curr (set_have st1 (sub32 hav nbits)) (Z.shiftr cur nbits), res).

(** The [for (;;)] loop of [lowzip_read_bits_reversed]: [mask1] is a 32-bit
    value halved on every turn, so it is zero after at most 32 turns. *)
Fixpoint read_bits_reversed_loop (n : nat) (tmp res mask1 mask2 : Z) : Z :=
  match n with
  | O => res
  | S n' =>
      let mask1 := Z.shiftr mask1 1 in
      if mask1 =? 0 then res
      else
        let res := if negb (Z.land tmp mask1 =? 0) then add32 res mask2 else res in
        read_bits_reversed_loop n' tmp res mask1 (shl32 mask2 1)
  end.

Definition lowzip_read_bits_reversed (st : lowzip_state) (nbits : Z)
    : lowzip_state * Z :=
  let '(st1, tmp) := lowzip_read_bits st nbits in
  (st1, read_bits_reversed_loop 32 tmp 0 (shl32 1 nbits) 1).

Definition lowzip_reset_bitstate (st : lowzip_state) : lowzip_state :=
  set_have st 0.

(** ** Huffman decoding *)

(** [memset] over the byte view. *)
Fixpoint memset (m : Z -> Z) (off : Z) (v : Z) (n : nat) : Z -> Z :=
  match n with
  | O => m
  | S n' => memset (upd m off v) (off + 1) v n'
  end.

(** First loop of [lowzip_prepare_huffman]: count the codes of each length.
    [n] is the number of code lengths still to visit, [i] the index of the
    next one.  The flag is [false] when the loop leaves through
    [format_error]. *)
Fixpoint prepare_huffman_counts (n : nat) (i : Z) (sc : Z -> Z)
    (code_lens out_counts : Z) : (Z -> Z) * bool :=
  match n with
  | O => (sc, true)
  | S n' =>
      let t := sc (code_lens + i) in
      if 15 <? t then (sc, false)
      else
        prepare_huffman_counts n' (i + 1)
          (set16 sc (out_counts + 2 * t) (u16 (get16 sc (out_counts + 2 * t) + 1)))
          code_lens out_counts
  end.

(** Inner loop of the second pass: the symbols whose code length is [i], in
    ascending order, appended at [out_codes]. *)
Fixpoint prepare_huffman_codes_inner (n : nat) (j : Z) (i : Z) (sc : Z -> Z)
    (code_lens out_codes : Z) : (Z -> Z) * Z :=
  match n with
  | O => (sc, out_codes)
  | S n' =>
      if sc (code_lens + j) =? i then
        prepare_huffman_codes_inner n' (j + 1) i (set16 sc out_codes (u16 j))
          code_lens (out_codes + 2)
      else prepare_huffman_codes_inner n' (j + 1) i sc code_lens out_codes
  end.

(** Outer loop of the second pass, over the code lengths [i], [i+1], ...;
    [m] lengths are left. *)
Fixpoint prepare_huffman_codes (m : nat) (i : Z) (sc : Z -> Z)
    (code_lens : Z) (code_lens_count : nat) (out_codes : Z) : (Z -> Z) * Z :=
  match m with
  | O => (sc, out_codes)
  | S m' =>
      let '(sc1, out_codes1) :=
        prepare_huffman_codes_inner code_lens_count 0 i sc code_lens out_codes in
      prepare_huffman_codes m' (i + 1) sc1 code_lens code_lens_count out_codes1
  end.

(** [code_lens] and [out_huff] are byte offsets into the scratch area. *)
Definition lowzip_prepare_huffman (st : lowzip_state) (code_lens : Z)
    (code_lens_count : nat) (out_huff : Z) : lowzip_state :=
  let out_counts := out_huff in
  let sc := memset (scratch st) out_counts 0 32 in
  match prepare_huffman_counts code_lens_count 0 sc code_lens out_counts with
  | (sc1, false) => set_have_error (set_scratch st sc1) 1
  | (sc1, true) =>
      let out_codes := out_huff + 32 in
      let '(sc2, _) :=
        prepare_huffman_codes 15 1 sc1 code_lens code_lens_count out_codes in
      set_scratch st sc2
  end.

(** The [for (i = 1; i <= 15; i++)] loop of [lowzip_decode_huffman].  The
    result is the index into the codes part at which the codeword ended, or
    [None] when it did not end within the lengths left. *)
Fixpoint decode_huffman_loop (n : nat) (i : Z) (st : lowzip_state) (huff : Z)
    (code code_start codes_offset : Z) : lowzip_state * option Z :=
  match n with
  | O => (st, None)
  | S n' =>
      let '(st1, b) := lowzip_read_bits st 1 in
      let code := add32 (shl32 code 1) b in
      let curr_count := get16 (scratch st1) (huff + 2 * i) in
      if sub32 code code_start <? curr_count then
        (st1, Some (sub32 (add32 codes_offset code) code_start))
      else
        decode_huffman_loop n' (i + 1) st1 huff code
          (shl32 (add32 code_start curr_count) 1)
          (add32 codes_offset curr_count)
  end.

(** Huffman decode a terminal value from the input; [huff] is the byte
    offset of the table in the scratch area. *)
Definition lowzip_decode_huffman (st : lowzip_state) (huff : Z)
    : lowzip_state * Z :=
  match decode_huffman_loop 15 1 st huff 0 0 0 with
  | (st1, Some idx) => (st1, get16 (scratch st1) (huff + 32 + 2 * idx))
  | (st1, None) => (set_have_error st1 1, 0)
  end.

(** ** Inflate block decoding *)

(** The copy loop of an uncompressed block, [n] bytes left. *)
Fixpoint uncompressed_copy (n : nat) (st : lowzip_state) : lowzip_state :=
  match n with
  | O => st
  | S n' =>
      let '(st1, x) := lowzip_read_byte st in
      uncompressed_copy n' (lowzip_write_byte st1 (u8 x))
  end.

Definition lowzip_decode_uncompressed_block (st : lowzip_state) : lowzip_state :=
  let st0 := lowzip_reset_bitstate st in
  let '(st1, b0) := lowzip_read_byte st0 in
  let '(st2, b1) := lowzip_read_byte st1 in
  let len := add32 b0 (shl32 b1 8) in
  let '(st3, _) := lowzip_read_byte st2 in
  let '(st4, _) := lowzip_read_byte st3 in
  uncompressed_copy (Z.to_nat len) st4.

(** Literal/length symbol of a static Huffman block. *)
Definition static_literal_length (st : lowzip_state) : lowzip_state * Z :=
  let '(st1, t) := lowzip_read_bits_reversed st 7 in
  if t <=? 0x17 then (st1, add32 t 256)
  else if t <=? 0x5f then
    let '(st2, b) := lowzip_read_bits st1 1 in
    (st2, sub32 (add32 (shl32 t 1) b) 48)
  else if t <=? 0x63 then
    let '(st2, b) := lowzip_read_bits st1 1 in
    (st2, add32 (add32 (shl32 t 1) b) 88)
  else
    let '(st2, b) := lowzip_read_bits_reversed st1 2 in
    (st2, sub32 (add32 (shl32 t 2) b) 256).

(** The [while (back_len-- > 0)] loop: one byte at a time from
    [output_next - back_dist] to [output_next]. *)
Fixpoint back_reference_copy (n : nat) (st : lowzip_state) (back_dist : Z)
    : lowzip_state :=
  match n with
  | O => st
  | S n' =>
      let st1 :=
        set_memory st (upd (memory st) (output_next st)
                           (memory st (output_next st - back_dist))) in
      back_reference_copy n' (set_output_next st1 (output_next st1 + 1)) back_dist
  end.

(** How a loop body hands control back: go on with the loop, or leave
    through the error label (which sets [have_error]). *)
Inductive control : Type :=
| Continue (st : lowzip_state)
| Failed (st : lowzip_state).

(** The branch of the inner loop taken for a symbol [t > 256]. *)
Definition back_reference (st : lowzip_state) (static_huffman : bool) (t : Z)
    : control :=
  if 285 <? t then Failed (set_have_error st 1)
  else
    let t := sub32 t 257 in
    let '(st1, x) := lowzip_read_bits st (lowzip_len_bits t) in
    let back_len := add32 (add32 (lowzip_len_base t) 3) x in
    let '(st2, t) :=
      if static_huffman then lowzip_read_bits_reversed st1 5
      else lowzip_decode_huffman st1 LOWZIP_SCRATCH_HUFF_DIST in
    if 29 <? t then Failed (set_have_error st2 1)
    else
      let '(st3, x) := lowzip_read_bits st2 (lowzip_dist_bits t) in
      let back_dist := add32 (lowzip_dist_base t) x in
      if output_next st3 - output_start st3 <? back_dist then
        Failed (set_have_error st3 1)
      else if output_end st3 - output_next st3 <? back_len then
        Failed (set_have_error st3 1)
      else Continue (back_reference_copy (Z.to_nat back_len) st3 back_dist).

(** Literal/length symbol of the next step, by block type. *)
Definition literal_length (st : lowzip_state) (static_huffman : bool)
    : lowzip_state * Z :=
  if static_huffman then static_literal_length st
  else lowzip_decode_huffman st LOWZIP_SCRATCH_HUFF_LIT.

Fixpoint lowzip_decode_huffman_block_data (fuel : nat) (st : lowzip_state)
    (static_huffman : bool) : option lowzip_state :=
  match fuel with
  | O => None
  | S fuel' =>
      if negb (have_error st =? 0) then Some st
      else
        let '(st1, t) := literal_length st static_huffman in
        if t <? 256 then
          lowzip_decode_huffman_block_data fuel' (lowzip_write_byte st1 (u8 t))
            static_huffman
        else if t =? 256 then Some st1
        else
          match back_reference st1 static_huffman t with
          | Failed st2 => Some st2
          | Continue st2 =>
              lowzip_decode_huffman_block_data fuel' st2 static_huffman
          end
  end.

Definition lowzip_decode_static_huffman_block (fuel : nat) (st : lowzip_state)
    : option lowzip_state :=
  lowzip_decode_huffman_block_data fuel st true.

(** Offsets of the temporaries of a dynamic block in the scratch area. *)
Definition codelen_code_lens : Z := 70.
Definition temp_code_lens : Z := 1020 - 320.

(** The [for (i = 0; i < nclen; i++)] loop reading the code length code
    lengths in their permuted order. *)
Fixpoint read_codelen_code_lens (n : nat) (i : Z) (st : lowzip_state)
    : lowzip_state :=
  match n with
  | O => st
  | S n' =>
      let '(st1, x) := lowzip_read_bits st 3 in
      read_codelen_code_lens n' (add32 i 1)
        (set_scratch st1
           (upd (scratch st1) (codelen_code_lens + lowzip_codelen_order i) (u8 x)))
  end.

(** The [while (rep_count-- > 0)] loop: [None] is the jump to
    [format_error], otherwise the new value of [i]. *)
Fixpoint repeat_code_length (n : nat) (sc : Z -> Z) (i limit rep_code : Z)
    : (Z -> Z) * option Z :=
  match n with
  | O => (sc, Some i)
  | S n' =>
      if limit <=? i then (sc, None)
      else repeat_code_length n' (upd sc (temp_code_lens + i) rep_code)
             (add32 i 1) limit rep_code
  end.

(** What one code length symbol [t] stands for at position [i]:
    [(rep_code, rep_count)], or [None] for [format_error]. *)
Definition code_length_symbol (st : lowzip_state) (i t : Z)
    : lowzip_state * option (Z * Z) :=
  if t <? 16 then (st, Some (u8 t, 1))
  else if t =? 16 then
    if i =? 0 then (st, None)
    else
      let rep_code := scratch st (temp_code_lens + (sub32 i 1)) in
      let '(st1, x) := lowzip_read_bits st 2 in
      (st1, Some (rep_code, add32 3 x))
  else if t =? 17 then
    let '(st1, x) := lowzip_read_bits st 3 in
    (st1, Some (0, add32 3 x))
  else if negb (t =? 18) then (st, None)
  else
    let '(st1, x) := lowzip_read_bits st 7 in
    (st1, Some (0, add32 11 x)).

(** The [for (i = 0; i != nlit + ndist;)] loop; [limit] is [nlit + ndist]. *)
Fixpoint decode_code_lengths (fuel : nat) (st : lowzip_state) (i limit : Z)
    : option control :=
  match fuel with
  | O => None
  | S fuel' =>
      if i =? limit then Some (Continue st)
      else
        let '(st1, t) := lowzip_decode_huffman st 0 in
        match code_length_symbol st1 i t with
        | (st2, None) => Some (Failed (set_have_error st2 1))
        | (st2, Some (rep_code, rep_count)) =>
            match repeat_code_length (Z.to_nat rep_count) (scratch st2) i limit
                    rep_code with
            | (sc, None) => Some (Failed (set_have_error (set_scratch st2 sc) 1))
            | (sc, Some i') =>
                decode_code_lengths fuel' (set_scratch st2 sc) i' limit
            end
        end
  end.

Definition lowzip_decode_dynamic_huffman_block (fuel : nat) (st : lowzip_state)
    : option lowzip_state :=
  let '(st1, x) := lowzip_read_bits st 5 in
  let nlit := add32 x 257 in
  let '(st2, x) := lowzip_read_bits st1 5 in
  let ndist := add32 x 1 in
  let '(st3, x) := lowzip_read_bits st2 4 in
  let nclen := add32 x 4 in
  let st4 := set_scratch st3 (memset (scratch st3) codelen_code_lens 0 19) in
  let st5 := read_codelen_code_lens (Z.to_nat nclen) 0 st4 in
  let st6 := lowzip_prepare_huffman st5 codelen_code_lens 19 0 in
  if negb (have_error st6 =? 0) then Some st6
  else
    match decode_code_lengths fuel st6 0 (add32 nlit ndist) with
    | None => None
    | Some (Failed st7) => Some st7
    | Some (Continue st7) =>
        let st8 :=
          lowzip_prepare_huffman st7 temp_code_lens (Z.to_nat nlit)
            LOWZIP_SCRATCH_HUFF_LIT in
        if negb (have_error st8 =? 0) then Some st8
        else
          let st9 :=
            lowzip_prepare_huffman st8 (temp_code_lens + nlit) (Z.to_nat ndist)
              LOWZIP_SCRATCH_HUFF_DIST in
          if negb (have_error st9 =? 0) then Some st9
          else lowzip_decode_huffman_block_data fuel st9 false
    end.

(** Deflate stream decoder: blocks until the last one. *)
Fixpoint lowzip_decode_inflate_blocks (fuel : nat) (st : lowzip_state)
    : option lowzip_state :=
  match fuel with
  | O => None
  | S fuel' =>
      if negb (have_error st =? 0) then Some st
      else
        let '(st1, blockhdr) := lowzip_read_bits st 3 in
        let btype := Z.shiftr blockhdr 1 in
        let block :=
          if btype =? 0 then Some (lowzip_decode_uncompressed_block st1)
          else if btype =? 1 then lowzip_decode_static_huffman_block fuel' st1
          else if btype =? 2 then lowzip_decode_dynamic_huffman_block fuel' st1
          else Some (set_have_error st1 1) in
        match block with
        | None => None
        | Some st2 =>
            if negb (Z.land blockhdr 1 =? 0) then Some st2
            else lowzip_decode_inflate_blocks fuel' st2
        end
  end.

Definition lowzip_inflate_raw (fuel : nat) (st : lowzip_state)
    : option lowzip_state :=
  lowzip_decode_inflate_blocks fuel (lowzip_reset_bitstate st).

(** ** ZIP CRC32 *)

(** The eight shift steps done for one byte. *)
Fixpoint crc32_bits (n : nat) (crc : Z) : Z :=
  match n with
  | O => crc
  | S n' =>
      crc32_bits n'
        (if negb (Z.land crc 1 =? 0) then Z.lxor (Z.shiftr crc 1) 0xedb88320
         else Z.shiftr crc 1)
  end.

(** The [while (p_start < p_end)] loop, [n] bytes left. *)
Fixpoint crc32_loop (n : nat) (m : Z -> Z) (p : Z) (crc : Z) : Z :=
  match n with
  | O => crc
  | S n' => crc32_loop n' m (p + 1) (crc32_bits 8 (Z.lxor crc (m p)))
  end.

Definition lowzip_zip_crc32 (m : Z -> Z) (p_start p_end : Z) : Z :=
  Z.lxor (crc32_loop (Z.to_nat (p_end - p_start)) m p_start 0xffffffff)
         0xffffffff.

(** ** ZIP operations *)

(** The name comparison loop of [lowzip_locate_file]; the result is the
    value of [i] when the loop is left. *)
Fixpoint compare_name (n : nat) (i : Z) (st : lowzip_state) (offset : Z)
    (name : list Z) : lowzip_state * Z :=
  match n with
  | O => (st, i)
  | S n' =>
      let '(st1, t) :=
        lowzip_read1 st (add32 (add32 offset LOWZIP_MIN_CDIRFILE_LENGTH) i) in
      if negb (t =? nth (Z.to_nat i) name 0) then (st1, i)
      else compare_name n' (add32 i 1) st1 offset name
  end.

(** The loop copying the (truncated) file name of the matched entry. *)
Fixpoint copy_filename (n : nat) (i : Z) (st : lowzip_state) (offset : Z)
    : lowzip_state * list Z :=
  match n with
  | O => (st, [])
  | S n' =>
      let '(st1, t) :=
        lowzip_read1 st (add32 (add32 offset LOWZIP_MIN_CDIRFILE_LENGTH) i) in
      let '(st2, rest) := copy_filename n' (add32 i 1) st1 offset in
      (st2, u8 t :: rest)
  end.

(** The part of [lowzip_locate_file] after a matching entry was found:
    cross-read the local file header.  The reads do not look at the scratch
    area, so the stores into the entry are done together behind them. *)
Definition read_local_header (st : lowzip_state) (offset filename_length : Z)
    : lowzip_state * option lowzip_file :=
  let '(st1, lhdr_offset) := lowzip_read4 st (add32 offset 42) in
  let '(st2, t) := lowzip_read4 st1 lhdr_offset in
  if negb (t =? 0x04034b50) then (set_have_error st2 1, None)
  else
    let '(st3, flags) := lowzip_read2 st2 (add32 lhdr_offset 6) in
    let '(st4, method) := lowzip_read2 st3 (add32 lhdr_offset 8) in
    let '(st5, crc) := lowzip_read4 st4 (add32 lhdr_offset 14) in
    let '(st6, csize) := lowzip_read4 st5 (add32 lhdr_offset 18) in
    let '(st7, usize) := lowzip_read4 st6 (add32 lhdr_offset 22) in
    let '(st8, t1) := lowzip_read2 st7 (add32 lhdr_offset 26) in
    let '(st9, t2) := lowzip_read2 st8 (add32 lhdr_offset 28) in
    let t := add32 t1 t2 in
    let n := if 255 <? filename_length then 255 else filename_length in
    let '(st10, fname) := copy_filename (Z.to_nat n) 0 st9 offset in
    let fi :=
      mkFile (Z.land flags 8) method crc csize usize
             (add32 (add32 lhdr_offset LOWZIP_MIN_LOCFILE_LENGTH) t) fname in
    (put_file st10 fi, Some fi).

(** [(int) x] for an [unsigned int] [x]. *)
Definition to_int (x : Z) : Z := if x <? 2 ^ 31 then x else x - 2 ^ 32.

(** The [for (;;)] loop of [lowzip_locate_file].  [name] is the requested
    name without its terminating zero, or [None] for a null pointer.  [idx]
    is an [int]: [idx--] on the least [int] gives the greatest one. *)
Fixpoint locate_file_loop (fuel : nat) (st : lowzip_state) (offset : Z)
    (idx : Z) (name : option (list Z)) : option (lowzip_state * option lowzip_file) :=
  match fuel with
  | O => None
  | S fuel' =>
      let '(st1, magic) := lowzip_read4 st offset in
      if negb (magic =? 0x02014b50) then Some (set_have_error st1 1, None)
      else
        let '(st2, filename_length) := lowzip_read2 st1 (add32 offset 28) in
        let '(st3, found, idx') :=
          match name with
          | Some nm =>
              if filename_length =? Z.of_nat (length nm) then
                let '(st3, i) :=
                  compare_name (Z.to_nat filename_length) 0 st2 offset nm in
                (st3, i =? filename_length, idx)
              else (st2, false, idx)
          | None => (st2, idx =? 0, to_int (u32 (idx - 1)))
          end in
        if negb found then
          let '(st4, extra) := lowzip_read2 st3 (add32 offset 30) in
          let '(st5, comment) := lowzip_read2 st4 (add32 offset 32) in
          let t := add32 (add32 filename_length extra) comment in
          locate_file_loop fuel' st5
            (add32 offset (add32 LOWZIP_MIN_CDIRFILE_LENGTH t)) idx' name
        else Some (read_local_header st3 offset filename_length)
  end.

Definition lowzip_locate_file (fuel : nat) (st : lowzip_state) (idx : Z)
    (name : option (list Z)) : option (lowzip_state * option lowzip_file) :=
  let st0 := set_have_error st 0 in
  locate_file_loop fuel st0 (central_dir_offset st0) idx name.

(** The [for] loop of [lowzip_init_archive]; [offset] is the signed loop
    variable and [n] the number of offsets down to the lower limit. *)
Fixpoint init_archive_scan (n : nat) (offset : Z) (st : lowzip_state)
    : lowzip_state :=
  match n with
  | O => set_have_error st 1
  | S n' =>
      if negb (have_error st =? 0) then set_have_error st 1
      else
        let '(st1, magic) := lowzip_read4 st (u32 offset) in
        if negb (magic =? 0x06054b50) then init_archive_scan n' (offset - 1) st1
        else
          let '(st2, comment_length) := lowzip_read2 st1 (u32 (offset + 20)) in
          if negb (add32 (u32 (offset + LOWZIP_MIN_EOCDIR_LENGTH)) comment_length
                   =? zip_length st2)
          then init_archive_scan n' (offset - 1) st2
          else
            let '(st3, cdir_offset) := lowzip_read4 st2 (u32 (offset + 16)) in
            set_central_dir_offset st3 cdir_offset
  end.

Definition lowzip_init_archive (st : lowzip_state) : lowzip_state :=
  let st0 := set_have_error st 0 in
  init_archive_scan
    (Z.to_nat (LOWZIP_MAX_EOCDIR_LENGTH - LOWZIP_MIN_EOCDIR_LENGTH + 1))
    (to_int (zip_length st0) - LOWZIP_MIN_EOCDIR_LENGTH) st0.

(** The copy loop of a stored entry, [n] offsets left. *)
Fixpoint store_copy (n : nat) (offset : Z) (st : lowzip_state) : control :=
  match n with
  | O => Continue st
  | S n' =>
      if negb (have_error st =? 0) then Failed (set_have_error st 1)
      else
        let '(st1, t) := lowzip_read1 st offset in
        store_copy n' (add32 offset 1) (lowzip_write_byte st1 (u8 t))
  end.

(** The end of [lowzip_get_data], from the delayed error check on. *)
Definition get_data_validate (st : lowzip_state)
    (header_crc32 header_uncompressed_size header_have_data_descriptor : Z)
    : lowzip_state :=
  if negb (have_error st =? 0) then st
  else if negb (output_next st - output_start st =? header_uncompressed_size)
  then set_have_error st 1
  else
    let computed_crc32 :=
      lowzip_zip_crc32 (memory st) (output_start st) (output_next st) in
    let '(st2, header_crc32) :=
      if negb (header_have_data_descriptor =? 0) then
        let '(st1, magic) := lowzip_read4 st (read_offset st) in
        if magic =? 0x08074b50 then lowzip_read4 st1 (add32 (read_offset st1) 4)
        else lowzip_read4 st1 (read_offset st1)
      else (st, header_crc32) in
    if negb (computed_crc32 =? header_crc32) then set_have_error st2 1
    else st2.

Definition lowzip_get_data (fuel : nat) (st : lowzip_state)
    : option lowzip_state :=
  let st0 := set_have_error st 0 in
  let fi := file st0 in
  let header_crc32 := crc32 fi in
  let header_uncompressed_size := uncompressed_size fi in
  let header_have_data_descriptor := have_data_descriptor fi in
  let decoded :=
    if compression_method fi =? LOWZIP_COMPRESSION_STORE then
      let offset := data_offset fi in
      let offset_end := add32 (data_offset fi) (uncompressed_size fi) in
      Some (store_copy (Z.to_nat (offset_end - offset)) offset st0)
    else if compression_method fi =? LOWZIP_COMPRESSION_DEFLATE then
      match lowzip_inflate_raw fuel (set_read_offset st0 (data_offset fi)) with
      | None => None
      | Some st1 => Some (Continue st1)
      end
    else Some (Failed (set_have_error st0 1)) in
  match decoded with
  | None => None
  | Some (Failed st1) => Some st1
  | Some (Continue st1) =>
      Some (get_data_validate st1 header_crc32 header_uncompressed_size
              header_have_data_descriptor)
  end.


(** ** The read callback of the test program (test_lowzip.c) *)

(** [read_state]; the open file [input] is given by its contents. *)
Record read_state : Type := mkReadState {
  input : list Z;
  input_length : Z;
  input_chunk : list Z;
  input_chunk_start : Z;
  input_chunk_end : Z
}.

(** [fseek] to [pos] followed by [fread] of up to 256 bytes into the chunk:
    the bytes of the file from [pos] on replace the first bytes of the
    chunk, and their number is returned.  Seeking inside or behind a
    regular file is taken to succeed. *)
Definition fread_chunk (file : list Z) (pos : Z) (chunk : list Z)
    : list Z * Z :=
  let data := firstn 256 (skipn (Z.to_nat pos) file) in
  (data ++ skipn (length data) chunk, Z.of_nat (length data)).

(** [my_read]: the cached chunk, the bounds check, or a new chunk around
    the offset.  The conversion of [offset - 128] to [int] is taken to
    wrap around, as the usual compilers do. *)
Definition my_read (rs : read_state) (offset : Z) : read_state * Z :=
  if (input_chunk_start rs <=? offset) && (offset <? input_chunk_end rs) then
    (rs, nth (Z.to_nat (offset - input_chunk_start rs)) (input_chunk rs) 0)
  else if input_length rs <=? offset then (rs, 0x100)
  else
    let chunk_start := to_int (u32 (offset - 256 / 2)) in
    let chunk_start := if chunk_start <? 0 then 0 else chunk_start in
    let '(chunk, got) := fread_chunk (input rs) chunk_start (input_chunk rs) in
    let rs' :=
      mkReadState (input rs) (input_length rs) chunk
                  (u32 chunk_start) (u32 (chunk_start + got)) in
    if (input_chunk_start rs' <=? offset) && (offset <? input_chunk_end rs')
    then (rs', nth (Z.to_nat (offset - input_chunk_start rs')) chunk 0)
    else (rs', 0x100).
(** ** Specification-side notions *)

(** The callback contract of lowzip.h: a byte, or a value with bit 8 set. *)
Definition callback_contract (cb : Z -> Z) : Prop :=
  forall off, Z.land (cb off) 0x100 = 0 -> 0 <= cb off < 256.

(** Little-endian value of the [n] bytes the callback gives from [off] on. *)
Fixpoint le_value (cb : Z -> Z) (off : Z) (n : nat) : Z :=
  match n with
  | O => 0
  | S n' => le_value cb off n' + cb (add32 off (Z.of_nat n')) * 256 ^ Z.of_nat n'
  end.

(** All [n] bytes from [off] on are readable. *)
Fixpoint readable (cb : Z -> Z) (off : Z) (n : nat) : Prop :=
  match n with
  | O => True
  | S n' => Z.land (cb (add32 off (Z.of_nat n'))) 0x100 = 0 /\ readable cb off n'
  end.

(** The addresses [p], [p+1], ..., [n] of them. *)
Fixpoint addresses (p : Z) (n : nat) : list Z :=
  match n with
  | O => []
  | S n' => p :: addresses (p + 1) n'
  end.

(** The bytes of the output written so far, [output_start] to
    [output_next]. *)
Definition output_bytes (st : lowzip_state) : list Z :=
  map (memory st)
      (addresses (output_start st) (Z.to_nat (output_next st - output_start st))).

(** CRC-32 as the specification words it: reflected polynomial 0xEDB88320,
    initial value and final XOR 0xFFFFFFFF, over a list of bytes. *)
Definition crc32_shift (crc : Z) : Z :=
  Z.lxor (Z.shiftr crc 1) (if Z.odd crc then 0xEDB88320 else 0).

Definition crc32_byte (crc byte : Z) : Z :=
  Nat.iter 8 crc32_shift (Z.lxor crc byte).

Definition crc32_of_bytes (bytes : list Z) : Z :=
  Z.lxor (fold_left crc32_byte bytes 0xFFFFFFFF) 0xFFFFFFFF.

(** The CRC of the trailing data descriptor at [off]: after the optional
    signature 0x08074B50, or directly. *)
Definition descriptor_crc (cb : Z -> Z) (off : Z) : Z :=
  if le_value cb off 4 =? 0x08074b50 then le_value cb (add32 off 4) 4
  else le_value cb off 4.

(** The CRC an entry must match: the one of the local header, or the one of
    the data descriptor at [off] when the header announces one. *)
Definition authoritative_crc (fi : lowzip_file) (cb : Z -> Z) (off : Z) : Z :=
  if have_data_descriptor fi =? 0 then crc32 fi else descriptor_crc cb off.

(** An archive held in memory, read the way the test program's callback
    does: the byte at the offset, or 0x100 past the end. *)
Definition bytes_callback (data : list Z) : Z -> Z :=
  fun off =>
    if (0 <=? off) && (off <? Z.of_nat (length data))
    then nth (Z.to_nat off) data 0 else 0x100.

(** A state as the caller sets it up: archive [data], output window of
    [cap] bytes at address [out], everything else zero. *)
Definition initial_state (data : list Z) (out cap : Z) : lowzip_state :=
  mkState (bytes_callback data) (Z.of_nat (length data)) out (out + cap) out
          (fun _ => 0) 0 0 0 0 0 (fun _ => 0) (mkFile 0 0 0 0 0 0 []).


(** What a step that only consumes input leaves alone: everything but the
    error flag and the bit reader ([read_offset], [curr], [have]). *)
Definition reads_only (st st' : lowzip_state) : Prop :=
  read_callback st' = read_callback st /\
  zip_length st' = zip_length st /\
  output_start st' = output_start st /\
  output_end st' = output_end st /\
  output_next st' = output_next st /\
  memory st' = memory st /\
  central_dir_offset st' = central_dir_offset st /\
  scratch st' = scratch st /\
  file st' = file st /\
  (have_error st <> 0 -> have_error st' <> 0).

(** What every step of the inflate engine guarantees: the callback, the
    archive length, the bounds of the output window, the directory offset
    and the file entry stay; the cursor only moves forward, stays inside a
    window it was inside of, and memory changes only between the old and
    the new cursor; a raised error flag stays raised. *)
Definition inflate_step (st st' : lowzip_state) : Prop :=
  read_callback st' = read_callback st /\
  zip_length st' = zip_length st /\
  output_start st' = output_start st /\
  output_end st' = output_end st /\
  central_dir_offset st' = central_dir_offset st /\
  file st' = file st /\
  output_next st <= output_next st' /\
  (output_next st <= output_end st -> output_next st' <= output_end st') /\
  (forall a, ~ (output_next st <= a < output_next st') ->
             memory st' a = memory st a) /\
  (have_error st <> 0 -> have_error st' <> 0).

(** What a step that writes no output leaves alone; the scratch area may
    change. *)
Definition keeps_output (st st' : lowzip_state) : Prop :=
  read_callback st' = read_callback st /\
  zip_length st' = zip_length st /\
  output_start st' = output_start st /\
  output_end st' = output_end st /\
  output_next st' = output_next st /\
  memory st' = memory st /\
  central_dir_offset st' = central_dir_offset st /\
  file st' = file st /\
  (have_error st <> 0 -> have_error st' <> 0).

(** The output side of [inflate_step] alone, for the operations that also
    change the directory offset or the file entry. *)
Definition output_safe (st st' : lowzip_state) : Prop :=
  output_start st' = output_start st /\
  output_end st' = output_end st /\
  output_next st <= output_next st' /\
  (output_next st <= output_end st -> output_next st' <= output_end st') /\
  (forall a, ~ (output_next st <= a < output_next st') ->
             memory st' a = memory st a).

(** Every element of an archive is a byte. *)
Definition all_bytes (data : list Z) : bool :=
  forallb (fun b => (0 <=? b) && (b <? 256)) data.

(** ** Sample inputs *)

(** A ZIP archive with the single deflated entry "b" whose contents are the
    32 bytes "ABABABABABABAB hello hello hello". *)
Definition sample_deflate_archive : list Z :=
  [80; 75; 3; 4; 20; 0; 0; 0; 8; 0; 0; 0; 33; 0; 131; 46; 21; 154; 14; 0; 0;
   0; 32; 0; 0; 0; 1; 0; 0; 0; 98; 115; 116; 114; 68; 130; 10; 25; 169; 57;
   57; 249; 200; 36; 0; 80; 75; 1; 2; 20; 3; 20; 0; 0; 0; 8; 0; 0; 0; 33; 0;
   131; 46; 21; 154; 14; 0; 0; 0; 32; 0; 0; 0; 1; 0; 0; 0; 0; 0; 0; 0; 0; 0;
   0; 0; 128; 1; 0; 0; 0; 0; 98; 80; 75; 5; 6; 0; 0; 0; 0; 1; 0; 1; 0; 47; 0;
   0; 0; 45; 0; 0; 0; 0; 0].

(** The state after opening an archive and locating its entry [idx]; the
    output window has [cap] bytes at address [out]. *)
Definition located_state (data : list Z) (out cap idx : Z) : lowzip_state :=
  let st := lowzip_init_archive (initial_state data out cap) in
  match lowzip_locate_file 64 st idx None with
  | Some (st1, _) => st1
  | None => st
  end.

(** The state an operation with fuel ends in; the state it started from
    when the fuel runs out. *)
Definition after (r : option lowzip_state) (st : lowzip_state) : lowzip_state :=
  match r with
  | Some st' => st'
  | None => st
  end.

(** A stored entry "hi" at offset 0 that announces a data descriptor, in
    an input of nine bytes: the data, three zero bytes, and the CRC-32 of
    "hi" in the bytes 5 to 8.  The bit reader was left at offset 5, which is
    not the end of the data. *)
Definition sample_stored_descriptor_state : lowzip_state :=
  set_read_offset
    (put_file (initial_state [104; 105; 0; 0; 0; 172; 42; 147; 216] 1000 2)
              (mkFile 8 0 0 2 2 0 [97]))
    5.

(** ** Notions for the bit reader *)

(** Bit [k] of the input seen as a stream of bits: bit [k mod 8] (counted
    from the least significant one) of the byte at offset [k / 8]. *)
Definition stream_bit (cb : Z -> Z) (k : Z) : bool :=
  Z.testbit (cb (k / 8)) (k mod 8).

(** The position in the bit stream of the next bit to be delivered. *)
Definition stream_position (st : lowzip_state) : Z :=
  8 * read_offset st - have st.

(** The bit reader holds exactly the [have] bits of the stream before the
    byte at [read_offset], and fewer than eight of them. *)
Definition bit_reader_synced (st : lowzip_state) : Prop :=
  0 <= have st < 8 /\
  0 <= read_offset st < 2 ^ 32 /\
  forall i, 0 <= i ->
    Z.testbit (curr st) i =
    (i <? have st) && stream_bit (read_callback st) (stream_position st + i).

(** Every byte a read of [nbits] bits has to fetch is in bounds. *)
Definition bits_available (st : lowzip_state) (nbits : Z) : Prop :=
  forall o, read_offset st <= o -> 8 * (o - read_offset st) + have st < nbits ->
            o < 2 ^ 32 - 1 /\ Z.land (read_callback st o) 0x100 = 0.

(** The [n] low bits of [x] in reverse order: bit [n - 1] of [x] becomes
    bit 0. *)
Fixpoint reverse_bits (n : nat) (x : Z) : Z :=
  match n with
  | O => 0
  | S n' => Z.b2z (Z.testbit x (Z.of_nat n')) + 2 * reverse_bits n' x
  end.

(** ** The fixed Huffman code of RFC 1951, section 3.2.6 *)

(** Length in bits of the codeword of literal/length symbol [s]. *)
Definition fixed_code_length (s : Z) : Z :=
  if s <=? 143 then 8 else if s <=? 255 then 9 else if s <=? 279 then 7 else 8.

(** The codeword of symbol [s], as a number of [fixed_code_length s] bits:
    00110000 and up for 0..143, 110010000 and up for 144..255, 0000000 and
    up for 256..279, 11000000 and up for 280..287. *)
Definition fixed_code (s : Z) : Z :=
  if s <=? 143 then 48 + s
  else if s <=? 255 then 400 + (s - 144)
  else if s <=? 279 then s - 256
  else 192 + (s - 280).

(** The [len] bits of the stream from position [pos] on spell [code], most
    significant bit first. *)
Definition stream_spells (cb : Z -> Z) (pos len code : Z) : Prop :=
  forall i, 0 <= i < len -> stream_bit cb (pos + i) = Z.testbit code (len - 1 - i).

(** A raw deflate stream: one final stored block holding "stored!". *)
Definition sample_stored_stream : list Z :=
  [1; 7; 0; 248; 255; 115; 116; 111; 114; 101; 100; 33].

(** ** Notions for termination *)

(** The input has [N] bytes: the callback flags every offset from [N] on. *)
Definition input_ends_at (cb : Z -> Z) (N : Z) : Prop :=
  forall o, N <= o -> Z.land (cb o) 0x100 <> 0.

(** The bits of an input of [N] bytes the bit reader has not delivered
    yet. *)
Definition bits_left (N : Z) (st : lowzip_state) : Z :=
  8 * Z.max 0 (N - read_offset st) + have st.

Definition reader_ok (N : Z) (st : lowzip_state) : Prop :=
  input_ends_at (read_callback st) N /\ 0 <= have st /\ 0 <= read_offset st.

(** A step that, unless it ends with the error flag raised, has delivered
    at least [n] bits. *)
Definition consumes (N n : Z) (st st' : lowzip_state) : Prop :=
  reader_ok N st' /\
  (have_error st <> 0 -> have_error st' <> 0) /\
  (have_error st' = 0 -> bits_left N st' + n <= bits_left N st).

(** A step that leaves the bit reader alone. *)
Definition quiet (st st' : lowzip_state) : Prop :=
  read_callback st' = read_callback st /\
  read_offset st' = read_offset st /\
  have st' = have st /\
  (have_error st <> 0 -> have_error st' <> 0).

(** ** Notions for the round trips *)

(** From offset [off] on the input holds the bytes [bytes]. *)
Definition input_holds (cb : Z -> Z) (off : Z) (bytes : list Z) : Prop :=
  forall k, (k < length bytes)%nat ->
    cb (off + Z.of_nat k) = nth k bytes 0 /\ 0 <= nth k bytes 0 < 256.

(** From address [p] on memory holds the bytes [bytes]. *)
Definition memory_holds (m : Z -> Z) (p : Z) (bytes : list Z) : Prop :=
  forall k, (k < length bytes)%nat -> m (p + Z.of_nat k) = nth k bytes 0.

(** A stored deflate block holding [payload]: header byte, LEN, NLEN, data.
    The header byte [hdr] has its three low bits 1, 0, 0 (final block, type
    0); [nlen0] and [nlen1] stand where the complement of LEN goes. *)
Definition stored_block (hdr nlen0 nlen1 : Z) (payload : list Z) : list Z :=
  hdr :: Z.of_nat (length payload) mod 256 :: Z.of_nat (length payload) / 256
      :: nlen0 :: nlen1 :: payload.

(** ** Notions for the directory scan *)

(** What the reads of [lowzip_locate_file] leave alone on its way through
    the directory: everything but the error flag.  (The entry is written at
    the end, by [put_file].) *)
Definition scan_step (st st' : lowzip_state) : Prop :=
  read_callback st' = read_callback st /\
  zip_length st' = zip_length st /\
  output_start st' = output_start st /\
  output_end st' = output_end st /\
  output_next st' = output_next st /\
  memory st' = memory st /\
  central_dir_offset st' = central_dir_offset st /\
  scratch st' = scratch st /\
  read_offset st' = read_offset st /\
  curr st' = curr st /\ have st' = have st /\
  file st' = file st /\
  (have_error st <> 0 -> have_error st' <> 0).


(** The [unsigned int] at byte offset [off] of a byte store. *)
Definition get32 (m : Z -> Z) (off : Z) : Z :=
  m off + 256 * m (off + 1) + 65536 * m (off + 2) + 16777216 * m (off + 3).

(** The byte store [sc] holds the entry [fi] at its start: what a read
    through a [lowzip_file] pointer to it gives for each field, and the
    name as a zero-terminated string. *)
Definition file_in_scratch (sc : Z -> Z) (fi : lowzip_file) : Prop :=
  get32 sc file_have_data_descriptor = have_data_descriptor fi /\
  get32 sc file_compression_method = compression_method fi /\
  get32 sc file_crc32 = crc32 fi /\
  get32 sc file_compressed_size = compressed_size fi /\
  get32 sc file_uncompressed_size = uncompressed_size fi /\
  get32 sc file_data_offset = data_offset fi /\
  (forall j, (j < length (filename fi))%nat ->
     sc (file_filename + Z.of_nat j) = nth j (filename fi) 0) /\
  sc (file_filename + Z.of_nat (length (filename fi))) = 0.

(** The result of a lookup with fuel; the starting state and no entry when
    the fuel runs out. *)
Definition after_locate (r : option (lowzip_state * option lowzip_file))
    (st : lowzip_state) : lowzip_state * option lowzip_file :=
  match r with
  | Some p => p
  | None => (st, None)
  end.

(** Offset of the central directory record that follows the one at [off]:
    46 bytes and the three variable parts whose lengths are the 16-bit
    fields at [off + 28], [off + 30] and [off + 32]. *)
Definition next_entry (cb : Z -> Z) (off : Z) : Z :=
  add32 off
    (add32 LOWZIP_MIN_CDIRFILE_LENGTH
       (add32 (add32 (le_value cb (add32 off 28) 2) (le_value cb (add32 off 30) 2))
              (le_value cb (add32 off 32) 2))).

(** Offset of record number [k] of the directory that starts at [off]. *)
Fixpoint directory_entry (cb : Z -> Z) (off : Z) (k : nat) : Z :=
  match k with
  | O => off
  | S k' => directory_entry cb (next_entry cb off) k'
  end.

(** The entry [fi] holds the fields of the local file header at [lhdr]. *)
Definition local_header_fields (cb : Z -> Z) (lhdr : Z) (fi : lowzip_file)
    : Prop :=
  le_value cb lhdr 4 = 0x04034b50 /\
  have_data_descriptor fi = Z.land (le_value cb (add32 lhdr 6) 2) 8 /\
  compression_method fi = le_value cb (add32 lhdr 8) 2 /\
  crc32 fi = le_value cb (add32 lhdr 14) 4 /\
  compressed_size fi = le_value cb (add32 lhdr 18) 4 /\
  uncompressed_size fi = le_value cb (add32 lhdr 22) 4 /\
  data_offset fi =
    add32 (add32 lhdr LOWZIP_MIN_LOCFILE_LENGTH)
          (add32 (le_value cb (add32 lhdr 26) 2) (le_value cb (add32 lhdr 28) 2)).

(** Every byte [lowzip_locate_file] reads of the directory record at [e]
    and of the local file header it points to is in bounds, and both carry
    their signatures. *)
Definition entry_readable (cb : Z -> Z) (e : Z) : Prop :=
  let lhdr := le_value cb (add32 e 42) 4 in
  let fl := le_value cb (add32 e 28) 2 in
  readable cb e 4 /\ le_value cb e 4 = 0x02014b50 /\
  readable cb (add32 e 28) 2 /\
  readable cb (add32 e 42) 4 /\
  readable cb lhdr 4 /\ le_value cb lhdr 4 = 0x04034b50 /\
  readable cb (add32 lhdr 6) 2 /\ readable cb (add32 lhdr 8) 2 /\
  readable cb (add32 lhdr 14) 4 /\ readable cb (add32 lhdr 18) 4 /\
  readable cb (add32 lhdr 22) 4 /\ readable cb (add32 lhdr 26) 2 /\
  readable cb (add32 lhdr 28) 2 /\
  forall j, 0 <= j < Z.min 255 fl ->
    readable cb (add32 (add32 e LOWZIP_MIN_CDIRFILE_LENGTH) j) 1.

(** The central directory record at [e] carries the name [name]: its name
    length field is the length of [name] and its name bytes, from
    [e + 46] on, are the bytes of [name]. *)
Definition entry_named (cb : Z -> Z) (e : Z) (name : list Z) : Prop :=
  le_value cb (add32 e 28) 2 = Z.of_nat (length name) /\
  forall j, (j < length name)%nat ->
    le_value cb (add32 (add32 e LOWZIP_MIN_CDIRFILE_LENGTH) (Z.of_nat j)) 1
    = nth j name 0.

(** A ZIP archive with the single stored entry "a.txt" whose contents are
    the 10 bytes "hello, zip". *)
Definition sample_stored_archive : list Z :=
  [80; 75; 3; 4; 20; 0; 0; 0; 0; 0; 0; 0; 33; 0; 156; 231; 225; 28; 10; 0; 0;
   0; 10; 0; 0; 0; 5; 0; 0; 0; 97; 46; 116; 120; 116; 104; 101; 108; 108; 111;
   44; 32; 122; 105; 112; 80; 75; 1; 2; 20; 3; 20; 0; 0; 0; 0; 0; 0; 0; 33; 0;
   156; 231; 225; 28; 10; 0; 0; 0; 10; 0; 0; 0; 5; 0; 0; 0; 0; 0; 0; 0; 0; 0;
   0; 0; 128; 1; 0; 0; 0; 0; 97; 46; 116; 120; 116; 80; 75; 5; 6; 0; 0; 0; 0;
   1; 0; 1; 0; 51; 0; 0; 0; 45; 0; 0; 0; 0; 0].

(** ** Notions for the search of the end of central directory record *)

(** What [lowzip_init_archive] accepts at the signed offset [o]: the
    signature of the end of central directory record, and a comment length
    (16 bits at [o + 20]) that makes the record end with the archive. *)
Definition eocd_at (cb : Z -> Z) (zip_len o : Z) : Prop :=
  le_value cb (u32 o) 4 = 0x06054b50 /\
  add32 (u32 (o + LOWZIP_MIN_EOCDIR_LENGTH)) (le_value cb (u32 (o + 20)) 2)
  = zip_len.

(** ** Notions for blocks compressed with the fixed code *)

(** The [n] bits of the stream from position [pos] on hold [x], least
    significant bit first. *)
Definition stream_holds (cb : Z -> Z) (pos n x : Z) : Prop :=
  forall i, 0 <= i < n -> stream_bit cb (pos + i) = Z.testbit x i.

(** What the data of a compressed block is made of: a literal byte, or a
    reference given by its length symbol, the extra bits of the length, its
    distance symbol and the extra bits of the distance. *)
Inductive token : Type :=
| Literal (b : Z)
| Reference (lsym lextra dsym dextra : Z).

Definition reference_length (lsym lextra : Z) : Z :=
  lowzip_len_base (lsym - 257) + 3 + lextra.

Definition reference_distance (dsym dextra : Z) : Z :=
  lowzip_dist_base dsym + dextra.

Definition well_formed (tk : token) : Prop :=
  match tk with
  | Literal b => 0 <= b <= 255
  | Reference lsym lextra dsym dextra =>
      257 <= lsym <= 285 /\
      0 <= lextra < 2 ^ lowzip_len_bits (lsym - 257) /\
      0 <= dsym <= 29 /\
      0 <= dextra < 2 ^ lowzip_dist_bits dsym
  end.

(** Number of bits of a token in a block that uses the fixed code. *)
Definition token_bits (tk : token) : Z :=
  match tk with
  | Literal b => fixed_code_length b
  | Reference lsym lextra dsym dextra =>
      fixed_code_length lsym + lowzip_len_bits (lsym - 257) + 5
      + lowzip_dist_bits dsym
  end.

(** The stream holds the token at [pos]: codewords most significant bit
    first, extra bits least significant bit first, the distance symbol as
    five bits. *)
Definition token_encoded (cb : Z -> Z) (pos : Z) (tk : token) : Prop :=
  match tk with
  | Literal b => stream_spells cb pos (fixed_code_length b) (fixed_code b)
  | Reference lsym lextra dsym dextra =>
      stream_spells cb pos (fixed_code_length lsym) (fixed_code lsym) /\
      stream_holds cb (pos + fixed_code_length lsym)
                   (lowzip_len_bits (lsym - 257)) lextra /\
      stream_spells cb (pos + fixed_code_length lsym
                        + lowzip_len_bits (lsym - 257)) 5 dsym /\
      stream_holds cb (pos + fixed_code_length lsym
                       + lowzip_len_bits (lsym - 257) + 5)
                   (lowzip_dist_bits dsym) dextra
  end.

(** Bits of the data of a block: its tokens and the end-of-block symbol. *)
Fixpoint tokens_bits (tks : list token) : Z :=
  match tks with
  | [] => 7
  | tk :: rest => token_bits tk + tokens_bits rest
  end.

(** The stream holds the tokens from [pos] on, then the end-of-block
    symbol 256 (seven zero bits). *)
Fixpoint tokens_encoded (cb : Z -> Z) (pos : Z) (tks : list token) : Prop :=
  match tks with
  | [] => stream_spells cb pos 7 0
  | tk :: rest =>
      well_formed tk /\ token_encoded cb pos tk /\
      tokens_encoded cb (pos + token_bits tk) rest
  end.

(** Appending [n] bytes, each the one [dist] places before the end. *)
Fixpoint copy_back (n : nat) (out : list Z) (dist : nat) : list Z :=
  match n with
  | O => out
  | S n' => copy_back n' (out ++ [nth (length out - dist) out 0]) dist
  end.

(** What the tokens stand for, after the output [out]. *)
Fixpoint expand (tks : list token) (out : list Z) : list Z :=
  match tks with
  | [] => out
  | Literal b :: rest => expand rest (out ++ [b])
  | Reference lsym lextra dsym dextra :: rest =>
      expand rest
        (copy_back (Z.to_nat (reference_length lsym lextra)) out
                   (Z.to_nat (reference_distance dsym dextra)))
  end.

(** No reference reaches back before the start of the output. *)
Fixpoint references_in_range (tks : list token) (out : list Z) : Prop :=
  match tks with
  | [] => True
  | Literal b :: rest => references_in_range rest (out ++ [b])
  | Reference lsym lextra dsym dextra :: rest =>
      reference_distance dsym dextra <= Z.of_nat (length out) /\
      references_in_range rest
        (copy_back (Z.to_nat (reference_length lsym lextra)) out
                   (Z.to_nat (reference_distance dsym dextra)))
  end.

(** A raw deflate stream: one final block with the fixed code that holds
    "abcabcabcabcx" as four literals, a reference of length 8 at distance
    3, and a literal. *)
Definition sample_fixed_stream : list Z := [75; 76; 74; 78; 132; 161; 10; 0].

Definition sample_fixed_tokens : list token :=
  [Literal 97; Literal 98; Literal 99; Literal 97; Reference 262 0 2 0;
   Literal 120].

(** ** Notions for the read callback of the test program *)

(** The cached chunk agrees with the file: [input_length] is the length of
    the file, and the chunk holds the bytes of the file from
    [input_chunk_start] up to [input_chunk_end]. *)
Definition chunk_valid (rs : read_state) : Prop :=
  input_length rs = Z.of_nat (length (input rs)) /\
  0 <= input_chunk_start rs <= input_chunk_end rs /\
  input_chunk_end rs <= Z.of_nat (length (input rs)) /\
  forall i, input_chunk_start rs <= i < input_chunk_end rs ->
    nth (Z.to_nat (i - input_chunk_start rs)) (input_chunk rs) 0
    = nth (Z.to_nat i) (input rs) 0.

(** ** Notions for Huffman tables *)

(** Every cell of a byte store holds a byte. *)
Definition byte_store (m : Z -> Z) : Prop := forall a, 0 <= m a < 256.

(** Entry [i] of the counts part of the table at byte offset [huff]: the
    number of codewords of [i] bits. *)
Definition table_count (sc : Z -> Z) (huff i : Z) : Z :=
  get16 sc (huff + 2 * i).

(** Entry [k] of the codes part of the table: the symbol of the codeword
    number [k] in the order of lengths. *)
Definition table_symbol (sc : Z -> Z) (huff k : Z) : Z :=
  get16 sc (huff + 32 + 2 * k).

(** Number of codewords of 1 to [k] bits. *)
Fixpoint counts_upto (sc : Z -> Z) (huff : Z) (k : nat) : Z :=
  match k with
  | O => 0
  | S k' => counts_upto sc huff k' + table_count sc huff (Z.of_nat k)
  end.

(** The first codeword of [k + 1] bits, as RFC 1951 section 3.2.2 numbers
    the codewords: twice the end of the codewords of [k] bits. *)
Fixpoint first_code (sc : Z -> Z) (huff : Z) (k : nat) : Z :=
  match k with
  | O => 0
  | S k' => 2 * (first_code sc huff k' + table_count sc huff (Z.of_nat k))
  end.

(** The [n] code lengths held at byte offset [code_lens]. *)
Definition code_lengths (sc : Z -> Z) (code_lens : Z) (n : nat) : list Z :=
  map (fun j => sc (code_lens + Z.of_nat j)) (seq 0 n).

(** How many of the lengths [ls] are [l]. *)
Definition count_of (l : Z) (ls : list Z) : Z :=
  Z.of_nat (length (filter (fun x => x =? l) ls)).

(** The symbols, from [base] on, whose lengths in [ls] are [l], in
    ascending order. *)
Fixpoint symbols_of_length (l : Z) (base : Z) (ls : list Z) : list Z :=
  match ls with
  | [] => []
  | x :: rest =>
      if x =? l then base :: symbols_of_length l (base + 1) rest
      else symbols_of_length l (base + 1) rest
  end.

(** The symbols with lengths [l], [l + 1], ..., [m] lengths in all: by
    length, and by value among those of one length. *)
Fixpoint symbols_by_length (m : nat) (l : Z) (ls : list Z) : list Z :=
  match m with
  | O => []
  | S m' => symbols_of_length l 0 ls ++ symbols_by_length m' (l + 1) ls
  end.

(** The canonical code of RFC 1951 section 3.2.2 for the code lengths
    [ls]: [next_code ls k] is the first codeword of [k + 1] bits, and the
    codeword of symbol [s] is the first one of its length plus the number
    of smaller symbols of the same length. *)
Fixpoint next_code (ls : list Z) (k : nat) : Z :=
  match k with
  | O => 0
  | S k' => 2 * (next_code ls k' + count_of (Z.of_nat k) ls)
  end.

Definition canonical_code (ls : list Z) (s : nat) : Z :=
  next_code ls (Z.to_nat (nth s ls 0) - 1)
  + count_of (nth s ls 0) (firstn s ls).

(** A state whose scratch area holds the four code lengths 1, 2, 3, 3 at
    byte offset 100, and whose input is the byte 3: the bits 1, 1, 0. *)
Definition sample_lengths_state : lowzip_state :=
  set_scratch (initial_state [3] 1000 10)
    (fun a => if a =? 100 then 1 else if a =? 101 then 2
              else if a =? 102 then 3 else if a =? 103 then 3 else 0).

(** The tokens of the deflated entry of [sample_deflate_archive]. *)
Definition sample_deflate_tokens : list token :=
  [Literal 65; Literal 66; Literal 65; Reference 265 0 1 0; Literal 32;
   Literal 104; Literal 101; Literal 108; Literal 108; Literal 111;
   Reference 265 1 4 1].

(** ** Notions for the scratch area *)

(** A step that, on a scratch area of bytes, leaves bytes and writes only
    to the 1020 bytes the area has. *)
Definition scratch_confined (st st' : lowzip_state) : Prop :=
  byte_store (scratch st) ->
  byte_store (scratch st') /\
  forall a, ~ (0 <= a < 1020) -> scratch st' a = scratch st a.

(** A raw deflate stream: one final block with a dynamic code that holds
    the 33 bytes "UUFPPFFPKFFFUKFKFFUPPPKFUFUUFFPUF". *)
Definition sample_dynamic_stream : list Z :=
  [13; 200; 161; 17; 0; 0; 12; 131; 192; 237; 48; 53; 24; 246; 95; 165; 81;
   220; 83; 40; 120; 64; 199; 146; 78; 81; 219; 241].

(** The table at byte offset [huff] is the table of the canonical code
    for the code lengths [ls]. *)
Definition table_of (sc : Z -> Z) (huff : Z) (ls : list Z) : Prop :=
  (forall l, 0 <= l <= 15 -> table_count sc huff l = count_of l ls) /\
  (forall k, (k < length (symbols_by_length 15 1 ls))%nat ->
     table_symbol sc huff (Z.of_nat k) = nth k (symbols_by_length 15 1 ls) 0).

(** The state after the block header (3 bits) and the three counts (5, 5
    and 4 bits: 258 literal/length codes, 9 distance codes, 18 code
    length codes) of [sample_dynamic_stream] have been read. *)
Definition sample_dynamic_header_state : lowzip_state :=
  let st0 := initial_state sample_dynamic_stream 1000 64 in
  let st1 := fst (lowzip_read_bits st0 3) in
  let st2 := fst (lowzip_read_bits st1 5) in
  let st3 := fst (lowzip_read_bits st2 5) in
  fst (lowzip_read_bits st3 4).
(** ** Basic facts *)

Lemma u32_range x : 0 <= u32 x < 2 ^ 32.
Proof. unfold u32. apply Z.mod_pos_bound. lia. Qed.

Lemma u32_small x : 0 <= x < 2 ^ 32 -> u32 x = x.
Proof. intros. unfold u32. apply Z.mod_small. assumption. Qed.

Lemma u32_idem x : u32 (u32 x) = u32 x.
Proof. apply u32_small, u32_range. Qed.

Lemma u32_add_l a b : u32 (u32 a + b) = u32 (a + b).
Proof. unfold u32. rewrite Zplus_mod_idemp_l. reflexivity. Qed.

Lemma u32_add_r a b : u32 (a + u32 b) = u32 (a + b).
Proof. unfold u32. rewrite Zplus_mod_idemp_r. reflexivity. Qed.

Lemma u32_mul_l a b : u32 (u32 a * b) = u32 (a * b).
Proof. unfold u32. rewrite Zmult_mod_idemp_l. reflexivity. Qed.

Lemma u32_mul_add a b c : u32 (u32 a * b + c) = u32 (a * b + c).
Proof.
  unfold u32. rewrite <- Zplus_mod_idemp_l, Zmult_mod_idemp_l, Zplus_mod_idemp_l.
  reflexivity.
Qed.

Lemma pair_eq_inv {A B : Type} (a a' : A) (b b' : B) :
  (a, b) = (a', b') -> a = a' /\ b = b'.
Proof.
  intros H. split; [exact (f_equal fst H)|exact (f_equal snd H)].
Qed.

Lemma upd_same m a v : upd m a v a = v.
Proof. unfold upd. rewrite Z.eqb_refl. reflexivity. Qed.

Lemma upd_other m a v a' : a' <> a -> upd m a v a' = m a'.
Proof. intros H. unfold upd. apply Z.eqb_neq in H. rewrite H. reflexivity. Qed.

Lemma eqb_false_neq x y : negb (x =? y) = false -> x = y.
Proof. intros H. apply negb_false_iff in H. apply Z.eqb_eq. assumption. Qed.

Lemma eqb_true_neq x y : negb (x =? y) = true -> x <> y.
Proof. intros H. apply negb_true_iff in H. apply Z.eqb_neq. assumption. Qed.

Lemma shl32_mul a n : 0 <= n -> shl32 a n = u32 (a * 2 ^ n).
Proof. intros. unfold shl32. rewrite Z.shiftl_mul_pow2 by assumption. reflexivity. Qed.

(** A little-endian read changes nothing but, on failure, the error flag. *)
Lemma read_little_endian_loop_cases st off n res :
  0 <= res < 2 ^ 32 ->
  (readable (read_callback st) off n /\
   read_little_endian_loop st off n res =
     (st, u32 (res * 256 ^ Z.of_nat n + le_value (read_callback st) off n)))
  \/ (~ readable (read_callback st) off n /\
      read_little_endian_loop st off n res = (set_have_error st 1, 0)).
Proof.
  revert res. induction n as [|n IH]; intros res Hres.
  - left. split; [exact I|]. simpl. rewrite Z.mul_1_r, Z.add_0_r.
    rewrite u32_small by assumption. reflexivity.
  - cbn [read_little_endian_loop readable le_value].
    destruct (Z.land (read_callback st (add32 off (Z.of_nat n))) 256 =? 0) eqn:E.
    + apply Z.eqb_eq in E. cbn [negb].
      destruct (IH (add32 (shl32 res 8) (read_callback st (add32 off (Z.of_nat n))))
                  (u32_range _)) as [[Hr Heq]|[Hr Heq]].
      * left. split; [split; assumption|]. rewrite Heq. f_equal.
        set (t := read_callback st (add32 off (Z.of_nat n))).
        set (L := le_value (read_callback st) off n).
        unfold add32. rewrite shl32_mul by lia. rewrite u32_add_l, u32_mul_add.
        replace ((res * 2 ^ 8 + t) * 256 ^ Z.of_nat n + L)
          with (res * 256 ^ Z.of_nat (S n) + (L + t * 256 ^ Z.of_nat n)).
        { reflexivity. }
        rewrite Nat2Z.inj_succ, Z.pow_succ_r by lia. ring.
      * right. split; [tauto|assumption].
    + apply Z.eqb_neq in E. cbn [negb]. right. split; [tauto|reflexivity].
Qed.

Lemma read_little_endian_cases st off n :
  (readable (read_callback st) off n /\
   lowzip_read_little_endian st off n = (st, u32 (le_value (read_callback st) off n)))
  \/ (~ readable (read_callback st) off n /\
      lowzip_read_little_endian st off n = (set_have_error st 1, 0)).
Proof.
  unfold lowzip_read_little_endian.
  destruct (read_little_endian_loop_cases st off n 0) as [[Hr Heq]|[Hr Heq]];
    [lia| |].
  - left. split; [assumption|]. rewrite Heq. reflexivity.
  - right. split; assumption.
Qed.

(** Under the callback contract the value read is the little-endian value
    itself. *)
Lemma le_value_range cb off n :
  callback_contract cb -> readable cb off n ->
  0 <= le_value cb off n < 256 ^ Z.of_nat n.
Proof.
  intros Hcb. induction n as [|n IH]; intros Hr.
  - simpl. lia.
  - cbn [le_value readable] in *. destruct Hr as [H0 Hr].
    specialize (IH Hr). specialize (Hcb _ H0).
    rewrite Nat2Z.inj_succ, Z.pow_succ_r by lia.
    assert (0 < 256 ^ Z.of_nat n) by (apply Z.pow_pos_nonneg; lia).
    nia.
Qed.

Lemma u8_small x : 0 <= x < 256 -> u8 x = x.
Proof. intros H. unfold u8. apply Z.mod_small. change (2 ^ 8) with 256. exact H. Qed.


(** ** Frame properties of the helpers *)

Lemma reads_only_refl st : reads_only st st.
Proof. unfold reads_only. tauto. Qed.

Lemma reads_only_trans st1 st2 st3 :
  reads_only st1 st2 -> reads_only st2 st3 -> reads_only st1 st3.
Proof.
  unfold reads_only. intros H1 H2.
  destruct H1 as (A1 & A2 & A3 & A4 & A5 & A6 & A7 & A8 & A9 & A10).
  destruct H2 as (B1 & B2 & B3 & B4 & B5 & B6 & B7 & B8 & B9 & B10).
  repeat split; try congruence. tauto.
Qed.

Lemma inflate_step_refl st : inflate_step st st.
Proof.
  unfold inflate_step. repeat split; try reflexivity; try lia; tauto.
Qed.

Lemma inflate_step_trans st1 st2 st3 :
  inflate_step st1 st2 -> inflate_step st2 st3 -> inflate_step st1 st3.
Proof.
  unfold inflate_step. intros H1 H2.
  destruct H1 as (A1 & A2 & A3 & A4 & A5 & A6 & A7 & A8 & A9 & A10).
  destruct H2 as (B1 & B2 & B3 & B4 & B5 & B6 & B7 & B8 & B9 & B10).
  repeat match goal with |- _ /\ _ => split end; try congruence; try lia;
    try tauto.
  intros a Ha. rewrite B9 by lia. apply A9. lia.
Qed.

Lemma reads_only_inflate_step st st' : reads_only st st' -> inflate_step st st'.
Proof.
  unfold reads_only, inflate_step.
  intros (A1 & A2 & A3 & A4 & A5 & A6 & A7 & A8 & A9 & A10).
  repeat match goal with |- _ /\ _ => split end; try congruence; lia.
Qed.

Lemma set_have_error_reads_only st : reads_only st (set_have_error st 1).
Proof. unfold reads_only. simpl. repeat split; try reflexivity. intros _. lia. Qed.

Lemma read_little_endian_reads_only st off n st' v :
  lowzip_read_little_endian st off n = (st', v) -> reads_only st st'.
Proof.
  intros H.
  destruct (read_little_endian_cases st off n) as [[_ E]|[_ E]];
    rewrite E in H; inversion H; subst.
  - apply reads_only_refl.
  - apply set_have_error_reads_only.
Qed.

Lemma read_byte_reads_only st st' x :
  lowzip_read_byte st = (st', x) -> reads_only st st'.
Proof.
  unfold lowzip_read_byte.
  destruct (Z.land (read_callback st (read_offset st)) 256 =? 0);
    intros H; inversion H; subst; unfold reads_only; simpl;
    repeat split; try reflexivity; try tauto. intros _. lia.
Qed.

Lemma read_bits_loop_reads_only n : forall st cur hav nbits st' cur' hav',
  read_bits_loop n st cur hav nbits = (st', cur', hav') -> reads_only st st'.
Proof.
  induction n as [|n IH]; intros st cur hav nbits st' cur' hav' H; simpl in H.
  - inversion H; subst. apply reads_only_refl.
  - destruct (hav <? nbits).
    + destruct (lowzip_read_byte st) as [st1 x] eqn:E.
      apply read_byte_reads_only in E. apply IH in H.
      eapply reads_only_trans; eassumption.
    + inversion H; subst. apply reads_only_refl.
Qed.

Lemma read_bits_reads_only st nbits st' v :
  lowzip_read_bits st nbits = (st', v) -> reads_only st st'.
Proof.
  unfold lowzip_read_bits.
  destruct (read_bits_loop (Z.to_nat nbits) st (curr st) (have st) nbits)
    as [[st1 cur] hav] eqn:E.
  apply read_bits_loop_reads_only in E. intros H. inversion H; subst.
  eapply reads_only_trans; [eassumption|].
  unfold reads_only. simpl. tauto.
Qed.

Lemma read_bits_reversed_reads_only st nbits st' v :
  lowzip_read_bits_reversed st nbits = (st', v) -> reads_only st st'.
Proof.
  unfold lowzip_read_bits_reversed.
  destruct (lowzip_read_bits st nbits) as [st1 tmp] eqn:E.
  apply read_bits_reads_only in E. intros H.
  apply pair_eq_inv in H. destruct H as [<- _]. assumption.
Qed.

Lemma decode_huffman_loop_reads_only n : forall i st huff code cs co st' r,
  decode_huffman_loop n i st huff code cs co = (st', r) -> reads_only st st'.
Proof.
  induction n as [|n IH]; intros i st huff code cs co st' r H;
    cbn [decode_huffman_loop] in H.
  - apply pair_eq_inv in H. destruct H as [<- _]. apply reads_only_refl.
  - destruct (lowzip_read_bits st 1) as [st1 b] eqn:E.
    apply read_bits_reads_only in E.
    destruct (sub32 (add32 (shl32 code 1) b) cs <? get16 (scratch st1) (huff + 2 * i)).
    + apply pair_eq_inv in H. destruct H as [<- _]. assumption.
    + apply IH in H. eapply reads_only_trans; eassumption.
Qed.

Lemma decode_huffman_reads_only st huff st' v :
  lowzip_decode_huffman st huff = (st', v) -> reads_only st st'.
Proof.
  unfold lowzip_decode_huffman.
  destruct (decode_huffman_loop 15 1 st huff 0 0 0) as [st1 [idx|]] eqn:E;
    apply decode_huffman_loop_reads_only in E; intros H; inversion H; subst.
  - assumption.
  - eapply reads_only_trans; [eassumption|apply set_have_error_reads_only].
Qed.

Lemma static_literal_length_reads_only st st' v :
  static_literal_length st = (st', v) -> reads_only st st'.
Proof.
  unfold static_literal_length.
  destruct (lowzip_read_bits_reversed st 7) as [st1 t] eqn:E1.
  apply read_bits_reversed_reads_only in E1.
  destruct (t <=? 23); [intros H; inversion H; subst; assumption|].
  destruct (t <=? 95).
  { destruct (lowzip_read_bits st1 1) as [st2 b] eqn:E2.
    apply read_bits_reads_only in E2. intros H; inversion H; subst.
    eapply reads_only_trans; eassumption. }
  destruct (t <=? 99).
  { destruct (lowzip_read_bits st1 1) as [st2 b] eqn:E2.
    apply read_bits_reads_only in E2. intros H; inversion H; subst.
    eapply reads_only_trans; eassumption. }
  destruct (lowzip_read_bits_reversed st1 2) as [st2 b] eqn:E2.
  apply read_bits_reversed_reads_only in E2. intros H; inversion H; subst.
  eapply reads_only_trans; eassumption.
Qed.

Lemma literal_length_reads_only st sh st' v :
  literal_length st sh = (st', v) -> reads_only st st'.
Proof.
  unfold literal_length. destruct sh.
  - apply static_literal_length_reads_only.
  - apply decode_huffman_reads_only.
Qed.

Lemma keeps_output_refl st : keeps_output st st.
Proof. unfold keeps_output. tauto. Qed.

Lemma keeps_output_trans st1 st2 st3 :
  keeps_output st1 st2 -> keeps_output st2 st3 -> keeps_output st1 st3.
Proof.
  unfold keeps_output. intros H1 H2.
  destruct H1 as (A1 & A2 & A3 & A4 & A5 & A6 & A7 & A8 & A9).
  destruct H2 as (B1 & B2 & B3 & B4 & B5 & B6 & B7 & B8 & B9).
  repeat match goal with |- _ /\ _ => split end; try congruence. tauto.
Qed.

Lemma reads_only_keeps_output st st' : reads_only st st' -> keeps_output st st'.
Proof. unfold reads_only, keeps_output. tauto. Qed.

Lemma keeps_output_inflate_step st st' : keeps_output st st' -> inflate_step st st'.
Proof.
  unfold keeps_output, inflate_step.
  intros (A1 & A2 & A3 & A4 & A5 & A6 & A7 & A8 & A9).
  repeat match goal with |- _ /\ _ => split end; try congruence; lia.
Qed.

Lemma inflate_step_output_safe st st' : inflate_step st st' -> output_safe st st'.
Proof. unfold inflate_step, output_safe. tauto. Qed.

Lemma set_scratch_keeps_output st sc : keeps_output st (set_scratch st sc).
Proof. unfold keeps_output. simpl. tauto. Qed.

Lemma set_have_error_keeps_output st : keeps_output st (set_have_error st 1).
Proof. apply reads_only_keeps_output, set_have_error_reads_only. Qed.

Lemma write_byte_inflate_step st ch : inflate_step st (lowzip_write_byte st ch).
Proof.
  unfold lowzip_write_byte. destruct (output_end st <=? output_next st) eqn:E.
  - apply reads_only_inflate_step, set_have_error_reads_only.
  - apply Z.leb_gt in E. unfold inflate_step. simpl.
    repeat match goal with |- _ /\ _ => split end; try reflexivity; try lia;
      try tauto.
    intros a Ha. apply upd_other. lia.
Qed.

(** The copy loop of a back reference writes exactly the [n] cells from the
    cursor on and moves the cursor by [n]. *)
Lemma back_reference_copy_frame n : forall st d,
  let st' := back_reference_copy n st d in
  read_callback st' = read_callback st /\
  zip_length st' = zip_length st /\
  output_start st' = output_start st /\
  output_end st' = output_end st /\
  central_dir_offset st' = central_dir_offset st /\
  file st' = file st /\
  have_error st' = have_error st /\
  read_offset st' = read_offset st /\
  curr st' = curr st /\
  have st' = have st /\
  scratch st' = scratch st /\
  output_next st' = output_next st + Z.of_nat n /\
  (forall a, ~ (output_next st <= a < output_next st + Z.of_nat n) ->
             memory st' a = memory st a).
Proof.
  induction n as [|n IH]; intros st d.
  - simpl. repeat match goal with |- _ /\ _ => split end; try reflexivity. lia.
  - cbn [back_reference_copy].
    set (st1 := set_output_next _ _).
    specialize (IH st1 d). cbv zeta in IH |- *.
    destruct IH as (A1 & A2 & A3 & A4 & A5 & A6 & A7 & A8 & A9 & A10 & A11 & A12 & A13).
    subst st1. simpl in *.
    repeat match goal with |- _ /\ _ => split end; try assumption.
    + lia.
    + intros a Ha. rewrite A13 by lia. apply upd_other. lia.
Qed.

Lemma back_reference_copy_inflate_step n st d :
  Z.of_nat n <= output_end st - output_next st ->
  inflate_step st (back_reference_copy n st d).
Proof.
  intros Hn. pose proof (back_reference_copy_frame n st d) as H. cbv zeta in H.
  destruct H as (A1 & A2 & A3 & A4 & A5 & A6 & A7 & A8 & A9 & A10 & A11 & A12 & A13).
  unfold inflate_step.
  repeat match goal with |- _ /\ _ => split end; try assumption; try lia.
  intros a Ha. apply A13. lia.
Qed.

Lemma uncompressed_copy_inflate_step n : forall st,
  inflate_step st (uncompressed_copy n st).
Proof.
  induction n as [|n IH]; intros st; simpl.
  - apply inflate_step_refl.
  - destruct (lowzip_read_byte st) as [st1 x] eqn:E.
    apply read_byte_reads_only, reads_only_inflate_step in E.
    eapply inflate_step_trans; [exact E|].
    eapply inflate_step_trans; [apply write_byte_inflate_step|apply IH].
Qed.

Lemma reset_bitstate_reads_only st : reads_only st (lowzip_reset_bitstate st).
Proof. unfold reads_only, lowzip_reset_bitstate. simpl. tauto. Qed.

Lemma decode_uncompressed_block_inflate_step st :
  inflate_step st (lowzip_decode_uncompressed_block st).
Proof.
  unfold lowzip_decode_uncompressed_block.
  destruct (lowzip_read_byte (lowzip_reset_bitstate st)) as [st1 b0] eqn:E1.
  destruct (lowzip_read_byte st1) as [st2 b1] eqn:E2.
  destruct (lowzip_read_byte st2) as [st3 b2] eqn:E3.
  destruct (lowzip_read_byte st3) as [st4 b3] eqn:E4.
  apply read_byte_reads_only in E1, E2, E3, E4.
  eapply inflate_step_trans; [|apply uncompressed_copy_inflate_step].
  apply reads_only_inflate_step.
  eapply reads_only_trans; [apply reset_bitstate_reads_only|].
  eapply reads_only_trans; [exact E1|].
  eapply reads_only_trans; [exact E2|].
  eapply reads_only_trans; [exact E3|exact E4].
Qed.

(** The value of [lowzip_read_bits] fits in the bits asked for. *)
Lemma read_bits_mask nbits :
  0 <= nbits < 32 -> sub32 (shl32 1 nbits) 1 = Z.ones nbits.
Proof.
  intros H. rewrite shl32_mul by lia. rewrite Z.mul_1_l.
  assert (0 < 2 ^ nbits < 2 ^ 32).
  { split; [apply Z.pow_pos_nonneg; lia|apply Z.pow_lt_mono_r; lia]. }
  rewrite (u32_small (2 ^ nbits)) by lia.
  unfold sub32. rewrite u32_small by lia.
  rewrite Z.ones_equiv. lia.
Qed.

Lemma read_bits_range st nbits st' v :
  0 <= nbits < 32 -> lowzip_read_bits st nbits = (st', v) -> 0 <= v < 2 ^ nbits.
Proof.
  intros Hn. unfold lowzip_read_bits.
  destruct (read_bits_loop (Z.to_nat nbits) st (curr st) (have st) nbits)
    as [[st1 cur] hav].
  intros H. inversion H; subst. rewrite read_bits_mask by assumption.
  rewrite Z.land_ones by lia. apply Z.mod_pos_bound. apply Z.pow_pos_nonneg; lia.
Qed.

Lemma dist_table_range t :
  t <= 29 ->
  1 <= lowzip_dist_base t <= 24577 /\ 0 <= lowzip_dist_bits t <= 13.
Proof.
  intros H. unfold lowzip_dist_base, lowzip_dist_bits, tab.
  assert (Hn : (Z.to_nat t <= 29)%nat) by lia.
  revert Hn. generalize (Z.to_nat t). intros n Hn.
  do 30 (destruct n as [|n]; [simpl; lia|]). lia.
Qed.

Lemma len_table_range t :
  0 <= lowzip_len_base t <= 255 /\ 0 <= lowzip_len_bits t <= 5.
Proof.
  unfold lowzip_len_base, lowzip_len_bits, tab.
  generalize (Z.to_nat t). intros n.
  do 29 (destruct n as [|n]; [simpl; lia|]). destruct n; simpl; lia.
Qed.

(** The state a back reference starts copying from, when it gets that far:
    the reads leave the output alone and both checks have passed. *)
Lemma back_reference_cases st sh t :
  (exists st1, back_reference st sh t = Failed (set_have_error st1 1) /\
               reads_only st st1)
  \/ (exists st1 back_len back_dist,
        back_reference st sh t =
          Continue (back_reference_copy (Z.to_nat back_len) st1 back_dist) /\
        reads_only st st1 /\
        3 <= back_len <= output_end st1 - output_next st1 /\
        1 <= back_dist <= output_next st1 - output_start st1).
Proof.
  unfold back_reference.
  destruct (285 <? t) eqn:Et.
  { left. exists st. split; [reflexivity|apply reads_only_refl]. }
  destruct (lowzip_read_bits st (lowzip_len_bits (sub32 t 257))) as [st1 x1] eqn:E1.
  pose proof (len_table_range (sub32 t 257)) as [Hlb Hlx].
  assert (Hx1 : 0 <= x1 < 2 ^ lowzip_len_bits (sub32 t 257))
    by (eapply read_bits_range; [|exact E1]; lia).
  apply read_bits_reads_only in E1.
  set (dsym := if sh then lowzip_read_bits_reversed st1 5
               else lowzip_decode_huffman st1 LOWZIP_SCRATCH_HUFF_DIST).
  destruct dsym as [st2 d] eqn:E2. subst dsym.
  assert (R2 : reads_only st1 st2).
  { destruct sh; [eapply read_bits_reversed_reads_only|eapply decode_huffman_reads_only];
      exact E2. }
  destruct (29 <? d) eqn:Ed.
  { left. exists st2. split; [reflexivity|eapply reads_only_trans; eassumption]. }
  apply Z.ltb_ge in Ed.
  destruct (lowzip_read_bits st2 (lowzip_dist_bits d)) as [st3 x3] eqn:E3.
  pose proof (dist_table_range d Ed) as [Hdb Hdx].
  assert (Hx3 : 0 <= x3 < 2 ^ lowzip_dist_bits d)
    by (eapply read_bits_range; [|exact E3]; lia).
  apply read_bits_reads_only in E3.
  assert (R3 : reads_only st st3).
  { eapply reads_only_trans; [eassumption|].
    eapply reads_only_trans; eassumption. }
  assert (Hp5 : 2 ^ lowzip_len_bits (sub32 t 257) <= 2 ^ 5)
    by (apply Z.pow_le_mono_r; lia).
  assert (Hp13 : 2 ^ lowzip_dist_bits d <= 2 ^ 13)
    by (apply Z.pow_le_mono_r; lia).
  assert (Hlen : add32 (add32 (lowzip_len_base (sub32 t 257)) 3) x1 =
                 lowzip_len_base (sub32 t 257) + 3 + x1).
  { unfold add32. rewrite u32_add_l. apply u32_small. lia. }
  assert (Hdist : add32 (lowzip_dist_base d) x3 = lowzip_dist_base d + x3).
  { unfold add32. apply u32_small. lia. }
  rewrite Hlen, Hdist.
  destruct (output_next st3 - output_start st3 <? lowzip_dist_base d + x3) eqn:C1.
  { left. exists st3. split; [reflexivity|assumption]. }
  destruct (output_end st3 - output_next st3 <? lowzip_len_base (sub32 t 257) + 3 + x1) eqn:C2.
  { left. exists st3. split; [reflexivity|assumption]. }
  apply Z.ltb_ge in C1, C2.
  right. exists st3, (lowzip_len_base (sub32 t 257) + 3 + x1), (lowzip_dist_base d + x3).
  split; [reflexivity|]. split; [assumption|]. lia.
Qed.

Lemma back_reference_inflate_step st sh t st' :
  back_reference st sh t = Continue st' \/ back_reference st sh t = Failed st' ->
  inflate_step st st'.
Proof.
  intros H.
  destruct (back_reference_cases st sh t)
    as [(st1 & E & R)|(st1 & bl & bd & E & R & Hl & Hd)]; rewrite E in H.
  - destruct H as [H|H]; inversion H; subst.
    apply reads_only_inflate_step.
    eapply reads_only_trans; [eassumption|apply set_have_error_reads_only].
  - destruct H as [H|H]; inversion H; subst.
    eapply inflate_step_trans; [apply reads_only_inflate_step; eassumption|].
    apply back_reference_copy_inflate_step. lia.
Qed.

Lemma decode_huffman_block_data_inflate_step fuel : forall st sh st',
  lowzip_decode_huffman_block_data fuel st sh = Some st' -> inflate_step st st'.
Proof.
  induction fuel as [|fuel IH]; intros st sh st' H; simpl in H; [discriminate|].
  destruct (negb (have_error st =? 0)).
  { inversion H; subst. apply inflate_step_refl. }
  destruct (literal_length st sh) as [st1 t] eqn:E1.
  apply literal_length_reads_only, reads_only_inflate_step in E1.
  eapply inflate_step_trans; [exact E1|].
  destruct (t <? 256).
  { apply IH in H.
    eapply inflate_step_trans; [apply write_byte_inflate_step|exact H]. }
  destruct (t =? 256).
  { inversion H; subst. apply inflate_step_refl. }
  destruct (back_reference st1 sh t) as [st2|st2] eqn:E2.
  - apply IH in H.
    eapply inflate_step_trans; [|exact H].
    eapply back_reference_inflate_step. left. exact E2.
  - inversion H; subst. eapply back_reference_inflate_step. right. exact E2.
Qed.

Lemma prepare_huffman_keeps_output st cl n out :
  keeps_output st (lowzip_prepare_huffman st cl n out).
Proof.
  unfold lowzip_prepare_huffman.
  destruct (prepare_huffman_counts n 0 (memset (scratch st) out 0 32) cl out)
    as [sc1 [|]].
  - destruct (prepare_huffman_codes 15 1 sc1 cl n (out + 32)) as [sc2 oc].
    apply set_scratch_keeps_output.
  - eapply keeps_output_trans;
      [apply set_scratch_keeps_output|apply set_have_error_keeps_output].
Qed.

Lemma read_codelen_code_lens_keeps_output n : forall i st,
  keeps_output st (read_codelen_code_lens n i st).
Proof.
  induction n as [|n IH]; intros i st; simpl.
  - apply keeps_output_refl.
  - destruct (lowzip_read_bits st 3) as [st1 x] eqn:E.
    apply read_bits_reads_only, reads_only_keeps_output in E.
    eapply keeps_output_trans; [exact E|].
    eapply keeps_output_trans; [apply set_scratch_keeps_output|apply IH].
Qed.

Lemma code_length_symbol_reads_only st i t st' r :
  code_length_symbol st i t = (st', r) -> reads_only st st'.
Proof.
  unfold code_length_symbol.
  destruct (t <? 16); [intros H; inversion H; subst; apply reads_only_refl|].
  destruct (t =? 16).
  { destruct (i =? 0); [intros H; inversion H; subst; apply reads_only_refl|].
    destruct (lowzip_read_bits st 2) as [st1 x] eqn:E.
    apply read_bits_reads_only in E. intros H; inversion H; subst. assumption. }
  destruct (t =? 17).
  { destruct (lowzip_read_bits st 3) as [st1 x] eqn:E.
    apply read_bits_reads_only in E. intros H; inversion H; subst. assumption. }
  destruct (negb (t =? 18)); [intros H; inversion H; subst; apply reads_only_refl|].
  destruct (lowzip_read_bits st 7) as [st1 x] eqn:E.
  apply read_bits_reads_only in E. intros H; inversion H; subst. assumption.
Qed.

Lemma decode_code_lengths_keeps_output fuel : forall st i limit st',
  decode_code_lengths fuel st i limit = Some (Continue st') \/
  decode_code_lengths fuel st i limit = Some (Failed st') ->
  keeps_output st st'.
Proof.
  induction fuel as [|fuel IH]; intros st i limit st' H; simpl in H.
  { destruct H; discriminate. }
  destruct (i =? limit).
  { destruct H as [H|H]; inversion H; subst. apply keeps_output_refl. }
  destruct (lowzip_decode_huffman st 0) as [st1 t] eqn:E1.
  apply decode_huffman_reads_only, reads_only_keeps_output in E1.
  eapply keeps_output_trans; [exact E1|].
  destruct (code_length_symbol st1 i t) as [st2 [[rep_code rep_count]|]] eqn:E2;
    apply code_length_symbol_reads_only, reads_only_keeps_output in E2;
    (eapply keeps_output_trans; [exact E2|]).
  - destruct (repeat_code_length (Z.to_nat rep_count) (scratch st2) i limit rep_code)
      as [sc [i'|]].
    + apply IH in H.
      eapply keeps_output_trans; [apply set_scratch_keeps_output|exact H].
    + destruct H as [H|H]; inversion H; subst.
      eapply keeps_output_trans;
        [apply set_scratch_keeps_output|apply set_have_error_keeps_output].
  - destruct H as [H|H]; inversion H; subst. apply set_have_error_keeps_output.
Qed.

Lemma decode_dynamic_huffman_block_inflate_step fuel st st' :
  lowzip_decode_dynamic_huffman_block fuel st = Some st' -> inflate_step st st'.
Proof.
  unfold lowzip_decode_dynamic_huffman_block.
  destruct (lowzip_read_bits st 5) as [st1 x1] eqn:E1.
  destruct (lowzip_read_bits st1 5) as [st2 x2] eqn:E2.
  destruct (lowzip_read_bits st2 4) as [st3 x3] eqn:E3.
  apply read_bits_reads_only, reads_only_keeps_output in E1, E2, E3.
  set (st4 := set_scratch st3 _).
  set (st5 := read_codelen_code_lens _ 0 st4).
  set (st6 := lowzip_prepare_huffman st5 codelen_code_lens 19 0).
  assert (K6 : keeps_output st st6).
  { eapply keeps_output_trans; [exact E1|].
    eapply keeps_output_trans; [exact E2|].
    eapply keeps_output_trans; [exact E3|].
    eapply keeps_output_trans; [apply set_scratch_keeps_output|].
    eapply keeps_output_trans; [apply read_codelen_code_lens_keeps_output|].
    apply prepare_huffman_keeps_output. }
  destruct (negb (have_error st6 =? 0)).
  { intros H; inversion H; subst. apply keeps_output_inflate_step. assumption. }
  destruct (decode_code_lengths fuel st6 0 (add32 (add32 x1 257) (add32 x2 1)))
    as [[st7|st7]|] eqn:E7; [| |discriminate].
  - assert (K7 : keeps_output st st7).
    { eapply keeps_output_trans; [exact K6|].
      eapply decode_code_lengths_keeps_output. left. exact E7. }
    set (st8 := lowzip_prepare_huffman st7 _ _ _).
    assert (K8 : keeps_output st st8).
    { eapply keeps_output_trans; [exact K7|apply prepare_huffman_keeps_output]. }
    destruct (negb (have_error st8 =? 0)).
    { intros H; inversion H; subst. apply keeps_output_inflate_step. assumption. }
    set (st9 := lowzip_prepare_huffman st8 _ _ _).
    assert (K9 : keeps_output st st9).
    { eapply keeps_output_trans; [exact K8|apply prepare_huffman_keeps_output]. }
    destruct (negb (have_error st9 =? 0)).
    { intros H; inversion H; subst. apply keeps_output_inflate_step. assumption. }
    intros H. apply decode_huffman_block_data_inflate_step in H.
    eapply inflate_step_trans; [apply keeps_output_inflate_step; exact K9|exact H].
  - intros H; inversion H; subst. apply keeps_output_inflate_step.
    eapply keeps_output_trans; [exact K6|].
    eapply decode_code_lengths_keeps_output. right. exact E7.
Qed.

Lemma decode_inflate_blocks_inflate_step fuel : forall st st',
  lowzip_decode_inflate_blocks fuel st = Some st' -> inflate_step st st'.
Proof.
  induction fuel as [|fuel IH]; intros st st' H; simpl in H; [discriminate|].
  destruct (negb (have_error st =? 0)).
  { inversion H; subst. apply inflate_step_refl. }
  destruct (lowzip_read_bits st 3) as [st1 hdr] eqn:E1.
  apply read_bits_reads_only, reads_only_inflate_step in E1.
  eapply inflate_step_trans; [exact E1|].
  match type of H with
  | match ?b with _ => _ end = _ => destruct b as [st2|] eqn:E2; [|discriminate]
  end.
  assert (S2 : inflate_step st1 st2).
  { destruct (Z.shiftr hdr 1 =? 0).
    { inversion E2; subst. apply decode_uncompressed_block_inflate_step. }
    destruct (Z.shiftr hdr 1 =? 1).
    { eapply decode_huffman_block_data_inflate_step. exact E2. }
    destruct (Z.shiftr hdr 1 =? 2).
    { eapply decode_dynamic_huffman_block_inflate_step. exact E2. }
    inversion E2; subst.
    apply reads_only_inflate_step, set_have_error_reads_only. }
  destruct (negb (Z.land hdr 1 =? 0)).
  - inversion H; subst. assumption.
  - apply IH in H. eapply inflate_step_trans; eassumption.
Qed.

Lemma inflate_raw_inflate_step fuel st st' :
  lowzip_inflate_raw fuel st = Some st' -> inflate_step st st'.
Proof.
  unfold lowzip_inflate_raw. intros H.
  apply decode_inflate_blocks_inflate_step in H.
  eapply inflate_step_trans; [|exact H].
  apply reads_only_inflate_step, reset_bitstate_reads_only.
Qed.

(** ** The ZIP layer *)

Lemma land_1_odd x : (Z.land x 1 =? 0) = negb (Z.odd x).
Proof.
  change 1 with (Z.ones 1) at 1. rewrite Z.land_ones by lia.
  change (2 ^ 1) with 2. rewrite Zmod_odd. destruct (Z.odd x); reflexivity.
Qed.

Lemma crc32_bits_iter n : forall crc, crc32_bits n crc = Nat.iter n crc32_shift crc.
Proof.
  induction n as [|n IH]; intros crc; [reflexivity|].
  cbn [crc32_bits]. rewrite IH, Nat.iter_succ_r. f_equal.
  unfold crc32_shift. rewrite land_1_odd, negb_involutive.
  destruct (Z.odd crc); [reflexivity|]. rewrite Z.lxor_0_r. reflexivity.
Qed.

Lemma crc32_loop_step n m p crc :
  crc32_loop (S n) m p crc =
  crc32_loop n m (p + 1) (crc32_bits 8 (Z.lxor crc (m p))).
Proof. reflexivity. Qed.

Lemma fold_left_cons {A B : Type} (f : A -> B -> A) a l x :
  fold_left f (a :: l) x = fold_left f l (f x a).
Proof. reflexivity. Qed.

Lemma addresses_step p n : addresses p (S n) = p :: addresses (p + 1) n.
Proof. reflexivity. Qed.

Lemma crc32_loop_fold n : forall m p crc,
  crc32_loop n m p crc = fold_left crc32_byte (map m (addresses p n)) crc.
Proof.
  induction n as [|n IH]; intros m p crc; [reflexivity|].
  rewrite crc32_loop_step, addresses_step, map_cons, fold_left_cons, IH.
  f_equal. unfold crc32_byte. apply crc32_bits_iter.
Qed.

(** The CRC loop of the source computes the CRC-32 of the output bytes. *)
Lemma zip_crc32_output st :
  lowzip_zip_crc32 (memory st) (output_start st) (output_next st) =
  crc32_of_bytes (output_bytes st).
Proof.
  unfold lowzip_zip_crc32, crc32_of_bytes, output_bytes.
  rewrite crc32_loop_fold. reflexivity.
Qed.

Lemma length_addresses p n : length (addresses p n) = n.
Proof. revert p. induction n as [|n IH]; intros p; simpl; [|rewrite IH]; reflexivity. Qed.

Lemma length_output_bytes st :
  length (output_bytes st) = Z.to_nat (output_next st - output_start st).
Proof. unfold output_bytes. rewrite length_map, length_addresses. reflexivity. Qed.

Lemma read4_cases st off st' v :
  lowzip_read4 st off = (st', v) ->
  (st' = st /\ readable (read_callback st) off 4 /\
   v = u32 (le_value (read_callback st) off 4))
  \/ (st' = set_have_error st 1 /\ v = 0).
Proof.
  unfold lowzip_read4. intros H.
  destruct (read_little_endian_cases st off 4) as [[Hr E]|[Hr E]];
    rewrite E in H; inversion H; subst; [left|right]; tauto.
Qed.

Lemma le_value_u32 cb off :
  callback_contract cb -> readable cb off 4 ->
  u32 (le_value cb off 4) = le_value cb off 4.
Proof.
  intros Hcb Hr. apply u32_small.
  pose proof (le_value_range cb off 4 Hcb Hr) as H.
  change (256 ^ Z.of_nat 4) with (2 ^ 32) in H. exact H.
Qed.

(** A read of bytes in bounds changes nothing and gives their value. *)
Lemma read_little_endian_readable st off n :
  callback_contract (read_callback st) -> (n <= 4)%nat ->
  readable (read_callback st) off n ->
  lowzip_read_little_endian st off n = (st, le_value (read_callback st) off n).
Proof.
  intros Hcb Hn Hr.
  destruct (read_little_endian_cases st off n) as [[_ E]|[C _]]; [|contradiction].
  rewrite E. f_equal. apply u32_small.
  pose proof (le_value_range _ off n Hcb Hr) as R.
  assert (256 ^ Z.of_nat n <= 256 ^ 4) by (apply Z.pow_le_mono_r; lia).
  change (256 ^ 4) with (2 ^ 32) in *. lia.
Qed.

(** The final checks either flag an error or change nothing; in the second
    case the length and the CRC are the ones announced. *)
Lemma get_data_validate_cases st hcrc husize hdd :
  callback_contract (read_callback st) ->
  let st' := get_data_validate st hcrc husize hdd in
  (have_error st' <> 0 /\ reads_only st st')
  \/ (st' = st /\ have_error st = 0 /\
      output_next st - output_start st = husize /\
      crc32_of_bytes (output_bytes st) =
        (if hdd =? 0 then hcrc
         else descriptor_crc (read_callback st) (read_offset st))).
Proof.
  intros Hcb. cbv zeta. unfold get_data_validate.
  destruct (have_error st =? 0) eqn:E0; cbn [negb].
  2:{ left. apply Z.eqb_neq in E0. split; [assumption|apply reads_only_refl]. }
  apply Z.eqb_eq in E0.
  destruct (output_next st - output_start st =? husize) eqn:E1; cbn [negb].
  2:{ left. split; [simpl; lia|apply set_have_error_reads_only]. }
  apply Z.eqb_eq in E1. rewrite zip_crc32_output.
  destruct (hdd =? 0) eqn:Ed; cbn [negb].
  { destruct (crc32_of_bytes (output_bytes st) =? hcrc) eqn:Ec; cbn [negb].
    - right. apply Z.eqb_eq in Ec. tauto.
    - left. split; [simpl; lia|apply set_have_error_reads_only]. }
  unfold descriptor_crc.
  destruct (lowzip_read4 st (read_offset st)) as [st1 magic] eqn:R1.
  apply read4_cases in R1. destruct R1 as [(-> & Hr1 & ->)|(-> & ->)].
  2:{ change (0 =? 134695760) with false. cbv iota.
      destruct (lowzip_read4 (set_have_error st 1)
                  (read_offset (set_have_error st 1))) as [st2 v] eqn:R2.
      apply read_little_endian_reads_only in R2.
      assert (have_error st2 <> 0).
      { destruct R2 as (_ & _ & _ & _ & _ & _ & _ & _ & _ & Hs).
        apply Hs. simpl. lia. }
      assert (reads_only st st2).
      { eapply reads_only_trans; [apply set_have_error_reads_only|exact R2]. }
      left. destruct (negb (crc32_of_bytes (output_bytes st) =? v)).
      - split; [simpl; lia|].
        eapply reads_only_trans; [eassumption|apply set_have_error_reads_only].
      - split; assumption. }
  rewrite le_value_u32 by assumption.
  match goal with
  | |- context [let '(_, _) := ?r in _] => destruct r as [st2 v] eqn:R2
  end.
  assert (C2 : (st2 = st /\
                v = (if le_value (read_callback st) (read_offset st) 4 =? 134695760
                     then le_value (read_callback st) (add32 (read_offset st) 4) 4
                     else le_value (read_callback st) (read_offset st) 4))
               \/ (st2 = set_have_error st 1)).
  { destruct (le_value (read_callback st) (read_offset st) 4 =? 134695760);
      apply read4_cases in R2; destruct R2 as [(-> & Hr2 & ->)|(-> & ->)];
      try (right; reflexivity); left; split; try reflexivity;
      apply le_value_u32; assumption. }
  destruct C2 as [[-> ->] | ->].
  - match goal with
    | |- context [negb (?a =? ?b)] => destruct (a =? b) eqn:Ec; cbn [negb]
    end.
    + right. apply Z.eqb_eq in Ec. tauto.
    + left. split; [simpl; lia|apply set_have_error_reads_only].
  - left. destruct (negb (crc32_of_bytes (output_bytes st) =? v)).
    + split; [simpl; lia|].
      eapply reads_only_trans; apply set_have_error_reads_only.
    + split; [simpl; lia|apply set_have_error_reads_only].
Qed.

Lemma bytes_callback_contract data :
  all_bytes data = true -> callback_contract (bytes_callback data).
Proof.
  unfold all_bytes, callback_contract, bytes_callback. intros H off.
  rewrite forallb_forall in H.
  destruct ((0 <=? off) && (off <? Z.of_nat (length data))) eqn:E.
  - intros _. apply andb_true_iff in E. destruct E as [E1 E2].
    assert (Hin : In (nth (Z.to_nat off) data 0) data) by (apply nth_In; lia).
    apply H in Hin. lia.
  - intros C. discriminate C.
Qed.

(** The copy loop of a stored entry never touches the bit reader. *)
Lemma store_copy_frame n : forall off st st',
  store_copy n off st = Continue st' \/ store_copy n off st = Failed st' ->
  inflate_step st st' /\ read_offset st' = read_offset st /\
  (store_copy n off st = Failed st' -> have_error st' <> 0).
Proof.
  induction n as [|n IH]; intros off st st' H; simpl in H |- *.
  { destruct H as [H|H]; inversion H; subst.
    split; [apply inflate_step_refl|]. split; [reflexivity|discriminate]. }
  destruct (negb (have_error st =? 0)).
  { destruct H as [H|H]; inversion H; subst.
    split; [apply reads_only_inflate_step, set_have_error_reads_only|].
    split; [reflexivity|]. intros _. simpl. lia. }
  destruct (lowzip_read1 st off) as [st1 t] eqn:E.
  assert (R1 : reads_only st st1) by (eapply read_little_endian_reads_only; exact E).
  assert (O1 : read_offset st1 = read_offset st).
  { unfold lowzip_read1 in E.
    destruct (read_little_endian_cases st off 1) as [[_ E']|[_ E']];
      rewrite E' in E; inversion E; subst; reflexivity. }
  destruct (IH _ _ _ H) as (S & O & F).
  split.
  { eapply inflate_step_trans; [apply reads_only_inflate_step; exact R1|].
    eapply inflate_step_trans; [apply write_byte_inflate_step|exact S]. }
  split; [|exact F].
  rewrite O, <- O1. unfold lowzip_write_byte.
  destruct (output_end st1 <=? output_next st1); reflexivity.
Qed.

(** What [lowzip_get_data] guarantees on any entry. *)
Lemma get_data_cases fuel st st' :
  callback_contract (read_callback st) ->
  lowzip_get_data fuel st = Some st' ->
  output_safe st st' /\ read_callback st' = read_callback st /\
  file st' = file st /\
  (compression_method (file st) = LOWZIP_COMPRESSION_STORE ->
   read_offset st' = read_offset st) /\
  (have_error st' = 0 ->
   output_next st' - output_start st' = uncompressed_size (file st) /\
   crc32_of_bytes (output_bytes st') =
     authoritative_crc (file st) (read_callback st) (read_offset st')).
Proof.
  intros Hcb. unfold lowzip_get_data.
  set (st0 := set_have_error st 0).
  assert (S0 : output_safe st st0 /\ read_callback st0 = read_callback st /\
               file st0 = file st /\ read_offset st0 = read_offset st).
  { unfold output_safe. subst st0. simpl.
    repeat match goal with |- _ /\ _ => split end; try reflexivity; try lia; tauto. }
  change (file st0) with (file st). change (data_offset (file st0)) with (data_offset (file st)).
  intros H.
  match type of H with
  | match ?d with _ => _ end = _ => destruct d as [[st1|st1]|] eqn:D; [| |discriminate]
  end.
  - (* the data was decoded *)
    assert (S1 : inflate_step st0 st1 /\
                 (compression_method (file st) = LOWZIP_COMPRESSION_STORE ->
                  read_offset st1 = read_offset st)).
    { destruct (compression_method (file st) =? LOWZIP_COMPRESSION_STORE) eqn:M.
      - inversion D as [D']. clear D.
        destruct (store_copy_frame _ _ _ _ (or_introl D')) as (S & O & _).
        split; [exact S|]. intros _. exact O.
      - apply Z.eqb_neq in M.
        destruct (compression_method (file st) =? LOWZIP_COMPRESSION_DEFLATE);
          [|discriminate].
        destruct (lowzip_inflate_raw fuel (set_read_offset st0 (data_offset (file st))))
          as [st1'|] eqn:I; [|discriminate].
        inversion D; subst st1'. apply inflate_raw_inflate_step in I.
        split; [|intros C; contradiction]. exact I. }
    destruct S1 as (S1 & O1).
    assert (Hcb1 : callback_contract (read_callback st1)).
    { destruct S1 as (C & _). rewrite C. exact Hcb. }
    pose proof (get_data_validate_cases st1 (crc32 (file st))
                  (uncompressed_size (file st)) (have_data_descriptor (file st))
                  Hcb1) as V.
    cbv zeta in V. injection H as H'. rewrite H' in V.
    destruct S1 as (A1 & A2 & A3 & A4 & A5 & A6 & A7 & A8 & A9 & A10).
    simpl in A1, A2, A3, A4, A5, A6, A7, A8, A9.
    destruct V as [[Ve Vr]|(-> & Ve & Vl & Vc)].
    + destruct Vr as (B1 & B2 & B3 & B4 & B5 & B6 & B7 & B8 & B9 & B10).
      unfold output_safe.
      repeat match goal with |- _ /\ _ => split end; try congruence; try lia.
      * intros a Ha. rewrite B6. apply A9. lia.
      * intros M. rewrite <- (O1 M).
        unfold get_data_validate in H'.
        destruct (negb (have_error st1 =? 0)); [subst; reflexivity|].
        destruct (negb (output_next st1 - output_start st1 =? uncompressed_size (file st)));
          [subst; reflexivity|].
        match type of H' with
        | (let '(_, _) := ?r in _) = _ => destruct r as [st2 v] eqn:R
        end.
        assert (O2 : read_offset st2 = read_offset st1).
        { destruct (negb (have_data_descriptor (file st) =? 0)).
          - destruct (lowzip_read4 st1 (read_offset st1)) as [st1' mg] eqn:R1.
            assert (read_offset st1' = read_offset st1).
            { apply read4_cases in R1.
              destruct R1 as [(-> & _)|(-> & _)]; reflexivity. }
            destruct (mg =? 134695760); apply read4_cases in R;
              destruct R as [(-> & _)|(-> & _)]; assumption.
          - inversion R; subst. reflexivity. }
        destruct (negb (lowzip_zip_crc32 (memory st1) (output_start st1)
                          (output_next st1) =? v)); subst; simpl; assumption.
    + unfold output_safe.
      repeat match goal with |- _ /\ _ => split end; try congruence; try lia.
      * exact A9.
      * intros _. split; [exact Vl|].
        rewrite Vc. unfold authoritative_crc. rewrite A1. reflexivity.
  - (* a failure before the checks *)
    inversion H; subst st'. clear H.
    assert (S1 : inflate_step st0 st1 /\ read_offset st1 = read_offset st /\
                 have_error st1 <> 0).
    { destruct (compression_method (file st) =? LOWZIP_COMPRESSION_STORE) eqn:M.
      - inversion D as [D']. clear D.
        destruct (store_copy_frame _ _ _ _ (or_intror D')) as (S & O & F).
        split; [exact S|]. split; [exact O|]. apply F. exact D'.
      - destruct (compression_method (file st) =? LOWZIP_COMPRESSION_DEFLATE).
        + destruct (lowzip_inflate_raw fuel (set_read_offset st0 (data_offset (file st))));
            discriminate.
        + inversion D; subst.
          split; [apply reads_only_inflate_step, set_have_error_reads_only|].
          split; [reflexivity|]. simpl. lia. }
    destruct S1 as ((A1 & A2 & A3 & A4 & A5 & A6 & A7 & A8 & A9 & A10) & O1 & E1).
    simpl in A1, A2, A3, A4, A5, A6, A7, A8, A9.
    unfold output_safe.
    repeat match goal with |- _ /\ _ => split end; try congruence; try lia.
    exact A9.
Qed.

Lemma set_have_error_twice st e v :
  set_have_error (set_have_error st e) v = set_have_error st v.
Proof. reflexivity. Qed.

(** ** The bit reader *)

Lemma small_bits_high x n j :
  0 <= x < 2 ^ n -> 0 <= n <= j -> Z.testbit x j = false.
Proof.
  intros Hx Hj. rewrite <- (Z.mod_small x (2 ^ n)) by assumption.
  apply Z.mod_pow2_bits_high. lia.
Qed.

Lemma stream_bit_byte cb ro d :
  0 <= d < 8 -> stream_bit cb (8 * ro + d) = Z.testbit (cb ro) d.
Proof.
  intros Hd. unfold stream_bit.
  replace (8 * ro + d) with (d + ro * 8) by ring.
  rewrite Z.div_add, Z.mod_add by lia.
  rewrite Z.div_small, Z.mod_small by lia. reflexivity.
Qed.

(** The refill loop keeps the bits it holds in step with the stream, as long
    as the bytes it needs are in bounds. *)
Lemma read_bits_loop_synced n : forall st cur hav nbits st' cur' hav',
  callback_contract (read_callback st) ->
  0 <= nbits <= 24 -> 0 <= hav -> 0 <= read_offset st < 2 ^ 32 ->
  nbits <= hav + 8 * Z.of_nat n ->
  (forall i, 0 <= i ->
     Z.testbit cur i =
     (i <? hav) && stream_bit (read_callback st) (8 * read_offset st - hav + i)) ->
  (forall o, read_offset st <= o -> 8 * (o - read_offset st) + hav < nbits ->
             o < 2 ^ 32 - 1 /\ Z.land (read_callback st o) 0x100 = 0) ->
  read_bits_loop n st cur hav nbits = (st', cur', hav') ->
  read_callback st' = read_callback st /\
  have_error st' = have_error st /\
  output_next st' = output_next st /\ memory st' = memory st /\
  scratch st' = scratch st /\
  0 <= read_offset st' < 2 ^ 32 /\
  8 * read_offset st' - hav' = 8 * read_offset st - hav /\
  nbits <= hav' /\ (hav' = hav \/ hav' < nbits + 8) /\
  (forall i, 0 <= i ->
     Z.testbit cur' i =
     (i <? hav') && stream_bit (read_callback st) (8 * read_offset st - hav + i)).
Proof.
  induction n as [|n IH]; intros st cur hav nbits st' cur' hav' Hcb Hn Hh Hro Hfuel Hbits Hav H;
    cbn [read_bits_loop] in H.
  - apply pair_eq_inv in H. destruct H as [H <-].
    apply pair_eq_inv in H. destruct H as [<- <-].
    repeat match goal with |- _ /\ _ => split end; try reflexivity; try lia.
    exact Hbits.
  - destruct (hav <? nbits) eqn:E.
    2:{ apply Z.ltb_ge in E.
        apply pair_eq_inv in H. destruct H as [H <-].
        apply pair_eq_inv in H. destruct H as [<- <-].
        repeat match goal with |- _ /\ _ => split end; try reflexivity; try lia.
        exact Hbits. }
    apply Z.ltb_lt in E.
    destruct (Hav (read_offset st)) as [Hw Hr]; [lia|lia|].
    unfold lowzip_read_byte in H. rewrite Hr in H.
    change (0 =? 0) with true in H. cbv iota in H.
    pose proof (Hcb _ Hr) as Hx.
    set (x := read_callback st (read_offset st)) in *.
    assert (Ero : add32 (read_offset st) 1 = read_offset st + 1)
      by (unfold add32; apply u32_small; lia).
    assert (Ehav : add32 hav 8 = hav + 8)
      by (unfold add32; apply u32_small; lia).
    assert (Eshl : shl32 x hav = Z.shiftl x hav).
    { unfold shl32. apply u32_small. rewrite Z.shiftl_mul_pow2 by lia.
      assert (0 < 2 ^ hav) by (apply Z.pow_pos_nonneg; lia).
      assert (2 ^ hav <= 2 ^ 24) by (apply Z.pow_le_mono_r; lia).
      split; [nia|]. change (2 ^ 32) with (256 * 2 ^ 24). nia. }
    rewrite Ero, Ehav, Eshl in H.
    apply IH in H; clear IH.
    + cbn [read_callback have_error output_next memory scratch read_offset set_read_offset] in H.
      destruct H as (A1 & A2 & A3 & A4 & A5 & A6 & A7 & A8 & A9 & A10).
      repeat match goal with |- _ /\ _ => split end; try assumption; try lia.
      intros i Hi. rewrite (A10 i Hi). f_equal. f_equal. lia.
    + exact Hcb.
    + exact Hn.
    + lia.
    + cbn [read_offset set_read_offset]. lia.
    + lia.
    + cbn [read_callback read_offset set_read_offset]. intros i Hi.
      rewrite Z.lor_spec, Z.shiftl_spec by assumption. rewrite (Hbits i Hi).
      replace (8 * (read_offset st + 1) - (hav + 8) + i)
        with (8 * read_offset st - hav + i) by ring.
      destruct (i <? hav) eqn:E1.
      * apply Z.ltb_lt in E1. rewrite (Z.testbit_neg_r x (i - hav)) by lia.
        assert (E2 : (i <? hav + 8) = true) by (apply Z.ltb_lt; lia).
        rewrite E2. cbn [andb]. apply orb_false_r.
      * apply Z.ltb_ge in E1. cbn [andb orb].
        destruct (i <? hav + 8) eqn:E2.
        -- apply Z.ltb_lt in E2. cbn [andb].
           replace (8 * read_offset st - hav + i)
             with (8 * read_offset st + (i - hav)) by ring.
           rewrite stream_bit_byte by lia. reflexivity.
        -- apply Z.ltb_ge in E2. cbn [andb].
           apply (small_bits_high x 8); [exact Hx|lia].
    + cbn [read_callback read_offset set_read_offset]. intros o Ho1 Ho2.
      apply Hav; lia.
Qed.

(** What one call of [lowzip_read_bits] does to a bit reader in step with
    the stream. *)
Lemma read_bits_synced st nbits st' v :
  callback_contract (read_callback st) ->
  0 <= nbits <= 24 ->
  bit_reader_synced st ->
  bits_available st nbits ->
  lowzip_read_bits st nbits = (st', v) ->
  (forall i, 0 <= i ->
     Z.testbit v i =
     (i <? nbits) && stream_bit (read_callback st) (stream_position st + i)) /\
  bit_reader_synced st' /\
  stream_position st' = stream_position st + nbits /\
  read_callback st' = read_callback st /\
  have_error st' = have_error st /\
  output_next st' = output_next st /\ memory st' = memory st /\
  scratch st' = scratch st.
Proof.
  intros Hcb Hn (Hh & Hro & Hbits) Hav. unfold lowzip_read_bits.
  destruct (read_bits_loop (Z.to_nat nbits) st (curr st) (have st) nbits)
    as [[st1 cur] hav] eqn:E.
  apply read_bits_loop_synced in E; try assumption; try lia.
  destruct E as (A1 & A2 & A3 & A4 & A5 & A6 & A7 & A8 & A9 & A10).
  intros H. apply pair_eq_inv in H. destruct H as [<- <-].
  rewrite read_bits_mask by lia.
  assert (Esub : sub32 hav nbits = hav - nbits)
    by (unfold sub32; apply u32_small; lia).
  unfold bit_reader_synced, stream_position.
  cbn [read_callback have_error output_next memory scratch read_offset have curr
       set_curr set_have].
  rewrite Esub.
  repeat match goal with |- _ /\ _ => split end; try assumption; try lia.
  - intros i Hi. rewrite Z.land_spec, Z.testbit_ones_nonneg by lia.
    rewrite (A10 i Hi). unfold stream_position.
    destruct (i <? nbits) eqn:E1.
    + apply Z.ltb_lt in E1.
      assert (E2 : (i <? hav) = true) by (apply Z.ltb_lt; lia).
      rewrite E2. cbn [andb]. apply andb_true_r.
    + apply andb_false_r.
  - intros i Hi. rewrite Z.shiftr_spec by assumption.
    rewrite (A10 (i + nbits)) by lia. rewrite A1.
    replace (8 * read_offset st1 - (hav - nbits) + i)
      with (8 * read_offset st - have st + (i + nbits)) by lia.
    f_equal. destruct (i <? hav - nbits) eqn:E1.
    + apply Z.ltb_lt in E1. apply Z.ltb_lt. lia.
    + apply Z.ltb_ge in E1. apply Z.ltb_ge. lia.
Qed.

(** Without the synchronisation: a read with an empty bit count takes the
    bits left in [curr] into its result. *)
Lemma read_bits_stale st nbits st' v :
  have st = 0 -> 1 <= nbits <= 8 ->
  Z.land (read_callback st (read_offset st)) 0x100 = 0 ->
  lowzip_read_bits st nbits = (st', v) ->
  v = Z.land (Z.lor (curr st) (read_callback st (read_offset st))) (Z.ones nbits).
Proof.
  intros Hh Hn Hr. unfold lowzip_read_bits.
  destruct (Z.to_nat nbits) as [|k] eqn:Ek; [lia|].
  cbn [read_bits_loop]. rewrite Hh.
  assert (E1 : (0 <? nbits) = true) by (apply Z.ltb_lt; lia).
  rewrite E1. unfold lowzip_read_byte. rewrite Hr.
  change (0 =? 0) with true. cbv iota.
  assert (E8 : add32 0 8 = 8) by reflexivity. rewrite E8.
  assert (E2 : read_bits_loop k (set_read_offset st (add32 (read_offset st) 1))
                 (Z.lor (curr st) (shl32 (read_callback st (read_offset st)) 0))
                 8 nbits =
               (set_read_offset st (add32 (read_offset st) 1),
                Z.lor (curr st) (shl32 (read_callback st (read_offset st)) 0), 8)).
  { destruct k as [|k]; [reflexivity|]. cbn [read_bits_loop].
    assert (E3 : (8 <? nbits) = false) by (apply Z.ltb_ge; lia).
    rewrite E3. reflexivity. }
  rewrite E2. intros H. apply pair_eq_inv in H. destruct H as [_ <-].
  rewrite read_bits_mask by lia.
  unfold shl32. rewrite Z.shiftl_0_r.
  (* the low [nbits] bits do not see the 32-bit truncation *)
  apply Z.bits_inj'. intros i Hi.
  rewrite !Z.land_spec, !Z.lor_spec, !Z.testbit_ones_nonneg by lia.
  destruct (i <? nbits) eqn:E4; [|rewrite !andb_false_r; reflexivity].
  apply Z.ltb_lt in E4. rewrite !andb_true_r. f_equal.
  unfold u32. apply Z.mod_pow2_bits_low. lia.
Qed.

Lemma reverse_bits_range n x : 0 <= reverse_bits n x < 2 ^ Z.of_nat n.
Proof.
  induction n as [|n IH]; [simpl; lia|].
  cbn [reverse_bits]. rewrite Nat2Z.inj_succ, Z.pow_succ_r by lia.
  destruct (Z.testbit x (Z.of_nat n)); cbn [Z.b2z]; lia.
Qed.

Lemma reverse_bits_spec n x i :
  0 <= i ->
  Z.testbit (reverse_bits n x) i =
  (i <? Z.of_nat n) && Z.testbit x (Z.of_nat n - 1 - i).
Proof.
  revert i. induction n as [|n IH]; intros i Hi.
  - cbn [reverse_bits]. rewrite Z.testbit_0_l.
    destruct (i <? Z.of_nat 0) eqn:E; [apply Z.ltb_lt in E; lia|reflexivity].
  - cbn [reverse_bits]. rewrite Z.add_comm.
    destruct (Z.eq_dec i 0) as [->|Hne].
    + rewrite Z.testbit_0_r.
      replace (Z.of_nat (S n) - 1 - 0) with (Z.of_nat n) by lia.
      destruct (0 <? Z.of_nat (S n)) eqn:E; [reflexivity|].
      apply Z.ltb_ge in E. lia.
    + replace i with (Z.succ (i - 1)) at 1 by lia.
      rewrite Z.testbit_succ_r by lia. rewrite IH by lia.
      replace (Z.of_nat (S n) - 1 - i) with (Z.of_nat n - 1 - (i - 1)) by lia.
      f_equal. destruct (i - 1 <? Z.of_nat n) eqn:E.
      * apply Z.ltb_lt in E. symmetry. apply Z.ltb_lt. lia.
      * apply Z.ltb_ge in E. symmetry. apply Z.ltb_ge. lia.
Qed.

Lemma land_pow2_eqb x k :
  0 <= k -> (Z.land x (2 ^ k) =? 0) = negb (Z.testbit x k).
Proof.
  intros Hk.
  assert (E : Z.land x (2 ^ k) = if Z.testbit x k then 2 ^ k else 0).
  { apply Z.bits_inj'. intros i Hi. rewrite Z.land_spec, Z.pow2_bits_eqb by lia.
    destruct (Z.eqb_spec k i) as [->|Hne].
    - destruct (Z.testbit x i); cbn [andb].
      + rewrite Z.pow2_bits_eqb by lia. symmetry. apply Z.eqb_refl.
      + symmetry. apply Z.testbit_0_l.
    - rewrite andb_false_r. destruct (Z.testbit x k).
      + rewrite Z.pow2_bits_eqb by lia. symmetry. apply Z.eqb_neq. exact Hne.
      + symmetry. apply Z.testbit_0_l. }
  rewrite E. destruct (Z.testbit x k); cbn [negb].
  - apply Z.eqb_neq. assert (0 < 2 ^ k) by (apply Z.pow_pos_nonneg; lia). lia.
  - reflexivity.
Qed.

(** The mask loop of [lowzip_read_bits_reversed] adds the reversed bits,
    scaled by [mask2], to [res]. *)
Lemma read_bits_reversed_loop_spec m : forall fuel tmp res mask2,
  (m < fuel)%nat -> 0 <= res < mask2 -> mask2 * 2 ^ Z.of_nat m <= 2 ^ 31 ->
  read_bits_reversed_loop fuel tmp res (2 ^ Z.of_nat m) mask2 =
  res + mask2 * reverse_bits m tmp.
Proof.
  induction m as [|m IH]; intros fuel tmp res mask2 Hf Hres Hm;
    (destruct fuel as [|fuel]; [lia|]); cbn [read_bits_reversed_loop reverse_bits].
  - change (Z.shiftr (2 ^ Z.of_nat 0) 1 =? 0) with true. cbv iota. lia.
  - assert (E1 : Z.shiftr (2 ^ Z.of_nat (S m)) 1 = 2 ^ Z.of_nat m).
    { rewrite Z.shiftr_div_pow2 by lia. rewrite Nat2Z.inj_succ, Z.pow_succ_r by lia.
      change (2 ^ 1) with 2. rewrite Z.mul_comm. apply Z.div_mul. lia. }
    rewrite E1.
    assert (Hp : 0 < 2 ^ Z.of_nat m) by (apply Z.pow_pos_nonneg; lia).
    assert (E2 : (2 ^ Z.of_nat m =? 0) = false) by (apply Z.eqb_neq; lia).
    rewrite E2. rewrite land_pow2_eqb by lia. rewrite negb_involutive.
    rewrite Nat2Z.inj_succ, Z.pow_succ_r in Hm by lia.
    assert (E3 : shl32 mask2 1 = 2 * mask2).
    { rewrite shl32_mul by lia. change (2 ^ 1) with 2.
      rewrite Z.mul_comm. apply u32_small. nia. }
    rewrite E3.
    destruct (Z.testbit tmp (Z.of_nat m)); cbn [Z.b2z].
    + assert (E4 : add32 res mask2 = res + mask2)
        by (unfold add32; apply u32_small; nia).
      rewrite E4. rewrite IH; [ring|lia|lia|].
      rewrite <- Z.mul_assoc, (Z.mul_comm mask2). rewrite Z.mul_assoc. nia.
    + rewrite IH; [ring|lia|lia|]. nia.
Qed.

Lemma read_bits_reversed_value st nbits st' v :
  0 <= nbits <= 31 ->
  lowzip_read_bits_reversed st nbits = (st', v) ->
  exists tmp, lowzip_read_bits st nbits = (st', tmp) /\
              v = reverse_bits (Z.to_nat nbits) tmp.
Proof.
  intros Hn. unfold lowzip_read_bits_reversed.
  destruct (lowzip_read_bits st nbits) as [st1 tmp] eqn:E.
  intros H. apply pair_eq_inv in H. destruct H as [<- <-].
  exists tmp. split; [reflexivity|].
  rewrite shl32_mul by lia. rewrite Z.mul_1_l.
  assert (2 ^ nbits <= 2 ^ 31) by (apply Z.pow_le_mono_r; lia).
  assert (0 < 2 ^ nbits) by (apply Z.pow_pos_nonneg; lia).
  rewrite u32_small by lia.
  remember (Z.to_nat nbits) as m eqn:Em.
  assert (Enb : nbits = Z.of_nat m) by lia.
  rewrite Enb in *.
  rewrite (read_bits_reversed_loop_spec m 32 tmp 0 1); lia.
Qed.

Lemma read_bits_reversed_range st nbits st' v :
  0 <= nbits <= 31 ->
  lowzip_read_bits_reversed st nbits = (st', v) -> 0 <= v < 2 ^ nbits.
Proof.
  intros Hn H. apply read_bits_reversed_value in H; [|exact Hn].
  destruct H as (tmp & _ & ->).
  pose proof (reverse_bits_range (Z.to_nat nbits) tmp) as R.
  rewrite Z2Nat.id in R by lia. exact R.
Qed.

Lemma initial_state_synced data out cap :
  bit_reader_synced (initial_state data out cap).
Proof.
  unfold bit_reader_synced, initial_state. cbn [have read_offset curr].
  split; [lia|]. split; [lia|]. intros i Hi. rewrite Z.testbit_0_l.
  destruct (i <? 0) eqn:E; [apply Z.ltb_lt in E; lia|reflexivity].
Qed.

(** [lowzip_read_bits_reversed] on a bit reader in step with the stream. *)
Lemma read_bits_reversed_synced st nbits st' v :
  callback_contract (read_callback st) ->
  0 <= nbits <= 24 ->
  bit_reader_synced st ->
  bits_available st nbits ->
  lowzip_read_bits_reversed st nbits = (st', v) ->
  (forall i, 0 <= i ->
     Z.testbit v i =
     (i <? nbits) &&
     stream_bit (read_callback st) (stream_position st + (nbits - 1 - i))) /\
  bit_reader_synced st' /\
  stream_position st' = stream_position st + nbits /\
  read_callback st' = read_callback st /\
  have_error st' = have_error st /\
  output_next st' = output_next st /\ memory st' = memory st /\
  scratch st' = scratch st.
Proof.
  intros Hcb Hn Hs Ha H.
  apply read_bits_reversed_value in H; [|lia].
  destruct H as (tmp & H & ->).
  destruct (read_bits_synced st nbits st' tmp Hcb Hn Hs Ha H)
    as (A1 & A2 & A3 & A4 & A5 & A6 & A7 & A8).
  repeat match goal with |- _ /\ _ => split end; try assumption.
  intros i Hi. rewrite reverse_bits_spec by assumption.
  rewrite Z2Nat.id by lia.
  destruct (i <? nbits) eqn:E; [|reflexivity].
  apply Z.ltb_lt in E. cbn [andb]. rewrite A1 by lia.
  assert (E2 : (nbits - 1 - i <? nbits) = true) by (apply Z.ltb_lt; lia).
  rewrite E2. reflexivity.
Qed.

(** The symbols the static literal/length decoder can return. *)
Lemma static_literal_length_range st st' t :
  static_literal_length st = (st', t) -> 0 <= t <= 287.
Proof.
  unfold static_literal_length.
  destruct (lowzip_read_bits_reversed st 7) as [st1 p] eqn:E1.
  apply read_bits_reversed_range in E1; [|lia].
  change (2 ^ 7) with 128 in E1.
  destruct (p <=? 23) eqn:C1.
  { apply Z.leb_le in C1. intros H. apply pair_eq_inv in H. destruct H as [_ <-].
    unfold add32. rewrite u32_small; lia. }
  apply Z.leb_gt in C1.
  assert (S1 : shl32 p 1 = 2 * p).
  { rewrite shl32_mul by lia. change (2 ^ 1) with 2.
    rewrite Z.mul_comm. apply u32_small. lia. }
  assert (S2 : shl32 p 2 = 4 * p).
  { rewrite shl32_mul by lia. change (2 ^ 2) with 4.
    rewrite Z.mul_comm. apply u32_small. lia. }
  destruct (p <=? 95) eqn:C2.
  { apply Z.leb_le in C2.
    destruct (lowzip_read_bits st1 1) as [st2 b] eqn:E2.
    apply read_bits_range in E2; [|lia]. change (2 ^ 1) with 2 in E2.
    intros H. apply pair_eq_inv in H. destruct H as [_ <-].
    rewrite S1. unfold sub32, add32. rewrite (u32_small (2 * p + b)) by lia.
    rewrite u32_small; lia. }
  apply Z.leb_gt in C2.
  destruct (p <=? 99) eqn:C3.
  { apply Z.leb_le in C3.
    destruct (lowzip_read_bits st1 1) as [st2 b] eqn:E2.
    apply read_bits_range in E2; [|lia]. change (2 ^ 1) with 2 in E2.
    intros H. apply pair_eq_inv in H. destruct H as [_ <-].
    rewrite S1. unfold add32. rewrite (u32_small (2 * p + b)) by lia.
    rewrite u32_small; lia. }
  apply Z.leb_gt in C3.
  destruct (lowzip_read_bits_reversed st1 2) as [st2 b] eqn:E2.
  apply read_bits_reversed_range in E2; [|lia]. change (2 ^ 2) with 4 in E2.
  intros H. apply pair_eq_inv in H. destruct H as [_ <-].
  rewrite S2. unfold sub32, add32. rewrite (u32_small (4 * p + b)) by lia.
  rewrite u32_small; lia.
Qed.

Lemma bits_value p c n k :
  0 <= n -> 0 <= k ->
  (forall i, 0 <= i -> Z.testbit p i = (i <? n) && Z.testbit c (i + k)) ->
  p = (c / 2 ^ k) mod 2 ^ n.
Proof.
  intros Hn Hk H. apply Z.bits_inj'. intros i Hi. rewrite (H i Hi).
  destruct (i <? n) eqn:E.
  - apply Z.ltb_lt in E. rewrite Z.mod_pow2_bits_low by lia.
    rewrite Z.div_pow2_bits by lia. reflexivity.
  - apply Z.ltb_ge in E. rewrite Z.mod_pow2_bits_high by lia. reflexivity.
Qed.

Lemma bits_available_weaken st n m :
  bits_available st n -> m <= n -> bits_available st m.
Proof. unfold bits_available. intros H Hm o Ho1 Ho2. apply H; lia. Qed.

(** After [n] bits were delivered, the bytes needed for [k] more are among
    those needed for [n + k] before. *)
Lemma bits_available_after st st' n k :
  bit_reader_synced st -> bit_reader_synced st' ->
  read_callback st' = read_callback st ->
  stream_position st' = stream_position st + n -> 0 <= n ->
  bits_available st (n + k) -> bits_available st' k.
Proof.
  unfold bit_reader_synced, stream_position, bits_available.
  intros (Hh & Hro & _) (Hh' & Hro' & _) Hcb Hpos Hn H o Ho1 Ho2.
  rewrite Hcb. apply H; lia.
Qed.

(** The hand-written static decoder returns the symbol whose fixed codeword
    the stream spells. *)
Lemma static_literal_length_fixed st st' t s :
  callback_contract (read_callback st) ->
  0 <= s <= 287 ->
  bit_reader_synced st ->
  bits_available st (fixed_code_length s) ->
  stream_spells (read_callback st) (stream_position st)
                (fixed_code_length s) (fixed_code s) ->
  static_literal_length st = (st', t) ->
  t = s /\ bit_reader_synced st' /\
  stream_position st' = stream_position st + fixed_code_length s /\
  have_error st' = have_error st /\ read_callback st' = read_callback st.
Proof.
  intros Hcb Hs Hsync Hav Hsp. unfold static_literal_length.
  remember (fixed_code_length s) as len eqn:Elen.
  remember (fixed_code s) as code eqn:Ecode.
  assert (Hlen : 7 <= len <= 9).
  { subst len. unfold fixed_code_length.
    destruct (s <=? 143); [lia|]. destruct (s <=? 255); [lia|].
    destruct (s <=? 279); lia. }
  destruct (lowzip_read_bits_reversed st 7) as [st1 p] eqn:E1.
  apply read_bits_reversed_synced in E1;
    [|exact Hcb|lia|exact Hsync|apply (bits_available_weaken st len); [exact Hav|lia]].
  destruct E1 as (B1 & S1 & P1 & C1 & R1 & _).
  assert (Hp : p = (code / 2 ^ (len - 7)) mod 2 ^ 7).
  { apply bits_value; [lia|lia|]. intros i Hi. rewrite (B1 i Hi).
    destruct (i <? 7) eqn:E; [|reflexivity]. apply Z.ltb_lt in E.
    cbn [andb]. rewrite Hsp by lia. f_equal. lia. }
  assert (Av1 : bits_available st1 (len - 7)).
  { apply (bits_available_after st st1 7); try assumption; [lia|].
    replace (7 + (len - 7)) with len by lia. exact Hav. }
  assert (Hcases : s <= 143 \/ 144 <= s <= 255 \/ 256 <= s <= 279 \/ 280 <= s) by lia.
  unfold fixed_code_length in Elen. unfold fixed_code in Ecode.
  destruct Hcases as [Hc|[Hc|[Hc|Hc]]].
  - (* eight bits, 0..143 *)
    destruct (Z.leb_spec s 143); [|lia]. subst len code.
    change (8 - 7) with 1 in *. change (2 ^ 1) with 2 in Hp. change (2 ^ 7) with 128 in Hp.
    assert (Hpr : 24 <= p <= 95)
      by (clear - Hp Hs Hc; Z.to_euclidean_division_equations; lia).
    destruct (Z.leb_spec p 23); [lia|]. destruct (Z.leb_spec p 95); [|lia].
    destruct (lowzip_read_bits st1 1) as [st2 b] eqn:E2.
    apply read_bits_synced in E2; [|rewrite C1; exact Hcb|lia|exact S1|exact Av1].
    destruct E2 as (B2 & S2 & P2 & C2 & R2 & _).
    assert (Hb : b = ((48 + s) / 2 ^ 0) mod 2 ^ 1).
    { apply bits_value; [lia|lia|]. intros i Hi. rewrite (B2 i Hi).
      destruct (i <? 1) eqn:E; [|reflexivity]. apply Z.ltb_lt in E.
      cbn [andb]. rewrite C1, P1.
      replace (stream_position st + 7 + i) with (stream_position st + 7) by lia.
      rewrite Hsp by lia. f_equal. lia. }
    change (2 ^ 0) with 1 in Hb. change (2 ^ 1) with 2 in Hb. rewrite Z.div_1_r in Hb.
    assert (Hv : p * 2 + b = 48 + s /\ 0 <= b <= 1)
      by (clear - Hp Hb Hs Hc; Z.to_euclidean_division_equations; lia).
    intros Hr. apply pair_eq_inv in Hr. destruct Hr as [<- <-].
    repeat match goal with |- _ /\ _ => split end; try assumption; try congruence; try lia.
    rewrite shl32_mul by lia. change (2 ^ 1) with 2.
    unfold sub32, add32. rewrite u32_add_l.
    rewrite (u32_small (p * 2 + b)) by lia. rewrite u32_small; lia.
  - (* nine bits, 144..255 *)
    destruct (Z.leb_spec s 143); [lia|]. destruct (Z.leb_spec s 255); [|lia].
    subst len code.
    change (9 - 7) with 2 in *. change (2 ^ 2) with 4 in Hp. change (2 ^ 7) with 128 in Hp.
    assert (Hpr : 100 <= p <= 127)
      by (clear - Hp Hs Hc; Z.to_euclidean_division_equations; lia).
    destruct (Z.leb_spec p 23); [lia|]. destruct (Z.leb_spec p 95); [lia|].
    destruct (Z.leb_spec p 99); [lia|].
    destruct (lowzip_read_bits_reversed st1 2) as [st2 b] eqn:E2.
    apply read_bits_reversed_synced in E2; [|rewrite C1; exact Hcb|lia|exact S1|exact Av1].
    destruct E2 as (B2 & S2 & P2 & C2 & R2 & _).
    assert (Hb : b = ((400 + (s - 144)) / 2 ^ 0) mod 2 ^ 2).
    { apply bits_value; [lia|lia|]. intros i Hi. rewrite (B2 i Hi).
      destruct (i <? 2) eqn:E; [|reflexivity]. apply Z.ltb_lt in E.
      cbn [andb]. rewrite C1, P1.
      replace (stream_position st + 7 + (2 - 1 - i))
        with (stream_position st + (8 - i)) by lia.
      rewrite Hsp by lia. f_equal. lia. }
    change (2 ^ 0) with 1 in Hb. change (2 ^ 2) with 4 in Hb. rewrite Z.div_1_r in Hb.
    assert (Hv : p * 4 + b = 256 + s /\ 0 <= b <= 3)
      by (clear - Hp Hb Hs Hc; Z.to_euclidean_division_equations; lia).
    intros Hr. apply pair_eq_inv in Hr. destruct Hr as [<- <-].
    repeat match goal with |- _ /\ _ => split end; try assumption; try congruence; try lia.
    rewrite shl32_mul by lia. change (2 ^ 2) with 4.
    unfold sub32, add32. rewrite u32_add_l.
    rewrite (u32_small (p * 4 + b)) by lia. rewrite u32_small; lia.
  - (* seven bits, 256..279 *)
    destruct (Z.leb_spec s 143); [lia|]. destruct (Z.leb_spec s 255); [lia|].
    destruct (Z.leb_spec s 279); [|lia]. subst len code.
    change (7 - 7) with 0 in *. change (2 ^ 0) with 1 in Hp. change (2 ^ 7) with 128 in Hp.
    rewrite Z.div_1_r in Hp.
    assert (Hpr : p = s - 256)
      by (clear - Hp Hs Hc; Z.to_euclidean_division_equations; lia).
    destruct (Z.leb_spec p 23); [|lia].
    intros Hr. apply pair_eq_inv in Hr. destruct Hr as [<- <-].
    repeat match goal with |- _ /\ _ => split end; try assumption; try lia.
    unfold add32. rewrite u32_small; lia.
  - (* eight bits, 280..287 *)
    destruct (Z.leb_spec s 143); [lia|]. destruct (Z.leb_spec s 255); [lia|].
    destruct (Z.leb_spec s 279); [lia|]. subst len code.
    change (8 - 7) with 1 in *. change (2 ^ 1) with 2 in Hp. change (2 ^ 7) with 128 in Hp.
    assert (Hpr : 96 <= p <= 99)
      by (clear - Hp Hs Hc; Z.to_euclidean_division_equations; lia).
    destruct (Z.leb_spec p 23); [lia|]. destruct (Z.leb_spec p 95); [lia|].
    destruct (Z.leb_spec p 99); [|lia].
    destruct (lowzip_read_bits st1 1) as [st2 b] eqn:E2.
    apply read_bits_synced in E2; [|rewrite C1; exact Hcb|lia|exact S1|exact Av1].
    destruct E2 as (B2 & S2 & P2 & C2 & R2 & _).
    assert (Hb : b = ((192 + (s - 280)) / 2 ^ 0) mod 2 ^ 1).
    { apply bits_value; [lia|lia|]. intros i Hi. rewrite (B2 i Hi).
      destruct (i <? 1) eqn:E; [|reflexivity]. apply Z.ltb_lt in E.
      cbn [andb]. rewrite C1, P1.
      replace (stream_position st + 7 + i) with (stream_position st + 7) by lia.
      rewrite Hsp by lia. f_equal. lia. }
    change (2 ^ 0) with 1 in Hb. change (2 ^ 1) with 2 in Hb. rewrite Z.div_1_r in Hb.
    assert (Hv : p * 2 + b = s - 88 /\ 0 <= b <= 1)
      by (clear - Hp Hb Hs Hc; Z.to_euclidean_division_equations; lia).
    intros Hr. apply pair_eq_inv in Hr. destruct Hr as [<- <-].
    repeat match goal with |- _ /\ _ => split end; try assumption; try congruence; try lia.
    rewrite shl32_mul by lia. change (2 ^ 1) with 2.
    unfold add32. rewrite (u32_small (p * 2)) by lia.
    rewrite (u32_small (p * 2 + b)) by lia. rewrite u32_small; lia.
Qed.

(** ** Fuel: more of it never changes a result *)

Lemma decode_huffman_block_data_fuel_mono fuel : forall fuel' st sh r,
  (fuel <= fuel')%nat ->
  lowzip_decode_huffman_block_data fuel st sh = Some r ->
  lowzip_decode_huffman_block_data fuel' st sh = Some r.
Proof.
  induction fuel as [|fuel IH]; intros fuel' st sh r Hle H;
    cbn [lowzip_decode_huffman_block_data] in H; [discriminate|].
  destruct fuel' as [|fuel']; [lia|]. cbn [lowzip_decode_huffman_block_data].
  destruct (negb (have_error st =? 0)); [exact H|].
  destruct (literal_length st sh) as [st1 t].
  destruct (t <? 256); [apply IH; [lia|exact H]|].
  destruct (t =? 256); [exact H|].
  destruct (back_reference st1 sh t) as [st2|st2]; [|exact H].
  apply IH; [lia|exact H].
Qed.

Lemma decode_code_lengths_fuel_mono fuel : forall fuel' st i limit r,
  (fuel <= fuel')%nat ->
  decode_code_lengths fuel st i limit = Some r ->
  decode_code_lengths fuel' st i limit = Some r.
Proof.
  induction fuel as [|fuel IH]; intros fuel' st i limit r Hle H;
    cbn [decode_code_lengths] in H; [discriminate|].
  destruct fuel' as [|fuel']; [lia|]. cbn [decode_code_lengths].
  destruct (i =? limit); [exact H|].
  destruct (lowzip_decode_huffman st 0) as [st1 t].
  destruct (code_length_symbol st1 i t) as [st2 [[rep_code rep_count]|]]; [|exact H].
  destruct (repeat_code_length (Z.to_nat rep_count) (scratch st2) i limit rep_code)
    as [sc [i'|]]; [|exact H].
  apply IH; [lia|exact H].
Qed.

Lemma decode_dynamic_huffman_block_fuel_mono fuel fuel' st r :
  (fuel <= fuel')%nat ->
  lowzip_decode_dynamic_huffman_block fuel st = Some r ->
  lowzip_decode_dynamic_huffman_block fuel' st = Some r.
Proof.
  intros Hle. unfold lowzip_decode_dynamic_huffman_block.
  destruct (lowzip_read_bits st 5) as [st1 x1].
  destruct (lowzip_read_bits st1 5) as [st2 x2].
  destruct (lowzip_read_bits st2 4) as [st3 x3].
  match goal with
  | |- context [negb (have_error ?s =? 0)] =>
      destruct (negb (have_error s =? 0)); [intros H; exact H|]
  end.
  match goal with
  | |- context [decode_code_lengths fuel ?s ?i ?l] =>
      destruct (decode_code_lengths fuel s i l) as [c|] eqn:E; [|discriminate];
      rewrite (decode_code_lengths_fuel_mono fuel fuel' s i l c Hle E)
  end.
  destruct c as [st7|st7]; [|intros H; exact H].
  match goal with
  | |- context [negb (have_error ?s =? 0)] =>
      destruct (negb (have_error s =? 0)); [intros H; exact H|]
  end.
  match goal with
  | |- context [negb (have_error ?s =? 0)] =>
      destruct (negb (have_error s =? 0)); [intros H; exact H|]
  end.
  apply decode_huffman_block_data_fuel_mono. exact Hle.
Qed.

Lemma decode_inflate_blocks_fuel_mono fuel : forall fuel' st r,
  (fuel <= fuel')%nat ->
  lowzip_decode_inflate_blocks fuel st = Some r ->
  lowzip_decode_inflate_blocks fuel' st = Some r.
Proof.
  induction fuel as [|fuel IH]; intros fuel' st r Hle H;
    cbn [lowzip_decode_inflate_blocks] in H; [discriminate|].
  destruct fuel' as [|fuel']; [lia|]. cbn [lowzip_decode_inflate_blocks].
  destruct (negb (have_error st =? 0)); [exact H|].
  destruct (lowzip_read_bits st 3) as [st1 hdr].
  cbv zeta in H |- *.
  destruct (Z.shiftr hdr 1 =? 0).
  { destruct (negb (Z.land hdr 1 =? 0)); [exact H|]. apply IH; [lia|exact H]. }
  destruct (Z.shiftr hdr 1 =? 1).
  { unfold lowzip_decode_static_huffman_block in *.
    destruct (lowzip_decode_huffman_block_data fuel st1 true) as [st2|] eqn:E;
      [|discriminate].
    rewrite (decode_huffman_block_data_fuel_mono fuel fuel' st1 true st2 ltac:(lia) E).
    destruct (negb (Z.land hdr 1 =? 0)); [exact H|]. apply IH; [lia|exact H]. }
  destruct (Z.shiftr hdr 1 =? 2).
  { destruct (lowzip_decode_dynamic_huffman_block fuel st1) as [st2|] eqn:E;
      [|discriminate].
    rewrite (decode_dynamic_huffman_block_fuel_mono fuel fuel' st1 st2 ltac:(lia) E).
    destruct (negb (Z.land hdr 1 =? 0)); [exact H|]. apply IH; [lia|exact H]. }
  destruct (negb (Z.land hdr 1 =? 0)); [exact H|]. apply IH; [lia|exact H].
Qed.

Lemma inflate_raw_fuel_mono fuel fuel' st r :
  (fuel <= fuel')%nat ->
  lowzip_inflate_raw fuel st = Some r -> lowzip_inflate_raw fuel' st = Some r.
Proof. unfold lowzip_inflate_raw. apply decode_inflate_blocks_fuel_mono. Qed.

(** ** Every step of the inflate engine uses up input *)

Section Consumption.

Variable N : Z.
Hypothesis HN : 0 <= N < 2 ^ 32.

Lemma consumes_refl st : reader_ok N st -> consumes N 0 st st.
Proof. intros H. unfold consumes. split; [exact H|]. split; [tauto|lia]. Qed.

Lemma consumes_trans n m st1 st2 st3 :
  consumes N n st1 st2 -> consumes N m st2 st3 -> consumes N (n + m) st1 st3.
Proof.
  unfold consumes. intros (A1 & A2 & A3) (B1 & B2 & B3).
  split; [exact B1|]. split; [tauto|].
  intros H3. destruct (Z.eq_dec (have_error st2) 0) as [H2|H2].
  - specialize (A3 H2). specialize (B3 H3). lia.
  - exfalso. apply (B2 H2). exact H3.
Qed.

Lemma consumes_weaken n m st st' :
  consumes N n st st' -> m <= n -> consumes N m st st'.
Proof.
  unfold consumes. intros (A1 & A2 & A3) Hm.
  split; [exact A1|]. split; [exact A2|]. intros H. specialize (A3 H). lia.
Qed.

Lemma quiet_consumes st st' : reader_ok N st -> quiet st st' -> consumes N 0 st st'.
Proof.
  unfold consumes, reader_ok, quiet, bits_left.
  intros (A1 & A2 & A3) (B1 & B2 & B3 & B4).
  rewrite B1, B2, B3. repeat split; try assumption. lia.
Qed.

Lemma quiet_refl st : quiet st st.
Proof. unfold quiet. tauto. Qed.

Lemma quiet_trans st1 st2 st3 : quiet st1 st2 -> quiet st2 st3 -> quiet st1 st3.
Proof.
  unfold quiet. intros (A1 & A2 & A3 & A4) (B1 & B2 & B3 & B4).
  repeat split; try congruence. tauto.
Qed.

Lemma set_have_error_quiet st : quiet st (set_have_error st 1).
Proof. unfold quiet. cbn. repeat split. intros _. lia. Qed.

Lemma set_scratch_quiet st sc : quiet st (set_scratch st sc).
Proof. unfold quiet. cbn. tauto. Qed.

Lemma write_byte_quiet st ch : quiet st (lowzip_write_byte st ch).
Proof.
  unfold lowzip_write_byte. destruct (output_end st <=? output_next st).
  - apply set_have_error_quiet.
  - unfold quiet. cbn. tauto.
Qed.

Lemma prepare_huffman_quiet st cl n out :
  quiet st (lowzip_prepare_huffman st cl n out).
Proof.
  unfold lowzip_prepare_huffman.
  destruct (prepare_huffman_counts n 0 (memset (scratch st) out 0 32) cl out)
    as [sc1 [|]].
  - destruct (prepare_huffman_codes 15 1 sc1 cl n (out + 32)) as [sc2 oc].
    apply set_scratch_quiet.
  - eapply quiet_trans; [apply set_scratch_quiet|apply set_have_error_quiet].
Qed.

Lemma back_reference_copy_quiet n st d : quiet st (back_reference_copy n st d).
Proof.
  pose proof (back_reference_copy_frame n st d) as H. cbv zeta in H.
  destruct H as (A1 & A2 & A3 & A4 & A5 & A6 & A7 & A8 & A9 & A10 & A11 & A12 & A13).
  unfold quiet. rewrite A1, A7, A8, A10. tauto.
Qed.

Lemma read_byte_progress st st' x :
  input_ends_at (read_callback st) N -> 0 <= read_offset st ->
  lowzip_read_byte st = (st', x) ->
  read_callback st' = read_callback st /\ 0 <= read_offset st' /\
  have st' = have st /\
  (have_error st <> 0 -> have_error st' <> 0) /\
  (have_error st' = 0 ->
   Z.max 0 (N - read_offset st') + 1 = Z.max 0 (N - read_offset st)).
Proof.
  intros Hend Hro. unfold lowzip_read_byte.
  destruct (Z.land (read_callback st (read_offset st)) 256 =? 0) eqn:E;
    intros H; apply pair_eq_inv in H; destruct H as [<- _].
  - apply Z.eqb_eq in E.
    assert (Hlt : read_offset st < N).
    { destruct (Z_lt_le_dec (read_offset st) N) as [Hl|Hl]; [exact Hl|].
      exfalso. apply (Hend _ Hl). exact E. }
    assert (Ero : add32 (read_offset st) 1 = read_offset st + 1)
      by (unfold add32; apply u32_small; lia).
    cbn. rewrite Ero. repeat split; try lia; try tauto.
  - cbn. repeat split; try assumption; intros; lia.
Qed.

Lemma read_byte_consumes st st' x :
  reader_ok N st -> lowzip_read_byte st = (st', x) -> consumes N 8 st st'.
Proof.
  intros (Hend & Hh & Hro) H.
  destruct (read_byte_progress st st' x Hend Hro H) as (A1 & A2 & A3 & A4 & A5).
  unfold consumes, reader_ok, bits_left. rewrite A1, A3.
  repeat split; try assumption. intros He. specialize (A5 He). lia.
Qed.

Lemma read_bits_loop_consumes n : forall st cur hav nbits st' cur' hav',
  input_ends_at (read_callback st) N -> 0 <= hav -> 0 <= read_offset st ->
  0 <= nbits <= 2 ^ 31 ->
  read_bits_loop n st cur hav nbits = (st', cur', hav') ->
  input_ends_at (read_callback st') N /\ 0 <= read_offset st' /\
  have st' = have st /\
  (have_error st <> 0 -> have_error st' <> 0) /\
  (nbits <= hav + 8 * Z.of_nat n -> nbits <= hav') /\
  (have_error st' = 0 ->
   8 * Z.max 0 (N - read_offset st') + hav' =
   8 * Z.max 0 (N - read_offset st) + hav).
Proof.
  induction n as [|n IH]; intros st cur hav nbits st' cur' hav' Hend Hh Hro Hn H;
    cbn [read_bits_loop] in H.
  - apply pair_eq_inv in H. destruct H as [H <-].
    apply pair_eq_inv in H. destruct H as [<- <-].
    repeat split; try assumption; try tauto; lia.
  - destruct (hav <? nbits) eqn:E.
    2:{ apply Z.ltb_ge in E. apply pair_eq_inv in H. destruct H as [H <-].
        apply pair_eq_inv in H. destruct H as [<- <-].
        repeat split; try assumption; try tauto; lia. }
    apply Z.ltb_lt in E.
    destruct (lowzip_read_byte st) as [st1 x] eqn:E1.
    destruct (read_byte_progress st st1 x Hend Hro E1)
      as (Hcb1 & Hro1 & Hhave1 & Hst1 & Hbl1).
    assert (Ehav : add32 hav 8 = hav + 8)
      by (unfold add32; apply u32_small; lia).
    rewrite Ehav in H. apply IH in H; try assumption; try lia;
      [|rewrite Hcb1; exact Hend].
    destruct H as (A1 & A2 & A3 & A4 & A5 & A6).
    split; [exact A1|]. split; [exact A2|]. split; [congruence|].
    split; [tauto|]. split; [intros; apply A5; lia|].
    intros He. specialize (A6 He).
    assert (He1 : have_error st1 = 0).
    { destruct (Z.eq_dec (have_error st1) 0) as [H0|H0]; [exact H0|].
      exfalso. apply (A4 H0). exact He. }
    specialize (Hbl1 He1). lia.
Qed.

Lemma read_bits_consumes st nbits st' v :
  reader_ok N st -> 0 <= nbits <= 24 ->
  lowzip_read_bits st nbits = (st', v) -> consumes N nbits st st'.
Proof.
  intros (Hend & Hh & Hro) Hn. unfold lowzip_read_bits.
  destruct (read_bits_loop (Z.to_nat nbits) st (curr st) (have st) nbits)
    as [[st1 cur] hav] eqn:E.
  apply read_bits_loop_consumes in E; try assumption; try lia.
  destruct E as (A1 & A2 & A3 & A4 & A5 & A6).
  intros H. apply pair_eq_inv in H. destruct H as [<- _].
  assert (Hhav : nbits <= hav) by (apply A5; lia).
  pose proof (u32_range (hav - nbits)) as Hr.
  assert (Hle : sub32 hav nbits <= hav - nbits).
  { unfold sub32, u32. apply Z.mod_le; lia. }
  unfold consumes, reader_ok, bits_left.
  cbn [read_callback have read_offset have_error set_curr set_have].
  repeat split; try assumption; try (unfold sub32; lia).
  intros He. specialize (A6 He). lia.
Qed.

Lemma read_bits_reversed_consumes st nbits st' v :
  reader_ok N st -> 0 <= nbits <= 24 ->
  lowzip_read_bits_reversed st nbits = (st', v) -> consumes N nbits st st'.
Proof.
  intros Hok Hn. unfold lowzip_read_bits_reversed.
  destruct (lowzip_read_bits st nbits) as [st1 tmp] eqn:E.
  intros H. apply pair_eq_inv in H. destruct H as [<- _].
  eapply read_bits_consumes; eassumption.
Qed.

Lemma decode_huffman_loop_consumes n : forall i st huff code cs co st' r,
  reader_ok N st ->
  decode_huffman_loop n i st huff code cs co = (st', r) ->
  consumes N (if Nat.eqb n 0 then 0 else 1) st st'.
Proof.
  induction n as [|n IH]; intros i st huff code cs co st' r Hok H;
    cbn [decode_huffman_loop] in H.
  - apply pair_eq_inv in H. destruct H as [<- _]. apply consumes_refl. exact Hok.
  - cbn [Nat.eqb].
    destruct (lowzip_read_bits st 1) as [st1 b] eqn:E.
    apply read_bits_consumes in E; [|exact Hok|lia].
    destruct (sub32 (add32 (shl32 code 1) b) cs <? get16 (scratch st1) (huff + 2 * i)).
    + apply pair_eq_inv in H. destruct H as [<- _]. exact E.
    + apply IH in H; [|destruct E as (E1 & _); exact E1].
      apply (consumes_weaken (1 + (if Nat.eqb n 0 then 0 else 1))).
      * eapply consumes_trans; eassumption.
      * destruct (Nat.eqb n 0); lia.
Qed.

Lemma set_have_error_consumes n st st' :
  consumes N n st st' -> consumes N n st (set_have_error st' 1).
Proof.
  unfold consumes, reader_ok, bits_left.
  cbn [read_callback have read_offset have_error set_have_error].
  intros (A1 & A2 & A3). repeat split; try tauto; intros; lia.
Qed.

Lemma decode_huffman_consumes st huff st' v :
  reader_ok N st ->
  lowzip_decode_huffman st huff = (st', v) -> consumes N 1 st st'.
Proof.
  intros Hok. unfold lowzip_decode_huffman.
  destruct (decode_huffman_loop 15 1 st huff 0 0 0) as [st1 [idx|]] eqn:E;
    apply decode_huffman_loop_consumes in E; try exact Hok;
    cbn [Nat.eqb] in E; intros H; apply pair_eq_inv in H; destruct H as [<- _].
  - exact E.
  - apply set_have_error_consumes. exact E.
Qed.

Lemma consumes_ok n st st' : consumes N n st st' -> reader_ok N st'.
Proof. intros (H & _). exact H. Qed.

Lemma static_literal_length_consumes st st' t :
  reader_ok N st -> static_literal_length st = (st', t) -> consumes N 1 st st'.
Proof.
  intros Hok. unfold static_literal_length.
  destruct (lowzip_read_bits_reversed st 7) as [st1 p] eqn:E1.
  apply read_bits_reversed_consumes in E1; [|exact Hok|lia].
  pose proof (consumes_ok _ _ _ E1) as Hok1.
  destruct (p <=? 23).
  { intros H. apply pair_eq_inv in H. destruct H as [<- _].
    apply (consumes_weaken 7); [exact E1|lia]. }
  destruct (p <=? 95).
  { destruct (lowzip_read_bits st1 1) as [st2 b] eqn:E2.
    apply read_bits_consumes in E2; [|exact Hok1|lia].
    intros H. apply pair_eq_inv in H. destruct H as [<- _].
    apply (consumes_weaken (7 + 1)); [eapply consumes_trans; eassumption|lia]. }
  destruct (p <=? 99).
  { destruct (lowzip_read_bits st1 1) as [st2 b] eqn:E2.
    apply read_bits_consumes in E2; [|exact Hok1|lia].
    intros H. apply pair_eq_inv in H. destruct H as [<- _].
    apply (consumes_weaken (7 + 1)); [eapply consumes_trans; eassumption|lia]. }
  destruct (lowzip_read_bits_reversed st1 2) as [st2 b] eqn:E2.
  apply read_bits_reversed_consumes in E2; [|exact Hok1|lia].
  intros H. apply pair_eq_inv in H. destruct H as [<- _].
  apply (consumes_weaken (7 + 2)); [eapply consumes_trans; eassumption|lia].
Qed.

Lemma literal_length_consumes st sh st' t :
  reader_ok N st -> literal_length st sh = (st', t) -> consumes N 1 st st'.
Proof.
  intros Hok. unfold literal_length. destruct sh.
  - apply static_literal_length_consumes. exact Hok.
  - apply decode_huffman_consumes. exact Hok.
Qed.

Lemma quiet_after n st st1 st2 :
  consumes N n st st1 -> quiet st1 st2 -> consumes N n st st2.
Proof.
  intros C Q. replace n with (n + 0) by lia.
  eapply consumes_trans; [exact C|].
  apply quiet_consumes; [eapply consumes_ok; exact C|exact Q].
Qed.

Lemma back_reference_consumes st sh t st' :
  reader_ok N st ->
  back_reference st sh t = Continue st' \/ back_reference st sh t = Failed st' ->
  consumes N 0 st st'.
Proof.
  intros Hok. unfold back_reference.
  destruct (285 <? t).
  { intros [H|H]; [discriminate|]. injection H as <-.
    apply set_have_error_consumes, consumes_refl. exact Hok. }
  destruct (lowzip_read_bits st (lowzip_len_bits (sub32 t 257))) as [st1 x1] eqn:E1.
  pose proof (len_table_range (sub32 t 257)) as [_ Hlx].
  apply read_bits_consumes in E1; [|exact Hok|lia].
  apply (consumes_weaken _ 0) in E1; [|lia].
  pose proof (consumes_ok _ _ _ E1) as Hok1.
  set (dsym := if sh then lowzip_read_bits_reversed st1 5
               else lowzip_decode_huffman st1 LOWZIP_SCRATCH_HUFF_DIST).
  destruct dsym as [st2 d] eqn:E2. subst dsym.
  assert (C2 : consumes N 0 st1 st2).
  { destruct sh.
    - apply read_bits_reversed_consumes in E2; [|exact Hok1|lia].
      apply (consumes_weaken 5); [exact E2|lia].
    - apply decode_huffman_consumes in E2; [|exact Hok1].
      apply (consumes_weaken 1); [exact E2|lia]. }
  assert (C02 : consumes N 0 st st2).
  { replace 0 with (0 + 0) by lia. eapply consumes_trans; eassumption. }
  destruct (29 <? d) eqn:Ed.
  { intros [H|H]; [discriminate|]. injection H as <-.
    apply set_have_error_consumes. exact C02. }
  apply Z.ltb_ge in Ed.
  destruct (lowzip_read_bits st2 (lowzip_dist_bits d)) as [st3 x3] eqn:E3.
  pose proof (dist_table_range d Ed) as [_ Hdx].
  apply read_bits_consumes in E3; [|eapply consumes_ok; exact C02|lia].
  apply (consumes_weaken _ 0) in E3; [|lia].
  assert (C03 : consumes N 0 st st3).
  { replace 0 with (0 + 0) by lia. eapply consumes_trans; eassumption. }
  match goal with
  | |- context [if ?c then _ else _] => destruct c
  end.
  { intros [H|H]; [discriminate|]. injection H as <-.
    apply set_have_error_consumes. exact C03. }
  match goal with
  | |- context [if ?c then _ else _] => destruct c
  end.
  { intros [H|H]; [discriminate|]. injection H as <-.
    apply set_have_error_consumes. exact C03. }
  intros [H|H]; [|discriminate]. injection H as <-.
  eapply quiet_after; [exact C03|apply back_reference_copy_quiet].
Qed.

Lemma bits_left_nonneg st : reader_ok N st -> 0 <= bits_left N st.
Proof. unfold reader_ok, bits_left. intros (_ & H & _). lia. Qed.

Lemma uncompressed_copy_consumes n : forall st,
  reader_ok N st -> consumes N 0 st (uncompressed_copy n st).
Proof.
  induction n as [|n IH]; intros st Hok; cbn [uncompressed_copy].
  - apply consumes_refl. exact Hok.
  - destruct (lowzip_read_byte st) as [st1 x] eqn:E.
    apply read_byte_consumes in E; [|exact Hok].
    apply (consumes_weaken _ 0) in E; [|lia].
    assert (C2 : consumes N 0 st (lowzip_write_byte st1 (u8 x))).
    { eapply quiet_after; [exact E|apply write_byte_quiet]. }
    replace 0 with (0 + 0) by lia.
    eapply consumes_trans; [exact C2|]. apply IH. eapply consumes_ok. exact C2.
Qed.

Lemma decode_uncompressed_block_consumes st :
  reader_ok N st -> consumes N 0 st (lowzip_decode_uncompressed_block st).
Proof.
  intros Hok. unfold lowzip_decode_uncompressed_block.
  assert (C0 : consumes N 0 st (lowzip_reset_bitstate st)).
  { destruct Hok as (A1 & A2 & A3).
    unfold consumes, reader_ok, bits_left, lowzip_reset_bitstate.
    cbn [read_callback have read_offset have_error set_have].
    repeat split; try assumption; try lia; try tauto. }
  destruct (lowzip_read_byte (lowzip_reset_bitstate st)) as [st1 b0] eqn:E1.
  apply read_byte_consumes in E1; [|eapply consumes_ok; exact C0].
  destruct (lowzip_read_byte st1) as [st2 b1] eqn:E2.
  apply read_byte_consumes in E2; [|eapply consumes_ok; exact E1].
  destruct (lowzip_read_byte st2) as [st3 b2] eqn:E3.
  apply read_byte_consumes in E3; [|eapply consumes_ok; exact E2].
  destruct (lowzip_read_byte st3) as [st4 b3] eqn:E4.
  apply read_byte_consumes in E4; [|eapply consumes_ok; exact E3].
  apply (consumes_weaken (0 + 8 + 8 + 8 + 8 + 0)); [|lia].
  eapply consumes_trans; [|apply uncompressed_copy_consumes; eapply consumes_ok; exact E4].
  eapply consumes_trans; [|exact E4].
  eapply consumes_trans; [|exact E3].
  eapply consumes_trans; [|exact E2].
  eapply consumes_trans; [exact C0|exact E1].
Qed.

(** With fuel for the bits that are left, the literal/length/distance loop
    ends. *)
Lemma decode_huffman_block_data_terminates fuel : forall st sh,
  reader_ok N st ->
  (have_error st = 0 -> bits_left N st + 2 <= Z.of_nat fuel) ->
  (1 <= fuel)%nat ->
  exists st', lowzip_decode_huffman_block_data fuel st sh = Some st' /\
              consumes N 0 st st'.
Proof.
  induction fuel as [|fuel IH]; intros st sh Hok Hf H1; [lia|].
  cbn [lowzip_decode_huffman_block_data].
  destruct (have_error st =? 0) eqn:E0; cbn [negb].
  2:{ exists st. split; [reflexivity|apply consumes_refl; exact Hok]. }
  apply Z.eqb_eq in E0. specialize (Hf E0).
  pose proof (bits_left_nonneg st Hok) as Hnn.
  destruct (literal_length st sh) as [st1 t] eqn:E1.
  apply literal_length_consumes in E1; [|exact Hok].
  assert (Hrec : forall st2, consumes N 0 st1 st2 ->
            exists st', lowzip_decode_huffman_block_data fuel st2 sh = Some st' /\
                        consumes N 0 st st').
  { intros st2 C2.
    assert (C02 : consumes N 1 st st2).
    { replace 1 with (1 + 0) by lia. eapply consumes_trans; eassumption. }
    destruct (IH st2 sh) as (st' & Hrun & C').
    - eapply consumes_ok. exact C02.
    - intros He. destruct C02 as (_ & _ & Hb). specialize (Hb He). lia.
    - lia.
    - exists st'. split; [exact Hrun|].
      apply (consumes_weaken (1 + 0)); [eapply consumes_trans; eassumption|lia]. }
  destruct (t <? 256).
  { apply Hrec. apply quiet_consumes; [eapply consumes_ok; exact E1|].
    apply write_byte_quiet. }
  destruct (t =? 256).
  { exists st1. split; [reflexivity|]. apply (consumes_weaken 1); [exact E1|lia]. }
  destruct (back_reference st1 sh t) as [st2|st2] eqn:E2.
  - apply Hrec. eapply back_reference_consumes;
      [eapply consumes_ok; exact E1|left; exact E2].
  - exists st2. split; [reflexivity|].
    apply (consumes_weaken (1 + 0)); [|lia].
    eapply consumes_trans; [exact E1|].
    eapply back_reference_consumes;
      [eapply consumes_ok; exact E1|right; exact E2].
Qed.

Lemma code_length_symbol_consumes st i t st' r :
  reader_ok N st -> code_length_symbol st i t = (st', r) -> consumes N 0 st st'.
Proof.
  intros Hok. unfold code_length_symbol.
  destruct (t <? 16).
  { intros H. apply pair_eq_inv in H. destruct H as [<- _].
    apply consumes_refl. exact Hok. }
  destruct (t =? 16).
  { destruct (i =? 0).
    { intros H. apply pair_eq_inv in H. destruct H as [<- _].
      apply consumes_refl. exact Hok. }
    destruct (lowzip_read_bits st 2) as [st1 x] eqn:E.
    apply read_bits_consumes in E; [|exact Hok|lia].
    intros H. apply pair_eq_inv in H. destruct H as [<- _].
    apply (consumes_weaken 2); [exact E|lia]. }
  destruct (t =? 17).
  { destruct (lowzip_read_bits st 3) as [st1 x] eqn:E.
    apply read_bits_consumes in E; [|exact Hok|lia].
    intros H. apply pair_eq_inv in H. destruct H as [<- _].
    apply (consumes_weaken 3); [exact E|lia]. }
  destruct (negb (t =? 18)).
  { intros H. apply pair_eq_inv in H. destruct H as [<- _].
    apply consumes_refl. exact Hok. }
  destruct (lowzip_read_bits st 7) as [st1 x] eqn:E.
  apply read_bits_consumes in E; [|exact Hok|lia].
  intros H. apply pair_eq_inv in H. destruct H as [<- _].
  apply (consumes_weaken 7); [exact E|lia].
Qed.

Lemma code_length_symbol_count st i t st' rep_code rep_count :
  code_length_symbol st i t = (st', Some (rep_code, rep_count)) ->
  1 <= rep_count.
Proof.
  unfold code_length_symbol.
  destruct (t <? 16).
  { intros H. apply pair_eq_inv in H. destruct H as [_ H]. injection H as _ <-. lia. }
  destruct (t =? 16).
  { destruct (i =? 0).
    { intros H. apply pair_eq_inv in H. destruct H as [_ H]. discriminate H. }
    destruct (lowzip_read_bits st 2) as [st1 x] eqn:E.
    apply read_bits_range in E; [|lia]. change (2 ^ 2) with 4 in E.
    intros H. apply pair_eq_inv in H. destruct H as [_ H]. injection H as _ <-.
    unfold add32. rewrite u32_small; lia. }
  destruct (t =? 17).
  { destruct (lowzip_read_bits st 3) as [st1 x] eqn:E.
    apply read_bits_range in E; [|lia]. change (2 ^ 3) with 8 in E.
    intros H. apply pair_eq_inv in H. destruct H as [_ H]. injection H as _ <-.
    unfold add32. rewrite u32_small; lia. }
  destruct (negb (t =? 18)).
  { intros H. apply pair_eq_inv in H. destruct H as [_ H]. discriminate H. }
  destruct (lowzip_read_bits st 7) as [st1 x] eqn:E.
  apply read_bits_range in E; [|lia]. change (2 ^ 7) with 128 in E.
  intros H. apply pair_eq_inv in H. destruct H as [_ H]. injection H as _ <-.
  unfold add32. rewrite u32_small; lia.
Qed.

Lemma repeat_code_length_progress n : forall sc i limit rc sc' i',
  repeat_code_length n sc i limit rc = (sc', Some i') ->
  0 <= i -> limit < 2 ^ 32 ->
  i' = i + Z.of_nat n /\ i' <= Z.max i limit.
Proof.
  induction n as [|n IH]; intros sc i limit rc sc' i' H Hi Hl;
    cbn [repeat_code_length] in H.
  - apply pair_eq_inv in H. destruct H as [_ H]. injection H as <-. lia.
  - destruct (limit <=? i) eqn:E.
    { apply pair_eq_inv in H. destruct H as [_ H]. discriminate H. }
    apply Z.leb_gt in E.
    assert (Ei : add32 i 1 = i + 1) by (unfold add32; apply u32_small; lia).
    rewrite Ei in H. apply IH in H; lia.
Qed.

(** The loop that expands the code lengths ends whatever the input: every
    turn moves [i] towards [limit] or fails. *)
Lemma decode_code_lengths_terminates fuel : forall st i limit,
  reader_ok N st ->
  0 <= i <= limit -> limit < 2 ^ 32 ->
  limit - i + 1 <= Z.of_nat fuel ->
  exists c st', decode_code_lengths fuel st i limit = Some c /\
                (c = Continue st' \/ c = Failed st') /\
                consumes N 0 st st'.
Proof.
  induction fuel as [|fuel IH]; intros st i limit Hok Hi Hl Hf; [lia|].
  cbn [decode_code_lengths].
  destruct (i =? limit).
  { exists (Continue st), st. split; [reflexivity|]. split; [left; reflexivity|].
    apply consumes_refl. exact Hok. }
  destruct (lowzip_decode_huffman st 0) as [st1 t] eqn:E1.
  apply decode_huffman_consumes in E1; [|exact Hok].
  destruct (code_length_symbol st1 i t) as [st2 [[rep_code rep_count]|]] eqn:E2.
  2:{ apply code_length_symbol_consumes in E2; [|eapply consumes_ok; exact E1].
      exists (Failed (set_have_error st2 1)), (set_have_error st2 1).
      split; [reflexivity|]. split; [right; reflexivity|].
      apply set_have_error_consumes.
      apply (consumes_weaken (1 + 0)); [eapply consumes_trans; eassumption|lia]. }
  pose proof (code_length_symbol_count _ _ _ _ _ _ E2) as Hcnt.
  apply code_length_symbol_consumes in E2; [|eapply consumes_ok; exact E1].
  assert (C2 : consumes N 0 st st2).
  { apply (consumes_weaken (1 + 0)); [eapply consumes_trans; eassumption|lia]. }
  destruct (repeat_code_length (Z.to_nat rep_count) (scratch st2) i limit rep_code)
    as [sc [i'|]] eqn:E3.
  - apply repeat_code_length_progress in E3; [|lia|lia].
    assert (C3 : consumes N 0 st (set_scratch st2 sc)).
    { eapply quiet_after; [exact C2|apply set_scratch_quiet]. }
    destruct (IH (set_scratch st2 sc) i' limit) as (c & st' & Hrun & Hc & C').
    + eapply consumes_ok. exact C3.
    + lia.
    + exact Hl.
    + lia.
    + exists c, st'. split; [exact Hrun|]. split; [exact Hc|].
      replace 0 with (0 + 0) by lia. eapply consumes_trans; eassumption.
  - exists (Failed (set_have_error (set_scratch st2 sc) 1)),
           (set_have_error (set_scratch st2 sc) 1).
    split; [reflexivity|]. split; [right; reflexivity|].
    apply set_have_error_consumes.
    eapply quiet_after; [exact C2|apply set_scratch_quiet].
Qed.

Lemma read_codelen_code_lens_consumes n : forall i st,
  reader_ok N st -> consumes N 0 st (read_codelen_code_lens n i st).
Proof.
  induction n as [|n IH]; intros i st Hok; cbn [read_codelen_code_lens].
  - apply consumes_refl. exact Hok.
  - destruct (lowzip_read_bits st 3) as [st1 x] eqn:E.
    apply read_bits_consumes in E; [|exact Hok|lia].
    apply (consumes_weaken _ 0) in E; [|lia].
    match goal with
    | |- consumes _ _ _ (read_codelen_code_lens _ _ ?s) =>
        assert (C2 : consumes N 0 st s)
          by (eapply quiet_after; [exact E|apply set_scratch_quiet])
    end.
    replace 0 with (0 + 0) by lia.
    eapply consumes_trans; [exact C2|]. apply IH. eapply consumes_ok. exact C2.
Qed.

Lemma consumes_sticky n st st' :
  consumes N n st st' -> have_error st' = 0 -> have_error st = 0.
Proof.
  intros (_ & Hs & _) He.
  destruct (Z.eq_dec (have_error st) 0) as [H0|H0]; [exact H0|].
  exfalso. apply (Hs H0). exact He.
Qed.

Lemma consumes_bits n st st' :
  consumes N n st st' -> have_error st' = 0 ->
  bits_left N st' + n <= bits_left N st.
Proof. intros (_ & _ & Hb) He. apply Hb. exact He. Qed.

Lemma decode_dynamic_huffman_block_terminates fuel st :
  reader_ok N st ->
  (have_error st = 0 -> bits_left N st + 2 <= Z.of_nat fuel) ->
  (322 <= fuel)%nat ->
  exists st', lowzip_decode_dynamic_huffman_block fuel st = Some st' /\
              consumes N 0 st st'.
Proof.
  intros Hok Hf H322. unfold lowzip_decode_dynamic_huffman_block.
  destruct (lowzip_read_bits st 5) as [st1 x1] eqn:E1.
  assert (R1 : 0 <= x1 < 2 ^ 5) by (eapply read_bits_range; [|exact E1]; lia).
  apply read_bits_consumes in E1; [|exact Hok|lia].
  destruct (lowzip_read_bits st1 5) as [st2 x2] eqn:E2.
  assert (R2 : 0 <= x2 < 2 ^ 5) by (eapply read_bits_range; [|exact E2]; lia).
  apply read_bits_consumes in E2; [|eapply consumes_ok; exact E1|lia].
  destruct (lowzip_read_bits st2 4) as [st3 x3] eqn:E3.
  apply read_bits_consumes in E3; [|eapply consumes_ok; exact E2|lia].
  change (2 ^ 5) with 32 in R1, R2.
  assert (C3 : consumes N 0 st st3).
  { apply (consumes_weaken (5 + 5 + 4)); [|lia].
    eapply consumes_trans; [|exact E3]. eapply consumes_trans; eassumption. }
  set (st4 := set_scratch st3 _).
  set (st5 := read_codelen_code_lens _ 0 st4).
  set (st6 := lowzip_prepare_huffman st5 codelen_code_lens 19 0).
  assert (C4 : consumes N 0 st st4).
  { eapply quiet_after; [exact C3|apply set_scratch_quiet]. }
  assert (C5 : consumes N 0 st st5).
  { replace 0 with (0 + 0) by lia. eapply consumes_trans; [exact C4|].
    apply read_codelen_code_lens_consumes. eapply consumes_ok. exact C4. }
  assert (C6 : consumes N 0 st st6).
  { eapply quiet_after; [exact C5|apply prepare_huffman_quiet]. }
  destruct (negb (have_error st6 =? 0)).
  { exists st6. split; [reflexivity|exact C6]. }
  assert (Elim : add32 (add32 x1 257) (add32 x2 1) = x1 + 257 + (x2 + 1)).
  { unfold add32. rewrite u32_add_l, u32_add_r. apply u32_small. lia. }
  rewrite Elim.
  destruct (decode_code_lengths_terminates fuel st6 0 (x1 + 257 + (x2 + 1)))
    as (c & st7 & Hrun & Hc & C7); [eapply consumes_ok; exact C6|lia|lia|lia|].
  rewrite Hrun.
  assert (C07 : consumes N 0 st st7).
  { replace 0 with (0 + 0) by lia. eapply consumes_trans; eassumption. }
  destruct Hc as [-> | ->].
  2:{ exists st7. split; [reflexivity|exact C07]. }
  set (st8 := lowzip_prepare_huffman st7 _ _ _).
  assert (C8 : consumes N 0 st st8).
  { eapply quiet_after; [exact C07|apply prepare_huffman_quiet]. }
  destruct (negb (have_error st8 =? 0)).
  { exists st8. split; [reflexivity|exact C8]. }
  set (st9 := lowzip_prepare_huffman st8 _ _ _).
  assert (C9 : consumes N 0 st st9).
  { eapply quiet_after; [exact C8|apply prepare_huffman_quiet]. }
  destruct (negb (have_error st9 =? 0)).
  { exists st9. split; [reflexivity|exact C9]. }
  destruct (decode_huffman_block_data_terminates fuel st9 false)
    as (st' & Hrun' & C').
  - eapply consumes_ok. exact C9.
  - intros He. pose proof (consumes_sticky _ _ _ C9 He) as He0.
    pose proof (consumes_bits _ _ _ C9 He) as Hb. specialize (Hf He0). lia.
  - lia.
  - exists st'. split; [exact Hrun'|].
    replace 0 with (0 + 0) by lia. eapply consumes_trans; eassumption.
Qed.

(** With fuel for the bits that are left, and for one expansion of code
    lengths, the block loop ends. *)
Lemma decode_inflate_blocks_terminates fuel : forall st,
  reader_ok N st ->
  (have_error st = 0 -> bits_left N st + 324 <= Z.of_nat fuel) ->
  (1 <= fuel)%nat ->
  exists st', lowzip_decode_inflate_blocks fuel st = Some st' /\
              consumes N 0 st st'.
Proof.
  induction fuel as [|fuel IH]; intros st Hok Hf H1; [lia|].
  cbn [lowzip_decode_inflate_blocks].
  destruct (have_error st =? 0) eqn:E0; cbn [negb].
  2:{ exists st. split; [reflexivity|apply consumes_refl; exact Hok]. }
  apply Z.eqb_eq in E0. specialize (Hf E0).
  pose proof (bits_left_nonneg st Hok) as Hnn.
  destruct (lowzip_read_bits st 3) as [st1 hdr] eqn:E1.
  apply read_bits_consumes in E1; [|exact Hok|lia].
  pose proof (consumes_ok _ _ _ E1) as Hok1.
  cbv zeta.
  assert (Hblock : exists st2,
            (if Z.shiftr hdr 1 =? 0 then Some (lowzip_decode_uncompressed_block st1)
             else if Z.shiftr hdr 1 =? 1 then lowzip_decode_static_huffman_block fuel st1
             else if Z.shiftr hdr 1 =? 2 then lowzip_decode_dynamic_huffman_block fuel st1
             else Some (set_have_error st1 1)) = Some st2 /\
            consumes N 0 st1 st2).
  { assert (Hf1 : have_error st1 = 0 -> bits_left N st1 + 2 <= Z.of_nat fuel).
    { intros He. pose proof (consumes_bits _ _ _ E1 He). lia. }
    destruct (Z.shiftr hdr 1 =? 0).
    { eexists. split; [reflexivity|].
      apply decode_uncompressed_block_consumes. exact Hok1. }
    destruct (Z.shiftr hdr 1 =? 1).
    { apply decode_huffman_block_data_terminates; [exact Hok1|exact Hf1|lia]. }
    destruct (Z.shiftr hdr 1 =? 2).
    { apply decode_dynamic_huffman_block_terminates; [exact Hok1|exact Hf1|lia]. }
    eexists. split; [reflexivity|].
    apply set_have_error_consumes, consumes_refl. exact Hok1. }
  destruct Hblock as (st2 & -> & C2).
  assert (C02 : consumes N 3 st st2).
  { replace 3 with (3 + 0) by lia. eapply consumes_trans; eassumption. }
  destruct (negb (Z.land hdr 1 =? 0)).
  { exists st2. split; [reflexivity|]. apply (consumes_weaken 3); [exact C02|lia]. }
  destruct (IH st2) as (st' & Hrun & C').
  - eapply consumes_ok. exact C02.
  - intros He. pose proof (consumes_bits _ _ _ C02 He). lia.
  - lia.
  - exists st'. split; [exact Hrun|].
    apply (consumes_weaken (3 + 0)); [eapply consumes_trans; eassumption|lia].
Qed.

End Consumption.

(** On an input of [N] bytes the inflate engine returns, with one and the
    same result for every amount of fuel from [8 * N + 324] on. *)
Lemma inflate_raw_terminates N st :
  0 <= N < 2 ^ 32 ->
  input_ends_at (read_callback st) N ->
  0 <= read_offset st ->
  exists st', forall fuel, (Z.to_nat (8 * N) + 324 <= fuel)%nat ->
                           lowzip_inflate_raw fuel st = Some st'.
Proof.
  intros HN Hend Hro.
  destruct (decode_inflate_blocks_terminates N HN (Z.to_nat (8 * N) + 324)
              (lowzip_reset_bitstate st)) as (st' & Hrun & _).
  - unfold reader_ok, lowzip_reset_bitstate. cbn. repeat split; try assumption; lia.
  - intros _. unfold bits_left, lowzip_reset_bitstate.
    cbn [have read_offset set_have]. lia.
  - lia.
  - exists st'. intros fuel Hfuel.
    eapply inflate_raw_fuel_mono; [exact Hfuel|]. exact Hrun.
Qed.

Lemma bytes_callback_ends data :
  input_ends_at (bytes_callback data) (Z.of_nat (length data)).
Proof.
  unfold input_ends_at, bytes_callback. intros o Ho.
  destruct (o <? Z.of_nat (length data)) eqn:E; [apply Z.ltb_lt in E; lia|].
  rewrite andb_false_r. discriminate.
Qed.

Lemma get_data_terminates N st :
  0 <= N < 2 ^ 32 ->
  input_ends_at (read_callback st) N ->
  0 <= data_offset (file st) ->
  exists st', forall fuel, (Z.to_nat (8 * N) + 324 <= fuel)%nat ->
                           lowzip_get_data fuel st = Some st'.
Proof.
  intros HN Hend Hoff. unfold lowzip_get_data. cbv zeta.
  change (file (set_have_error st 0)) with (file st).
  destruct (compression_method (file st) =? LOWZIP_COMPRESSION_STORE).
  { match goal with
    | |- context [store_copy ?n ?o ?s] => destruct (store_copy n o s) as [st1|st1]
    end; eexists; intros fuel _; reflexivity. }
  destruct (compression_method (file st) =? LOWZIP_COMPRESSION_DEFLATE).
  2:{ eexists. intros fuel _. reflexivity. }
  destruct (inflate_raw_terminates N
              (set_read_offset (set_have_error st 0) (data_offset (file st))) HN)
    as (st1 & Hrun); [exact Hend|exact Hoff|].
  eexists. intros fuel Hfuel. rewrite (Hrun fuel Hfuel). reflexivity.
Qed.

(** ** Stored data comes out as it went in *)

Lemma byte_no_flag b : 0 <= b < 256 -> Z.land b 256 = 0.
Proof.
  intros Hb. apply Z.eqb_eq. change 256 with (2 ^ 8).
  rewrite land_pow2_eqb by lia.
  rewrite (small_bits_high b 8 8) by (change (2 ^ 8) with 256; lia).
  reflexivity.
Qed.

Lemma read_byte_in_bounds st b :
  read_callback st (read_offset st) = b -> 0 <= b < 256 ->
  0 <= read_offset st < 2 ^ 32 - 1 ->
  lowzip_read_byte st = (set_read_offset st (read_offset st + 1), b).
Proof.
  intros Hb Hr Hro. unfold lowzip_read_byte. rewrite Hb.
  rewrite (byte_no_flag b Hr). change (0 =? 0) with true. cbv iota.
  unfold add32. rewrite u32_small by lia. reflexivity.
Qed.

Lemma input_holds_tail cb off b bytes :
  input_holds cb off (b :: bytes) ->
  cb off = b /\ 0 <= b < 256 /\ input_holds cb (off + 1) bytes.
Proof.
  intros H. pose proof (H 0%nat ltac:(cbn; lia)) as H0.
  cbn [nth] in H0. rewrite Z.add_0_r in H0.
  split; [tauto|]. split; [tauto|].
  intros k Hk. specialize (H (S k) ltac:(cbn; lia)). cbn [nth] in H.
  replace (off + 1 + Z.of_nat k) with (off + Z.of_nat (S k)) by lia. exact H.
Qed.

(** The copy loop of a stored block moves the bytes of the input to the
    output, one for one, when they are there and there is room. *)
Lemma uncompressed_copy_holds payload : forall st,
  input_holds (read_callback st) (read_offset st) payload ->
  0 <= read_offset st ->
  read_offset st + Z.of_nat (length payload) < 2 ^ 32 ->
  Z.of_nat (length payload) <= output_end st - output_next st ->
  let st' := uncompressed_copy (length payload) st in
  have_error st' = have_error st /\
  read_offset st' = read_offset st + Z.of_nat (length payload) /\
  output_next st' = output_next st + Z.of_nat (length payload) /\
  memory_holds (memory st') (output_next st) payload.
Proof.
  induction payload as [|b payload IH]; intros st Hin Hro Hw Hroom.
  - cbn. repeat split; try lia. intros k Hk. cbn in Hk. lia.
  - cbn [length uncompressed_copy] in *.
    apply input_holds_tail in Hin. destruct Hin as (Hb & Hr & Hin).
    rewrite (read_byte_in_bounds st b Hb Hr) by lia.
    assert (Ew : lowzip_write_byte (set_read_offset st (read_offset st + 1)) (u8 b) =
                 set_output_next
                   (set_memory (set_read_offset st (read_offset st + 1))
                      (upd (memory st) (output_next st) b))
                   (output_next st + 1)).
    { unfold lowzip_write_byte. cbn [output_end output_next set_read_offset memory].
      destruct (output_end st <=? output_next st) eqn:E;
        [apply Z.leb_le in E; lia|].
      unfold u8. rewrite Z.mod_small by (change (2 ^ 8) with 256; lia).
      reflexivity. }
    rewrite Ew. clear Ew.
    match goal with
    | |- context [uncompressed_copy _ ?s] => specialize (IH s)
    end.
    cbn [read_callback read_offset output_end output_next memory have_error
         set_output_next set_memory set_read_offset] in IH.
    destruct IH as (A1 & A2 & A3 & A4); try assumption; try lia.
    cbv zeta. rewrite A1, A2, A3.
    repeat split; try lia.
    intros k Hk. destruct k as [|k].
    + cbn [nth]. rewrite Z.add_0_r.
      (* the first byte was written before the rest and is not overwritten *)
      pose proof (uncompressed_copy_inflate_step (length payload)
                    (set_output_next
                       (set_memory (set_read_offset st (read_offset st + 1))
                          (upd (memory st) (output_next st) b))
                       (output_next st + 1))) as S.
      destruct S as (_ & _ & _ & _ & _ & _ & _ & _ & S9 & _).
      cbn [output_next memory set_output_next set_memory] in S9.
      rewrite S9 by lia. apply upd_same.
    + cbn [nth]. cbn [length] in Hk.
      replace (output_next st + Z.of_nat (S k))
        with (output_next st + 1 + Z.of_nat k) by lia.
      apply A4. lia.
Qed.

(** A read of up to eight bits with an empty bit count fetches one byte. *)
Lemma read_bits_from_empty st nbits b :
  have st = 0 -> 1 <= nbits <= 8 ->
  read_callback st (read_offset st) = b -> 0 <= b < 256 ->
  0 <= read_offset st < 2 ^ 32 - 1 ->
  lowzip_read_bits st nbits =
  (set_curr (set_have (set_read_offset st (read_offset st + 1)) (8 - nbits))
            (Z.shiftr (Z.lor (curr st) b) nbits),
   Z.land (Z.lor (curr st) b) (Z.ones nbits)).
Proof.
  intros Hh Hn Hb Hr Hro. unfold lowzip_read_bits.
  destruct (Z.to_nat nbits) as [|k] eqn:Ek; [lia|].
  cbn [read_bits_loop]. rewrite Hh.
  assert (E1 : (0 <? nbits) = true) by (apply Z.ltb_lt; lia).
  rewrite E1. rewrite (read_byte_in_bounds st b Hb Hr Hro).
  assert (E8 : add32 0 8 = 8) by reflexivity. rewrite E8.
  assert (Es : shl32 b 0 = b).
  { unfold shl32. rewrite Z.shiftl_0_r. apply u32_small. lia. }
  rewrite Es.
  assert (E2 : read_bits_loop k (set_read_offset st (read_offset st + 1))
                 (Z.lor (curr st) b) 8 nbits =
               (set_read_offset st (read_offset st + 1), Z.lor (curr st) b, 8)).
  { destruct k as [|k]; [reflexivity|]. cbn [read_bits_loop].
    assert (E3 : (8 <? nbits) = false) by (apply Z.ltb_ge; lia).
    rewrite E3. reflexivity. }
  rewrite E2. rewrite read_bits_mask by lia.
  unfold sub32. rewrite u32_small by lia. reflexivity.
Qed.

Lemma memory_holds_output m p bytes :
  memory_holds m p bytes -> map m (addresses p (length bytes)) = bytes.
Proof.
  revert p. induction bytes as [|b bytes IH]; intros p H; [reflexivity|].
  cbn [length addresses map]. f_equal.
  - specialize (H 0%nat ltac:(cbn; lia)). cbn [nth] in H.
    rewrite Z.add_0_r in H. exact H.
  - apply IH. intros k Hk. specialize (H (S k) ltac:(cbn; lia)).
    cbn [nth] in H. replace (p + 1 + Z.of_nat k) with (p + Z.of_nat (S k)) by lia.
    exact H.
Qed.

(** Inflating a stored block gives back its payload. *)
Lemma inflate_stored_block fuel st hdr nlen0 nlen1 payload :
  (1 <= fuel)%nat ->
  have_error st = 0 -> curr st = 0 ->
  input_holds (read_callback st) (read_offset st)
              (stored_block hdr nlen0 nlen1 payload) ->
  hdr mod 8 = 1 ->
  Z.of_nat (length payload) <= 65535 ->
  0 <= read_offset st ->
  read_offset st + 5 + Z.of_nat (length payload) < 2 ^ 32 ->
  Z.of_nat (length payload) <= output_end st - output_next st ->
  exists st',
    lowzip_inflate_raw fuel st = Some st' /\
    have_error st' = 0 /\
    read_offset st' = read_offset st + 5 + Z.of_nat (length payload) /\
    output_next st' = output_next st + Z.of_nat (length payload) /\
    memory_holds (memory st') (output_next st) payload.
Proof.
  intros Hfuel Herr Hcurr Hin Hhdr Hlen Hro Hw Hroom.
  set (L := Z.of_nat (length payload)) in *.
  unfold stored_block in Hin. fold L in Hin.
  apply input_holds_tail in Hin. destruct Hin as (Hb0 & Hr0 & Hin).
  apply input_holds_tail in Hin. destruct Hin as (Hb1 & Hr1 & Hin).
  apply input_holds_tail in Hin. destruct Hin as (Hb2 & Hr2 & Hin).
  apply input_holds_tail in Hin. destruct Hin as (Hb3 & Hr3 & Hin).
  apply input_holds_tail in Hin. destruct Hin as (Hb4 & Hr4 & Hin).
  destruct fuel as [|fuel]; [lia|].
  unfold lowzip_inflate_raw. cbn [lowzip_decode_inflate_blocks].
  change (have_error (lowzip_reset_bitstate st)) with (have_error st).
  rewrite Herr. change (negb (0 =? 0)) with false. cbv iota.
  rewrite (read_bits_from_empty (lowzip_reset_bitstate st) 3 hdr);
    [|reflexivity|lia|exact Hb0|exact Hr0|cbn; lia].
  cbn [curr read_offset lowzip_reset_bitstate set_have].
  rewrite Hcurr. rewrite Z.lor_0_l.
  assert (Ehdr : Z.land hdr (Z.ones 3) = 1).
  { rewrite Z.land_ones by lia. change (2 ^ 3) with 8. exact Hhdr. }
  rewrite Ehdr. cbv zeta.
  change (Z.shiftr 1 1 =? 0) with true. cbv iota.
  change (negb (Z.land 1 1 =? 0)) with true. cbv iota.
  eexists. split; [reflexivity|].
  unfold lowzip_decode_uncompressed_block.
  match goal with
  | |- context [lowzip_read_byte (lowzip_reset_bitstate ?s)] =>
      set (s0 := lowzip_reset_bitstate s)
  end.
  assert (F0 : read_callback s0 = read_callback st /\
               read_offset s0 = read_offset st + 1 /\
               have_error s0 = 0 /\ output_next s0 = output_next st /\
               output_end s0 = output_end st /\ memory s0 = memory st).
  { subst s0. cbn. rewrite Herr. repeat split. }
  destruct F0 as (C0 & O0 & E0 & N0 & D0 & M0).
  rewrite (read_byte_in_bounds s0 (L mod 256));
    [|rewrite C0, O0; exact Hb1|exact Hr1|lia].
  set (s1 := set_read_offset s0 (read_offset s0 + 1)).
  rewrite (read_byte_in_bounds s1 (L / 256));
    [|subst s1; cbn [read_callback read_offset set_read_offset]; rewrite C0, O0; exact Hb2
     |exact Hr2|subst s1; cbn [read_offset set_read_offset]; lia].
  set (s2 := set_read_offset s1 (read_offset s1 + 1)).
  rewrite (read_byte_in_bounds s2 nlen0);
    [|subst s2 s1; cbn [read_callback read_offset set_read_offset]; rewrite C0, O0; exact Hb3
     |exact Hr3|subst s2 s1; cbn [read_offset set_read_offset]; lia].
  set (s3 := set_read_offset s2 (read_offset s2 + 1)).
  rewrite (read_byte_in_bounds s3 nlen1);
    [|subst s3 s2 s1; cbn [read_callback read_offset set_read_offset]; rewrite C0, O0; exact Hb4
     |exact Hr4|subst s3 s2 s1; cbn [read_offset set_read_offset]; lia].
  set (s4 := set_read_offset s3 (read_offset s3 + 1)).
  assert (Elen : add32 (L mod 256) (shl32 (L / 256) 8) = L).
  { rewrite shl32_mul by lia. change (2 ^ 8) with 256.
    unfold add32. rewrite u32_add_r. rewrite u32_small.
    - pose proof (Z.div_mod L 256 ltac:(lia)). lia.
    - pose proof (Z.div_mod L 256 ltac:(lia)). lia. }
  rewrite Elen. subst L. rewrite Nat2Z.id.
  assert (F4 : read_callback s4 = read_callback st /\
               read_offset s4 = read_offset st + 5 /\
               have_error s4 = 0 /\ output_next s4 = output_next st /\
               output_end s4 = output_end st).
  { subst s4 s3 s2 s1.
    cbn [read_callback read_offset have_error output_next output_end set_read_offset].
    rewrite C0, O0, E0, N0, D0. repeat split. lia. }
  destruct F4 as (C4 & O4 & E4 & N4 & D4).
  pose proof (uncompressed_copy_holds payload s4) as U. cbv zeta in U.
  destruct U as (U1 & U2 & U3 & U4).
  - rewrite C4, O4.
    replace (read_offset st + 5) with (read_offset st + 1 + 1 + 1 + 1 + 1) by lia.
    exact Hin.
  - lia.
  - lia.
  - rewrite D4, N4. exact Hroom.
  - rewrite U1, U2, U3, E4, O4, N4. repeat split. rewrite <- N4. exact U4.
Qed.

Lemma bytes_callback_holds data :
  all_bytes data = true -> input_holds (bytes_callback data) 0 data.
Proof.
  unfold all_bytes, input_holds, bytes_callback. intros H k Hk.
  rewrite forallb_forall in H.
  assert (E : (0 <=? 0 + Z.of_nat k) && (0 + Z.of_nat k <? Z.of_nat (length data)) = true).
  { apply andb_true_iff. split; [apply Z.leb_le; lia|apply Z.ltb_lt; lia]. }
  rewrite E. rewrite Z.add_0_l, Nat2Z.id. split; [reflexivity|].
  assert (Hin : In (nth k data 0) data) by (apply nth_In; exact Hk).
  apply H in Hin. lia.
Qed.

(** ** Back references *)

Lemma mod_succ_wrap k d :
  0 <= k -> 1 <= d ->
  (k + 1) mod d = if k mod d =? d - 1 then 0 else k mod d + 1.
Proof.
  intros Hk Hd. pose proof (Z.mod_pos_bound k d ltac:(lia)) as B.
  rewrite <- Zplus_mod_idemp_l.
  destruct (k mod d =? d - 1) eqn:E.
  - apply Z.eqb_eq in E. rewrite E.
    replace (d - 1 + 1) with d by lia. apply Z_mod_same_full.
  - apply Z.eqb_neq in E. apply Z.mod_small. lia.
Qed.

(** The copy loop of a back reference expands the [d] bytes before the
    cursor periodically: byte [k] of the copy is byte [k mod d] of them. *)
Lemma back_reference_copy_expands n : forall st d k,
  1 <= d -> 0 <= k < Z.of_nat n ->
  memory (back_reference_copy n st d) (output_next st + k)
  = memory st (output_next st - d + k mod d).
Proof.
  induction n as [|n IH]; intros st d k Hd Hk; [lia|].
  cbn [back_reference_copy].
  set (st1 := set_output_next _ _).
  assert (N1 : output_next st1 = output_next st + 1) by reflexivity.
  assert (M1 : memory st1 = upd (memory st) (output_next st)
                                (memory st (output_next st - d))) by reflexivity.
  destruct (Z.eq_dec k 0) as [->|Hk0].
  - pose proof (back_reference_copy_frame n st1 d) as F. cbv zeta in F.
    destruct F as (_ & _ & _ & _ & _ & _ & _ & _ & _ & _ & _ & _ & F).
    rewrite Z.add_0_r, F by lia. rewrite M1, upd_same.
    rewrite Z.mod_0_l by lia. rewrite Z.add_0_r. reflexivity.
  - replace (output_next st + k) with (output_next st1 + (k - 1)) by lia.
    rewrite IH by lia. rewrite N1, M1.
    pose proof (Z.mod_pos_bound (k - 1) d ltac:(lia)) as B.
    pose proof (mod_succ_wrap (k - 1) d ltac:(lia) Hd) as W.
    replace (k - 1 + 1) with k in W by lia. rewrite W.
    destruct ((k - 1) mod d =? d - 1) eqn:E.
    + apply Z.eqb_eq in E. rewrite E.
      replace (output_next st + 1 - d + (d - 1)) with (output_next st) by lia.
      rewrite upd_same, Z.add_0_r. reflexivity.
    + apply Z.eqb_neq in E. rewrite upd_other by lia. f_equal. lia.
Qed.

(** Each byte of the copy is the byte [d] places before it. *)
Lemma back_reference_copy_period n st d k :
  1 <= d -> 0 <= k < Z.of_nat n ->
  memory (back_reference_copy n st d) (output_next st + k)
  = memory (back_reference_copy n st d) (output_next st + k - d).
Proof.
  intros Hd Hk.
  rewrite back_reference_copy_expands by lia.
  destruct (Z.lt_ge_cases k d) as [Hlt|Hge].
  - rewrite Z.mod_small by lia.
    pose proof (back_reference_copy_frame n st d) as F. cbv zeta in F.
    destruct F as (_ & _ & _ & _ & _ & _ & _ & _ & _ & _ & _ & _ & F).
    rewrite F by lia. f_equal. lia.
  - replace (output_next st + k - d) with (output_next st + (k - d)) by lia.
    rewrite back_reference_copy_expands by lia.
    f_equal. f_equal.
    replace k with (k - d + 1 * d) at 1 by lia. apply Z.mod_add. lia.
Qed.

Lemma len_table_tight t :
  lowzip_len_base t + 2 ^ lowzip_len_bits t <= 256.
Proof.
  unfold lowzip_len_base, lowzip_len_bits, tab.
  generalize (Z.to_nat t). intros n.
  do 29 (destruct n as [|n]; [vm_compute; discriminate|]).
  destruct n; vm_compute; discriminate.
Qed.

Lemma dist_table_tight t :
  t <= 29 -> lowzip_dist_base t + 2 ^ lowzip_dist_bits t <= 32769.
Proof.
  intros H. unfold lowzip_dist_base, lowzip_dist_bits, tab.
  assert (Hn : (Z.to_nat t <= 29)%nat) by lia.
  revert Hn. generalize (Z.to_nat t). intros n Hn.
  do 30 (destruct n as [|n]; [vm_compute; discriminate|]). lia.
Qed.

(** A back reference that passes its checks appends [len] bytes, 3 to 258
    of them, that repeat the [dist] bytes, 1 to 32768 of them, before the
    cursor. *)
Lemma back_reference_continue st sh t st' :
  back_reference st sh t = Continue st' ->
  exists len dist,
    3 <= len <= 258 /\ 1 <= dist <= 32768 /\
    dist <= output_next st - output_start st /\
    len <= output_end st - output_next st /\
    output_next st' = output_next st + len /\
    (forall k, 0 <= k < len ->
       memory st' (output_next st + k)
       = memory st (output_next st - dist + k mod dist)) /\
    (forall a, ~ (output_next st <= a < output_next st + len) ->
       memory st' a = memory st a).
Proof.
  unfold back_reference.
  destruct (285 <? t) eqn:Et; [discriminate|].
  destruct (lowzip_read_bits st (lowzip_len_bits (sub32 t 257))) as [st1 x1] eqn:E1.
  pose proof (len_table_range (sub32 t 257)) as [Hlb Hlx].
  pose proof (len_table_tight (sub32 t 257)) as Hlt.
  assert (Hx1 : 0 <= x1 < 2 ^ lowzip_len_bits (sub32 t 257))
    by (eapply read_bits_range; [|exact E1]; lia).
  apply read_bits_reads_only in E1.
  set (dsym := if sh then lowzip_read_bits_reversed st1 5
               else lowzip_decode_huffman st1 LOWZIP_SCRATCH_HUFF_DIST).
  destruct dsym as [st2 d] eqn:E2. subst dsym.
  assert (R2 : reads_only st1 st2).
  { destruct sh; [eapply read_bits_reversed_reads_only|eapply decode_huffman_reads_only];
      exact E2. }
  destruct (29 <? d) eqn:Ed; [discriminate|].
  apply Z.ltb_ge in Ed.
  destruct (lowzip_read_bits st2 (lowzip_dist_bits d)) as [st3 x3] eqn:E3.
  pose proof (dist_table_range d Ed) as [Hdb Hdx].
  pose proof (dist_table_tight d Ed) as Hdt.
  assert (Hx3 : 0 <= x3 < 2 ^ lowzip_dist_bits d)
    by (eapply read_bits_range; [|exact E3]; lia).
  apply read_bits_reads_only in E3.
  assert (R3 : reads_only st st3).
  { eapply reads_only_trans; [eassumption|].
    eapply reads_only_trans; eassumption. }
  assert (Hlen : add32 (add32 (lowzip_len_base (sub32 t 257)) 3) x1 =
                 lowzip_len_base (sub32 t 257) + 3 + x1).
  { unfold add32. rewrite u32_add_l. apply u32_small. lia. }
  assert (Hdist : add32 (lowzip_dist_base d) x3 = lowzip_dist_base d + x3).
  { unfold add32. apply u32_small. lia. }
  rewrite Hlen, Hdist.
  set (len := lowzip_len_base (sub32 t 257) + 3 + x1) in *.
  set (dist := lowzip_dist_base d + x3) in *.
  destruct (output_next st3 - output_start st3 <? dist) eqn:C1; [discriminate|].
  destruct (output_end st3 - output_next st3 <? len) eqn:C2; [discriminate|].
  apply Z.ltb_ge in C1, C2.
  intros H. injection H as <-.
  destruct R3 as (_ & _ & Os & Oe & On & Om & _).
  rewrite Os, On in C1. rewrite Oe, On in C2.
  pose proof (back_reference_copy_frame (Z.to_nat len) st3 dist) as F.
  cbv zeta in F.
  destruct F as (_ & _ & _ & _ & _ & _ & _ & _ & _ & _ & _ & Fn & Fm).
  rewrite On in Fn, Fm. rewrite Om in Fm.
  exists len, dist.
  split; [subst len; lia|]. split; [subst dist; lia|].
  split; [exact C1|]. split; [exact C2|].
  split; [rewrite Fn; subst len; lia|]. split.
  - intros k Hk. rewrite <- On.
    rewrite back_reference_copy_expands by (subst len dist; lia).
    rewrite Om. reflexivity.
  - intros a Ha. apply Fm. subst len. lia.
Qed.

(** A back reference that does not pass raises the flag and writes
    nothing. *)
Lemma back_reference_failed st sh t st' :
  back_reference st sh t = Failed st' ->
  have_error st' = 1 /\ output_next st' = output_next st /\
  memory st' = memory st.
Proof.
  intros H.
  destruct (back_reference_cases st sh t)
    as [(st1 & E & R)|(st1 & bl & bd & E & _)]; rewrite E in H;
    [|discriminate].
  injection H as <-. destruct R as (_ & _ & _ & _ & On & Om & _).
  split; [reflexivity|]. split; [exact On|exact Om].
Qed.

(** ** Blocks compressed with the fixed code *)

Lemma read_bits_holds st n x st' v :
  callback_contract (read_callback st) ->
  0 <= n <= 24 ->
  bit_reader_synced st ->
  bits_available st n ->
  stream_holds (read_callback st) (stream_position st) n x ->
  0 <= x < 2 ^ n ->
  lowzip_read_bits st n = (st', v) ->
  v = x /\ bit_reader_synced st' /\
  stream_position st' = stream_position st + n /\
  read_callback st' = read_callback st /\
  have_error st' = have_error st /\
  reads_only st st'.
Proof.
  intros Hcb Hn Hs Ha Hh Hx E.
  pose proof (read_bits_reads_only _ _ _ _ E) as R.
  apply read_bits_synced in E; try assumption.
  destruct E as (B & S' & P & C & He & _).
  repeat match goal with |- _ /\ _ => split end; try assumption.
  apply Z.bits_inj'. intros i Hi. rewrite (B i Hi).
  destruct (i <? n) eqn:Ei.
  - apply Z.ltb_lt in Ei. cbn [andb]. apply Hh. lia.
  - apply Z.ltb_ge in Ei. cbn [andb]. symmetry.
    apply (small_bits_high x n i); [exact Hx|lia].
Qed.

Lemma read_bits_reversed_spells st n code st' v :
  callback_contract (read_callback st) ->
  0 <= n <= 24 ->
  bit_reader_synced st ->
  bits_available st n ->
  stream_spells (read_callback st) (stream_position st) n code ->
  0 <= code < 2 ^ n ->
  lowzip_read_bits_reversed st n = (st', v) ->
  v = code /\ bit_reader_synced st' /\
  stream_position st' = stream_position st + n /\
  read_callback st' = read_callback st /\
  have_error st' = have_error st /\
  reads_only st st'.
Proof.
  intros Hcb Hn Hs Ha Hh Hx E.
  pose proof (read_bits_reversed_reads_only _ _ _ _ E) as R.
  apply read_bits_reversed_synced in E; try assumption.
  destruct E as (B & S' & P & C & He & _).
  repeat match goal with |- _ /\ _ => split end; try assumption.
  apply Z.bits_inj'. intros i Hi. rewrite (B i Hi).
  destruct (i <? n) eqn:Ei.
  - apply Z.ltb_lt in Ei. cbn [andb]. rewrite Hh by lia. f_equal. lia.
  - apply Z.ltb_ge in Ei. cbn [andb]. symmetry.
    apply (small_bits_high code n i); [exact Hx|lia].
Qed.

Lemma length_copy_back n : forall out d,
  length (copy_back n out d) = (length out + n)%nat.
Proof.
  induction n as [|n IH]; intros out d; cbn [copy_back]; [lia|].
  rewrite IH, length_app. cbn [length]. lia.
Qed.

Lemma length_expand tks : forall out,
  (length out <= length (expand tks out))%nat.
Proof.
  induction tks as [|[b|ls le ds de] tks IH]; intros out; cbn [expand].
  - lia.
  - specialize (IH (out ++ [b])). rewrite length_app in IH. cbn [length] in IH. lia.
  - match goal with |- context [expand tks ?o] => specialize (IH o) end.
    rewrite length_copy_back in IH. lia.
Qed.

Lemma memory_holds_snoc m p out b :
  memory_holds m p out ->
  memory_holds (upd m (p + Z.of_nat (length out)) b) p (out ++ [b]).
Proof.
  intros H k Hk. rewrite length_app in Hk. cbn [length] in Hk.
  destruct (Nat.eq_dec k (length out)) as [->|Hne].
  - rewrite upd_same, nth_middle. reflexivity.
  - rewrite upd_other by lia. rewrite app_nth1 by lia. apply H. lia.
Qed.

(** The copy loop of a back reference, seen on the output as a list. *)
Lemma back_reference_copy_holds p n : forall st out d,
  memory_holds (memory st) p out ->
  output_next st = p + Z.of_nat (length out) ->
  1 <= d <= Z.of_nat (length out) ->
  memory_holds (memory (back_reference_copy n st d)) p
               (copy_back n out (Z.to_nat d)).
Proof.
  induction n as [|n IH]; intros st out d Hm Hn Hd;
    cbn [back_reference_copy copy_back]; [exact Hm|].
  apply IH.
  - cbn [memory set_output_next set_memory]. rewrite Hn.
    replace (p + Z.of_nat (length out) - d)
      with (p + Z.of_nat (length out - Z.to_nat d)) by lia.
    rewrite (Hm (length out - Z.to_nat d)%nat) by lia.
    apply memory_holds_snoc. exact Hm.
  - cbn [output_next set_output_next set_memory]. rewrite Hn, length_app.
    cbn [length]. lia.
  - rewrite length_app. cbn [length]. lia.
Qed.

Lemma symbol_step st s :
  callback_contract (read_callback st) -> 0 <= s <= 287 ->
  bit_reader_synced st -> bits_available st (fixed_code_length s) ->
  stream_spells (read_callback st) (stream_position st)
                (fixed_code_length s) (fixed_code s) ->
  exists st1,
    literal_length st true = (st1, s) /\ bit_reader_synced st1 /\
    stream_position st1 = stream_position st + fixed_code_length s /\
    read_callback st1 = read_callback st /\
    have_error st1 = have_error st /\
    reads_only st st1.
Proof.
  intros Hcb Hs Hsync Hav Hsp. unfold literal_length.
  destruct (static_literal_length st) as [st1 t] eqn:E.
  pose proof (static_literal_length_reads_only _ _ _ E) as R.
  apply (static_literal_length_fixed st st1 t s) in E; try assumption.
  destruct E as (-> & S1 & P1 & E1 & C1).
  exists st1. repeat match goal with |- _ /\ _ => split end;
    try assumption; reflexivity.
Qed.

Lemma fixed_code_length_range s : 7 <= fixed_code_length s <= 9.
Proof.
  unfold fixed_code_length.
  destruct (s <=? 143); [lia|]. destruct (s <=? 255); [lia|].
  destruct (s <=? 279); lia.
Qed.

Lemma tokens_bits_pos tks : 7 <= tokens_bits tks.
Proof.
  induction tks as [|tk tks IH]; cbn [tokens_bits]; [lia|].
  destruct tk as [b|ls le ds de]; cbn [token_bits].
  - pose proof (fixed_code_length_range b). lia.
  - pose proof (fixed_code_length_range ls).
    pose proof (len_table_range (ls - 257)) as [_ ?].
    destruct (Z.le_gt_cases ds 29) as [Hd|Hd].
    + pose proof (dist_table_range ds Hd) as [_ ?]. lia.
    + assert (0 <= lowzip_dist_bits ds).
      { unfold lowzip_dist_bits, tab.
        assert (Hn : (30 <= Z.to_nat ds)%nat) by lia.
        rewrite nth_overflow by (cbn [length lowzip_dist_bits_tab]; lia). lia. }
      lia.
Qed.

Lemma synced_transfer st st' :
  read_callback st' = read_callback st -> read_offset st' = read_offset st ->
  curr st' = curr st -> have st' = have st ->
  bit_reader_synced st ->
  bit_reader_synced st' /\ stream_position st' = stream_position st.
Proof.
  unfold bit_reader_synced, stream_position. intros -> -> -> -> H.
  split; [exact H|reflexivity].
Qed.

(** The back-reference branch on a well-formed reference held by the
    stream, with the reference in range and room for the copy. *)
Lemma reference_step st lsym lextra dsym dextra :
  callback_contract (read_callback st) ->
  bit_reader_synced st ->
  well_formed (Reference lsym lextra dsym dextra) ->
  bits_available st (lowzip_len_bits (lsym - 257) + 5 + lowzip_dist_bits dsym) ->
  stream_holds (read_callback st) (stream_position st)
               (lowzip_len_bits (lsym - 257)) lextra ->
  stream_spells (read_callback st)
                (stream_position st + lowzip_len_bits (lsym - 257)) 5 dsym ->
  stream_holds (read_callback st)
               (stream_position st + lowzip_len_bits (lsym - 257) + 5)
               (lowzip_dist_bits dsym) dextra ->
  reference_distance dsym dextra <= output_next st - output_start st ->
  reference_length lsym lextra <= output_end st - output_next st ->
  exists st3,
    back_reference st true lsym
    = Continue (back_reference_copy (Z.to_nat (reference_length lsym lextra))
                                    st3 (reference_distance dsym dextra)) /\
    bit_reader_synced st3 /\
    stream_position st3
    = stream_position st + lowzip_len_bits (lsym - 257) + 5
      + lowzip_dist_bits dsym /\
    read_callback st3 = read_callback st /\
    have_error st3 = have_error st /\
    reads_only st st3.
Proof.
  intros Hcb Hs (Hls & Hle & Hds & Hde) Hav Hh1 Hsp Hh2 Hdist Hlen.
  pose proof (len_table_range (lsym - 257)) as [Hlb Hlx].
  pose proof (dist_table_range dsym ltac:(lia)) as [Hdb Hdx].
  unfold back_reference.
  destruct (Z.ltb_spec 285 lsym) as [C|_]; [lia|].
  assert (Es : sub32 lsym 257 = lsym - 257)
    by (unfold sub32; apply u32_small; lia).
  rewrite Es.
  destruct (lowzip_read_bits st (lowzip_len_bits (lsym - 257))) as [st1 x1] eqn:E1.
  apply (read_bits_holds st _ lextra) in E1; try assumption; try lia;
    [|eapply bits_available_weaken; [exact Hav|lia]].
  destruct E1 as (-> & S1 & P1 & C1 & He1 & R1).
  destruct (lowzip_read_bits_reversed st1 5) as [st2 d] eqn:E2.
  apply (read_bits_reversed_spells st1 5 dsym) in E2;
    try assumption; try lia.
  2:{ rewrite C1. exact Hcb. }
  2:{ apply (bits_available_after st st1 (lowzip_len_bits (lsym - 257)));
        try assumption; [lia|].
      eapply bits_available_weaken; [exact Hav|lia]. }
  2:{ rewrite C1, P1. exact Hsp. }
  destruct E2 as (-> & S2 & P2 & C2 & He2 & R2).
  destruct (Z.ltb_spec 29 dsym) as [C|_]; [lia|].
  destruct (lowzip_read_bits st2 (lowzip_dist_bits dsym)) as [st3 x3] eqn:E3.
  apply (read_bits_holds st2 _ dextra) in E3; try assumption; try lia.
  2:{ rewrite C2, C1. exact Hcb. }
  2:{ apply (bits_available_after st st2 (lowzip_len_bits (lsym - 257) + 5));
        try assumption; try congruence; try lia. }
  2:{ rewrite C2, C1, P2, P1. exact Hh2. }
  destruct E3 as (-> & S3 & P3 & C3 & He3 & R3).
  assert (R : reads_only st st3).
  { eapply reads_only_trans; [exact R1|].
    eapply reads_only_trans; [exact R2|exact R3]. }
  assert (P5 : 2 ^ lowzip_len_bits (lsym - 257) <= 2 ^ 5)
    by (apply Z.pow_le_mono_r; lia).
  assert (P13 : 2 ^ lowzip_dist_bits dsym <= 2 ^ 13)
    by (apply Z.pow_le_mono_r; lia).
  assert (El : add32 (add32 (lowzip_len_base (lsym - 257)) 3) lextra
               = reference_length lsym lextra).
  { unfold reference_length, add32. rewrite u32_add_l. apply u32_small. lia. }
  assert (Ed : add32 (lowzip_dist_base dsym) dextra
               = reference_distance dsym dextra).
  { unfold reference_distance, add32. apply u32_small. lia. }
  rewrite El, Ed.
  pose proof R as R'.
  destruct R as (Rc & Rz & Ros & Roe & Ron & Rm & Rrest).
  rewrite Ros, Ron, Roe.
  destruct (Z.ltb_spec (output_next st - output_start st)
                       (reference_distance dsym dextra)) as [C|_]; [lia|].
  destruct (Z.ltb_spec (output_end st - output_next st)
                       (reference_length lsym lextra)) as [C|_]; [lia|].
  exists st3. split; [reflexivity|]. split; [exact S3|].
  split; [rewrite P3, P2, P1; lia|].
  split; [congruence|]. split; [congruence|exact R'].
Qed.

(** The literal/length loop on a block that uses the fixed code: the
    tokens the stream holds are expanded behind the output so far. *)
Lemma static_block_data_expands tks : forall st out fuel,
  callback_contract (read_callback st) ->
  have_error st = 0 ->
  bit_reader_synced st ->
  bits_available st (tokens_bits tks) ->
  tokens_encoded (read_callback st) (stream_position st) tks ->
  references_in_range tks out ->
  memory_holds (memory st) (output_start st) out ->
  output_next st = output_start st + Z.of_nat (length out) ->
  output_start st + Z.of_nat (length (expand tks out)) <= output_end st ->
  (length tks < fuel)%nat ->
  exists st',
    lowzip_decode_huffman_block_data fuel st true = Some st' /\
    have_error st' = 0 /\
    bit_reader_synced st' /\
    stream_position st' = stream_position st + tokens_bits tks /\
    read_callback st' = read_callback st /\
    output_start st' = output_start st /\
    output_end st' = output_end st /\
    output_next st' = output_start st + Z.of_nat (length (expand tks out)) /\
    memory_holds (memory st') (output_start st) (expand tks out).
Proof.
  induction tks as [|tk tks IH];
    intros st out fuel Hcb He Hs Hav Henc Hrange Hm Hn Hroom Hfuel;
    (destruct fuel as [|fuel]; [cbn [length] in Hfuel; lia|]);
    cbn [lowzip_decode_huffman_block_data]; rewrite He;
    change (negb (0 =? 0)) with false; cbv iota.
  - (* end of block *)
    cbn [tokens_bits tokens_encoded expand] in *.
    destruct (symbol_step st 256) as (st1 & E & S1 & P1 & C1 & E1 & R1);
      try assumption; try lia.
    rewrite E. change (256 <? 256) with false. change (256 =? 256) with true.
    cbv iota. destruct R1 as (_ & _ & Ros & Roe & Ron & Rm & _).
    exists st1. split; [reflexivity|]. split; [congruence|].
    split; [exact S1|]. split; [exact P1|]. split; [exact C1|].
    split; [exact Ros|]. split; [exact Roe|]. split; [congruence|].
    rewrite Rm. exact Hm.
  - cbn [tokens_bits tokens_encoded] in Hav, Henc.
    destruct Henc as (Hwf & Htk & Hrest).
    pose proof (tokens_bits_pos tks) as Hpos.
    destruct tk as [b|ls le ds de].
    + (* a literal *)
      cbn [well_formed token_encoded token_bits expand references_in_range] in *.
      pose proof (fixed_code_length_range b) as Hfl.
      destruct (symbol_step st b) as (st1 & E & S1 & P1 & C1 & E1 & R1);
        try assumption; try lia;
        [eapply bits_available_weaken; [exact Hav|lia]|].
      rewrite E. destruct (Z.ltb_spec b 256) as [_|C]; [|lia].
      rewrite u8_small by lia.
      destruct R1 as (_ & _ & Ros & Roe & Ron & Rm & _).
      pose proof (length_expand tks (out ++ [b])) as Hle.
      rewrite length_app in Hle. cbn [length] in Hle.
      unfold lowzip_write_byte.
      destruct (Z.leb_spec (output_end st1) (output_next st1)) as [C|_];
        [rewrite Roe, Ron in C; lia|].
      set (st2 := set_output_next _ _).
      destruct (synced_transfer st1 st2) as [S2 P2];
        try reflexivity; [exact S1|].
      destruct (IH st2 (out ++ [b]) fuel) as (st' & Hrun & Q);
        try assumption.
      * change (read_callback st2) with (read_callback st1). rewrite C1. exact Hcb.
      * change (have_error st2) with (have_error st1). congruence.
      * apply (bits_available_after st st2 (fixed_code_length b));
          try assumption; try lia; rewrite P2; exact P1.
      * change (read_callback st2) with (read_callback st1).
        rewrite C1, P2, P1. exact Hrest.
      * change (output_start st2) with (output_start st1).
        change (memory st2) with (upd (memory st1) (output_next st1) b).
        rewrite Ros, Ron, Rm, Hn. apply memory_holds_snoc. exact Hm.
      * change (output_start st2) with (output_start st1).
        change (output_next st2) with (output_next st1 + 1).
        rewrite Ros, Ron, Hn, length_app. cbn [length]. lia.
      * change (output_start st2) with (output_start st1).
        change (output_end st2) with (output_end st1).
        rewrite Ros, Roe. exact Hroom.
      * cbn [length] in Hfuel. lia.
      * change (read_callback st2) with (read_callback st1) in Q.
        change (output_start st2) with (output_start st1) in Q.
        change (output_end st2) with (output_end st1) in Q.
        rewrite Ros, Roe, C1, P2, P1 in Q.
        destruct Q as (Q1 & Q2 & Q3 & Q4 & Q5 & Q6 & Q7 & Q8).
        exists st'. split; [exact Hrun|]. split; [exact Q1|].
        split; [exact Q2|]. split; [cbn [tokens_bits token_bits]; rewrite Q3; lia|].
        repeat match goal with |- _ /\ _ => split end; assumption.
    + (* a reference *)
      cbn [token_encoded token_bits expand references_in_range] in *.
      destruct Htk as (Hsp & Hh1 & Hsp5 & Hh2).
      destruct Hrange as [Hdist Hrange].
      pose proof Hwf as (Hls & Hle & Hds & Hde).
      pose proof (fixed_code_length_range ls) as Hfl.
      pose proof (len_table_range (ls - 257)) as [Hlb Hlx].
      pose proof (dist_table_range ds ltac:(lia)) as [Hdb Hdx].
      destruct (symbol_step st ls) as (st1 & E & S1 & P1 & C1 & E1 & R1);
        try assumption; try lia;
        [eapply bits_available_weaken; [exact Hav|lia]|].
      rewrite E. destruct (Z.ltb_spec ls 256) as [C|_]; [lia|].
      destruct (Z.eqb_spec ls 256) as [C|_]; [lia|].
      destruct R1 as (_ & _ & Ros & Roe & Ron & Rm & _).
      set (len := reference_length ls le) in *.
      set (dist := reference_distance ds de) in *.
      assert (Hlen3 : 3 <= len) by (subst len; unfold reference_length; lia).
      assert (Hdist1 : 1 <= dist) by (subst dist; unfold reference_distance; lia).
      pose proof (length_expand tks (copy_back (Z.to_nat len) out (Z.to_nat dist)))
        as Hlex.
      rewrite length_copy_back in Hlex.
      destruct (reference_step st1 ls le ds de)
        as (st3 & Eb & S3 & P3 & C3 & E3 & R3); try assumption.
      * rewrite C1. exact Hcb.
      * apply (bits_available_after st st1 (fixed_code_length ls));
          try assumption; [lia|].
        eapply bits_available_weaken; [exact Hav|lia].
      * rewrite C1, P1. exact Hh1.
      * rewrite C1, P1. exact Hsp5.
      * rewrite C1, P1. exact Hh2.
      * rewrite Ron, Ros, Hn. fold dist. lia.
      * rewrite Ron, Roe, Hn. fold len. lia.
      * rewrite Eb. fold len dist.
        destruct R3 as (_ & _ & Ros3 & Roe3 & Ron3 & Rm3 & _).
        pose proof (back_reference_copy_frame (Z.to_nat len) st3 dist) as F.
        cbv zeta in F.
        destruct F as (F1 & _ & F3 & F4 & _ & _ & F7 & F8 & F9 & F10 & _ & F12 & _).
        set (st4 := back_reference_copy (Z.to_nat len) st3 dist) in *.
        destruct (synced_transfer st3 st4) as [S4 P4]; try assumption.
        destruct (IH st4 (copy_back (Z.to_nat len) out (Z.to_nat dist)) fuel)
          as (st' & Hrun & Q); try assumption.
        -- rewrite F1, C3, C1. exact Hcb.
        -- congruence.
        -- apply (bits_available_after st st4
                    (fixed_code_length ls + lowzip_len_bits (ls - 257) + 5
                     + lowzip_dist_bits ds));
             try assumption; try lia; try congruence.
        -- rewrite F1, C3, C1, P4, P3, P1.
           replace (stream_position st + fixed_code_length ls
                    + lowzip_len_bits (ls - 257) + 5 + lowzip_dist_bits ds)
             with (stream_position st
                   + (fixed_code_length ls + lowzip_len_bits (ls - 257) + 5
                      + lowzip_dist_bits ds)) by lia.
           exact Hrest.
        -- rewrite F3, Ros3, Ros. subst st4.
           apply back_reference_copy_holds.
           ++ rewrite Rm3, Rm. exact Hm.
           ++ rewrite Ron3, Ron. exact Hn.
           ++ lia.
        -- rewrite F12, F3, Ron3, Ros3, Ron, Ros, Hn, length_copy_back. lia.
        -- rewrite F3, F4, Ros3, Roe3, Ros, Roe. exact Hroom.
        -- cbn [length] in Hfuel. lia.
        -- rewrite F1, F3, F4, C3, C1, Ros3, Roe3, Ros, Roe, P4, P3, P1 in Q.
           destruct Q as (Q1 & Q2 & Q3 & Q4 & Q5 & Q6 & Q7 & Q8).
           exists st'. split; [exact Hrun|]. split; [exact Q1|].
           split; [exact Q2|]. split; [cbn [tokens_bits token_bits]; rewrite Q3; lia|].
           repeat match goal with |- _ /\ _ => split end; assumption.
Qed.

(** Inflating one final block that uses the fixed code gives the expansion
    of its tokens. *)
Lemma inflate_static_block fuel st tks :
  callback_contract (read_callback st) ->
  have_error st = 0 -> curr st = 0 ->
  0 <= read_offset st < 2 ^ 32 ->
  output_next st = output_start st ->
  bits_available (lowzip_reset_bitstate st) (3 + tokens_bits tks) ->
  stream_holds (read_callback st) (8 * read_offset st) 3 3 ->
  tokens_encoded (read_callback st) (8 * read_offset st + 3) tks ->
  references_in_range tks [] ->
  output_start st + Z.of_nat (length (expand tks [])) <= output_end st ->
  (length tks + 1 < fuel)%nat ->
  exists st',
    lowzip_inflate_raw fuel st = Some st' /\
    have_error st' = 0 /\
    output_bytes st' = expand tks [] /\
    bit_reader_synced st' /\
    stream_position st' = 8 * read_offset st + 3 + tokens_bits tks.
Proof.
  intros Hcb He Hc Hro Hn Hav Hhdr Henc Hrange Hroom Hfuel.
  unfold lowzip_inflate_raw.
  set (st0 := lowzip_reset_bitstate st) in *.
  assert (S0 : bit_reader_synced st0).
  { unfold bit_reader_synced, st0, lowzip_reset_bitstate.
    cbn [have read_offset curr read_callback set_have].
    split; [lia|]. split; [exact Hro|]. intros i Hi.
    rewrite Hc, Z.testbit_0_l.
    destruct (Z.ltb_spec i 0); [lia|reflexivity]. }
  assert (P0 : stream_position st0 = 8 * read_offset st)
    by (unfold stream_position, st0, lowzip_reset_bitstate;
        cbn [have read_offset set_have]; lia).
  pose proof (tokens_bits_pos tks) as Hpos.
  destruct fuel as [|fuel]; [lia|].
  cbn [lowzip_decode_inflate_blocks].
  change (have_error st0) with (have_error st). rewrite He.
  change (negb (0 =? 0)) with false. cbv iota.
  destruct (lowzip_read_bits st0 3) as [st1 hdr] eqn:E1.
  apply (read_bits_holds st0 3 3) in E1; try assumption; try lia.
  2:{ eapply bits_available_weaken; [exact Hav|lia]. }
  2:{ rewrite P0. exact Hhdr. }
  destruct E1 as (-> & S1 & P1 & C1 & E1 & R1).
  change (Z.shiftr 3 1) with 1. change (1 =? 0) with false.
  change (1 =? 1) with true. cbv iota.
  change (Z.land 3 1) with 1. change (negb (1 =? 0)) with true.
  unfold lowzip_decode_static_huffman_block.
  destruct R1 as (_ & _ & Ros & Roe & Ron & Rm & _).
  change (output_start st0) with (output_start st) in Ros.
  change (output_end st0) with (output_end st) in Roe.
  change (output_next st0) with (output_next st) in Ron.
  change (read_callback st0) with (read_callback st) in C1.
  change (have_error st0) with (have_error st) in E1.
  destruct (static_block_data_expands tks st1 [] fuel)
    as (st' & Hrun & Q1 & Q2 & Q3 & Q4 & Q5 & Q6 & Q7 & Q8); try assumption.
  - rewrite C1. exact Hcb.
  - congruence.
  - apply (bits_available_after st0 st1 3); try assumption; lia.
  - rewrite C1, P1, P0. exact Henc.
  - intros k Hk. cbn [length] in Hk. lia.
  - rewrite Ron, Ros, Hn. cbn [length]. lia.
  - rewrite Ros, Roe. exact Hroom.
  - lia.
  - rewrite Hrun. exists st'. split; [reflexivity|]. split; [exact Q1|].
    split.
    + unfold output_bytes. rewrite Q5, Q7, Ros.
      replace (Z.to_nat (output_start st + Z.of_nat (length (expand tks []))
                         - output_start st))
        with (length (expand tks [])) by lia.
      apply memory_holds_output. rewrite <- Ros. exact Q8.
    + split; [exact Q2|]. rewrite Q3, P1, P0. lia.
Qed.

(** Checking the bits of a stream by evaluation. *)
Lemma stream_spells_check cb pos len code :
  forallb (fun i => Bool.eqb (stream_bit cb (pos + Z.of_nat i))
                             (Z.testbit code (len - 1 - Z.of_nat i)))
          (seq 0 (Z.to_nat len)) = true ->
  stream_spells cb pos len code.
Proof.
  intros H i Hi. rewrite forallb_forall in H.
  specialize (H (Z.to_nat i)).
  rewrite Z2Nat.id in H by lia. apply Bool.eqb_prop. apply H.
  apply in_seq. lia.
Qed.

Lemma stream_holds_check cb pos n x :
  forallb (fun i => Bool.eqb (stream_bit cb (pos + Z.of_nat i))
                             (Z.testbit x (Z.of_nat i)))
          (seq 0 (Z.to_nat n)) = true ->
  stream_holds cb pos n x.
Proof.
  intros H i Hi. rewrite forallb_forall in H.
  specialize (H (Z.to_nat i)).
  rewrite Z2Nat.id in H by lia. apply Bool.eqb_prop. apply H.
  apply in_seq. lia.
Qed.

Lemma bytes_callback_bits_available st data n :
  read_callback st = bytes_callback data ->
  all_bytes data = true ->
  0 <= read_offset st -> 0 <= have st ->
  n <= 8 * (Z.of_nat (length data) - read_offset st) + have st ->
  Z.of_nat (length data) < 2 ^ 32 ->
  bits_available st n.
Proof.
  intros Hcb Hall Hro Hh Hn Hl o Ho1 Ho2.
  assert (Ho : 0 <= o < Z.of_nat (length data)) by lia.
  split; [lia|]. rewrite Hcb. unfold bytes_callback.
  assert (E : (0 <=? o) && (o <? Z.of_nat (length data)) = true).
  { apply andb_true_iff. split; [apply Z.leb_le; lia|apply Z.ltb_lt; lia]. }
  rewrite E. apply byte_no_flag.
  unfold all_bytes in Hall. rewrite forallb_forall in Hall.
  assert (Hin : In (nth (Z.to_nat o) data 0) data) by (apply nth_In; lia).
  apply Hall in Hin. lia.
Qed.

(** A block header with the reserved type 3 ends the run with the error
    flag set and the output untouched. *)
Lemma inflate_reserved_block_type fuel st :
  callback_contract (read_callback st) ->
  have_error st = 0 -> curr st = 0 ->
  0 <= read_offset st < 2 ^ 32 ->
  bits_available (lowzip_reset_bitstate st) 3 ->
  stream_bit (read_callback st) (8 * read_offset st + 1) = true ->
  stream_bit (read_callback st) (8 * read_offset st + 2) = true ->
  (2 <= fuel)%nat ->
  exists st',
    lowzip_inflate_raw fuel st = Some st' /\
    have_error st' = 1 /\
    output_next st' = output_next st /\
    memory st' = memory st.
Proof.
  intros Hcb He Hc Hro Hav H1 H2 Hfuel.
  unfold lowzip_inflate_raw.
  set (st0 := lowzip_reset_bitstate st) in *.
  assert (S0 : bit_reader_synced st0).
  { unfold bit_reader_synced, st0, lowzip_reset_bitstate.
    cbn [have read_offset curr read_callback set_have].
    split; [lia|]. split; [exact Hro|]. intros i Hi.
    rewrite Hc, Z.testbit_0_l.
    destruct (Z.ltb_spec i 0); [lia|reflexivity]. }
  assert (P0 : stream_position st0 = 8 * read_offset st)
    by (unfold stream_position, st0, lowzip_reset_bitstate;
        cbn [have read_offset set_have]; lia).
  destruct fuel as [|[|fuel]]; [lia|lia|].
  cbn [lowzip_decode_inflate_blocks].
  change (have_error st0) with (have_error st). rewrite He.
  change (negb (0 =? 0)) with false. cbv iota.
  set (b := stream_bit (read_callback st) (8 * read_offset st)).
  destruct (lowzip_read_bits st0 3) as [st1 hdr] eqn:E1.
  apply (read_bits_holds st0 3 (6 + Z.b2z b)) in E1; try assumption; try lia.
  2:{ intros i Hi. rewrite P0.
      change (read_callback st0) with (read_callback st).
      assert (Hi3 : i = 0 \/ i = 1 \/ i = 2) by lia.
      destruct Hi3 as [->|[->| ->]].
      - rewrite Z.add_0_r. fold b. destruct b; reflexivity.
      - rewrite H1. destruct b; reflexivity.
      - rewrite H2. destruct b; reflexivity. }
  2:{ destruct b; cbn; lia. }
  destruct E1 as (-> & S1 & P1 & C1 & E1 & R1).
  destruct R1 as (_ & _ & _ & _ & Ron & Rm & _).
  change (output_next st0) with (output_next st) in Ron.
  change (memory st0) with (memory st) in Rm.
  assert (Eb : Z.shiftr (6 + Z.b2z b) 1 = 3) by (destruct b; reflexivity).
  rewrite Eb. change (3 =? 0) with false. change (3 =? 1) with false.
  change (3 =? 2) with false. cbv iota.
  exists (set_have_error st1 1).
  split; [|split; [reflexivity|split; [exact Ron|exact Rm]]].
  destruct (negb (Z.land (6 + Z.b2z b) 1 =? 0)); [reflexivity|].
  cbn [lowzip_decode_inflate_blocks have_error set_have_error].
  reflexivity.
Qed.

(** ** Huffman decoding *)

Lemma get16_range m off :
  byte_store m -> 0 <= get16 m off <= 65535.
Proof.
  intros H. unfold get16. pose proof (H off). pose proof (H (off + 1)). lia.
Qed.

Lemma counts_upto_range sc huff k :
  byte_store sc -> 0 <= counts_upto sc huff k <= 65535 * Z.of_nat k.
Proof.
  intros H. induction k as [|k IH]; cbn [counts_upto]; [lia|].
  pose proof (get16_range sc (huff + 2 * Z.of_nat (S k)) H) as R.
  unfold table_count. lia.
Qed.

Lemma counts_upto_mono sc huff k n :
  byte_store sc -> counts_upto sc huff k <= counts_upto sc huff (k + n).
Proof.
  intros H. induction n as [|n IH].
  - rewrite Nat.add_0_r. lia.
  - replace (k + S n)%nat with (S (k + n)) by lia. cbn [counts_upto].
    pose proof (get16_range sc (huff + 2 * Z.of_nat (S (k + n))) H) as R.
    unfold table_count. lia.
Qed.

Lemma u32_index off code start :
  0 <= off -> off + sub32 code start < 2 ^ 32 ->
  sub32 (add32 off code) start = off + sub32 code start.
Proof.
  intros Ho Hs. unfold sub32, add32, u32 in *.
  assert (P : 2 ^ 32 = 4294967296) by reflexivity. rewrite P in *.
  Z.to_euclidean_division_equations. lia.
Qed.

(** Whatever the table holds, a codeword that ends at some level ends at
    an index below the number of codewords of the levels up to it. *)
Lemma decode_huffman_loop_index n : forall k st huff code cs st' idx,
  byte_store (scratch st) -> (k + n <= 15)%nat ->
  decode_huffman_loop n (Z.of_nat k + 1) st huff code cs
                      (counts_upto (scratch st) huff k) = (st', Some idx) ->
  counts_upto (scratch st) huff k <= idx
  < counts_upto (scratch st) huff (k + n).
Proof.
  induction n as [|n IH]; intros k st huff code cs st' idx Hb Hk H;
    cbn [decode_huffman_loop] in H.
  - apply pair_eq_inv in H. destruct H as [_ H]. discriminate H.
  - destruct (lowzip_read_bits st 1) as [st1 b] eqn:E.
    apply read_bits_reads_only in E.
    destruct E as (_ & _ & _ & _ & _ & _ & _ & Es & _).
    rewrite Es in H.
    replace (Z.of_nat k + 1) with (Z.of_nat (S k)) in H by lia.
    fold (table_count (scratch st) huff (Z.of_nat (S k))) in H.
    pose proof (get16_range (scratch st) (huff + 2 * Z.of_nat (S k)) Hb) as Rc.
    fold (table_count (scratch st) huff (Z.of_nat (S k))) in Rc.
    pose proof (counts_upto_range (scratch st) huff k Hb) as Ru.
    replace (k + S n)%nat with (S k + n)%nat by lia.
    pose proof (counts_upto_mono (scratch st) huff (S k) n Hb) as Hm.
    cbn [counts_upto] in Hm.
    destruct (Z.ltb_spec (sub32 (add32 (shl32 code 1) b) cs)
                         (table_count (scratch st) huff (Z.of_nat (S k))))
      as [Hlt|Hge].
    + apply pair_eq_inv in H. destruct H as [_ H]. injection H as <-.
      assert (R : 0 <= sub32 (add32 (shl32 code 1) b) cs)
        by (unfold sub32, u32; apply Z.mod_pos_bound; lia).
      rewrite u32_index by lia. lia.
    + assert (Ea : add32 (counts_upto (scratch st) huff k)
                         (table_count (scratch st) huff (Z.of_nat (S k)))
                   = counts_upto (scratch st) huff (S k)).
      { cbn [counts_upto]. unfold add32. apply u32_small. lia. }
      rewrite Ea in H.
      replace (Z.of_nat (S k) + 1) with (Z.of_nat (S k) + 1) in H by lia.
      assert (Hb1 : byte_store (scratch st1)) by (rewrite Es; exact Hb).
      rewrite <- Es in H.
      apply IH in H; [|exact Hb1|lia]. rewrite Es in H.
      cbn [counts_upto] in H. lia.
Qed.

Lemma first_code_nonneg sc huff k :
  byte_store sc -> 0 <= first_code sc huff k.
Proof.
  intros H. induction k as [|k IH]; cbn [first_code]; [lia|].
  pose proof (get16_range sc (huff + 2 * Z.of_nat (S k)) H) as R.
  unfold table_count. lia.
Qed.

Lemma first_code_grows sc huff k d :
  byte_store sc ->
  2 ^ Z.of_nat d * first_code sc huff k <= first_code sc huff (k + d).
Proof.
  intros H. induction d as [|d IH].
  - rewrite Nat.add_0_r. change (2 ^ Z.of_nat 0) with 1. lia.
  - replace (k + S d)%nat with (S (k + d)) by lia. cbn [first_code].
    pose proof (get16_range sc (huff + 2 * Z.of_nat (S (k + d))) H) as R.
    unfold table_count.
    rewrite Nat2Z.inj_succ, Z.pow_succ_r by lia. lia.
Qed.

Lemma prefix_step c j :
  0 <= j ->
  c / 2 ^ j = 2 * (c / 2 ^ (j + 1)) + Z.b2z (Z.testbit c j).
Proof.
  intros Hj. rewrite Z.testbit_spec' by lia.
  rewrite Z.pow_add_r by lia. change (2 ^ 1) with 2.
  rewrite <- Z.div_div by (try apply Z.pow_pos_nonneg; lia).
  pose proof (Z.div_mod (c / 2 ^ j) 2 ltac:(lia)). lia.
Qed.

(** The decoding loop finds the codeword the stream spells: entered at
    level [k + 1] with the first [k] bits of the codeword [c] of [len]
    bits read, it stops at level [len] with the index of [c] among the
    codewords in the order of lengths. *)
Lemma decode_huffman_loop_finds m : forall n k st huff c st' r,
  callback_contract (read_callback st) ->
  byte_store (scratch st) ->
  bit_reader_synced st ->
  (1 <= m)%nat -> (m <= n)%nat -> (k + m <= 15)%nat ->
  bits_available st (Z.of_nat m) ->
  (forall i, 0 <= i < Z.of_nat m ->
     stream_bit (read_callback st) (stream_position st + i)
     = Z.testbit c (Z.of_nat m - 1 - i)) ->
  0 <= c < 2 ^ Z.of_nat (k + m) ->
  first_code (scratch st) huff (k + m - 1) <= c
    < first_code (scratch st) huff (k + m - 1)
      + table_count (scratch st) huff (Z.of_nat (k + m)) ->
  decode_huffman_loop n (Z.of_nat k + 1) st huff (c / 2 ^ Z.of_nat m)
    (first_code (scratch st) huff k) (counts_upto (scratch st) huff k)
  = (st', r) ->
  r = Some (counts_upto (scratch st) huff (k + m - 1) + c
            - first_code (scratch st) huff (k + m - 1)) /\
  bit_reader_synced st' /\
  stream_position st' = stream_position st + Z.of_nat m /\
  read_callback st' = read_callback st /\
  have_error st' = have_error st /\
  scratch st' = scratch st.
Proof.
  induction m as [|m IH];
    intros n k st huff c st' r Hcb Hb Hs Hm1 Hmn Hk Hav Hbits Hc Hcode H;
    [lia|].
  destruct n as [|n]; [lia|]. cbn [decode_huffman_loop] in H.
  destruct (lowzip_read_bits st 1) as [st1 b] eqn:E.
  apply (read_bits_holds st 1 (Z.b2z (Z.testbit c (Z.of_nat m)))) in E;
    try assumption; try lia.
  2:{ eapply bits_available_weaken; [exact Hav|lia]. }
  2:{ intros i Hi. assert (i = 0) by lia. subst i.
      rewrite Hbits by lia. rewrite Z.b2z_bit0. f_equal. lia. }
  2:{ destruct (Z.testbit c (Z.of_nat m)); cbn; lia. }
  destruct E as (-> & S1 & P1 & C1 & E1 & R1).
  destruct R1 as (_ & _ & _ & _ & _ & _ & _ & Es & _).
  rewrite Es in H.
  pose proof (first_code_nonneg (scratch st) huff k Hb) as Hf0.
  pose proof (counts_upto_range (scratch st) huff k Hb) as Hu0.
  pose proof (get16_range (scratch st) (huff + 2 * Z.of_nat (S k)) Hb) as Rc.
  fold (table_count (scratch st) huff (Z.of_nat (S k))) in Rc.
  replace (Z.of_nat k + 1) with (Z.of_nat (S k)) in H by lia.
  fold (table_count (scratch st) huff (Z.of_nat (S k))) in H.
  assert (Hpre : 0 <= c / 2 ^ Z.of_nat m < 2 ^ Z.of_nat (S k)).
  { split; [apply Z.div_pos; [lia|apply Z.pow_pos_nonneg; lia]|].
    apply Z.div_lt_upper_bound; [apply Z.pow_pos_nonneg; lia|].
    rewrite <- Z.pow_add_r by lia.
    replace (Z.of_nat m + Z.of_nat (S k)) with (Z.of_nat (k + S m)) by lia.
    lia. }
  assert (P15 : 2 ^ Z.of_nat (S k) <= 2 ^ 15)
    by (apply Z.pow_le_mono_r; lia).
  assert (Ecode : add32 (shl32 (c / 2 ^ Z.of_nat (S m)) 1)
                        (Z.b2z (Z.testbit c (Z.of_nat m)))
                  = c / 2 ^ Z.of_nat m).
  { rewrite (prefix_step c (Z.of_nat m)) by lia.
    replace (Z.of_nat m + 1) with (Z.of_nat (S m)) by lia.
    assert (Hq : 0 <= c / 2 ^ Z.of_nat (S m) < 2 ^ 15).
    { split; [apply Z.div_pos; [lia|apply Z.pow_pos_nonneg; lia]|].
      rewrite (prefix_step c (Z.of_nat m)) in Hpre by lia.
      replace (Z.of_nat m + 1) with (Z.of_nat (S m)) in Hpre by lia.
      destruct (Z.testbit c (Z.of_nat m)); cbn [Z.b2z] in Hpre; lia. }
    rewrite shl32_mul by lia. change (2 ^ 1) with 2.
    unfold add32. rewrite u32_add_l.
    rewrite u32_small; [lia|].
    destruct (Z.testbit c (Z.of_nat m)); cbn [Z.b2z]; lia. }
  rewrite Ecode in H.
  destruct m as [|m].
  - (* the last level *)
    replace (k + 1 - 1)%nat with k in * by lia.
    replace (k + 1)%nat with (S k) in Hcode by lia.
    change (2 ^ Z.of_nat 0) with 1 in *. rewrite Z.div_1_r in *.
    assert (Esub : sub32 c (first_code (scratch st) huff k)
                   = c - first_code (scratch st) huff k)
      by (unfold sub32; apply u32_small; lia).
    rewrite Esub in H.
    destruct (Z.ltb_spec (c - first_code (scratch st) huff k)
                         (table_count (scratch st) huff (Z.of_nat (S k))))
      as [_|C]; [|lia].
    apply pair_eq_inv in H. destruct H as [<- <-].
    rewrite u32_index by (rewrite ?Esub; lia). rewrite Esub.
    repeat match goal with |- _ /\ _ => split end;
      try assumption; try lia. f_equal. lia.
  - (* a level before the last *)
    pose proof (first_code_grows (scratch st) huff (S k) m Hb) as Hg.
    replace (S k + m)%nat with (k + S (S m) - 1)%nat in Hg by lia.
    cbn [first_code] in Hg.
    pose proof (first_code_nonneg (scratch st) huff (k + S (S m) - 1) Hb) as Hfl.
    assert (Hge : first_code (scratch st) huff k
                  + table_count (scratch st) huff (Z.of_nat (S k))
                  <= c / 2 ^ Z.of_nat (S m)).
    { apply Z.div_le_lower_bound; [apply Z.pow_pos_nonneg; lia|].
      rewrite (Nat2Z.inj_succ m), Z.pow_succ_r by lia. lia. }
    assert (Esub : sub32 (c / 2 ^ Z.of_nat (S m)) (first_code (scratch st) huff k)
                   = c / 2 ^ Z.of_nat (S m) - first_code (scratch st) huff k)
      by (unfold sub32; apply u32_small; lia).
    rewrite Esub in H.
    destruct (Z.ltb_spec (c / 2 ^ Z.of_nat (S m) - first_code (scratch st) huff k)
                         (table_count (scratch st) huff (Z.of_nat (S k))))
      as [C|_]; [lia|].
    assert (Ecs : shl32 (add32 (first_code (scratch st) huff k)
                               (table_count (scratch st) huff (Z.of_nat (S k)))) 1
                  = first_code (scratch st) huff (S k)).
    { cbn [first_code]. unfold add32. rewrite u32_small by lia.
      rewrite shl32_mul by lia. change (2 ^ 1) with 2.
      rewrite u32_small by lia. lia. }
    assert (Eco : add32 (counts_upto (scratch st) huff k)
                        (table_count (scratch st) huff (Z.of_nat (S k)))
                  = counts_upto (scratch st) huff (S k)).
    { cbn [counts_upto]. unfold add32. apply u32_small. lia. }
    rewrite Ecs, Eco in H. rewrite <- Es in H.
    replace (Z.of_nat (S k) + 1) with (Z.of_nat (S k) + 1) in H by lia.
    apply IH in H; try assumption; try lia.
    + rewrite Es in H.
      replace (S k + S m - 1)%nat with (k + S (S m) - 1)%nat in H by lia.
      destruct H as (Hr & S' & P' & C' & E' & Es').
      repeat match goal with |- _ /\ _ => split end;
        try assumption; try congruence; lia.
    + rewrite C1. exact Hcb.
    + rewrite Es. exact Hb.
    + apply (bits_available_after st st1 1); try assumption; [lia|].
      replace (1 + Z.of_nat (S m)) with (Z.of_nat (S (S m))) by lia. exact Hav.
    + intros i Hi. rewrite C1, P1.
      replace (stream_position st + 1 + i) with (stream_position st + (i + 1)) by lia.
      rewrite Hbits by lia. f_equal. lia.
    + replace (S k + S m)%nat with (k + S (S m))%nat by lia. exact Hc.
    + rewrite Es.
      replace (S k + S m - 1)%nat with (k + S (S m) - 1)%nat by lia.
      replace (S k + S m)%nat with (k + S (S m))%nat by lia. exact Hcode.
Qed.

(** Whatever the table and the input hold, [lowzip_decode_huffman] takes
    its result from one of the first entries of the codes part, as many as
    the counts part announces, or fails. *)
Lemma decode_huffman_in_table st huff st' t :
  byte_store (scratch st) ->
  lowzip_decode_huffman st huff = (st', t) ->
  (exists idx, 0 <= idx < counts_upto (scratch st) huff 15 /\
               t = table_symbol (scratch st) huff idx)
  \/ (t = 0 /\ have_error st' = 1).
Proof.
  intros Hb. unfold lowzip_decode_huffman.
  destruct (decode_huffman_loop 15 1 st huff 0 0 0) as [st1 [idx|]] eqn:E;
    intros H; apply pair_eq_inv in H; destruct H as [<- <-].
  - left. exists idx.
    pose proof (decode_huffman_loop_reads_only _ _ _ _ _ _ _ _ _ E) as R.
    destruct R as (_ & _ & _ & _ & _ & _ & _ & Es & _).
    apply (decode_huffman_loop_index 15 0 st huff 0 0 st1 idx Hb) in E; [|lia].
    change (counts_upto (scratch st) huff 0) with 0 in E.
    change (0 + 15)%nat with 15%nat in E. split; [lia|].
    unfold table_symbol. rewrite Es. reflexivity.
  - right. split; reflexivity.
Qed.

(** [lowzip_decode_huffman] finds the codeword the stream spells. *)
Lemma decode_huffman_finds st huff len c st' t :
  callback_contract (read_callback st) ->
  byte_store (scratch st) ->
  bit_reader_synced st ->
  (1 <= len <= 15)%nat ->
  bits_available st (Z.of_nat len) ->
  stream_spells (read_callback st) (stream_position st) (Z.of_nat len) c ->
  0 <= c < 2 ^ Z.of_nat len ->
  first_code (scratch st) huff (len - 1) <= c
    < first_code (scratch st) huff (len - 1)
      + table_count (scratch st) huff (Z.of_nat len) ->
  lowzip_decode_huffman st huff = (st', t) ->
  t = table_symbol (scratch st) huff
        (counts_upto (scratch st) huff (len - 1) + c
         - first_code (scratch st) huff (len - 1)) /\
  bit_reader_synced st' /\
  stream_position st' = stream_position st + Z.of_nat len /\
  read_callback st' = read_callback st /\
  have_error st' = have_error st /\
  scratch st' = scratch st.
Proof.
  intros Hcb Hb Hs Hlen Hav Hsp Hc Hcode. unfold lowzip_decode_huffman.
  destruct (decode_huffman_loop 15 1 st huff 0 0 0) as [st1 r] eqn:E.
  assert (E0 : c / 2 ^ Z.of_nat len = 0) by (apply Z.div_small; exact Hc).
  assert (E' : decode_huffman_loop 15 (Z.of_nat 0 + 1) st huff
                 (c / 2 ^ Z.of_nat len) (first_code (scratch st) huff 0)
                 (counts_upto (scratch st) huff 0) = (st1, r))
    by (rewrite E0; exact E).
  clear E. rename E' into E.
  apply (decode_huffman_loop_finds len 15 0 st huff c st1 r) in E;
    try assumption; try lia.
  destruct E as (-> & S1 & P1 & C1 & E1 & Es).
  cbn [Nat.add] in *.
  intros H. apply pair_eq_inv in H. destruct H as [<- <-].
  repeat match goal with |- _ /\ _ => split end; try assumption.
  unfold table_symbol. rewrite Es. reflexivity.
Qed.

(** ** Huffman table preparation *)

Lemma byte_store_upd m a v :
  byte_store m -> 0 <= v < 256 -> byte_store (upd m a v).
Proof.
  intros H Hv a'. unfold upd. destruct (a' =? a); [exact Hv|apply H].
Qed.

Lemma byte_store_set16 m a v : byte_store m -> byte_store (set16 m a v).
Proof.
  intros H. unfold set16.
  apply byte_store_upd; [apply byte_store_upd; [exact H|]|];
    apply Z.mod_pos_bound; lia.
Qed.

Lemma set16_other m a v c : c <> a -> c <> a + 1 -> set16 m a v c = m c.
Proof.
  intros H1 H2. unfold set16. rewrite upd_other by exact H2.
  apply upd_other. exact H1.
Qed.

Lemma get16_set16_same m a v :
  0 <= v < 65536 -> get16 (set16 m a v) a = v.
Proof.
  intros Hv. unfold get16, set16.
  rewrite (upd_other _ (a + 1) _ a) by lia. rewrite upd_same, upd_same.
  rewrite (Z.mod_small (v / 256)) by (Z.to_euclidean_division_equations; lia).
  pose proof (Z.div_mod v 256 ltac:(lia)). lia.
Qed.

Lemma get16_set16_other m a v b :
  b + 1 < a \/ a + 1 < b -> get16 (set16 m a v) b = get16 m b.
Proof.
  intros H. unfold get16. rewrite !set16_other by lia. reflexivity.
Qed.

Lemma get16_ext m m' a :
  (forall b, a <= b <= a + 1 -> m b = m' b) -> get16 m a = get16 m' a.
Proof.
  intros H. unfold get16. rewrite (H a), (H (a + 1)) by lia. reflexivity.
Qed.

Lemma memset_spec n : forall m off v a,
  memset m off v n a
  = if (off <=? a) && (a <? off + Z.of_nat n) then v else m a.
Proof.
  induction n as [|n IH]; intros m off v a; cbn [memset].
  - destruct (Z.leb_spec off a), (Z.ltb_spec a (off + Z.of_nat 0));
      cbn [andb]; try reflexivity; lia.
  - rewrite IH. unfold upd.
    destruct (Z.leb_spec (off + 1) a), (Z.ltb_spec a (off + 1 + Z.of_nat n)),
             (Z.leb_spec off a), (Z.ltb_spec a (off + Z.of_nat (S n))),
             (Z.eqb_spec a off); cbn [andb]; try reflexivity; lia.
Qed.

Lemma byte_store_memset m off v n :
  byte_store m -> 0 <= v < 256 -> byte_store (memset m off v n).
Proof.
  intros H Hv a. rewrite memset_spec.
  destruct ((off <=? a) && (a <? off + Z.of_nat n)); [exact Hv|apply H].
Qed.

Lemma count_of_cons l x ls :
  count_of l (x :: ls) = (if x =? l then 1 else 0) + count_of l ls.
Proof.
  unfold count_of. cbn [filter]. destruct (x =? l); cbn [length]; lia.
Qed.

Lemma count_of_range l ls : 0 <= count_of l ls <= Z.of_nat (length ls).
Proof.
  unfold count_of. pose proof (filter_length_le (fun x => x =? l) ls). lia.
Qed.

Lemma code_lengths_cons sc code_lens n :
  code_lengths sc code_lens (S n)
  = sc code_lens :: code_lengths sc (code_lens + 1) n.
Proof.
  unfold code_lengths. cbn [seq map]. rewrite Z.add_0_r. f_equal.
  rewrite <- seq_shift, map_map. apply map_ext. intros j. f_equal. lia.
Qed.

Lemma code_lengths_ext sc sc' code_lens n :
  (forall a, code_lens <= a < code_lens + Z.of_nat n -> sc' a = sc a) ->
  code_lengths sc' code_lens n = code_lengths sc code_lens n.
Proof.
  intros H. unfold code_lengths. apply map_ext_in. intros j Hj.
  apply in_seq in Hj. apply H. lia.
Qed.

(** The first loop counts the code lengths, or fails on one above 15. *)
Lemma prepare_huffman_counts_spec n : forall i sc code_lens out,
  byte_store sc ->
  code_lens + i + Z.of_nat n <= out \/ out + 32 <= code_lens + i ->
  (forall l, 0 <= l <= 15 ->
     get16 sc (out + 2 * l)
     + count_of l (code_lengths sc (code_lens + i) n) < 65536) ->
  let ls := code_lengths sc (code_lens + i) n in
  let r := prepare_huffman_counts n i sc code_lens out in
  byte_store (fst r) /\
  (forall a, ~ (out <= a < out + 32) -> fst r a = sc a) /\
  (Forall (fun x => x <= 15) ls ->
   snd r = true /\
   forall l, 0 <= l <= 15 ->
     get16 (fst r) (out + 2 * l) = get16 sc (out + 2 * l) + count_of l ls) /\
  (~ Forall (fun x => x <= 15) ls -> snd r = false).
Proof.
  induction n as [|n IH]; intros i sc code_lens out Hb Hdis Hroom;
    cbv zeta; cbn [prepare_huffman_counts].
  - cbn [fst snd code_lengths seq map]. split; [exact Hb|].
    split; [reflexivity|]. split.
    + intros _. split; [reflexivity|]. intros l Hl.
      unfold count_of. cbn. lia.
    + intros C. exfalso. apply C. constructor.
  - rewrite code_lengths_cons in *.
    set (t := sc (code_lens + i)) in *.
    pose proof (Hb (code_lens + i)) as Ht. fold t in Ht.
    destruct (Z.ltb_spec 15 t) as [Hbig|Hok].
    + cbn [fst snd]. split; [exact Hb|]. split; [reflexivity|]. split.
      * intros F. inversion F; subst. lia.
      * intros _. reflexivity.
    + set (sc1 := set16 sc (out + 2 * t) (u16 (get16 sc (out + 2 * t) + 1))).
      assert (Hb1 : byte_store sc1) by (apply byte_store_set16; exact Hb).
      assert (Hout : forall a, ~ (out <= a < out + 32) -> sc1 a = sc a).
      { intros a Ha. unfold sc1. apply set16_other; lia. }
      assert (Hls : code_lengths sc1 (code_lens + (i + 1)) n
                    = code_lengths sc (code_lens + i + 1) n).
      { replace (code_lens + (i + 1)) with (code_lens + i + 1) by lia.
        apply code_lengths_ext. intros a Ha. apply Hout. lia. }
      pose proof (Hroom t ltac:(lia)) as Hrt.
      rewrite count_of_cons, Z.eqb_refl in Hrt.
      pose proof (count_of_range t (code_lengths sc (code_lens + i + 1) n)) as Hcr.
      pose proof (get16_range sc (out + 2 * t) Hb) as Hgr.
      assert (Eu : u16 (get16 sc (out + 2 * t) + 1) = get16 sc (out + 2 * t) + 1)
        by (unfold u16; apply Z.mod_small; change (2 ^ 16) with 65536; lia).
      assert (Hget : forall l, 0 <= l <= 15 ->
                get16 sc1 (out + 2 * l)
                = get16 sc (out + 2 * l) + (if t =? l then 1 else 0)).
      { intros l Hl. unfold sc1. rewrite Eu.
        destruct (Z.eqb_spec t l) as [->|Hne].
        - rewrite get16_set16_same by lia. reflexivity.
        - rewrite get16_set16_other by lia. lia. }
      specialize (IH (i + 1) sc1 code_lens out Hb1).
      cbv zeta in IH. rewrite Hls in IH.
      destruct IH as (I1 & I2 & I3 & I4).
      * lia.
      * intros l Hl. rewrite (Hget l Hl).
        specialize (Hroom l Hl). rewrite count_of_cons in Hroom. lia.
      * split; [exact I1|]. split.
        -- intros a Ha. rewrite I2 by exact Ha. apply Hout. exact Ha.
        -- split.
           ++ intros F. inversion F as [|x xs Hx Hxs]; subst.
              destruct (I3 Hxs) as [Hr Hc]. split; [exact Hr|].
              intros l Hl. rewrite (Hc l Hl), (Hget l Hl), count_of_cons. lia.
           ++ intros F. apply I4. intros C. apply F. constructor; [lia|exact C].
Qed.

Lemma length_symbols_of_length l ls : forall base,
  Z.of_nat (length (symbols_of_length l base ls)) = count_of l ls.
Proof.
  induction ls as [|x ls IH]; intros base; cbn [symbols_of_length].
  - reflexivity.
  - rewrite count_of_cons. destruct (x =? l); cbn [length];
      rewrite ?Nat2Z.inj_succ, IH; lia.
Qed.

(** The inner loop of the second pass appends the symbols of length [i]
    among the lengths from index [j] on. *)
Lemma prepare_huffman_codes_inner_spec n : forall j i sc code_lens out_codes,
  byte_store sc -> 0 <= j -> j + Z.of_nat n <= 65536 ->
  let ls := code_lengths sc (code_lens + j) n in
  let syms := symbols_of_length i j ls in
  out_codes + 2 * Z.of_nat (length syms) <= code_lens + j
  \/ code_lens + j + Z.of_nat n <= out_codes ->
  let r := prepare_huffman_codes_inner n j i sc code_lens out_codes in
  byte_store (fst r) /\
  snd r = out_codes + 2 * Z.of_nat (length syms) /\
  (forall k, (k < length syms)%nat ->
     get16 (fst r) (out_codes + 2 * Z.of_nat k) = nth k syms 0) /\
  (forall a, ~ (out_codes <= a < out_codes + 2 * Z.of_nat (length syms)) ->
     fst r a = sc a).
Proof.
  induction n as [|n IH]; intros j i sc code_lens out_codes Hb Hj Hn;
    cbv zeta; cbn [prepare_huffman_codes_inner].
  - cbn [code_lengths seq map symbols_of_length length fst snd]. intros _.
    split; [exact Hb|]. split; [lia|]. split; [intros k Hk; lia|reflexivity].
  - rewrite code_lengths_cons. cbn [symbols_of_length].
    destruct (sc (code_lens + j) =? i) eqn:Ex.
    + cbn [length]. intros Hdis.
      set (sc1 := set16 sc out_codes (u16 j)).
      assert (Hb1 : byte_store sc1) by (apply byte_store_set16; exact Hb).
      assert (Hls : code_lengths sc1 (code_lens + (j + 1)) n
                    = code_lengths sc (code_lens + j + 1) n).
      { replace (code_lens + (j + 1)) with (code_lens + j + 1) by lia.
        apply code_lengths_ext. intros a Ha. unfold sc1.
        apply set16_other; lia. }
      specialize (IH (j + 1) i sc1 code_lens (out_codes + 2) Hb1).
      cbv zeta in IH. rewrite Hls in IH.
      destruct IH as (I1 & I2 & I3 & I4); [lia|lia|lia|].
      split; [exact I1|]. split; [rewrite I2; lia|]. split.
      * intros k Hk. destruct k as [|k].
        -- cbn [nth]. change (Z.of_nat 0) with 0. rewrite Z.mul_0_r, Z.add_0_r.
           rewrite (get16_ext _ sc1) by (intros a Ha; apply I4; lia).
           unfold sc1. rewrite get16_set16_same;
             unfold u16; [apply Z.mod_small|apply Z.mod_pos_bound];
             change (2 ^ 16) with 65536; lia.
        -- cbn [nth]. rewrite <- (I3 k) by lia. f_equal. lia.
      * intros a Ha. rewrite I4 by lia. unfold sc1. apply set16_other; lia.
    + intros Hdis.
      specialize (IH (j + 1) i sc code_lens out_codes Hb).
      cbv zeta in IH.
      replace (code_lens + (j + 1)) with (code_lens + j + 1) in IH by lia.
      apply IH; lia.
Qed.

Lemma count_of_window l m ls :
  count_of l ls
  + Z.of_nat (length (filter (fun x => (l + 1 <=? x) && (x <? l + 1 + Z.of_nat m)) ls))
  = Z.of_nat (length (filter (fun x => (l <=? x) && (x <? l + Z.of_nat (S m))) ls)).
Proof.
  induction ls as [|x ls IH]; [reflexivity|].
  rewrite count_of_cons. cbn [filter].
  destruct (Z.eqb_spec x l), (Z.leb_spec (l + 1) x),
           (Z.ltb_spec x (l + 1 + Z.of_nat m)), (Z.leb_spec l x),
           (Z.ltb_spec x (l + Z.of_nat (S m)));
    cbn [andb length]; try lia.
Qed.

Lemma length_symbols_by_length m : forall l ls,
  Z.of_nat (length (symbols_by_length m l ls))
  = Z.of_nat (length (filter (fun x => (l <=? x) && (x <? l + Z.of_nat m)) ls)).
Proof.
  induction m as [|m IH]; intros l ls; cbn [symbols_by_length].
  - cbn [length]. symmetry.
    assert (E : filter (fun x => (l <=? x) && (x <? l + Z.of_nat 0)) ls = []).
    { induction ls as [|x ls IHl]; [reflexivity|]. cbn [filter].
      destruct (Z.leb_spec l x), (Z.ltb_spec x (l + Z.of_nat 0));
        cbn [andb]; try exact IHl; lia. }
    rewrite E. reflexivity.
  - rewrite length_app, Nat2Z.inj_add, length_symbols_of_length, IH.
    apply count_of_window.
Qed.

Lemma length_symbols_by_length_le m l ls :
  (length (symbols_by_length m l ls) <= length ls)%nat.
Proof.
  pose proof (length_symbols_by_length m l ls) as H.
  pose proof (filter_length_le
                (fun x => (l <=? x) && (x <? l + Z.of_nat m)) ls). lia.
Qed.

(** The second pass appends the symbols by length. *)
Lemma prepare_huffman_codes_spec m : forall i sc code_lens n out_codes,
  byte_store sc -> Z.of_nat n <= 65536 ->
  let ls := code_lengths sc code_lens n in
  let syms := symbols_by_length m i ls in
  out_codes + 2 * Z.of_nat (length syms) <= code_lens
  \/ code_lens + Z.of_nat n <= out_codes ->
  let r := prepare_huffman_codes m i sc code_lens n out_codes in
  byte_store (fst r) /\
  snd r = out_codes + 2 * Z.of_nat (length syms) /\
  (forall k, (k < length syms)%nat ->
     get16 (fst r) (out_codes + 2 * Z.of_nat k) = nth k syms 0) /\
  (forall a, ~ (out_codes <= a < out_codes + 2 * Z.of_nat (length syms)) ->
     fst r a = sc a).
Proof.
  induction m as [|m IH]; intros i sc code_lens n out_codes Hb Hn;
    cbv zeta; cbn [prepare_huffman_codes symbols_by_length].
  - cbn [length fst snd]. intros _. split; [exact Hb|]. split; [lia|].
    split; [intros k Hk; lia|reflexivity].
  - rewrite length_app, Nat2Z.inj_add. intros Hdis.
    pose proof (prepare_huffman_codes_inner_spec n 0 i sc code_lens out_codes
                  Hb ltac:(lia) ltac:(lia)) as HI.
    cbv zeta in HI. rewrite Z.add_0_r in HI.
    destruct (prepare_huffman_codes_inner n 0 i sc code_lens out_codes)
      as [sc1 oc1] eqn:E1.
    cbn [fst snd] in HI.
    destruct HI as (I1 & I2 & I3 & I4); [lia|].
    set (s1 := symbols_of_length i 0 (code_lengths sc code_lens n)) in *.
    assert (Hls : code_lengths sc1 code_lens n = code_lengths sc code_lens n).
    { apply code_lengths_ext. intros a Ha. apply I4. lia. }
    specialize (IH (i + 1) sc1 code_lens n oc1 I1 Hn).
    cbv zeta in IH. rewrite Hls in IH.
    set (s2 := symbols_by_length m (i + 1) (code_lengths sc code_lens n)) in *.
    destruct IH as (J1 & J2 & J3 & J4); [lia|].
    split; [exact J1|]. split; [rewrite J2, I2; lia|]. split.
    + intros k Hk.
      destruct (Nat.lt_ge_cases k (length s1)) as [Hlt|Hge].
      * rewrite app_nth1 by exact Hlt. rewrite <- (I3 k Hlt).
        apply get16_ext. intros b Hb'. apply J4. lia.
      * rewrite app_nth2 by exact Hge.
        rewrite <- (J3 (k - length s1)%nat) by lia. f_equal. lia.
    + intros a Ha. rewrite J4 by lia. apply I4. lia.
Qed.

(** [lowzip_prepare_huffman] builds the table of the canonical code: the
    number of symbols of each length, and the symbols by length and, among
    those of one length, by value.  It fails on a length above 15. *)
Lemma prepare_huffman_spec st code_lens n out :
  byte_store (scratch st) -> Z.of_nat n < 65536 ->
  out + 32 + 2 * Z.of_nat n <= code_lens \/ code_lens + Z.of_nat n <= out ->
  let ls := code_lengths (scratch st) code_lens n in
  let syms := symbols_by_length 15 1 ls in
  let st' := lowzip_prepare_huffman st code_lens n out in
  byte_store (scratch st') /\
  (~ Forall (fun x => x <= 15) ls -> have_error st' = 1) /\
  (Forall (fun x => x <= 15) ls ->
   have_error st' = have_error st /\
   (forall l, 0 <= l <= 15 -> table_count (scratch st') out l = count_of l ls) /\
   (forall k, (k < length syms)%nat ->
      table_symbol (scratch st') out (Z.of_nat k) = nth k syms 0) /\
   (forall a, ~ (out <= a < out + 32 + 2 * Z.of_nat (length syms)) ->
      scratch st' a = scratch st a)).
Proof.
  intros Hb Hn Hdis. cbv zeta. unfold lowzip_prepare_huffman. cbv zeta.
  set (sc := scratch st) in *.
  set (sc0 := memset sc out 0 32).
  set (ls := code_lengths sc code_lens n).
  assert (Hb0 : byte_store sc0) by (apply byte_store_memset; [exact Hb|lia]).
  assert (H0out : forall a, ~ (out <= a < out + 32) -> sc0 a = sc a).
  { intros a Ha. unfold sc0. rewrite memset_spec.
    destruct (Z.leb_spec out a), (Z.ltb_spec a (out + Z.of_nat 32));
      cbn [andb]; try reflexivity. lia. }
  assert (H0in : forall l, 0 <= l <= 15 -> get16 sc0 (out + 2 * l) = 0).
  { intros l Hl. unfold get16, sc0. rewrite !memset_spec.
    destruct (Z.leb_spec out (out + 2 * l)),
             (Z.ltb_spec (out + 2 * l) (out + Z.of_nat 32)),
             (Z.leb_spec out (out + 2 * l + 1)),
             (Z.ltb_spec (out + 2 * l + 1) (out + Z.of_nat 32));
      cbn [andb]; lia. }
  assert (Hls0 : code_lengths sc0 code_lens n = ls).
  { apply code_lengths_ext. intros a Ha. apply H0out. lia. }
  pose proof (prepare_huffman_counts_spec n 0 sc0 code_lens out Hb0) as HC.
  cbv zeta in HC. rewrite Z.add_0_r, Hls0 in HC.
  destruct (prepare_huffman_counts n 0 sc0 code_lens out) as [sc1 ok] eqn:E1.
  cbn [fst snd] in HC.
  destruct HC as (C1 & C2 & C3 & C4).
  { lia. }
  { intros l Hl. rewrite (H0in l Hl).
    pose proof (count_of_range l ls) as R.
    unfold ls, code_lengths in R. rewrite length_map, length_seq in R.
    fold (code_lengths sc code_lens n) in R. fold ls in R. lia. }
  destruct (Forall_dec (fun x => x <= 15) (fun x => Z_le_dec x 15) ls) as [F|NF].
  - destruct (C3 F) as [-> Hcnt].
    assert (Hls1 : code_lengths sc1 code_lens n = ls).
    { rewrite <- Hls0. apply code_lengths_ext. intros a Ha. apply C2. lia. }
    pose proof (prepare_huffman_codes_spec 15 1 sc1 code_lens n (out + 32) C1
                  ltac:(lia)) as HS.
    cbv zeta in HS. rewrite Hls1 in HS.
    pose proof (length_symbols_by_length_le 15 1 ls) as Hle.
    assert (Hlen : length ls = n)
      by (unfold ls, code_lengths; rewrite length_map, length_seq; reflexivity).
    destruct (prepare_huffman_codes 15 1 sc1 code_lens n (out + 32))
      as [sc2 oc2] eqn:E2.
    cbn [fst snd] in HS.
    destruct HS as (S1 & S2 & S3 & S4); [lia|].
    cbn [scratch set_scratch have_error].
    split; [exact S1|]. split; [intros C; contradiction|]. intros _.
    split; [reflexivity|]. split; [|split].
    + intros l Hl. unfold table_count.
      rewrite (get16_ext sc2 sc1) by (intros b Hb'; apply S4; lia).
      rewrite (Hcnt l Hl), (H0in l Hl). lia.
    + intros k Hk. unfold table_symbol.
      replace (out + 32 + 2 * Z.of_nat k) with (out + 32 + 2 * Z.of_nat k) by lia.
      apply S3. exact Hk.
    + intros a Ha. rewrite S4 by lia. rewrite C2 by lia. apply H0out. lia.
  - rewrite (C4 NF). cbn [scratch set_scratch have_error set_have_error].
    split; [exact C1|]. split; [reflexivity|]. intros C. contradiction.
Qed.

(** ** Decoding with a prepared table *)

Lemma symbols_by_length_app a : forall b l ls,
  symbols_by_length (a + b) l ls
  = symbols_by_length a l ls ++ symbols_by_length b (l + Z.of_nat a) ls.
Proof.
  induction a as [|a IH]; intros b l ls.
  - cbn [Nat.add symbols_by_length app]. rewrite Z.add_0_r. reflexivity.
  - cbn [Nat.add symbols_by_length]. rewrite IH, <- app_assoc.
    do 3 f_equal. lia.
Qed.

Lemma symbols_of_length_nth l pre : forall base post,
  nth (Z.to_nat (count_of l pre)) (symbols_of_length l base (pre ++ l :: post)) 0
  = base + Z.of_nat (length pre).
Proof.
  induction pre as [|x pre IH]; intros base post.
  - cbn [app symbols_of_length length]. rewrite Z.eqb_refl.
    change (count_of l []) with 0. cbn [Z.to_nat nth]. lia.
  - cbn [app symbols_of_length length]. rewrite count_of_cons.
    pose proof (count_of_range l pre) as R.
    destruct (x =? l).
    + replace (Z.to_nat (1 + count_of l pre)) with (S (Z.to_nat (count_of l pre)))
        by lia.
      cbn [nth]. rewrite IH. lia.
    + rewrite Z.add_0_l, IH. lia.
Qed.

Lemma count_of_app l xs ys :
  count_of l (xs ++ ys) = count_of l xs + count_of l ys.
Proof.
  unfold count_of. rewrite filter_app, length_app. lia.
Qed.

Lemma counts_upto_table sc huff ls k :
  (forall l, 0 <= l <= 15 -> table_count sc huff l = count_of l ls) ->
  (k <= 15)%nat ->
  counts_upto sc huff k = Z.of_nat (length (symbols_by_length k 1 ls)).
Proof.
  intros H. induction k as [|k IH]; intros Hk; [reflexivity|].
  cbn [counts_upto]. rewrite IH by lia. rewrite H by lia.
  replace (S k) with (k + 1)%nat at 2 by lia.
  rewrite symbols_by_length_app, length_app, Nat2Z.inj_add.
  cbn [symbols_by_length]. rewrite app_nil_r, length_symbols_of_length.
  f_equal. f_equal. lia.
Qed.

Lemma first_code_table sc huff ls k :
  (forall l, 0 <= l <= 15 -> table_count sc huff l = count_of l ls) ->
  (k <= 15)%nat ->
  first_code sc huff k = next_code ls k.
Proof.
  intros H. induction k as [|k IH]; intros Hk; [reflexivity|].
  cbn [first_code next_code]. rewrite IH by lia. rewrite H by lia.
  reflexivity.
Qed.

(** In the symbols by length, the symbol [s] stands behind the symbols of
    smaller lengths and the smaller symbols of its own length. *)
Lemma symbols_by_length_nth ls s len :
  (s < length ls)%nat -> nth s ls 0 = Z.of_nat len ->
  (1 <= len <= 15)%nat ->
  let idx := (length (symbols_by_length (len - 1) 1 ls)
              + Z.to_nat (count_of (Z.of_nat len) (firstn s ls)))%nat in
  (idx < length (symbols_by_length 15 1 ls))%nat /\
  nth idx (symbols_by_length 15 1 ls) 0 = Z.of_nat s.
Proof.
  intros Hs Hn Hlen. cbv zeta.
  replace 15%nat with ((len - 1) + (1 + (15 - len)))%nat at 1 2 by lia.
  rewrite !symbols_by_length_app.
  cbn [symbols_by_length]. rewrite app_nil_r.
  replace (1 + Z.of_nat (len - 1)) with (Z.of_nat len) by lia.
  set (A := symbols_by_length (len - 1) 1 ls).
  set (B := symbols_of_length (Z.of_nat len) 0 ls).
  set (C := symbols_by_length (15 - len) (Z.of_nat len + Z.of_nat 1) ls).
  assert (Hsplit : ls = firstn s ls ++ Z.of_nat len :: skipn (S s) ls).
  { rewrite <- Hn. rewrite <- (firstn_skipn s ls) at 1. f_equal.
    clear -Hs. revert ls Hs. induction s as [|s IH]; intros ls Hs.
    - destruct ls; [cbn in Hs; lia|reflexivity].
    - destruct ls as [|x ls]; [cbn in Hs; lia|].
      cbn [skipn nth]. rewrite <- IH by (cbn in Hs; lia). reflexivity. }
  pose proof (count_of_range (Z.of_nat len) (firstn s ls)) as R.
  assert (HB : nth (Z.to_nat (count_of (Z.of_nat len) (firstn s ls))) B 0
               = Z.of_nat s).
  { unfold B. rewrite Hsplit at 2. rewrite symbols_of_length_nth.
    rewrite length_firstn. lia. }
  assert (HlenB : (Z.to_nat (count_of (Z.of_nat len) (firstn s ls)) < length B)%nat).
  { pose proof (length_symbols_of_length (Z.of_nat len) ls 0) as L. fold B in L.
    rewrite Hsplit in L at 1. rewrite count_of_app, count_of_cons, Z.eqb_refl in L.
    pose proof (count_of_range (Z.of_nat len) (skipn (S s) ls)). lia. }
  split.
  - rewrite !length_app. lia.
  - rewrite app_nth2 by lia.
    replace (length A + Z.to_nat (count_of (Z.of_nat len) (firstn s ls)) - length A)%nat
      with (Z.to_nat (count_of (Z.of_nat len) (firstn s ls))) by lia.
    rewrite app_nth1 by exact HlenB. exact HB.
Qed.

Lemma prepare_huffman_reader st code_lens n out :
  let st' := lowzip_prepare_huffman st code_lens n out in
  read_callback st' = read_callback st /\ read_offset st' = read_offset st /\
  curr st' = curr st /\ have st' = have st.
Proof.
  cbv zeta. unfold lowzip_prepare_huffman. cbv zeta.
  destruct (prepare_huffman_counts n 0 (memset (scratch st) out 0 32) code_lens out)
    as [sc1 [|]].
  - destruct (prepare_huffman_codes 15 1 sc1 code_lens n (out + 32)) as [sc2 oc].
    repeat split.
  - repeat split.
Qed.

Lemma rank_below_count l ls s :
  (s < length ls)%nat -> nth s ls 0 = l ->
  0 <= count_of l (firstn s ls) < count_of l ls.
Proof.
  intros Hs Hn.
  assert (Hsplit : ls = firstn s ls ++ l :: skipn (S s) ls).
  { rewrite <- Hn. rewrite <- (firstn_skipn s ls) at 1. f_equal.
    clear -Hs. revert ls Hs. induction s as [|s IH]; intros ls Hs.
    - destruct ls; [cbn in Hs; lia|reflexivity].
    - destruct ls as [|x ls]; [cbn in Hs; lia|].
      cbn [skipn nth]. rewrite <- IH by (cbn in Hs; lia). reflexivity. }
  pose proof (count_of_range l (firstn s ls)) as R1.
  pose proof (count_of_range l (skipn (S s) ls)) as R2.
  rewrite Hsplit at 3. rewrite count_of_app, count_of_cons, Z.eqb_refl. lia.
Qed.

(** A table prepared from code lengths decodes the canonical code of those
    lengths. *)
Lemma prepared_table_decodes st code_lens n out s len st' t :
  callback_contract (read_callback st) ->
  byte_store (scratch st) -> Z.of_nat n < 65536 ->
  out + 32 + 2 * Z.of_nat n <= code_lens \/ code_lens + Z.of_nat n <= out ->
  Forall (fun x => x <= 15) (code_lengths (scratch st) code_lens n) ->
  (s < n)%nat ->
  nth s (code_lengths (scratch st) code_lens n) 0 = Z.of_nat len ->
  (1 <= len <= 15)%nat ->
  canonical_code (code_lengths (scratch st) code_lens n) s < 2 ^ Z.of_nat len ->
  bit_reader_synced st ->
  bits_available st (Z.of_nat len) ->
  stream_spells (read_callback st) (stream_position st) (Z.of_nat len)
    (canonical_code (code_lengths (scratch st) code_lens n) s) ->
  lowzip_decode_huffman (lowzip_prepare_huffman st code_lens n out) out
  = (st', t) ->
  t = Z.of_nat s /\ bit_reader_synced st' /\
  stream_position st' = stream_position st + Z.of_nat len /\
  have_error st' = have_error st.
Proof.
  intros Hcb Hb Hn Hdis HF Hs Hnth Hlen Hc Hsync Hav Hsp H.
  pose proof (prepare_huffman_spec st code_lens n out Hb Hn Hdis) as P.
  pose proof (prepare_huffman_reader st code_lens n out) as R.
  cbv zeta in P, R.
  set (st1 := lowzip_prepare_huffman st code_lens n out) in *.
  set (ls := code_lengths (scratch st) code_lens n) in *.
  destruct P as (Hb1 & _ & P). destruct (P HF) as (He1 & Hcnt & Hsym & _).
  destruct R as (Rc & Ro & Rcu & Rh).
  destruct (synced_transfer st st1 Rc Ro Rcu Rh Hsync) as [S1 P1].
  assert (Hlenls : length ls = n)
    by (unfold ls, code_lengths; rewrite length_map, length_seq; reflexivity).
  assert (Ecode : canonical_code ls s
                  = next_code ls (len - 1)
                    + count_of (Z.of_nat len) (firstn s ls)).
  { unfold canonical_code. rewrite Hnth, Nat2Z.id. reflexivity. }
  pose proof (rank_below_count (Z.of_nat len) ls s ltac:(lia) Hnth) as Hrank.
  pose proof (first_code_table (scratch st1) out ls (len - 1) Hcnt ltac:(lia))
    as Efc.
  pose proof (first_code_nonneg (scratch st1) out (len - 1) Hb1) as Hnn.
  pose proof (counts_upto_table (scratch st1) out ls (len - 1) Hcnt ltac:(lia))
    as Ecu.
  apply (decode_huffman_finds st1 out len (canonical_code ls s)) in H;
    try assumption.
  - destruct H as (-> & S' & P' & C' & E' & _).
    split; [|split; [exact S'|split; [rewrite P', P1; reflexivity|congruence]]].
    rewrite Ecu, Efc, Ecode.
    pose proof (symbols_by_length_nth ls s len ltac:(lia) Hnth Hlen) as [Hi Hv].
    rewrite <- Hv. rewrite <- Hsym by exact Hi. f_equal. lia.
  - rewrite Rc. exact Hcb.
  - intros o Ho1 Ho2. rewrite Rc. apply Hav; [rewrite <- Ro; exact Ho1|].
    rewrite <- Ro, <- Rh. exact Ho2.
  - rewrite Rc, P1. exact Hsp.
  - rewrite Efc in Hnn. rewrite Ecode in *. lia.
  - rewrite Efc, (Hcnt (Z.of_nat len)) by lia. rewrite Ecode. lia.
Qed.

Lemma sample_lengths_bytes : byte_store (scratch sample_lengths_state).
Proof.
  intros a. cbn [scratch sample_lengths_state set_scratch].
  destruct (a =? 100); [lia|]. destruct (a =? 101); [lia|].
  destruct (a =? 102); [lia|]. destruct (a =? 103); lia.
Qed.

Lemma symbols_of_length_in l ls : forall base x,
  In x (symbols_of_length l base ls) ->
  base <= x < base + Z.of_nat (length ls) /\
  nth (Z.to_nat (x - base)) ls 0 = l.
Proof.
  induction ls as [|y ls IH]; intros base x Hin;
    cbn [symbols_of_length] in Hin; [contradiction|].
  cbn [length].
  assert (Hrec : In x (symbols_of_length l (base + 1) ls) ->
                 base <= x < base + Z.of_nat (S (length ls)) /\
                 nth (Z.to_nat (x - base)) (y :: ls) 0 = l).
  { intros Hx. apply IH in Hx. destruct Hx as [Hr Hn]. split; [lia|].
    replace (Z.to_nat (x - base)) with (S (Z.to_nat (x - (base + 1)))) by lia.
    exact Hn. }
  destruct (Z.eqb_spec y l) as [->|Hne].
  - destruct Hin as [<-|Hin]; [|exact (Hrec Hin)].
    split; [lia|]. rewrite Z.sub_diag. reflexivity.
  - exact (Hrec Hin).
Qed.

Lemma symbols_by_length_in m : forall l ls x,
  In x (symbols_by_length m l ls) ->
  0 <= x < Z.of_nat (length ls) /\
  l <= nth (Z.to_nat x) ls 0 < l + Z.of_nat m.
Proof.
  induction m as [|m IH]; intros l ls x Hin; cbn [symbols_by_length] in Hin;
    [contradiction|].
  apply in_app_or in Hin. destruct Hin as [Hin|Hin].
  - apply symbols_of_length_in in Hin. rewrite Z.sub_0_r in Hin.
    destruct Hin as [Hr Hn]. split; lia.
  - apply IH in Hin. destruct Hin as [Hr Hn]. split; lia.
Qed.

(** A table prepared from [n] code lengths only yields symbols below [n]
    that have a code length between 1 and 15. *)
Lemma prepared_table_symbols st code_lens n out st' t :
  byte_store (scratch st) -> Z.of_nat n < 65536 ->
  out + 32 + 2 * Z.of_nat n <= code_lens \/ code_lens + Z.of_nat n <= out ->
  Forall (fun x => x <= 15) (code_lengths (scratch st) code_lens n) ->
  lowzip_decode_huffman (lowzip_prepare_huffman st code_lens n out) out
  = (st', t) ->
  (t = 0 /\ have_error st' = 1)
  \/ (0 <= t < Z.of_nat n /\
      1 <= nth (Z.to_nat t) (code_lengths (scratch st) code_lens n) 0 <= 15).
Proof.
  intros Hb Hn Hdis HF H.
  pose proof (prepare_huffman_spec st code_lens n out Hb Hn Hdis) as P.
  cbv zeta in P.
  set (st1 := lowzip_prepare_huffman st code_lens n out) in *.
  set (ls := code_lengths (scratch st) code_lens n) in *.
  destruct P as (Hb1 & _ & P). destruct (P HF) as (_ & Hcnt & Hsym & _).
  apply (decode_huffman_in_table st1 out st' t Hb1) in H.
  destruct H as [(idx & Hidx & ->)|H]; [right|left; exact H].
  rewrite (counts_upto_table (scratch st1) out ls 15 Hcnt) in Hidx by lia.
  replace idx with (Z.of_nat (Z.to_nat idx)) by lia.
  rewrite Hsym by lia.
  assert (Hin : In (nth (Z.to_nat idx) (symbols_by_length 15 1 ls) 0)
                   (symbols_by_length 15 1 ls)) by (apply nth_In; lia).
  apply symbols_by_length_in in Hin.
  assert (Hlen : length ls = n)
    by (unfold ls, code_lengths; rewrite length_map, length_seq; reflexivity).
  rewrite Hlen in Hin. destruct Hin as [Hr Hl]. split; [exact Hr|lia].
Qed.

(** ** Writes to the scratch area *)

Lemma scratch_confined_refl st : scratch_confined st st.
Proof. intros H. split; [exact H|reflexivity]. Qed.

Lemma scratch_confined_trans st1 st2 st3 :
  scratch_confined st1 st2 -> scratch_confined st2 st3 ->
  scratch_confined st1 st3.
Proof.
  intros H12 H23 Hb. destruct (H12 Hb) as [Hb2 F12].
  destruct (H23 Hb2) as [Hb3 F23]. split; [exact Hb3|].
  intros a Ha. rewrite F23, F12 by exact Ha. reflexivity.
Qed.

Lemma scratch_confined_same st st' :
  scratch st' = scratch st -> scratch_confined st st'.
Proof. intros E Hb. rewrite E. split; [exact Hb|reflexivity]. Qed.

Lemma reads_only_scratch st st' : reads_only st st' -> scratch st' = scratch st.
Proof. intros (_ & _ & _ & _ & _ & _ & _ & Es & _). exact Es. Qed.

Lemma write_byte_scratch st ch : scratch (lowzip_write_byte st ch) = scratch st.
Proof.
  unfold lowzip_write_byte. destruct (output_end st <=? output_next st);
    reflexivity.
Qed.

Lemma uncompressed_copy_scratch n : forall st,
  scratch (uncompressed_copy n st) = scratch st.
Proof.
  induction n as [|n IH]; intros st; cbn [uncompressed_copy]; [reflexivity|].
  destruct (lowzip_read_byte st) as [st1 x] eqn:E.
  apply read_byte_reads_only, reads_only_scratch in E.
  rewrite IH, write_byte_scratch. exact E.
Qed.

Lemma decode_uncompressed_block_scratch st :
  scratch (lowzip_decode_uncompressed_block st) = scratch st.
Proof.
  unfold lowzip_decode_uncompressed_block. cbv zeta.
  destruct (lowzip_read_byte (lowzip_reset_bitstate st)) as [st1 b0] eqn:E1.
  destruct (lowzip_read_byte st1) as [st2 b1] eqn:E2.
  destruct (lowzip_read_byte st2) as [st3 b2] eqn:E3.
  destruct (lowzip_read_byte st3) as [st4 b3] eqn:E4.
  apply read_byte_reads_only, reads_only_scratch in E1, E2, E3, E4.
  change (scratch (lowzip_reset_bitstate st)) with (scratch st) in E1.
  rewrite uncompressed_copy_scratch. congruence.
Qed.

Lemma back_reference_scratch st sh t st' :
  back_reference st sh t = Continue st' \/ back_reference st sh t = Failed st' ->
  scratch st' = scratch st.
Proof.
  intros H.
  destruct (back_reference_cases st sh t)
    as [(st1 & E & R)|(st1 & bl & bd & E & R & _)]; rewrite E in H.
  - destruct H as [H|H]; [discriminate|]. injection H as <-.
    apply reads_only_scratch in R. exact R.
  - destruct H as [H|H]; [|discriminate]. injection H as <-.
    pose proof (back_reference_copy_frame (Z.to_nat bl) st1 bd) as F.
    cbv zeta in F.
    destruct F as (_ & _ & _ & _ & _ & _ & _ & _ & _ & _ & Fs & _).
    apply reads_only_scratch in R. congruence.
Qed.

(** The literal/length loop does not write to the scratch area. *)
Lemma decode_huffman_block_data_scratch fuel : forall st sh st',
  lowzip_decode_huffman_block_data fuel st sh = Some st' ->
  scratch st' = scratch st.
Proof.
  induction fuel as [|fuel IH]; intros st sh st' H;
    cbn [lowzip_decode_huffman_block_data] in H; [discriminate|].
  destruct (negb (have_error st =? 0)); [injection H as <-; reflexivity|].
  destruct (literal_length st sh) as [st1 t] eqn:E.
  apply literal_length_reads_only, reads_only_scratch in E.
  destruct (t <? 256).
  - apply IH in H. rewrite H, write_byte_scratch. exact E.
  - destruct (t =? 256); [injection H as <-; exact E|].
    destruct (back_reference st1 sh t) as [st2|st2] eqn:B.
    + apply IH in H.
      rewrite H, (back_reference_scratch st1 sh t st2 (or_introl B)). exact E.
    + injection H as <-.
      rewrite (back_reference_scratch st1 sh t st2 (or_intror B)). exact E.
Qed.

(** [lowzip_prepare_huffman] writes only to the table. *)
Lemma prepare_huffman_footprint st code_lens n out :
  byte_store (scratch st) -> Z.of_nat n < 65536 ->
  out + 32 + 2 * Z.of_nat n <= code_lens \/ code_lens + Z.of_nat n <= out ->
  byte_store (scratch (lowzip_prepare_huffman st code_lens n out)) /\
  forall a, ~ (out <= a < out + 32 + 2 * Z.of_nat n) ->
    scratch (lowzip_prepare_huffman st code_lens n out) a = scratch st a.
Proof.
  intros Hb Hn Hdis.
  pose proof (prepare_huffman_spec st code_lens n out Hb Hn Hdis) as P.
  cbv zeta in P. destruct P as (Hb1 & _ & P). split; [exact Hb1|].
  set (ls := code_lengths (scratch st) code_lens n) in *.
  destruct (Forall_dec (fun x => x <= 15) (fun x => Z_le_dec x 15) ls) as [F|NF].
  - destruct (P F) as (_ & _ & _ & Fr). intros a Ha. apply Fr.
    pose proof (length_symbols_by_length_le 15 1 ls) as Hle.
    assert (Hlen : length ls = n)
      by (unfold ls, code_lengths; rewrite length_map, length_seq; reflexivity).
    lia.
  - unfold lowzip_prepare_huffman. cbv zeta.
    set (sc0 := memset (scratch st) out 0 32).
    assert (Hb0 : byte_store sc0) by (apply byte_store_memset; [exact Hb|lia]).
    assert (H0out : forall a, ~ (out <= a < out + 32) -> sc0 a = scratch st a).
    { intros a Ha. unfold sc0. rewrite memset_spec.
      destruct (Z.leb_spec out a), (Z.ltb_spec a (out + Z.of_nat 32));
        cbn [andb]; try reflexivity. lia. }
    pose proof (prepare_huffman_counts_spec n 0 sc0 code_lens out Hb0) as HC.
    cbv zeta in HC. rewrite Z.add_0_r in HC.
    assert (Hls0 : code_lengths sc0 code_lens n = ls).
    { apply code_lengths_ext. intros a Ha. apply H0out. lia. }
    rewrite Hls0 in HC.
    destruct (prepare_huffman_counts n 0 sc0 code_lens out) as [sc1 ok] eqn:E1.
    cbn [fst snd] in HC.
    destruct HC as (_ & C2 & _ & C4).
    { lia. }
    { intros l Hl.
      assert (E0 : get16 sc0 (out + 2 * l) = 0).
      { unfold get16, sc0. rewrite !memset_spec.
        destruct (Z.leb_spec out (out + 2 * l)),
                 (Z.ltb_spec (out + 2 * l) (out + Z.of_nat 32)),
                 (Z.leb_spec out (out + 2 * l + 1)),
                 (Z.ltb_spec (out + 2 * l + 1) (out + Z.of_nat 32));
          cbn [andb]; lia. }
      rewrite E0. pose proof (count_of_range l ls) as R.
      assert (Hlen : length ls = n)
        by (unfold ls, code_lengths; rewrite length_map, length_seq; reflexivity).
      lia. }
    rewrite (C4 NF). cbn [scratch set_scratch set_have_error].
    intros a Ha. rewrite C2 by lia. apply H0out. lia.
Qed.

Lemma codelen_order_range i : 0 <= lowzip_codelen_order i <= 18.
Proof.
  unfold lowzip_codelen_order, tab. generalize (Z.to_nat i). intros n.
  do 19 (destruct n as [|n]; [cbn; lia|]). destruct n; cbn; lia.
Qed.

Lemma read_codelen_code_lens_footprint n : forall i st,
  byte_store (scratch st) ->
  byte_store (scratch (read_codelen_code_lens n i st)) /\
  forall a, ~ (70 <= a < 89) ->
    scratch (read_codelen_code_lens n i st) a = scratch st a.
Proof.
  induction n as [|n IH]; intros i st Hb; cbn [read_codelen_code_lens].
  - split; [exact Hb|reflexivity].
  - destruct (lowzip_read_bits st 3) as [st1 x] eqn:E.
    apply read_bits_reads_only, reads_only_scratch in E.
    pose proof (codelen_order_range i) as Ho.
    match goal with
    | |- context [read_codelen_code_lens n ?j ?s] =>
        destruct (IH j s) as [I1 I2]
    end.
    + cbn [scratch set_scratch]. apply byte_store_upd;
        [rewrite E; exact Hb|apply Z.mod_pos_bound; lia].
    + split; [exact I1|]. intros a Ha. rewrite I2 by exact Ha.
      cbn [scratch set_scratch]. unfold codelen_code_lens.
      rewrite upd_other by lia. rewrite E. reflexivity.
Qed.

Lemma repeat_code_length_footprint n : forall sc i limit rep_code,
  byte_store sc -> 0 <= rep_code < 256 -> 0 <= i -> limit <= 320 ->
  let r := repeat_code_length n sc i limit rep_code in
  byte_store (fst r) /\
  (forall a, ~ (700 <= a < 1020) -> fst r a = sc a) /\
  (forall i', snd r = Some i' -> 0 <= i').
Proof.
  induction n as [|n IH]; intros sc i limit rep_code Hb Hr Hi Hl;
    cbv zeta; cbn [repeat_code_length].
  - cbn [fst snd]. split; [exact Hb|]. split; [reflexivity|].
    intros i' H. injection H as <-. exact Hi.
  - destruct (Z.leb_spec limit i) as [Hge|Hlt].
    + cbn [fst snd]. split; [exact Hb|]. split; [reflexivity|].
      intros i' H. discriminate H.
    + assert (Ei : add32 i 1 = i + 1) by (unfold add32; apply u32_small; lia).
      rewrite Ei.
      specialize (IH (upd sc (temp_code_lens + i) rep_code) (i + 1) limit rep_code).
      cbv zeta in IH.
      destruct IH as (I1 & I2 & I3); try lia.
      * apply byte_store_upd; assumption.
      * split; [exact I1|]. split; [|exact I3].
        intros a Ha. rewrite I2 by exact Ha. unfold temp_code_lens.
        apply upd_other. lia.
Qed.

Lemma code_length_symbol_byte st i t st2 r :
  byte_store (scratch st) ->
  code_length_symbol st i t = (st2, r) ->
  scratch st2 = scratch st /\
  forall rep_code rep_count, r = Some (rep_code, rep_count) ->
    0 <= rep_code < 256.
Proof.
  intros Hb H. split.
  - apply code_length_symbol_reads_only, reads_only_scratch in H. exact H.
  - revert H. unfold code_length_symbol.
    destruct (t <? 16).
    { intros H. apply pair_eq_inv in H. destruct H as [_ <-].
      intros rc cnt E. injection E as <- _. apply Z.mod_pos_bound. lia. }
    destruct (t =? 16).
    { destruct (i =? 0).
      - intros H. apply pair_eq_inv in H. destruct H as [_ <-].
        intros rc cnt E. discriminate E.
      - destruct (lowzip_read_bits st 2) as [st1 x].
        intros H. apply pair_eq_inv in H. destruct H as [_ <-].
        intros rc cnt E. injection E as <- _. apply Hb. }
    destruct (t =? 17).
    { destruct (lowzip_read_bits st 3) as [st1 x].
      intros H. apply pair_eq_inv in H. destruct H as [_ <-].
      intros rc cnt E. injection E as <- _. lia. }
    destruct (negb (t =? 18)).
    { intros H. apply pair_eq_inv in H. destruct H as [_ <-].
      intros rc cnt E. discriminate E. }
    destruct (lowzip_read_bits st 7) as [st1 x].
    intros H. apply pair_eq_inv in H. destruct H as [_ <-].
    intros rc cnt E. injection E as <- _. lia.
Qed.

(** The loop that expands the code lengths writes only to the 320 bytes
    at the end of the scratch area. *)
Lemma decode_code_lengths_footprint fuel : forall st i limit c,
  byte_store (scratch st) -> 0 <= i -> limit <= 320 ->
  decode_code_lengths fuel st i limit = Some c ->
  let st' := match c with Continue s => s | Failed s => s end in
  byte_store (scratch st') /\
  forall a, ~ (700 <= a < 1020) -> scratch st' a = scratch st a.
Proof.
  induction fuel as [|fuel IH]; intros st i limit c Hb Hi Hl H;
    cbn [decode_code_lengths] in H; [discriminate|].
  destruct (i =? limit).
  { injection H as <-. cbv zeta. split; [exact Hb|reflexivity]. }
  destruct (lowzip_decode_huffman st 0) as [st1 t] eqn:E1.
  apply decode_huffman_reads_only, reads_only_scratch in E1.
  assert (Hb1 : byte_store (scratch st1)) by (rewrite E1; exact Hb).
  destruct (code_length_symbol st1 i t) as [st2 r] eqn:E2.
  destruct (code_length_symbol_byte st1 i t st2 r Hb1 E2) as [Es2 Hrc].
  assert (Hb2 : byte_store (scratch st2)) by (rewrite Es2; exact Hb1).
  destruct r as [[rep_code rep_count]|].
  - pose proof (Hrc rep_code rep_count eq_refl) as Hr.
    pose proof (repeat_code_length_footprint (Z.to_nat rep_count) (scratch st2)
                  i limit rep_code Hb2 Hr Hi Hl) as F.
    cbv zeta in F.
    destruct (repeat_code_length (Z.to_nat rep_count) (scratch st2) i limit
                rep_code) as [sc r'] eqn:E3.
    cbn [fst snd] in F. destruct F as (F1 & F2 & F3).
    destruct r' as [i'|].
    + apply IH in H; [|exact F1|apply F3; reflexivity|exact Hl].
      cbv zeta in H |- *. cbn [scratch set_scratch] in H.
      destruct H as [H1 H2]. split; [exact H1|].
      intros a Ha. rewrite H2, F2 by exact Ha. congruence.
    + injection H as <-. cbv zeta. cbn [scratch set_scratch set_have_error].
      split; [exact F1|]. intros a Ha. rewrite F2 by exact Ha. congruence.
  - injection H as <-. cbv zeta. cbn [scratch set_have_error].
    split; [exact Hb2|]. intros a Ha. congruence.
Qed.

(** A dynamic block writes only to the scratch area: the code length
    table and its lengths in the first 89 bytes, the expanded lengths in
    the last 320 bytes, the literal/length table in the first 608 bytes
    and the distance table in the 96 bytes from 604 on. *)
Lemma decode_dynamic_huffman_block_confined fuel st st' :
  lowzip_decode_dynamic_huffman_block fuel st = Some st' ->
  scratch_confined st st'.
Proof.
  unfold lowzip_decode_dynamic_huffman_block. intros H Hb.
  destruct (lowzip_read_bits st 5) as [st1 x1] eqn:E1.
  destruct (lowzip_read_bits st1 5) as [st2 x2] eqn:E2.
  destruct (lowzip_read_bits st2 4) as [st3 x3] eqn:E3.
  assert (Hx1 : 0 <= x1 < 2 ^ 5) by (eapply read_bits_range; [|exact E1]; lia).
  assert (Hx2 : 0 <= x2 < 2 ^ 5) by (eapply read_bits_range; [|exact E2]; lia).
  change (2 ^ 5) with 32 in Hx1, Hx2.
  apply read_bits_reads_only, reads_only_scratch in E1, E2, E3.
  assert (Es3 : scratch st3 = scratch st) by congruence.
  assert (Enl : add32 x1 257 = x1 + 257) by (unfold add32; apply u32_small; lia).
  assert (End : add32 x2 1 = x2 + 1) by (unfold add32; apply u32_small; lia).
  rewrite Enl, End in H.
  assert (Elim : add32 (x1 + 257) (x2 + 1) = x1 + 257 + (x2 + 1))
    by (unfold add32; apply u32_small; lia).
  rewrite Elim in H. cbv zeta in H.
  set (st4 := set_scratch st3 (memset (scratch st3) codelen_code_lens 0 19)) in *.
  assert (Hb4 : byte_store (scratch st4)).
  { cbn [scratch st4 set_scratch]. apply byte_store_memset; [|lia].
    rewrite Es3. exact Hb. }
  assert (F4 : forall a, ~ (70 <= a < 89) -> scratch st4 a = scratch st a).
  { intros a Ha. cbn [scratch st4 set_scratch]. rewrite memset_spec.
    unfold codelen_code_lens.
    destruct (Z.leb_spec 70 a), (Z.ltb_spec a (70 + Z.of_nat 19));
      cbn [andb]; try (rewrite Es3; reflexivity). lia. }
  set (st5 := read_codelen_code_lens (Z.to_nat (add32 x3 4)) 0 st4) in *.
  destruct (read_codelen_code_lens_footprint (Z.to_nat (add32 x3 4)) 0 st4 Hb4)
    as [Hb5 F5]. fold st5 in Hb5, F5.
  set (st6 := lowzip_prepare_huffman st5 codelen_code_lens 19 0) in *.
  destruct (prepare_huffman_footprint st5 codelen_code_lens 19 0 Hb5)
    as [Hb6 F6]; [lia|left; unfold codelen_code_lens; lia|].
  fold st6 in Hb6, F6.
  assert (F06 : forall a, ~ (0 <= a < 1020) -> scratch st6 a = scratch st a).
  { intros a Ha. rewrite F6 by lia. rewrite F5 by lia. apply F4. lia. }
  destruct (negb (have_error st6 =? 0)).
  { injection H as <-. split; [exact Hb6|exact F06]. }
  destruct (decode_code_lengths fuel st6 0 (x1 + 257 + (x2 + 1))) as [c|] eqn:E7;
    [|discriminate].
  assert (Hlim : x1 + 257 + (x2 + 1) <= 320) by lia.
  pose proof (decode_code_lengths_footprint fuel st6 0 (x1 + 257 + (x2 + 1)) c
                Hb6 (Z.le_refl 0) Hlim E7) as F7.
  cbv zeta in F7.
  destruct c as [st7|st7]; destruct F7 as [Hb7 F7].
  2:{ injection H as <-. split; [exact Hb7|].
      intros a Ha. rewrite F7 by lia. apply F06. exact Ha. }
  set (st8 := lowzip_prepare_huffman st7 temp_code_lens (Z.to_nat (x1 + 257))
                LOWZIP_SCRATCH_HUFF_LIT) in *.
  destruct (prepare_huffman_footprint st7 temp_code_lens (Z.to_nat (x1 + 257))
              LOWZIP_SCRATCH_HUFF_LIT Hb7) as [Hb8 F8];
    [lia|left; unfold temp_code_lens, LOWZIP_SCRATCH_HUFF_LIT; lia|].
  fold st8 in Hb8, F8.
  assert (F08 : forall a, ~ (0 <= a < 1020) -> scratch st8 a = scratch st a).
  { intros a Ha. rewrite F8 by (unfold LOWZIP_SCRATCH_HUFF_LIT; lia).
    rewrite F7 by lia. apply F06. exact Ha. }
  destruct (negb (have_error st8 =? 0)).
  { injection H as <-. split; [exact Hb8|exact F08]. }
  set (st9 := lowzip_prepare_huffman st8 (temp_code_lens + (x1 + 257))
                (Z.to_nat (x2 + 1)) LOWZIP_SCRATCH_HUFF_DIST) in *.
  destruct (prepare_huffman_footprint st8 (temp_code_lens + (x1 + 257))
              (Z.to_nat (x2 + 1)) LOWZIP_SCRATCH_HUFF_DIST Hb8) as [Hb9 F9];
    [lia|left; unfold temp_code_lens, LOWZIP_SCRATCH_HUFF_DIST; lia|].
  fold st9 in Hb9, F9.
  assert (F09 : forall a, ~ (0 <= a < 1020) -> scratch st9 a = scratch st a).
  { intros a Ha. rewrite F9 by (unfold LOWZIP_SCRATCH_HUFF_DIST; lia).
    apply F08. exact Ha. }
  destruct (negb (have_error st9 =? 0)).
  { injection H as <-. split; [exact Hb9|exact F09]. }
  apply decode_huffman_block_data_scratch in H. rewrite H.
  split; [exact Hb9|exact F09].
Qed.

Lemma decode_inflate_blocks_confined fuel : forall st st',
  lowzip_decode_inflate_blocks fuel st = Some st' -> scratch_confined st st'.
Proof.
  induction fuel as [|fuel IH]; intros st st' H;
    cbn [lowzip_decode_inflate_blocks] in H; [discriminate|].
  destruct (negb (have_error st =? 0));
    [injection H as <-; apply scratch_confined_refl|].
  destruct (lowzip_read_bits st 3) as [st1 hdr] eqn:E1.
  apply read_bits_reads_only, reads_only_scratch in E1.
  assert (S1 : scratch_confined st st1) by (apply scratch_confined_same; exact E1).
  match type of H with
  | match ?b with _ => _ end = _ => destruct b as [st2|] eqn:B; [|discriminate]
  end.
  assert (S2 : scratch_confined st1 st2).
  { destruct (Z.shiftr hdr 1 =? 0).
    { injection B as <-. apply scratch_confined_same.
      apply decode_uncompressed_block_scratch. }
    destruct (Z.shiftr hdr 1 =? 1).
    { apply scratch_confined_same.
      unfold lowzip_decode_static_huffman_block in B.
      eapply decode_huffman_block_data_scratch. exact B. }
    destruct (Z.shiftr hdr 1 =? 2).
    { eapply decode_dynamic_huffman_block_confined. exact B. }
    injection B as <-. apply scratch_confined_same. reflexivity. }
  assert (S12 : scratch_confined st st2)
    by (eapply scratch_confined_trans; eassumption).
  destruct (negb (Z.land hdr 1 =? 0)).
  - injection H as <-. exact S12.
  - apply IH in H. eapply scratch_confined_trans; eassumption.
Qed.

Lemma inflate_raw_scratch fuel st st' :
  lowzip_inflate_raw fuel st = Some st' -> scratch_confined st st'.
Proof.
  unfold lowzip_inflate_raw. intros H.
  apply decode_inflate_blocks_confined in H. exact H.
Qed.

(** ** Code lengths of a dynamic block *)

Lemma table_of_frame sc sc' huff ls :
  table_of sc huff ls ->
  (forall a, huff <= a < huff + 32 + 2 * Z.of_nat (length ls) -> sc' a = sc a) ->
  table_of sc' huff ls.
Proof.
  intros [Hc Hs] F. pose proof (length_symbols_by_length_le 15 1 ls) as Hle.
  split.
  - intros l Hl. rewrite <- (Hc l Hl). unfold table_count.
    apply get16_ext. intros b Hb. apply F. lia.
  - intros k Hk. rewrite <- (Hs k Hk). unfold table_symbol.
    apply get16_ext. intros b Hb. apply F. lia.
Qed.

Lemma table_yields st huff ls st' t :
  byte_store (scratch st) -> table_of (scratch st) huff ls ->
  lowzip_decode_huffman st huff = (st', t) ->
  (t = 0 /\ have_error st' = 1)
  \/ (0 <= t < Z.of_nat (length ls) /\ 1 <= nth (Z.to_nat t) ls 0 <= 15).
Proof.
  intros Hb [Hcnt Hsym] H.
  apply (decode_huffman_in_table st huff st' t Hb) in H.
  destruct H as [(idx & Hidx & ->)|H]; [right|left; exact H].
  rewrite (counts_upto_table (scratch st) huff ls 15 Hcnt) in Hidx by lia.
  replace idx with (Z.of_nat (Z.to_nat idx)) by lia.
  rewrite Hsym by lia.
  assert (Hin : In (nth (Z.to_nat idx) (symbols_by_length 15 1 ls) 0)
                   (symbols_by_length 15 1 ls)) by (apply nth_In; lia).
  apply symbols_by_length_in in Hin. destruct Hin as [Hr Hl].
  split; [exact Hr|lia].
Qed.

(** The code length code lengths are three-bit values. *)
Lemma read_codelen_code_lens_small n : forall i st,
  (forall a, 70 <= a < 89 -> scratch st a <= 7) ->
  forall a, 70 <= a < 89 -> scratch (read_codelen_code_lens n i st) a <= 7.
Proof.
  induction n as [|n IH]; intros i st H; cbn [read_codelen_code_lens];
    [exact H|].
  destruct (lowzip_read_bits st 3) as [st1 x] eqn:E.
  assert (Hx : 0 <= x < 2 ^ 3) by (eapply read_bits_range; [|exact E]; lia).
  change (2 ^ 3) with 8 in Hx.
  apply read_bits_reads_only, reads_only_scratch in E.
  apply IH. intros a Ha. cbn [scratch set_scratch]. unfold upd.
  destruct (a =? codelen_code_lens + lowzip_codelen_order i).
  - rewrite u8_small by lia. lia.
  - rewrite E. apply H. exact Ha.
Qed.

(** The repeat loop writes [n] times the same length, or fails at the
    limit. *)
Lemma repeat_code_length_exact n : forall sc i limit rep_code sc' i',
  0 <= i -> limit <= 320 ->
  repeat_code_length n sc i limit rep_code = (sc', Some i') ->
  i' = i + Z.of_nat n /\ (n = 0%nat \/ i' <= limit) /\
  (forall k, i <= k < i' -> sc' (temp_code_lens + k) = rep_code) /\
  (forall a, ~ (temp_code_lens + i <= a < temp_code_lens + i') -> sc' a = sc a).
Proof.
  induction n as [|n IH]; intros sc i limit rep_code sc' i' Hi Hl H;
    cbn [repeat_code_length] in H.
  - apply pair_eq_inv in H. destruct H as [<- H]. injection H as <-.
    split; [lia|]. split; [left; reflexivity|].
    split; [intros k Hk; lia|reflexivity].
  - destruct (Z.leb_spec limit i) as [Hge|Hlt].
    { apply pair_eq_inv in H. destruct H as [_ H]. discriminate H. }
    assert (Ei : add32 i 1 = i + 1) by (unfold add32; apply u32_small; lia).
    rewrite Ei in H. apply IH in H; [|lia|exact Hl].
    destruct H as (-> & Hn & Hw & Hf).
    split; [lia|]. split; [right; destruct Hn as [->|Hn]; lia|]. split.
    + intros k Hk. destruct (Z.eq_dec k i) as [->|Hne].
      * rewrite Hf by lia. apply upd_same.
      * apply Hw. lia.
    + intros a Ha. rewrite Hf by lia. apply upd_other. lia.
Qed.

(** With the table of the code length code in place, the expanded code
    lengths are all at most 15. *)
Lemma decode_code_lengths_small ls fuel : forall st i limit st',
  byte_store (scratch st) ->
  table_of (scratch st) 0 ls -> length ls = 19%nat ->
  0 <= i <= limit -> limit <= 320 ->
  (forall k, 0 <= k < i -> scratch st (temp_code_lens + k) <= 15) ->
  decode_code_lengths fuel st i limit = Some (Continue st') ->
  forall k, 0 <= k < limit -> scratch st' (temp_code_lens + k) <= 15.
Proof.
  induction fuel as [|fuel IH]; intros st i limit st' Hb Ht Hls Hi Hl Hinv H;
    cbn [decode_code_lengths] in H; [discriminate|].
  destruct (Z.eqb_spec i limit) as [->|Hne].
  { injection H as <-. exact Hinv. }
  destruct (lowzip_decode_huffman st 0) as [st1 t] eqn:E1.
  pose proof (table_yields st 0 ls st1 t Hb Ht E1) as Hy.
  rewrite Hls in Hy.
  assert (Ht18 : 0 <= t <= 18) by (destruct Hy as [[-> _]|[Hy _]]; lia).
  apply decode_huffman_reads_only, reads_only_scratch in E1.
  assert (Hb1 : byte_store (scratch st1)) by (rewrite E1; exact Hb).
  destruct (code_length_symbol st1 i t) as [st2 r] eqn:E2.
  destruct (code_length_symbol_byte st1 i t st2 r Hb1 E2) as [Es2 Hrc].
  destruct r as [[rep_code rep_count]|]; [|discriminate].
  assert (Hrc15 : rep_code <= 15).
  { revert E2. unfold code_length_symbol.
    destruct (Z.ltb_spec t 16).
    { intros E. apply pair_eq_inv in E. destruct E as [_ E].
      injection E as <- _. rewrite u8_small by lia. lia. }
    destruct (t =? 16).
    { destruct (Z.eqb_spec i 0).
      - intros E. apply pair_eq_inv in E. destruct E as [_ E]. discriminate E.
      - destruct (lowzip_read_bits st1 2) as [st1' x].
        intros E. apply pair_eq_inv in E. destruct E as [_ E].
        injection E as <- _.
        assert (Es : sub32 i 1 = i - 1)
          by (unfold sub32; apply u32_small; lia).
        rewrite Es, E1. apply Hinv. lia. }
    destruct (t =? 17).
    { destruct (lowzip_read_bits st1 3) as [st1' x].
      intros E. apply pair_eq_inv in E. destruct E as [_ E].
      injection E as <- _. lia. }
    destruct (negb (t =? 18)).
    { intros E. apply pair_eq_inv in E. destruct E as [_ E]. discriminate E. }
    destruct (lowzip_read_bits st1 7) as [st1' x].
    intros E. apply pair_eq_inv in E. destruct E as [_ E].
    injection E as <- _. lia. }
  destruct (repeat_code_length (Z.to_nat rep_count) (scratch st2) i limit rep_code)
    as [sc r'] eqn:E3.
  destruct r' as [i'|]; [|discriminate].
  pose proof (Hrc rep_code rep_count eq_refl) as Hrb.
  pose proof (repeat_code_length_footprint (Z.to_nat rep_count) (scratch st2)
                i limit rep_code ltac:(rewrite Es2; exact Hb1) Hrb
                ltac:(lia) Hl) as F.
  cbv zeta in F. rewrite E3 in F. cbn [fst snd] in F. destruct F as (F1 & _ & _).
  apply repeat_code_length_exact in E3; [|lia|exact Hl].
  destruct E3 as (Ei' & Hn' & Hw & Hf).
  apply (IH (set_scratch st2 sc) i' limit st'); try assumption.
  - cbn [scratch set_scratch]. apply (table_of_frame (scratch st) sc 0 ls Ht).
    intros a Ha. rewrite Hls in Ha. rewrite Hf by (unfold temp_code_lens; lia).
    congruence.
  - assert (1 <= rep_count \/ rep_count <= 0) by lia.
    destruct Hn' as [Hn'|Hn']; lia.
  - intros k Hk. cbn [scratch set_scratch].
    destruct (Z.lt_ge_cases k i) as [Hlt|Hge].
    + rewrite Hf by (unfold temp_code_lens; lia). rewrite Es2, E1.
      apply Hinv. lia.
    + rewrite Hw by lia. exact Hrc15.
Qed.

Lemma code_lengths_forall sc code_lens n (P : Z -> Prop) :
  (forall j, 0 <= j < Z.of_nat n -> P (sc (code_lens + j))) ->
  Forall P (code_lengths sc code_lens n).
Proof.
  intros H. unfold code_lengths. apply Forall_forall. intros x Hx.
  apply in_map_iff in Hx. destruct Hx as (j & <- & Hj).
  apply in_seq in Hj. apply H. lia.
Qed.

(** In a dynamic block no table preparation fails: the code length code
    lengths are three-bit values, and the code lengths expanded with
    their table are at most 15. *)
Lemma dynamic_code_lengths_small fuel st3 nclen limit st7 :
  byte_store (scratch st3) -> 0 <= limit <= 320 ->
  let st4 := set_scratch st3 (memset (scratch st3) codelen_code_lens 0 19) in
  let st5 := read_codelen_code_lens nclen 0 st4 in
  let st6 := lowzip_prepare_huffman st5 codelen_code_lens 19 0 in
  have_error st6 = have_error st5 /\
  (decode_code_lengths fuel st6 0 limit = Some (Continue st7) ->
   (forall k, 0 <= k < limit -> scratch st7 (temp_code_lens + k) <= 15) /\
   forall off n out,
     0 <= off -> off + Z.of_nat n <= limit ->
     out + 32 + 2 * Z.of_nat n <= temp_code_lens + off ->
     have_error (lowzip_prepare_huffman st7 (temp_code_lens + off) n out)
     = have_error st7).
Proof.
  intros Hb Hl. cbv zeta.
  set (st4 := set_scratch st3 (memset (scratch st3) codelen_code_lens 0 19)).
  assert (Hb4 : byte_store (scratch st4)).
  { cbn [scratch st4 set_scratch]. apply byte_store_memset; [exact Hb|lia]. }
  assert (H4 : forall a, 70 <= a < 89 -> scratch st4 a <= 7).
  { intros a Ha. cbn [scratch st4 set_scratch]. rewrite memset_spec.
    unfold codelen_code_lens.
    destruct (Z.leb_spec 70 a), (Z.ltb_spec a (70 + Z.of_nat 19));
      cbn [andb]; lia. }
  set (st5 := read_codelen_code_lens nclen 0 st4).
  destruct (read_codelen_code_lens_footprint nclen 0 st4 Hb4) as [Hb5 _].
  fold st5 in Hb5.
  pose proof (read_codelen_code_lens_small nclen 0 st4 H4) as H5. fold st5 in H5.
  set (ls := code_lengths (scratch st5) codelen_code_lens 19).
  assert (HF : Forall (fun x => x <= 15) ls).
  { apply code_lengths_forall. intros j Hj.
    specialize (H5 (codelen_code_lens + j)). unfold codelen_code_lens in *. lia. }
  pose proof (prepare_huffman_spec st5 codelen_code_lens 19 0 Hb5 ltac:(lia)
                ltac:(left; unfold codelen_code_lens; lia)) as P.
  cbv zeta in P. fold ls in P.
  set (st6 := lowzip_prepare_huffman st5 codelen_code_lens 19 0) in *.
  destruct P as (Hb6 & _ & P). destruct (P HF) as (He6 & Hcnt & Hsym & _).
  split; [exact He6|]. intros H.
  assert (Hls : length ls = 19%nat)
    by (unfold ls, code_lengths; rewrite length_map, length_seq; reflexivity).
  assert (Hsmall : forall k, 0 <= k < limit ->
            scratch st7 (temp_code_lens + k) <= 15).
  { apply (decode_code_lengths_small ls fuel st6 0 limit st7 Hb6);
      try assumption; try lia.
    split; assumption. }
  split; [exact Hsmall|].
  intros off n out Hoff Hn Hdis.
  pose proof (decode_code_lengths_footprint fuel st6 0 limit (Continue st7) Hb6
                (Z.le_refl 0) ltac:(lia) H) as [Hb7 _].
  pose proof (prepare_huffman_spec st7 (temp_code_lens + off) n out Hb7
                ltac:(lia) (or_introl Hdis)) as P7.
  cbv zeta in P7. destruct P7 as (_ & _ & P7).
  apply P7. apply code_lengths_forall. intros j Hj.
  replace (temp_code_lens + off + j) with (temp_code_lens + (off + j)) by lia.
  apply Hsmall. lia.
Qed.

(** ** Looking up directory entries *)

Lemma scan_step_refl st : scan_step st st.
Proof. unfold scan_step. tauto. Qed.

Lemma scan_step_trans st1 st2 st3 :
  scan_step st1 st2 -> scan_step st2 st3 -> scan_step st1 st3.
Proof.
  unfold scan_step.
  intros (A1 & A2 & A3 & A4 & A5 & A6 & A7 & A8 & A9 & A10 & A11 & A12 & A13)
         (B1 & B2 & B3 & B4 & B5 & B6 & B7 & B8 & B9 & B10 & B11 & B12 & B13).
  repeat match goal with |- _ /\ _ => split end; try congruence. tauto.
Qed.

Lemma read_little_endian_scan_step st off n st' v :
  lowzip_read_little_endian st off n = (st', v) -> scan_step st st'.
Proof.
  intros H.
  destruct (read_little_endian_cases st off n) as [[_ E]|[_ E]];
    rewrite E in H; apply pair_eq_inv in H; destruct H as [<- _].
  - apply scan_step_refl.
  - unfold scan_step. cbn. repeat match goal with |- _ /\ _ => split end;
      try reflexivity. intros _. lia.
Qed.

Lemma compare_name_scan_step n : forall i st offset name st' r,
  compare_name n i st offset name = (st', r) -> scan_step st st'.
Proof.
  induction n as [|n IH]; intros i st offset name st' r H; cbn [compare_name] in H.
  - apply pair_eq_inv in H. destruct H as [<- _]. apply scan_step_refl.
  - destruct (lowzip_read1 st (add32 (add32 offset LOWZIP_MIN_CDIRFILE_LENGTH) i))
      as [st1 t] eqn:E.
    apply read_little_endian_scan_step in E.
    destruct (negb (t =? nth (Z.to_nat i) name 0)).
    + apply pair_eq_inv in H. destruct H as [<- _]. exact E.
    + apply IH in H. eapply scan_step_trans; eassumption.
Qed.

Lemma copy_filename_scan_step n : forall i st offset st' l,
  copy_filename n i st offset = (st', l) -> scan_step st st'.
Proof.
  induction n as [|n IH]; intros i st offset st' l H; cbn [copy_filename] in H.
  - apply pair_eq_inv in H. destruct H as [<- _]. apply scan_step_refl.
  - destruct (lowzip_read1 st (add32 (add32 offset LOWZIP_MIN_CDIRFILE_LENGTH) i))
      as [st1 t] eqn:E.
    apply read_little_endian_scan_step in E.
    destruct (copy_filename n (add32 i 1) st1 offset) as [st2 rest] eqn:E2.
    apply IH in E2. apply pair_eq_inv in H. destruct H as [<- _].
    eapply scan_step_trans; eassumption.
Qed.

Lemma copy_filename_length n : forall i st offset st' l,
  copy_filename n i st offset = (st', l) -> length l = n.
Proof.
  induction n as [|n IH]; intros i st offset st' l H; cbn [copy_filename] in H.
  - apply pair_eq_inv in H. destruct H as [_ <-]. reflexivity.
  - destruct (lowzip_read1 st (add32 (add32 offset LOWZIP_MIN_CDIRFILE_LENGTH) i))
      as [st1 t].
    destruct (copy_filename n (add32 i 1) st1 offset) as [st2 rest] eqn:E2.
    apply IH in E2. apply pair_eq_inv in H. destruct H as [_ <-].
    cbn [length]. rewrite E2. reflexivity.
Qed.

(** ** The stores into the file entry *)

Lemma set32_outside m off v a :
  ~ (off <= a < off + 4) -> set32 m off v a = m a.
Proof.
  intros Ha. unfold set32, upd.
  destruct (Z.eqb_spec a (off + 3)); [lia|].
  destruct (Z.eqb_spec a (off + 2)); [lia|].
  destruct (Z.eqb_spec a (off + 1)); [lia|].
  destruct (Z.eqb_spec a off); [lia|reflexivity].
Qed.

Lemma store_bytes_outside l : forall m off a,
  ~ (off <= a < off + Z.of_nat (length l)) -> store_bytes m off l a = m a.
Proof.
  induction l as [|b l IH]; intros m off a Ha; cbn [store_bytes]; [reflexivity|].
  cbn [length] in Ha. rewrite IH by lia.
  unfold upd. destruct (Z.eqb_spec a off); [lia|reflexivity].
Qed.

(** The entry takes the first 280 bytes of the scratch area. *)
Lemma store_file_outside m fi a :
  (length (filename fi) <= 255)%nat ->
  ~ (0 <= a < file_size) -> store_file m fi a = m a.
Proof.
  intros Hl Ha. unfold store_file, file_size, file_filename,
    file_have_data_descriptor, file_compression_method, file_crc32,
    file_compressed_size, file_uncompressed_size, file_data_offset in *.
  cbv zeta. unfold upd at 1.
  destruct (Z.eqb_spec a (20 + Z.of_nat (length (filename fi)))); [lia|].
  rewrite store_bytes_outside by lia.
  rewrite !set32_outside by lia. reflexivity.
Qed.

Lemma get32_set32_same m off v :
  0 <= v < 2 ^ 32 -> get32 (set32 m off v) off = v.
Proof.
  intros Hv. unfold get32, set32.
  rewrite upd_same.
  rewrite (upd_other _ (off + 3) _ (off + 2)) by lia. rewrite upd_same.
  rewrite (upd_other _ (off + 3) _ (off + 1)) by lia.
  rewrite (upd_other _ (off + 2) _ (off + 1)) by lia. rewrite upd_same.
  rewrite (upd_other _ (off + 3) _ off) by lia.
  rewrite (upd_other _ (off + 2) _ off) by lia.
  rewrite (upd_other _ (off + 1) _ off) by lia. rewrite upd_same.
  change (2 ^ 32) with 4294967296 in Hv.
  Z.to_euclidean_division_equations. lia.
Qed.

Lemma get32_ext m m' off :
  (forall k, 0 <= k < 4 -> m' (off + k) = m (off + k)) ->
  get32 m' off = get32 m off.
Proof.
  intros H. unfold get32.
  pose proof (H 0 ltac:(lia)) as H0. rewrite Z.add_0_r in H0.
  rewrite H0, (H 1), (H 2), (H 3) by lia. reflexivity.
Qed.

Lemma get32_set32_other m off off' v :
  off' + 4 <= off \/ off + 4 <= off' ->
  get32 (set32 m off' v) off = get32 m off.
Proof.
  intros H. apply get32_ext. intros k Hk. apply set32_outside. lia.
Qed.

Lemma store_bytes_nth l : forall m off j,
  (j < length l)%nat -> store_bytes m off l (off + Z.of_nat j) = nth j l 0.
Proof.
  induction l as [|b l IH]; intros m off j Hj; cbn [length] in Hj; [lia|].
  cbn [store_bytes]. destruct j as [|j].
  - rewrite Z.add_0_r. rewrite store_bytes_outside by lia. apply upd_same.
  - cbn [nth]. replace (off + Z.of_nat (S j)) with (off + 1 + Z.of_nat j) by lia.
    apply IH. lia.
Qed.

(** After the stores the scratch area holds the entry, when its fields are
    32-bit values and its name has at most 255 bytes. *)
Lemma store_file_holds m fi :
  0 <= have_data_descriptor fi < 2 ^ 32 ->
  0 <= compression_method fi < 2 ^ 32 ->
  0 <= crc32 fi < 2 ^ 32 ->
  0 <= compressed_size fi < 2 ^ 32 ->
  0 <= uncompressed_size fi < 2 ^ 32 ->
  0 <= data_offset fi < 2 ^ 32 ->
  (length (filename fi) <= 255)%nat ->
  file_in_scratch (store_file m fi) fi.
Proof.
  intros H1 H2 H3 H4 H5 H6 Hl.
  assert (G : forall o, 0 <= o -> o + 4 <= 20 \/ 276 <= o ->
            get32 (store_file m fi) o
            = get32 (set32 (set32 (set32 (set32 (set32 (set32 m
                276 (have_data_descriptor fi))
                0 (compression_method fi))
                4 (crc32 fi))
                8 (compressed_size fi))
                12 (uncompressed_size fi))
                16 (data_offset fi)) o).
  { intros o Ho Hr. apply get32_ext. intros k Hk.
    unfold store_file, file_filename, file_have_data_descriptor,
      file_compression_method, file_crc32, file_compressed_size,
      file_uncompressed_size, file_data_offset.
    cbv zeta. rewrite upd_other by lia.
    apply store_bytes_outside. lia. }
  unfold file_in_scratch, file_filename, file_have_data_descriptor,
    file_compression_method, file_crc32, file_compressed_size,
    file_uncompressed_size, file_data_offset.
  repeat match goal with |- _ /\ _ => split end.
  - rewrite G by lia. rewrite !get32_set32_other by lia.
    apply get32_set32_same. exact H1.
  - rewrite G by lia. rewrite !get32_set32_other by lia.
    apply get32_set32_same. exact H2.
  - rewrite G by lia. rewrite !get32_set32_other by lia.
    apply get32_set32_same. exact H3.
  - rewrite G by lia. rewrite !get32_set32_other by lia.
    apply get32_set32_same. exact H4.
  - rewrite G by lia. rewrite !get32_set32_other by lia.
    apply get32_set32_same. exact H5.
  - rewrite G by lia. apply get32_set32_same. exact H6.
  - intros j Hj.
    unfold store_file, file_filename. cbv zeta.
    rewrite upd_other by lia. apply store_bytes_nth. exact Hj.
  - unfold store_file, file_filename. cbv zeta. apply upd_same.
Qed.

Lemma land_8_cases a : Z.land a 8 = 0 \/ Z.land a 8 = 8.
Proof.
  destruct (Z.testbit a 3) eqn:T; [right|left]; apply Z.bits_inj'; intros n Hn;
    rewrite Z.land_spec; change 8 with (2 ^ 3);
    rewrite Z.pow2_bits_eqb by lia;
    destruct (Z.eqb_spec 3 n) as [<-|Hne];
    rewrite ?T, ?andb_false_r, ?Z.bits_0; reflexivity.
Qed.

(** What a little-endian read returns is a 32-bit value. *)
Lemma read_little_endian_u32 st off n st' v :
  lowzip_read_little_endian st off n = (st', v) -> 0 <= v < 2 ^ 32.
Proof.
  intros H.
  destruct (read_little_endian_cases st off n) as [[_ E]|[_ E]];
    rewrite E in H; apply pair_eq_inv in H; destruct H as [_ <-].
  - apply u32_range.
  - split; [lia|reflexivity].
Qed.

(** The cross-read of the local header: a failure raises the flag and
    stores nothing; a success writes the entry it returns, whose name has at
    most 255 bytes, to the scratch area. *)
Lemma read_local_header_cases st offset fl st' r :
  read_local_header st offset fl = (st', r) ->
  (r = None /\ have_error st' = 1 /\ scan_step st st' /\ file st' = file st)
  \/ (exists fi st1, r = Some fi /\ st' = put_file st1 fi /\ scan_step st st1 /\
        (length (filename fi) <= 255)%nat /\
        file_in_scratch (scratch st') fi).
Proof.
  unfold read_local_header.
  destruct (lowzip_read4 st (add32 offset 42)) as [st1 lhdr] eqn:E1.
  destruct (lowzip_read4 st1 lhdr) as [st2 t] eqn:E2.
  apply read_little_endian_scan_step in E1, E2.
  assert (S2 : scan_step st st2) by (eapply scan_step_trans; eassumption).
  destruct (negb (t =? 67324752)).
  { intros H. apply pair_eq_inv in H. destruct H as [<- <-].
    left. split; [reflexivity|]. split; [reflexivity|].
    assert (F2 : file st2 = file st).
    { destruct S2 as (_ & _ & _ & _ & _ & _ & _ & _ & _ & _ & _ & F & _). exact F. }
    split; [|exact F2].
    eapply scan_step_trans; [exact S2|].
    unfold scan_step. cbn. repeat match goal with |- _ /\ _ => split end;
      try reflexivity. intros _. lia. }
  destruct (lowzip_read2 st2 (add32 lhdr 6)) as [st3 flags] eqn:E3.
  destruct (lowzip_read2 st3 (add32 lhdr 8)) as [st4 method] eqn:E4.
  destruct (lowzip_read4 st4 (add32 lhdr 14)) as [st5 crc] eqn:E5.
  destruct (lowzip_read4 st5 (add32 lhdr 18)) as [st6 csize] eqn:E6.
  destruct (lowzip_read4 st6 (add32 lhdr 22)) as [st7 usize] eqn:E7.
  destruct (lowzip_read2 st7 (add32 lhdr 26)) as [st8 t1] eqn:E8.
  destruct (lowzip_read2 st8 (add32 lhdr 28)) as [st9 t2] eqn:E9.
  pose proof (read_little_endian_u32 _ _ _ _ _ E3) as V3.
  pose proof (read_little_endian_u32 _ _ _ _ _ E4) as V4.
  pose proof (read_little_endian_u32 _ _ _ _ _ E5) as V5.
  pose proof (read_little_endian_u32 _ _ _ _ _ E6) as V6.
  pose proof (read_little_endian_u32 _ _ _ _ _ E7) as V7.
  apply read_little_endian_scan_step in E3, E4, E5, E6, E7, E8, E9.
  match goal with
  | |- context [copy_filename ?n 0 st9 offset] =>
      destruct (copy_filename n 0 st9 offset) as [st10 fname] eqn:E10
  end.
  pose proof (copy_filename_length _ _ _ _ _ _ E10) as Hlen.
  apply copy_filename_scan_step in E10.
  intros H. apply pair_eq_inv in H. destruct H as [<- <-].
  assert (Hl : (length fname <= 255)%nat).
  { rewrite Hlen. destruct (Z.ltb_spec 255 fl); lia. }
  right. eexists. exists st10. split; [reflexivity|]. split; [reflexivity|].
  split; [|split; [exact Hl|]].
  - eapply scan_step_trans; [exact S2|].
    eapply scan_step_trans; [exact E3|].
    eapply scan_step_trans; [exact E4|].
    eapply scan_step_trans; [exact E5|].
    eapply scan_step_trans; [exact E6|].
    eapply scan_step_trans; [exact E7|].
    eapply scan_step_trans; [exact E8|].
    eapply scan_step_trans; [exact E9|exact E10].
  - unfold put_file. cbn [scratch set_file set_scratch].
    apply store_file_holds;
      cbn [have_data_descriptor compression_method crc32 compressed_size
           uncompressed_size data_offset filename];
      try assumption; try apply u32_range.
    change (2 ^ 32) with 4294967296.
    destruct (land_8_cases flags) as [L|L]; rewrite L; lia.
Qed.

Lemma set_have_error_scan_step st : scan_step st (set_have_error st 1).
Proof.
  unfold scan_step. cbn. repeat match goal with |- _ /\ _ => split end;
    try reflexivity. intros _. lia.
Qed.

(** The scan either fails with the flag raised, having stored nothing, or
    ends in a state that differs from the one it started in by the flag and
    the entry written. *)
Lemma locate_file_loop_cases fuel : forall st offset idx name st' r,
  locate_file_loop fuel st offset idx name = Some (st', r) ->
  (r = None /\ have_error st' = 1 /\ scan_step st st')
  \/ (exists fi st1, r = Some fi /\ st' = put_file st1 fi /\ scan_step st st1 /\
        (length (filename fi) <= 255)%nat /\
        file_in_scratch (scratch st') fi).
Proof.
  induction fuel as [|fuel IH]; intros st offset idx name st' r H;
    cbn [locate_file_loop] in H; [discriminate|].
  destruct (lowzip_read4 st offset) as [st1 magic] eqn:E1.
  apply read_little_endian_scan_step in E1.
  destruct (negb (magic =? 33639248)).
  { injection H as <- <-. left. split; [reflexivity|]. split; [reflexivity|].
    eapply scan_step_trans; [exact E1|apply set_have_error_scan_step]. }
  destruct (lowzip_read2 st1 (add32 offset 28)) as [st2 fl] eqn:E2.
  apply read_little_endian_scan_step in E2.
  assert (S2 : scan_step st st2) by (eapply scan_step_trans; eassumption).
  assert (Hs : exists st3 found idx',
            scan_step st st3 /\
            (if negb found
             then
               let '(st4, extra) := lowzip_read2 st3 (add32 offset 30) in
               let '(st5, comment) := lowzip_read2 st4 (add32 offset 32) in
               locate_file_loop fuel st5
                 (add32 offset
                    (add32 LOWZIP_MIN_CDIRFILE_LENGTH
                       (add32 (add32 fl extra) comment))) idx' name
             else Some (read_local_header st3 offset fl)) = Some (st', r)).
  { destruct name as [nm|].
    - destruct (fl =? Z.of_nat (length nm)).
      + destruct (compare_name (Z.to_nat fl) 0 st2 offset nm) as [st3' i] eqn:E4.
        apply compare_name_scan_step in E4.
        exists st3', (i =? fl), idx. split; [|exact H].
        eapply scan_step_trans; eassumption.
      + exists st2, false, idx. split; [exact S2|exact H].
    - exists st2, (idx =? 0), (to_int (u32 (idx - 1))). split; [exact S2|exact H]. }
  clear H. destruct Hs as (st3 & found & idx' & S3 & H).
  destruct found; cbn [negb] in H.
  - injection H as H. apply read_local_header_cases in H.
    destruct H as [(-> & He & Ss & _)|(fi & st4 & -> & E & Ss & Hl)].
    + left. split; [reflexivity|]. split; [exact He|].
      eapply scan_step_trans; eassumption.
    + right. exists fi, st4. split; [reflexivity|]. split; [exact E|].
      split; [eapply scan_step_trans; eassumption|exact Hl].
  - destruct (lowzip_read2 st3 (add32 offset 30)) as [st4 extra] eqn:E4.
    destruct (lowzip_read2 st4 (add32 offset 32)) as [st5 comment] eqn:E5.
    apply read_little_endian_scan_step in E4, E5.
    assert (S5 : scan_step st st5).
    { eapply scan_step_trans; [exact S3|]. eapply scan_step_trans; eassumption. }
    apply IH in H.
    destruct H as [(-> & He & Ss)|(fi & st6 & -> & E & Ss & Hl)].
    + left. split; [reflexivity|]. split; [exact He|].
      eapply scan_step_trans; eassumption.
    + right. exists fi, st6. split; [reflexivity|]. split; [exact E|].
      split; [eapply scan_step_trans; eassumption|exact Hl].
Qed.

Lemma scan_step_clean st st' :
  scan_step st st' -> have_error st' = 0 -> have_error st = 0.
Proof.
  intros (_ & _ & _ & _ & _ & _ & _ & _ & _ & _ & _ & _ & Hs) He.
  destruct (Z.eq_dec (have_error st) 0) as [H0|H0]; [exact H0|].
  exfalso. apply (Hs H0). exact He.
Qed.

(** A read that leaves the flag down has read the bytes. *)
Lemma read_little_endian_clean st off n st1 v :
  callback_contract (read_callback st) -> (n <= 4)%nat ->
  lowzip_read_little_endian st off n = (st1, v) ->
  have_error st1 = 0 ->
  st1 = st /\ v = le_value (read_callback st) off n.
Proof.
  intros Hcb Hn H He.
  destruct (read_little_endian_cases st off n) as [[Hr E]|[Hr E]];
    rewrite E in H; apply pair_eq_inv in H; destruct H as [<- <-].
  - split; [reflexivity|]. apply u32_small.
    pose proof (le_value_range _ off n Hcb Hr) as R.
    assert (256 ^ Z.of_nat n <= 256 ^ 4) by (apply Z.pow_le_mono_r; lia).
    change (256 ^ 4) with (2 ^ 32) in *. lia.
  - cbn in He. discriminate He.
Qed.

Lemma read_little_endian_clean_range st off n st1 v :
  callback_contract (read_callback st) -> (n <= 4)%nat ->
  lowzip_read_little_endian st off n = (st1, v) ->
  have_error st1 = 0 ->
  0 <= v < 256 ^ Z.of_nat n.
Proof.
  intros Hcb Hn H He.
  destruct (read_little_endian_cases st off n) as [[Hr E]|[Hr E]];
    rewrite E in H; apply pair_eq_inv in H; destruct H as [<- <-].
  - pose proof (le_value_range _ off n Hcb Hr) as R.
    assert (256 ^ Z.of_nat n <= 256 ^ 4) by (apply Z.pow_le_mono_r; lia).
    change (256 ^ 4) with (2 ^ 32) in *. rewrite u32_small by lia. exact R.
  - cbn in He. discriminate He.
Qed.

(** A name comparison that leaves the flag down changed nothing, and if it
    ran to the end every byte of the record's name is the byte of [name]. *)
Lemma compare_name_clean n : forall i st offset name st1 r,
  callback_contract (read_callback st) ->
  compare_name n i st offset name = (st1, r) ->
  have_error st1 = 0 ->
  0 <= i -> i + Z.of_nat n < 2 ^ 32 ->
  st1 = st /\ i <= r <= i + Z.of_nat n /\
  (r = i + Z.of_nat n ->
   forall j, (j < n)%nat ->
     le_value (read_callback st)
       (add32 (add32 offset LOWZIP_MIN_CDIRFILE_LENGTH) (i + Z.of_nat j)) 1
     = nth (Z.to_nat (i + Z.of_nat j)) name 0) /\
  (r <> i + Z.of_nat n ->
   le_value (read_callback st)
     (add32 (add32 offset LOWZIP_MIN_CDIRFILE_LENGTH) r) 1
   <> nth (Z.to_nat r) name 0).
Proof.
  induction n as [|n IH]; intros i st offset name st1 r Hcb H He Hi Hw;
    cbn [compare_name] in H.
  - apply pair_eq_inv in H. destruct H as [<- <-].
    split; [reflexivity|]. split; [lia|]. split; [intros _ j Hj; lia|].
    intros C. lia.
  - destruct (lowzip_read1 st (add32 (add32 offset LOWZIP_MIN_CDIRFILE_LENGTH) i))
      as [st2 t] eqn:E.
    destruct (t =? nth (Z.to_nat i) name 0) eqn:Et; cbn [negb] in H.
    + apply Z.eqb_eq in Et.
      assert (Ei : add32 i 1 = i + 1) by (unfold add32; apply u32_small; lia).
      rewrite Ei in H.
      pose proof (compare_name_scan_step _ _ _ _ _ _ _ H) as Ss.
      pose proof (scan_step_clean _ _ Ss He) as He2.
      unfold lowzip_read1 in E.
      apply read_little_endian_clean in E; [|exact Hcb|lia|exact He2].
      destruct E as [-> ->].
      apply IH in H; [|exact Hcb|exact He|lia|lia].
      destruct H as (-> & Hr & Hall & Hdiff).
      split; [reflexivity|]. split; [lia|]. split.
      * intros Hrr j Hj. destruct j as [|j].
        -- rewrite Z.add_0_r. exact Et.
        -- replace (i + Z.of_nat (S j)) with (i + 1 + Z.of_nat j) by lia.
           apply Hall; lia.
      * intros Hrr. apply Hdiff. lia.
    + apply Z.eqb_neq in Et.
      apply pair_eq_inv in H. destruct H as [<- <-].
      unfold lowzip_read1 in E.
      apply read_little_endian_clean in E; [|exact Hcb|lia|exact He].
      destruct E as [-> ->].
      split; [reflexivity|]. split; [lia|]. split; [intros C; lia|].
      intros _. exact Et.
Qed.

Lemma le_value_byte cb a :
  callback_contract cb -> readable cb a 1 -> 0 <= le_value cb a 1 < 256.
Proof.
  intros Hcb Hr. pose proof (le_value_range cb a 1 Hcb Hr) as R.
  change (256 ^ Z.of_nat 1) with 256 in R. exact R.
Qed.

(** A name copy that leaves the flag down changed nothing and copied the
    bytes of the record's name. *)
Lemma copy_filename_clean n : forall i st offset st1 l,
  callback_contract (read_callback st) ->
  copy_filename n i st offset = (st1, l) ->
  have_error st1 = 0 ->
  0 <= i -> i + Z.of_nat n < 2 ^ 32 ->
  st1 = st /\ length l = n /\
  forall j, (j < n)%nat ->
    nth j l 0 =
    le_value (read_callback st)
      (add32 (add32 offset LOWZIP_MIN_CDIRFILE_LENGTH) (i + Z.of_nat j)) 1.
Proof.
  induction n as [|n IH]; intros i st offset st1 l Hcb H He Hi Hw;
    cbn [copy_filename] in H.
  - apply pair_eq_inv in H. destruct H as [<- <-].
    split; [reflexivity|]. split; [reflexivity|]. intros j Hj. lia.
  - destruct (lowzip_read1 st (add32 (add32 offset LOWZIP_MIN_CDIRFILE_LENGTH) i))
      as [st2 t] eqn:E.
    assert (Ei : add32 i 1 = i + 1) by (unfold add32; apply u32_small; lia).
    rewrite Ei in H.
    destruct (copy_filename n (i + 1) st2 offset) as [st3 rest] eqn:E2.
    apply pair_eq_inv in H. destruct H as [<- <-].
    pose proof (copy_filename_scan_step _ _ _ _ _ _ E2) as Ss.
    pose proof (scan_step_clean _ _ Ss He) as He2.
    unfold lowzip_read1 in E.
    destruct (read_little_endian_cases st
                (add32 (add32 offset LOWZIP_MIN_CDIRFILE_LENGTH) i) 1)
      as [[Hr E']|[Hr E']]; rewrite E' in E;
      apply pair_eq_inv in E; destruct E as [<- <-];
      [|cbn in He2; discriminate He2].
    pose proof (le_value_byte _ _ Hcb Hr) as Hb.
    apply IH in E2; [|exact Hcb|exact He|lia|lia].
    destruct E2 as (-> & Hlen & Hall).
    split; [reflexivity|]. split; [cbn [length]; lia|].
    intros j Hj. destruct j as [|j].
    + cbn [nth]. rewrite Z.add_0_r. rewrite u32_small by lia.
      unfold u8. apply Z.mod_small. change (2 ^ 8) with 256. lia.
    + cbn [nth]. replace (i + Z.of_nat (S j)) with (i + 1 + Z.of_nat j) by lia.
      apply Hall. lia.
Qed.

Lemma nth_firstn_below (n : nat) : forall (nm : list Z) j,
  (j < n)%nat -> nth j (firstn n nm) 0 = nth j nm 0.
Proof.
  induction n as [|n IH]; intros nm j Hj; [lia|].
  destruct nm as [|c nm]; [destruct j; reflexivity|].
  destruct j as [|j]; [reflexivity|].
  cbn [firstn nth]. apply IH. lia.
Qed.

Lemma nth_ext_firstn (l nm : list Z) n :
  length l = n -> (n <= length nm)%nat ->
  (forall j, (j < n)%nat -> nth j l 0 = nth j nm 0) ->
  l = firstn n nm.
Proof.
  intros Hl Hn Hall. apply (nth_ext _ _ 0 0).
  - rewrite length_firstn. lia.
  - intros j Hj. rewrite Hl in Hj. rewrite Hall by exact Hj.
    symmetry. apply nth_firstn_below. exact Hj.
Qed.

(** A cross-read that ends with the flag down has stored the fields of the
    local header that the directory record points to. *)
Lemma read_local_header_clean st offset fl st' fi :
  callback_contract (read_callback st) ->
  read_local_header st offset fl = (st', Some fi) ->
  have_error st' = 0 ->
  have_error st = 0 /\
  local_header_fields (read_callback st)
    (le_value (read_callback st) (add32 offset 42) 4) fi /\
  length (filename fi) = Z.to_nat (if 255 <? fl then 255 else fl) /\
  (forall j, (j < length (filename fi))%nat ->
     nth j (filename fi) 0 =
     le_value (read_callback st)
       (add32 (add32 offset LOWZIP_MIN_CDIRFILE_LENGTH) (Z.of_nat j)) 1).
Proof.
  intros Hcb. unfold read_local_header.
  destruct (lowzip_read4 st (add32 offset 42)) as [st1 lhdr] eqn:E1.
  destruct (lowzip_read4 st1 lhdr) as [st2 t] eqn:E2.
  destruct (t =? 67324752) eqn:Et; cbn [negb]; [|intros H; discriminate H].
  apply Z.eqb_eq in Et.
  destruct (lowzip_read2 st2 (add32 lhdr 6)) as [st3 flags] eqn:E3.
  destruct (lowzip_read2 st3 (add32 lhdr 8)) as [st4 method] eqn:E4.
  destruct (lowzip_read4 st4 (add32 lhdr 14)) as [st5 crc] eqn:E5.
  destruct (lowzip_read4 st5 (add32 lhdr 18)) as [st6 csize] eqn:E6.
  destruct (lowzip_read4 st6 (add32 lhdr 22)) as [st7 usize] eqn:E7.
  destruct (lowzip_read2 st7 (add32 lhdr 26)) as [st8 t1] eqn:E8.
  destruct (lowzip_read2 st8 (add32 lhdr 28)) as [st9 t2] eqn:E9.
  match goal with
  | |- context [copy_filename ?n 0 st9 offset] =>
      destruct (copy_filename n 0 st9 offset) as [st10 fname] eqn:E10
  end.
  intros H He. apply pair_eq_inv in H. destruct H as [<- H].
  injection H as <-. cbn [have_error put_file set_file set_scratch] in He.
  pose proof (copy_filename_scan_step _ _ _ _ _ _ E10) as S10.
  pose proof (scan_step_clean _ _ S10 He) as He9.
  pose proof (read_little_endian_scan_step _ _ _ _ _ E9) as S9.
  pose proof (scan_step_clean _ _ S9 He9) as He8.
  pose proof (read_little_endian_scan_step _ _ _ _ _ E8) as S8.
  pose proof (scan_step_clean _ _ S8 He8) as He7.
  pose proof (read_little_endian_scan_step _ _ _ _ _ E7) as S7.
  pose proof (scan_step_clean _ _ S7 He7) as He6.
  pose proof (read_little_endian_scan_step _ _ _ _ _ E6) as S6.
  pose proof (scan_step_clean _ _ S6 He6) as He5.
  pose proof (read_little_endian_scan_step _ _ _ _ _ E5) as S5.
  pose proof (scan_step_clean _ _ S5 He5) as He4.
  pose proof (read_little_endian_scan_step _ _ _ _ _ E4) as S4.
  pose proof (scan_step_clean _ _ S4 He4) as He3.
  pose proof (read_little_endian_scan_step _ _ _ _ _ E3) as S3.
  pose proof (scan_step_clean _ _ S3 He3) as He2.
  pose proof (read_little_endian_scan_step _ _ _ _ _ E2) as S2.
  pose proof (scan_step_clean _ _ S2 He2) as He1.
  pose proof (read_little_endian_scan_step _ _ _ _ _ E1) as S1.
  pose proof (scan_step_clean _ _ S1 He1) as He0.
  unfold lowzip_read4, lowzip_read2 in *.
  apply read_little_endian_clean in E1; [|exact Hcb|lia|exact He1].
  destruct E1 as [-> ->].
  apply read_little_endian_clean in E2; [|exact Hcb|lia|exact He2].
  destruct E2 as [-> E2].
  apply read_little_endian_clean in E3; [|exact Hcb|lia|exact He3].
  destruct E3 as [-> ->].
  apply read_little_endian_clean in E4; [|exact Hcb|lia|exact He4].
  destruct E4 as [-> ->].
  apply read_little_endian_clean in E5; [|exact Hcb|lia|exact He5].
  destruct E5 as [-> ->].
  apply read_little_endian_clean in E6; [|exact Hcb|lia|exact He6].
  destruct E6 as [-> ->].
  apply read_little_endian_clean in E7; [|exact Hcb|lia|exact He7].
  destruct E7 as [-> ->].
  apply read_little_endian_clean in E8; [|exact Hcb|lia|exact He8].
  destruct E8 as [-> ->].
  apply read_little_endian_clean in E9; [|exact Hcb|lia|exact He9].
  destruct E9 as [-> ->].
  apply copy_filename_clean in E10;
    [|exact Hcb|exact He|lia|
     destruct (255 <? fl) eqn:F; [lia|apply Z.ltb_ge in F; lia]].
  destruct E10 as (_ & Hlen & Hname).
  split; [exact He0|]. split.
  - unfold local_header_fields.
    cbn [have_data_descriptor compression_method crc32 compressed_size
         uncompressed_size data_offset].
    repeat match goal with |- _ /\ _ => split end; try reflexivity.
    rewrite <- E2. exact Et.
  - cbn [filename]. split; [exact Hlen|].
    intros j Hj. rewrite Hlen in Hj. apply Hname. exact Hj.
Qed.

Lemma to_int_range x : 0 <= x < 2 ^ 32 -> - 2 ^ 31 <= to_int x < 2 ^ 31.
Proof.
  intros Hx. unfold to_int.
  change (2 ^ 32) with 4294967296 in *. change (2 ^ 31) with 2147483648.
  destruct (Z.ltb_spec x 2147483648); lia.
Qed.

(** The decrement of an [int] that is above the least one. *)
Lemma int_decrement idx :
  - 2 ^ 31 < idx < 2 ^ 31 -> to_int (u32 (idx - 1)) = idx - 1.
Proof.
  intros Hi. unfold to_int, u32.
  change (2 ^ 32) with 4294967296. change (2 ^ 31) with 2147483648 in *.
  destruct (Z.ltb_spec ((idx - 1) mod 4294967296) 2147483648);
    Z.to_euclidean_division_equations; lia.
Qed.

(** In general the decrement counts down modulo 2^32. *)
Lemma int_decrement_mod idx k :
  u32 (to_int (u32 (idx - 1)) - k) = u32 (idx - (k + 1)).
Proof.
  unfold to_int, u32.
  change (2 ^ 32) with 4294967296. change (2 ^ 31) with 2147483648.
  destruct (Z.ltb_spec ((idx - 1) mod 4294967296) 2147483648);
    Z.to_euclidean_division_equations; lia.
Qed.

(** A lookup by an index that is not negative and ends with the flag down
    walked the directory records 0 to [idx], each with the directory
    signature, and stored the fields of the local header of record [idx]. *)
Lemma locate_by_index_clean fuel : forall st offset idx st' fi,
  callback_contract (read_callback st) ->
  0 <= idx < 2 ^ 31 ->
  locate_file_loop fuel st offset idx None = Some (st', Some fi) ->
  have_error st' = 0 ->
  (forall k, (k <= Z.to_nat idx)%nat ->
     le_value (read_callback st) (directory_entry (read_callback st) offset k) 4
     = 0x02014b50) /\
  local_header_fields (read_callback st)
    (le_value (read_callback st)
       (add32 (directory_entry (read_callback st) offset (Z.to_nat idx)) 42) 4)
    fi.
Proof.
  induction fuel as [|fuel IH]; intros st offset idx st' fi Hcb Hidx H He;
    cbn [locate_file_loop] in H; [discriminate|].
  destruct (lowzip_read4 st offset) as [st1 magic] eqn:E1.
  destruct (magic =? 33639248) eqn:Em; cbn [negb] in H; [|discriminate].
  apply Z.eqb_eq in Em.
  destruct (lowzip_read2 st1 (add32 offset 28)) as [st2 fl] eqn:E2.
  pose proof (read_little_endian_scan_step _ _ _ _ _ E1) as S1.
  pose proof (read_little_endian_scan_step _ _ _ _ _ E2) as S2.
  destruct (idx =? 0) eqn:Ei; cbn [negb] in H.
  - apply Z.eqb_eq in Ei. subst idx. injection H as H.
    assert (He2 : have_error st2 = 0).
    { pose proof (read_local_header_cases _ _ _ _ _ H) as C.
      destruct C as [(C & _)|(fi' & st3 & _ & -> & Ss & _)]; [discriminate C|].
      cbn [have_error put_file set_file set_scratch] in He.
      eapply scan_step_clean; eassumption. }
    pose proof (scan_step_clean _ _ S2 He2) as He1.
    unfold lowzip_read4, lowzip_read2 in E1, E2.
    apply read_little_endian_clean in E1; [|exact Hcb|lia|exact He1].
    destruct E1 as [-> ->].
    apply read_little_endian_clean in E2; [|exact Hcb|lia|exact He2].
    destruct E2 as [-> ->].
    apply read_local_header_clean in H; [|exact Hcb|exact He].
    destruct H as (_ & H & _).
    split; [|exact H].
    intros k Hk. assert (k = 0%nat) by (cbn in Hk; lia). subst k. exact Em.
  - apply Z.eqb_neq in Ei.
    rewrite int_decrement in H by lia.
    destruct (lowzip_read2 st2 (add32 offset 30)) as [st4 extra] eqn:E4.
    destruct (lowzip_read2 st4 (add32 offset 32)) as [st5 comment] eqn:E5.
    pose proof (read_little_endian_scan_step _ _ _ _ _ E4) as S4.
    pose proof (read_little_endian_scan_step _ _ _ _ _ E5) as S5.
    assert (He5 : have_error st5 = 0).
    { pose proof (locate_file_loop_cases _ _ _ _ _ _ _ H) as C.
      destruct C as [(C & _)|(fi' & st6 & _ & -> & Ss & _)]; [discriminate C|].
      cbn [have_error put_file set_file set_scratch] in He.
      eapply scan_step_clean; eassumption. }
    pose proof (scan_step_clean _ _ S5 He5) as He4.
    pose proof (scan_step_clean _ _ S4 He4) as He2.
    pose proof (scan_step_clean _ _ S2 He2) as He1.
    unfold lowzip_read4, lowzip_read2 in E1, E2, E4, E5.
    apply read_little_endian_clean in E1; [|exact Hcb|lia|exact He1].
    destruct E1 as [-> ->].
    apply read_little_endian_clean in E2; [|exact Hcb|lia|exact He2].
    destruct E2 as [-> ->].
    apply read_little_endian_clean in E4; [|exact Hcb|lia|exact He4].
    destruct E4 as [-> ->].
    apply read_little_endian_clean in E5; [|exact Hcb|lia|exact He5].
    destruct E5 as [-> ->].
    apply IH in H; [|exact Hcb|lia|exact He].
    destruct H as (Hmag & Hfields).
    fold (next_entry (read_callback st) offset) in Hmag, Hfields.
    assert (En : Z.to_nat idx = S (Z.to_nat (idx - 1))) by lia.
    rewrite En. split.
    + intros k Hk. destruct k as [|k]; [exact Em|].
      cbn [directory_entry]. apply Hmag. lia.
    + cbn [directory_entry]. exact Hfields.
Qed.

(** The name test of one round of the lookup loop only reads. *)
Lemma name_test_scan_step st2 offset fl nm (idx : Z) st3 found idx' :
  (if fl =? Z.of_nat (length nm)
   then let '(st3, i) := compare_name (Z.to_nat fl) 0 st2 offset nm in
        (st3, i =? fl, idx)
   else (st2, false, idx)) = (st3, found, idx') ->
  scan_step st2 st3 /\ idx' = idx.
Proof.
  intros H. destruct (fl =? Z.of_nat (length nm)).
  - destruct (compare_name (Z.to_nat fl) 0 st2 offset nm) as [st i] eqn:Ec.
    apply pair_eq_inv in H. destruct H as [H <-].
    apply pair_eq_inv in H. destruct H as [<- _].
    split; [eapply compare_name_scan_step; exact Ec|reflexivity].
  - apply pair_eq_inv in H. destruct H as [H <-].
    apply pair_eq_inv in H. destruct H as [<- _].
    split; [apply scan_step_refl|reflexivity].
Qed.

(** When the name test leaves the flag down it changed nothing and says
    whether the record carries the name. *)
Lemma name_test_clean st2 offset fl nm (idx : Z) st3 found idx' :
  callback_contract (read_callback st2) ->
  0 <= fl < 65536 ->
  fl = le_value (read_callback st2) (add32 offset 28) 2 ->
  (if fl =? Z.of_nat (length nm)
   then let '(st3, i) := compare_name (Z.to_nat fl) 0 st2 offset nm in
        (st3, i =? fl, idx)
   else (st2, false, idx)) = (st3, found, idx') ->
  have_error st3 = 0 ->
  st3 = st2 /\
  (found = true <-> entry_named (read_callback st2) offset nm).
Proof.
  intros Hcb Hfl Efl H.
  destruct (fl =? Z.of_nat (length nm)) eqn:El.
  - apply Z.eqb_eq in El.
    destruct (compare_name (Z.to_nat fl) 0 st2 offset nm) as [st i] eqn:Ec.
    apply pair_eq_inv in H. destruct H as [H _].
    apply pair_eq_inv in H. destruct H as [<- <-].
    intros He.
    apply compare_name_clean in Ec; [|exact Hcb|exact He|lia|lia].
    destruct Ec as (-> & Hr & Hall & Hdiff).
    split; [reflexivity|].
    rewrite Z.add_0_l in Hall, Hdiff, Hr. rewrite Z2Nat.id in Hall, Hdiff, Hr by lia.
    split.
    + intros Hf. apply Z.eqb_eq in Hf. split; [lia|].
      intros j Hj. specialize (Hall Hf j ltac:(lia)).
      rewrite Z.add_0_l, Nat2Z.id in Hall. exact Hall.
    + intros [_ Hn]. apply Z.eqb_eq.
      destruct (Z.eq_dec i fl) as [Hi|Hi]; [exact Hi|].
      exfalso. apply (Hdiff Hi).
      specialize (Hn (Z.to_nat i) ltac:(lia)).
      rewrite Z2Nat.id in Hn by lia. exact Hn.
  - apply Z.eqb_neq in El.
    apply pair_eq_inv in H. destruct H as [H _].
    apply pair_eq_inv in H. destruct H as [<- <-].
    intros _. split; [reflexivity|].
    split; [intros C; discriminate C|].
    intros [Hl _]. exfalso. apply El. rewrite Efl. exact Hl.
Qed.

Lemma firstn_min_255 (nm : list Z) fl :
  fl = Z.of_nat (length nm) ->
  firstn (Z.to_nat (if 255 <? fl then 255 else fl)) nm = firstn 255 nm.
Proof.
  intros ->. destruct (255 <? Z.of_nat (length nm)) eqn:F; [reflexivity|].
  apply Z.ltb_ge in F. rewrite Nat2Z.id.
  rewrite firstn_all. symmetry. apply firstn_all2. lia.
Qed.

(** A lookup by name that ends with the flag down stopped at the first
    directory record that carries the name, walked only records with the
    directory signature, and stored the fields of that record's local
    header and the first 255 bytes of the name. *)
Lemma locate_by_name_clean fuel : forall st offset idx nm st' fi,
  callback_contract (read_callback st) ->
  locate_file_loop fuel st offset idx (Some nm) = Some (st', Some fi) ->
  have_error st' = 0 ->
  exists k,
    (forall j, (j <= k)%nat ->
       le_value (read_callback st) (directory_entry (read_callback st) offset j) 4
       = 0x02014b50) /\
    (forall j, (j < k)%nat ->
       ~ entry_named (read_callback st)
           (directory_entry (read_callback st) offset j) nm) /\
    entry_named (read_callback st)
      (directory_entry (read_callback st) offset k) nm /\
    local_header_fields (read_callback st)
      (le_value (read_callback st)
         (add32 (directory_entry (read_callback st) offset k) 42) 4) fi /\
    filename fi = firstn 255 nm.
Proof.
  induction fuel as [|fuel IH]; intros st offset idx nm st' fi Hcb H He;
    cbn [locate_file_loop] in H; [discriminate|].
  destruct (lowzip_read4 st offset) as [st1 magic] eqn:E1.
  destruct (magic =? 33639248) eqn:Em; cbn [negb] in H; [|discriminate].
  apply Z.eqb_eq in Em.
  destruct (lowzip_read2 st1 (add32 offset 28)) as [st2 fl] eqn:E2.
  pose proof (read_little_endian_scan_step _ _ _ _ _ E1) as S1.
  pose proof (read_little_endian_scan_step _ _ _ _ _ E2) as S2.
  match type of H with
  | context [if fl =? ?x then ?a else ?b] =>
      destruct (if fl =? x then a else b) as [[st3 found] idx'] eqn:Ex
  end.
  destruct (name_test_scan_step _ _ _ _ _ _ _ _ Ex) as [S3 ->].
  assert (Hcb3 : callback_contract (read_callback st3)).
  { destruct S1 as [C1 _], S2 as [C2 _], S3 as [C3 _].
    rewrite C3, C2, C1. exact Hcb. }
  assert (He3 : have_error st3 = 0).
  { destruct found; cbn [negb] in H.
    - injection H as H.
      apply read_local_header_clean in H; [|exact Hcb3|exact He].
      apply H.
    - destruct (lowzip_read2 st3 (add32 offset 30)) as [st4 extra] eqn:E4.
      destruct (lowzip_read2 st4 (add32 offset 32)) as [st5 comment] eqn:E5.
      pose proof (read_little_endian_scan_step _ _ _ _ _ E4) as S4.
      pose proof (read_little_endian_scan_step _ _ _ _ _ E5) as S5.
      pose proof (locate_file_loop_cases _ _ _ _ _ _ _ H) as C.
      destruct C as [(C & _)|(fi' & st6 & _ & -> & Ss & _)]; [discriminate C|].
      cbn [have_error put_file set_file set_scratch] in He.
      eapply scan_step_clean; [exact S4|].
      eapply scan_step_clean; [exact S5|].
      eapply scan_step_clean; eassumption. }
  pose proof (scan_step_clean _ _ S3 He3) as He2.
  pose proof (scan_step_clean _ _ S2 He2) as He1.
  unfold lowzip_read4, lowzip_read2 in E1, E2.
  pose proof E2 as R2.
  apply read_little_endian_clean in E1; [|exact Hcb|lia|exact He1].
  destruct E1 as [-> ->].
  apply read_little_endian_clean_range in R2; [|exact Hcb|lia|exact He2].
  change (256 ^ Z.of_nat 2) with 65536 in R2.
  apply read_little_endian_clean in E2; [|exact Hcb|lia|exact He2].
  destruct E2 as [-> Efl].
  apply name_test_clean in Ex; [|exact Hcb|exact R2|exact Efl|exact He3].
  destruct Ex as [-> Hnamed].
  destruct found; cbn [negb] in H.
  - injection H as H.
    apply read_local_header_clean in H; [|exact Hcb|exact He].
    destruct H as (_ & Hf & Hlen & Hname).
    assert (Hn : entry_named (read_callback st) offset nm)
      by (apply Hnamed; reflexivity).
    exists 0%nat. cbn [directory_entry].
    split; [intros j Hj; assert (j = 0%nat) by lia; subst j; exact Em|].
    split; [intros j Hj; lia|].
    split; [exact Hn|]. split; [exact Hf|].
    destruct Hn as [Hl Hb].
    rewrite <- (firstn_min_255 nm fl) by (rewrite Efl; exact Hl).
    apply nth_ext_firstn.
    + exact Hlen.
    + rewrite Efl, Hl. destruct (Z.ltb_spec 255 (Z.of_nat (length nm))); lia.
    + intros j Hj. rewrite Hname by (rewrite Hlen; exact Hj).
      apply Hb.
      assert (Z.to_nat (if 255 <? fl then 255 else fl)%Z <= length nm)%nat
        by (rewrite Efl, Hl;
            destruct (Z.ltb_spec 255 (Z.of_nat (length nm))); lia).
      lia.
  - destruct (lowzip_read2 st (add32 offset 30)) as [st4 extra] eqn:E4.
    destruct (lowzip_read2 st4 (add32 offset 32)) as [st5 comment] eqn:E5.
    pose proof (read_little_endian_scan_step _ _ _ _ _ E4) as S4.
    pose proof (read_little_endian_scan_step _ _ _ _ _ E5) as S5.
    assert (He5 : have_error st5 = 0).
    { pose proof (locate_file_loop_cases _ _ _ _ _ _ _ H) as C.
      destruct C as [(C & _)|(fi' & st6 & _ & -> & Ss & _)]; [discriminate C|].
      cbn [have_error put_file set_file set_scratch] in He. eapply scan_step_clean; eassumption. }
    pose proof (scan_step_clean _ _ S5 He5) as He4.
    unfold lowzip_read4, lowzip_read2 in E4, E5.
    apply read_little_endian_clean in E4; [|exact Hcb|lia|exact He4].
    destruct E4 as [-> ->].
    apply read_little_endian_clean in E5; [|exact Hcb|lia|exact He5].
    destruct E5 as [-> ->].
    rewrite Efl in H.
    apply IH in H; [|exact Hcb|exact He].
    fold (next_entry (read_callback st) offset) in H.
    destruct H as (k & Hmag & Hnot & Hn & Hf & Hfn).
    exists (S k). cbn [directory_entry].
    split; [intros j Hj; destruct j as [|j]; [exact Em|apply Hmag; lia]|].
    split.
    + intros j Hj. destruct j as [|j].
      * cbn [directory_entry]. intros C. apply Hnamed in C. discriminate C.
      * cbn [directory_entry]. apply Hnot. lia.
    + split; [exact Hn|]. split; [exact Hf|exact Hfn].
Qed.

(** ** The directory walk ends *)

Lemma read_little_endian_small st off n st' v :
  callback_contract (read_callback st) -> (n <= 4)%nat ->
  lowzip_read_little_endian st off n = (st', v) ->
  0 <= v < 256 ^ Z.of_nat n.
Proof.
  intros Hcb Hn H.
  destruct (read_little_endian_cases st off n) as [[Hr E]|[Hr E]];
    rewrite E in H; apply pair_eq_inv in H; destruct H as [_ <-].
  - pose proof (le_value_range _ off n Hcb Hr) as R.
    assert (256 ^ Z.of_nat n <= 256 ^ 4) by (apply Z.pow_le_mono_r; lia).
    change (256 ^ 4) with (2 ^ 32) in *. rewrite u32_small by lia. exact R.
  - split; [lia|]. apply Z.pow_pos_nonneg; lia.
Qed.

Lemma read4_signature_in_input st off st' v N :
  input_ends_at (read_callback st) N ->
  0 <= off < 2 ^ 32 ->
  lowzip_read4 st off = (st', v) -> v <> 0 -> off < N.
Proof.
  intros Hend Ho H Hv.
  apply read4_cases in H. destruct H as [(_ & Hr & _)|(_ & ->)];
    [|contradiction].
  cbn [readable] in Hr. destruct Hr as (_ & _ & _ & H0 & _).
  assert (Ea : add32 off (Z.of_nat 0) = off).
  { unfold add32. change (Z.of_nat 0) with 0. rewrite Z.add_0_r.
    apply u32_small. exact Ho. }
  rewrite Ea in H0.
  destruct (Z.lt_ge_cases off N) as [Hlt|Hge]; [exact Hlt|].
  exfalso. apply (Hend off Hge). exact H0.
Qed.

(** On a finite archive that ends at least 196651 bytes before 2^32 the
    walk through the directory ends: each round moves at least 46 bytes
    forward, and a signature is not found behind the end. *)
Lemma locate_file_loop_terminates N fuel : forall st offset idx name,
  callback_contract (read_callback st) ->
  input_ends_at (read_callback st) N ->
  N + 196651 <= 2 ^ 32 ->
  0 <= offset < 2 ^ 32 ->
  N - offset <= 46 * (Z.of_nat fuel - 1) -> (1 <= fuel)%nat ->
  exists r, locate_file_loop fuel st offset idx name = Some r.
Proof.
  induction fuel as [|fuel IH]; intros st offset idx name Hcb Hend HN Ho Hf Hf1;
    [lia|].
  cbn [locate_file_loop].
  destruct (lowzip_read4 st offset) as [st1 magic] eqn:E1.
  destruct (magic =? 33639248) eqn:Em; cbn [negb]; [|eexists; reflexivity].
  apply Z.eqb_eq in Em.
  assert (HoN : offset < N).
  { eapply read4_signature_in_input; [exact Hend|exact Ho|exact E1|lia]. }
  pose proof (read_little_endian_scan_step _ _ _ _ _ E1) as S1.
  destruct (lowzip_read2 st1 (add32 offset 28)) as [st2 fl] eqn:E2.
  pose proof (read_little_endian_scan_step _ _ _ _ _ E2) as S2.
  assert (C2 : read_callback st2 = read_callback st).
  { destruct S1 as [C1 _], S2 as [C2 _]. congruence. }
  assert (Hfl : 0 <= fl < 65536).
  { unfold lowzip_read2 in E2.
    apply read_little_endian_small in E2; [exact E2| |lia].
    destruct S1 as [C1 _]. rewrite C1. exact Hcb. }
  assert (Hx : exists st3 found idx',
            match name with
            | Some nm =>
                if fl =? Z.of_nat (length nm)
                then let '(st3, i) := compare_name (Z.to_nat fl) 0 st2 offset nm in
                     (st3, i =? fl, idx)
                else (st2, false, idx)
            | None => (st2, idx =? 0, to_int (u32 (idx - 1)))
            end = (st3, found, idx') /\ scan_step st2 st3).
  { destruct name as [nm|].
    - destruct (fl =? Z.of_nat (length nm)).
      + destruct (compare_name (Z.to_nat fl) 0 st2 offset nm) as [st3 i] eqn:Ec.
        exists st3, (i =? fl), idx. split; [reflexivity|].
        eapply compare_name_scan_step. exact Ec.
      + exists st2, false, idx. split; [reflexivity|apply scan_step_refl].
    - exists st2, (idx =? 0), (to_int (u32 (idx - 1))).
      split; [reflexivity|apply scan_step_refl]. }
  destruct Hx as (st3 & found & idx' & -> & S3).
  destruct found; cbn [negb]; [eexists; reflexivity|].
  assert (C3 : read_callback st3 = read_callback st)
    by (destruct S3 as [C3 _]; congruence).
  destruct (lowzip_read2 st3 (add32 offset 30)) as [st4 extra] eqn:E4.
  pose proof (read_little_endian_scan_step _ _ _ _ _ E4) as S4.
  assert (C4 : read_callback st4 = read_callback st)
    by (destruct S4 as [C4 _]; congruence).
  assert (Hex : 0 <= extra < 65536).
  { unfold lowzip_read2 in E4.
    apply read_little_endian_small in E4; [exact E4|rewrite C3; exact Hcb|lia]. }
  destruct (lowzip_read2 st4 (add32 offset 32)) as [st5 comment] eqn:E5.
  pose proof (read_little_endian_scan_step _ _ _ _ _ E5) as S5.
  assert (C5 : read_callback st5 = read_callback st)
    by (destruct S5 as [C5 _]; congruence).
  assert (Hco : 0 <= comment < 65536).
  { unfold lowzip_read2 in E5.
    apply read_little_endian_small in E5; [exact E5|rewrite C4; exact Hcb|lia]. }
  assert (Enext : add32 offset
                    (add32 LOWZIP_MIN_CDIRFILE_LENGTH
                       (add32 (add32 fl extra) comment))
                  = offset + 46 + fl + extra + comment).
  { unfold add32, LOWZIP_MIN_CDIRFILE_LENGTH.
    rewrite (u32_small (fl + extra)) by lia.
    rewrite (u32_small (fl + extra + comment)) by lia.
    rewrite (u32_small (46 + (fl + extra + comment))) by lia.
    rewrite u32_small by lia. lia. }
  rewrite Enext.
  destruct fuel as [|fuel]; [lia|].
  apply IH; try lia.
  - rewrite C5. exact Hcb.
  - rewrite C5. exact Hend.
Qed.

(** ** Lookup by index on a finite archive *)

(** On a finite archive that ends at least 196651 bytes before 2^32, a
    lookup by index that returns an entry found it in a round [k] whose
    record starts inside the archive; the counter, decremented modulo 2^32,
    was 0 in that round. *)
Lemma locate_by_index_found N fuel : forall st offset idx st' fi,
  callback_contract (read_callback st) ->
  input_ends_at (read_callback st) N ->
  N + 196651 <= 2 ^ 32 ->
  0 <= offset < 2 ^ 32 ->
  locate_file_loop fuel st offset idx None = Some (st', Some fi) ->
  exists k, 0 <= k /\ offset + 46 * k < N /\
    (k = 0 -> idx = 0) /\ u32 (idx - k) = u32 0.
Proof.
  induction fuel as [|fuel IH]; intros st offset idx st' fi Hcb Hend HN Ho H;
    cbn [locate_file_loop] in H; [discriminate|].
  destruct (lowzip_read4 st offset) as [st1 magic] eqn:E1.
  destruct (magic =? 33639248) eqn:Em; cbn [negb] in H; [|discriminate].
  apply Z.eqb_eq in Em.
  assert (HoN : offset < N).
  { eapply read4_signature_in_input; [exact Hend|exact Ho|exact E1|lia]. }
  pose proof (read_little_endian_scan_step _ _ _ _ _ E1) as S1.
  destruct (lowzip_read2 st1 (add32 offset 28)) as [st2 fl] eqn:E2.
  pose proof (read_little_endian_scan_step _ _ _ _ _ E2) as S2.
  assert (C2 : read_callback st2 = read_callback st).
  { destruct S1 as [C1 _], S2 as [C2 _]. congruence. }
  assert (Hfl : 0 <= fl < 65536).
  { unfold lowzip_read2 in E2.
    apply read_little_endian_small in E2; [exact E2| |lia].
    destruct S1 as [C1 _]. rewrite C1. exact Hcb. }
  destruct (idx =? 0) eqn:Ei; cbn [negb] in H.
  - apply Z.eqb_eq in Ei. subst idx. exists 0.
    split; [lia|]. split; [lia|]. split; reflexivity.
  - destruct (lowzip_read2 st2 (add32 offset 30)) as [st4 extra] eqn:E4.
    pose proof (read_little_endian_scan_step _ _ _ _ _ E4) as S4.
    assert (C4 : read_callback st4 = read_callback st)
      by (destruct S4 as [C4 _]; congruence).
    assert (Hex : 0 <= extra < 65536).
    { unfold lowzip_read2 in E4.
      apply read_little_endian_small in E4; [exact E4|rewrite C2; exact Hcb|lia]. }
    destruct (lowzip_read2 st4 (add32 offset 32)) as [st5 comment] eqn:E5.
    pose proof (read_little_endian_scan_step _ _ _ _ _ E5) as S5.
    assert (C5 : read_callback st5 = read_callback st)
      by (destruct S5 as [C5 _]; congruence).
    assert (Hco : 0 <= comment < 65536).
    { unfold lowzip_read2 in E5.
      apply read_little_endian_small in E5; [exact E5|rewrite C4; exact Hcb|lia]. }
    assert (Enext : add32 offset
                      (add32 LOWZIP_MIN_CDIRFILE_LENGTH
                         (add32 (add32 fl extra) comment))
                    = offset + 46 + fl + extra + comment).
    { unfold add32, LOWZIP_MIN_CDIRFILE_LENGTH.
      rewrite (u32_small (fl + extra)) by lia.
      rewrite (u32_small (fl + extra + comment)) by lia.
      rewrite (u32_small (46 + (fl + extra + comment))) by lia.
      rewrite u32_small by lia. lia. }
    rewrite Enext in H.
    apply IH in H; [|rewrite C5; exact Hcb|rewrite C5; exact Hend|exact HN|lia].
    destruct H as (k & Hk & Hb & _ & Hz).
    exists (k + 1). split; [lia|]. split; [lia|]. split; [lia|].
    rewrite <- Hz. symmetry. apply int_decrement_mod.
Qed.

(** So the index asked for was the number of that round. *)
Lemma locate_by_index_round N fuel st offset idx st' fi :
  callback_contract (read_callback st) ->
  input_ends_at (read_callback st) N ->
  N + 196651 <= 2 ^ 32 ->
  0 <= offset < 2 ^ 32 ->
  - 2 ^ 31 <= idx < 2 ^ 31 ->
  locate_file_loop fuel st offset idx None = Some (st', Some fi) ->
  0 <= idx /\ offset + 46 * idx < N.
Proof.
  intros Hcb Hend HN Ho Hidx H.
  destruct (locate_by_index_found N fuel st offset idx st' fi Hcb Hend HN Ho H)
    as (k & Hk & Hb & _ & Hz).
  assert (E : idx = k).
  { unfold u32 in Hz. change (2 ^ 32) with 4294967296 in *.
    change (2 ^ 31) with 2147483648 in *.
    change (0 mod 4294967296) with 0 in Hz.
    Z.to_euclidean_division_equations. lia. }
  subst k. split; [exact Hk|exact Hb].
Qed.

(** An index below zero is never found on such an archive. *)
Lemma locate_file_loop_negative N fuel st offset idx st' r :
  callback_contract (read_callback st) ->
  input_ends_at (read_callback st) N ->
  N + 196651 <= 2 ^ 32 ->
  0 <= offset < 2 ^ 32 ->
  - 2 ^ 31 <= idx < 0 ->
  locate_file_loop fuel st offset idx None = Some (st', r) -> r = None.
Proof.
  intros Hcb Hend HN Ho Hidx H. destruct r as [fi|]; [|reflexivity].
  exfalso.
  destruct (locate_by_index_round N fuel st offset idx st' fi Hcb Hend HN Ho
              ltac:(lia) H) as [C _].
  lia.
Qed.

(** ** A lookup whose reads stay in bounds *)

Lemma copy_filename_readable n : forall i st offset,
  callback_contract (read_callback st) ->
  (forall j, i <= j < i + Z.of_nat n ->
     readable (read_callback st)
       (add32 (add32 offset LOWZIP_MIN_CDIRFILE_LENGTH) j) 1) ->
  0 <= i -> i + Z.of_nat n < 2 ^ 32 ->
  exists l, copy_filename n i st offset = (st, l).
Proof.
  induction n as [|n IH]; intros i st offset Hcb Hr Hi Hw; cbn [copy_filename].
  - exists []. reflexivity.
  - unfold lowzip_read1.
    rewrite read_little_endian_readable by (try assumption; try lia; apply Hr; lia).
    assert (Ei : add32 i 1 = i + 1) by (unfold add32; apply u32_small; lia).
    rewrite Ei.
    destruct (IH (i + 1) st offset Hcb) as [l El]; try lia.
    + intros j Hj. apply Hr. lia.
    + rewrite El. eexists. reflexivity.
Qed.

(** When the directory record and the local header are in bounds and the
    header carries its signature, the cross-read returns an entry and
    changes nothing but the scratch area, where it writes the entry. *)
Lemma read_local_header_readable st offset :
  callback_contract (read_callback st) ->
  entry_readable (read_callback st) offset ->
  exists fi,
    read_local_header st offset (le_value (read_callback st) (add32 offset 28) 2)
    = (put_file st fi, Some fi).
Proof.
  intros Hcb (_ & _ & R28 & R42 & Rl & Sl & R6 & R8 & R14 & R18 & R22 & R26 &
              R28' & Rn).
  pose proof (le_value_range _ _ 2 Hcb R28) as Hfl.
  change (256 ^ Z.of_nat 2) with 65536 in Hfl.
  unfold read_local_header, lowzip_read4, lowzip_read2.
  rewrite (read_little_endian_readable st (add32 offset 42) 4) by (try assumption; lia).
  rewrite (read_little_endian_readable st _ 4 Hcb ltac:(lia) Rl).
  rewrite Sl. change (negb (67324752 =? 67324752)) with false. cbv iota.
  rewrite (read_little_endian_readable st _ 2 Hcb ltac:(lia) R6).
  rewrite (read_little_endian_readable st _ 2 Hcb ltac:(lia) R8).
  rewrite (read_little_endian_readable st _ 4 Hcb ltac:(lia) R14).
  rewrite (read_little_endian_readable st _ 4 Hcb ltac:(lia) R18).
  rewrite (read_little_endian_readable st _ 4 Hcb ltac:(lia) R22).
  rewrite (read_little_endian_readable st _ 2 Hcb ltac:(lia) R26).
  rewrite (read_little_endian_readable st _ 2 Hcb ltac:(lia) R28').
  match goal with
  | |- context [copy_filename ?n 0 st offset] =>
      destruct (copy_filename_readable n 0 st offset Hcb) as [l El]
  end.
  - intros j Hj. apply Rn.
    destruct (Z.ltb_spec 255 (le_value (read_callback st) (add32 offset 28) 2));
      lia.
  - lia.
  - destruct (Z.ltb_spec 255 (le_value (read_callback st) (add32 offset 28) 2));
      lia.
  - rewrite El. eexists. reflexivity.
Qed.

(** So a lookup of entry 0 returns it, and leaves the error flag down,
    whatever the flag was before the call. *)
Lemma locate_first_entry fuel st :
  callback_contract (read_callback st) ->
  entry_readable (read_callback st) (central_dir_offset st) ->
  exists fi,
    lowzip_locate_file (S fuel) st 0 None
    = Some (put_file (set_have_error st 0) fi, Some fi).
Proof.
  intros Hcb He.
  destruct (read_local_header_readable (set_have_error st 0)
              (central_dir_offset st) Hcb He) as [fi Ef].
  destruct He as (R0 & S0 & R28 & _).
  unfold lowzip_locate_file. cbv zeta. cbn [locate_file_loop].
  change (central_dir_offset (set_have_error st 0)) with (central_dir_offset st).
  unfold lowzip_read4, lowzip_read2.
  rewrite (read_little_endian_readable (set_have_error st 0) _ 4 Hcb ltac:(lia) R0).
  change (read_callback (set_have_error st 0)) with (read_callback st) in *.
  rewrite S0. change (negb (33639248 =? 33639248)) with false. cbv iota.
  rewrite (read_little_endian_readable (set_have_error st 0) _ 2 Hcb ltac:(lia) R28).
  change (read_callback (set_have_error st 0)) with (read_callback st).
  change (negb (0 =? 0)) with false. cbv iota.
  exists fi. rewrite Ef. reflexivity.
Qed.

(** ** The search of the end of central directory record *)

(** A scan that ends with the flag down stopped at the first offset, going
    down from [offset], that holds an acceptable record, and changed
    nothing but the directory offset. *)
Lemma init_archive_scan_clean n : forall offset st st',
  callback_contract (read_callback st) ->
  init_archive_scan n offset st = st' ->
  have_error st' = 0 ->
  exists k, (k < n)%nat /\
    eocd_at (read_callback st) (zip_length st) (offset - Z.of_nat k) /\
    (forall j, (j < k)%nat ->
       ~ eocd_at (read_callback st) (zip_length st) (offset - Z.of_nat j)) /\
    st' = set_central_dir_offset st
            (le_value (read_callback st) (u32 (offset - Z.of_nat k + 16)) 4).
Proof.
  induction n as [|n IH]; intros offset st st' Hcb H He;
    cbn [init_archive_scan] in H.
  { subst st'. cbn in He. discriminate He. }
  destruct (have_error st =? 0) eqn:E0; cbn [negb] in H;
    [|subst st'; cbn in He; discriminate He].
  destruct (lowzip_read4 st (u32 offset)) as [st1 magic] eqn:E1.
  pose proof (read_little_endian_scan_step _ _ _ _ _ E1) as S1.
  assert (Hcb1 : callback_contract (read_callback st1))
    by (destruct S1 as [C1 _]; rewrite C1; exact Hcb).
  unfold lowzip_read4 in E1.
  destruct (magic =? 101010256) eqn:Em; cbn [negb] in H.
  - apply Z.eqb_eq in Em.
    destruct (lowzip_read2 st1 (u32 (offset + 20))) as [st2 cl] eqn:E2.
    pose proof (read_little_endian_scan_step _ _ _ _ _ E2) as S2.
    assert (Hcb2 : callback_contract (read_callback st2))
      by (destruct S2 as [C2 _]; rewrite C2; exact Hcb1).
    unfold lowzip_read2 in E2.
    destruct (add32 (u32 (offset + LOWZIP_MIN_EOCDIR_LENGTH)) cl =? zip_length st2)
      eqn:El; cbn [negb] in H.
    + apply Z.eqb_eq in El.
      destruct (lowzip_read4 st2 (u32 (offset + 16))) as [st3 cdir] eqn:E3.
      pose proof (read_little_endian_scan_step _ _ _ _ _ E3) as S3.
      unfold lowzip_read4 in E3. subst st'.
      cbn [have_error set_central_dir_offset] in He.
      pose proof (scan_step_clean _ _ S3 He) as He2.
      pose proof (scan_step_clean _ _ S2 He2) as He1.
      apply read_little_endian_clean in E1; [|exact Hcb|lia|exact He1].
      destruct E1 as [-> ->].
      apply read_little_endian_clean in E2; [|exact Hcb|lia|exact He2].
      destruct E2 as [-> ->].
      apply read_little_endian_clean in E3; [|exact Hcb|lia|exact He].
      destruct E3 as [-> ->].
      exists 0%nat. change (Z.of_nat 0) with 0. rewrite Z.sub_0_r.
      split; [lia|]. split; [split; [exact Em|exact El]|].
      split; [intros j Hj; lia|reflexivity].
    + apply Z.eqb_neq in El.
      apply IH in H; [|exact Hcb2|exact He].
      destruct H as (k & Hk & Hat & Hnot & ->).
      cbn [have_error set_central_dir_offset] in He.
      pose proof (scan_step_clean _ _ S2 He) as He1.
      apply read_little_endian_clean in E1; [|exact Hcb|lia|exact He1].
      destruct E1 as [-> ->].
      apply read_little_endian_clean in E2; [|exact Hcb|lia|exact He].
      destruct E2 as [-> ->].
      exists (S k).
      replace (offset - Z.of_nat (S k)) with (offset - 1 - Z.of_nat k) by lia.
      split; [lia|]. split; [exact Hat|]. split; [|reflexivity].
      intros j Hj. destruct j as [|j].
      * change (Z.of_nat 0) with 0. rewrite Z.sub_0_r.
        intros [_ C]. apply El. exact C.
      * replace (offset - Z.of_nat (S j)) with (offset - 1 - Z.of_nat j) by lia.
        apply Hnot. lia.
  - apply Z.eqb_neq in Em.
    apply IH in H; [|exact Hcb1|exact He].
    destruct H as (k & Hk & Hat & Hnot & ->).
    cbn [have_error set_central_dir_offset] in He.
    apply read_little_endian_clean in E1; [|exact Hcb|lia|exact He].
    destruct E1 as [-> ->].
    exists (S k).
    replace (offset - Z.of_nat (S k)) with (offset - 1 - Z.of_nat k) by lia.
    split; [lia|]. split; [exact Hat|]. split; [|reflexivity].
    intros j Hj. destruct j as [|j].
    + change (Z.of_nat 0) with 0. rewrite Z.sub_0_r.
      intros [C _]. apply Em. exact C.
    + replace (offset - Z.of_nat (S j)) with (offset - 1 - Z.of_nat j) by lia.
      apply Hnot. lia.
Qed.

(** The converse: when the reads down to the first acceptable record stay
    in bounds, the scan stops there and stores the directory offset. *)
Lemma init_archive_scan_finds n : forall offset st k,
  callback_contract (read_callback st) ->
  have_error st = 0 -> (k < n)%nat ->
  (forall j, (j <= k)%nat ->
     readable (read_callback st) (u32 (offset - Z.of_nat j)) 4 /\
     readable (read_callback st) (u32 (offset - Z.of_nat j + 20)) 2) ->
  readable (read_callback st) (u32 (offset - Z.of_nat k + 16)) 4 ->
  eocd_at (read_callback st) (zip_length st) (offset - Z.of_nat k) ->
  (forall j, (j < k)%nat ->
     ~ eocd_at (read_callback st) (zip_length st) (offset - Z.of_nat j)) ->
  init_archive_scan n offset st
  = set_central_dir_offset st
      (le_value (read_callback st) (u32 (offset - Z.of_nat k + 16)) 4).
Proof.
  induction n as [|n IH]; intros offset st k Hcb He Hk Hrd Hr16 Hat Hnot;
    [lia|].
  cbn [init_archive_scan]. rewrite He. change (negb (0 =? 0)) with false.
  cbv iota.
  destruct (Hrd 0%nat ltac:(lia)) as [R4 R2].
  change (Z.of_nat 0) with 0 in R4, R2. rewrite Z.sub_0_r in R4, R2.
  unfold lowzip_read4, lowzip_read2.
  destruct (read_little_endian_cases st (u32 offset) 4) as [[_ E1]|[C _]];
    [|contradiction].
  rewrite E1. rewrite (le_value_u32 _ _ Hcb R4).
  assert (E2 : lowzip_read_little_endian st (u32 (offset + 20)) 2
               = (st, le_value (read_callback st) (u32 (offset + 20)) 2)).
  { destruct (read_little_endian_cases st (u32 (offset + 20)) 2)
      as [[_ E]|[C _]]; [|contradiction].
    rewrite E. f_equal. apply u32_small.
    pose proof (le_value_range _ _ 2 Hcb R2) as R.
    change (256 ^ Z.of_nat 2) with 65536 in R. lia. }
  assert (E3 : forall o, readable (read_callback st) o 4 ->
            lowzip_read_little_endian st o 4
            = (st, le_value (read_callback st) o 4)).
  { intros o Ro. destruct (read_little_endian_cases st o 4)
      as [[_ E]|[C _]]; [|contradiction].
    rewrite E, (le_value_u32 _ _ Hcb Ro). reflexivity. }
  destruct k as [|k].
  - change (Z.of_nat 0) with 0 in *. rewrite Z.sub_0_r in *.
    destruct Hat as [Hm Hl]. rewrite Hm.
    change (negb (101010256 =? 101010256)) with false. cbv iota.
    rewrite E2, Hl, Z.eqb_refl. cbn [negb].
    rewrite (E3 _ Hr16). reflexivity.
  - assert (Hrec : init_archive_scan n (offset - 1) st
                   = set_central_dir_offset st
                       (le_value (read_callback st)
                          (u32 (offset - Z.of_nat (S k) + 16)) 4)).
    { replace (offset - Z.of_nat (S k)) with (offset - 1 - Z.of_nat k) in * by lia.
      apply IH; try assumption; [lia| |].
      - intros j Hj. specialize (Hrd (S j) ltac:(lia)).
        replace (offset - Z.of_nat (S j)) with (offset - 1 - Z.of_nat j) in Hrd by lia.
        exact Hrd.
      - intros j Hj. specialize (Hnot (S j) ltac:(lia)).
        replace (offset - Z.of_nat (S j)) with (offset - 1 - Z.of_nat j) in Hnot by lia.
        exact Hnot. }
    specialize (Hnot 0%nat ltac:(lia)).
    change (Z.of_nat 0) with 0 in Hnot. rewrite Z.sub_0_r in Hnot.
    destruct (le_value (read_callback st) (u32 offset) 4 =? 101010256) eqn:Em;
      cbn [negb]; [|exact Hrec].
    rewrite E2.
    destruct (add32 (u32 (offset + LOWZIP_MIN_EOCDIR_LENGTH))
                (le_value (read_callback st) (u32 (offset + 20)) 2)
              =? zip_length st) eqn:El; cbn [negb]; [|exact Hrec].
    exfalso. apply Hnot. split; [apply Z.eqb_eq; exact Em|apply Z.eqb_eq; exact El].
Qed.

Lemma bytes_callback_readable data a n :
  all_bytes data = true -> 0 <= a ->
  a + Z.of_nat n <= Z.of_nat (length data) ->
  Z.of_nat (length data) < 2 ^ 32 ->
  readable (bytes_callback data) a n.
Proof.
  intros Hall Ha. induction n as [|n IH]; intros Hn Hl; [exact I|].
  cbn [readable]. split; [|apply IH; lia].
  assert (Ea : add32 a (Z.of_nat n) = a + Z.of_nat n)
    by (unfold add32; apply u32_small; lia).
  rewrite Ea. unfold bytes_callback.
  assert (E : (0 <=? a + Z.of_nat n)
              && (a + Z.of_nat n <? Z.of_nat (length data)) = true).
  { apply andb_true_iff. split; [apply Z.leb_le; lia|apply Z.ltb_lt; lia]. }
  rewrite E. apply byte_no_flag.
  unfold all_bytes in Hall. rewrite forallb_forall in Hall.
  assert (Hin : In (nth (Z.to_nat (a + Z.of_nat n)) data 0) data)
    by (apply nth_In; lia).
  apply Hall in Hin. lia.
Qed.

(** On an archive held in memory a directory record and the local header
    it points to are readable when they lie inside the archive. *)
Lemma entry_readable_in_memory data e :
  all_bytes data = true ->
  Z.of_nat (length data) < 2 ^ 32 ->
  0 <= e ->
  e + LOWZIP_MIN_CDIRFILE_LENGTH <= Z.of_nat (length data) ->
  e + LOWZIP_MIN_CDIRFILE_LENGTH
    + Z.min 255 (le_value (bytes_callback data) (e + 28) 2)
    <= Z.of_nat (length data) ->
  le_value (bytes_callback data) (e + 42) 4 + LOWZIP_MIN_LOCFILE_LENGTH
    <= Z.of_nat (length data) ->
  le_value (bytes_callback data) e 4 = 0x02014b50 ->
  le_value (bytes_callback data) (le_value (bytes_callback data) (e + 42) 4) 4
    = 0x04034b50 ->
  entry_readable (bytes_callback data) e.
Proof.
  intros Hall Hlen He Hrec0 Hrec Hloc Hs1 Hs2.
  unfold LOWZIP_MIN_CDIRFILE_LENGTH, LOWZIP_MIN_LOCFILE_LENGTH in *.
  pose proof (bytes_callback_contract data Hall) as Hcb.
  assert (R28 : readable (bytes_callback data) (e + 28) 2)
    by (apply bytes_callback_readable; try assumption; cbn [Z.of_nat]; lia).
  assert (R42 : readable (bytes_callback data) (e + 42) 4)
    by (apply bytes_callback_readable; try assumption; cbn [Z.of_nat]; lia).
  pose proof (le_value_range _ _ 2 Hcb R28) as Hfl.
  pose proof (le_value_range _ _ 4 Hcb R42) as Hlh.
  change (256 ^ Z.of_nat 2) with 65536 in Hfl.
  assert (A : forall x, 0 <= x -> e + x < 2 ^ 32 -> add32 e x = e + x)
    by (intros x Hx Hx2; unfold add32; apply u32_small; lia).
  unfold entry_readable. cbv zeta.
  unfold LOWZIP_MIN_CDIRFILE_LENGTH.
  rewrite (A 28), (A 42), (A 46) by lia.
  set (lhdr := le_value (bytes_callback data) (e + 42) 4) in *.
  assert (B : forall x, 0 <= x -> lhdr + x < 2 ^ 32 -> add32 lhdr x = lhdr + x)
    by (intros x Hx Hx2; unfold add32; apply u32_small; lia).
  rewrite (B 6), (B 8), (B 14), (B 18), (B 22), (B 26), (B 28) by lia.
  repeat match goal with
         | |- _ /\ _ => split
         | |- readable _ _ _ =>
             apply bytes_callback_readable; try assumption; cbn [Z.of_nat]; lia
         end; try assumption.
  intros j Hj.
  assert (Ej : add32 (e + 46) j = e + 46 + j)
    by (unfold add32; apply u32_small; lia).
  rewrite Ej.
  apply bytes_callback_readable; try assumption; cbn [Z.of_nat]; lia.
Qed.

(** On an archive held in memory the search succeeds exactly at the highest
    offset, among the 65536 offsets below the archive's end minus 22, that
    holds an acceptable record. *)
Lemma init_archive_in_memory st data o :
  read_callback st = bytes_callback data ->
  zip_length st = Z.of_nat (length data) ->
  all_bytes data = true ->
  Z.of_nat (length data) < 2 ^ 31 ->
  0 <= o <= Z.of_nat (length data) - LOWZIP_MIN_EOCDIR_LENGTH ->
  Z.of_nat (length data) - LOWZIP_MAX_EOCDIR_LENGTH <= o ->
  eocd_at (bytes_callback data) (Z.of_nat (length data)) o ->
  (forall o', o < o' <= Z.of_nat (length data) - LOWZIP_MIN_EOCDIR_LENGTH ->
     ~ eocd_at (bytes_callback data) (Z.of_nat (length data)) o') ->
  lowzip_init_archive st
  = set_central_dir_offset (set_have_error st 0)
      (le_value (bytes_callback data) (o + 16) 4).
Proof.
  intros Hcb Hz Hall Hlen Ho Hlow Hat Hnot.
  unfold lowzip_init_archive. cbv zeta.
  change (zip_length (set_have_error st 0)) with (zip_length st).
  rewrite Hz. unfold to_int.
  destruct (Z.ltb_spec (Z.of_nat (length data)) (2 ^ 31)) as [_|C]; [|lia].
  unfold LOWZIP_MIN_EOCDIR_LENGTH, LOWZIP_MAX_EOCDIR_LENGTH in *.
  set (top := Z.of_nat (length data) - 22) in *.
  set (k := Z.to_nat (top - o)).
  assert (Ek : top - Z.of_nat k = o) by (subst k; lia).
  assert (P : 2 ^ 31 < 2 ^ 32) by (apply Z.pow_lt_mono_r; lia).
  rewrite (init_archive_scan_finds _ top (set_have_error st 0) k).
  - change (read_callback (set_have_error st 0)) with (read_callback st).
    rewrite Hcb, Ek. rewrite u32_small by (subst top; lia). reflexivity.
  - change (read_callback (set_have_error st 0)) with (read_callback st).
    rewrite Hcb. apply bytes_callback_contract. exact Hall.
  - reflexivity.
  - subst k top. lia.
  - change (read_callback (set_have_error st 0)) with (read_callback st).
    rewrite Hcb. intros j Hj.
    rewrite !u32_small by (subst top; lia).
    split; apply bytes_callback_readable; try exact Hall; subst top;
      cbn [Z.of_nat]; lia.
  - change (read_callback (set_have_error st 0)) with (read_callback st).
    rewrite Hcb, Ek. rewrite u32_small by (subst top; lia).
    apply bytes_callback_readable; try exact Hall; subst top; cbn [Z.of_nat]; lia.
  - change (read_callback (set_have_error st 0)) with (read_callback st).
    change (zip_length (set_have_error st 0)) with (zip_length st).
    rewrite Hcb, Hz, Ek. exact Hat.
  - change (read_callback (set_have_error st 0)) with (read_callback st).
    change (zip_length (set_have_error st 0)) with (zip_length st).
    rewrite Hcb, Hz. intros j Hj. apply Hnot. lia.
Qed.

Lemma init_archive_clean st :
  callback_contract (read_callback st) ->
  have_error (lowzip_init_archive st) = 0 ->
  exists o,
    to_int (zip_length st) - LOWZIP_MAX_EOCDIR_LENGTH <= o
      <= to_int (zip_length st) - LOWZIP_MIN_EOCDIR_LENGTH /\
    eocd_at (read_callback st) (zip_length st) o /\
    (forall o', o < o' <= to_int (zip_length st) - LOWZIP_MIN_EOCDIR_LENGTH ->
       ~ eocd_at (read_callback st) (zip_length st) o') /\
    lowzip_init_archive st
    = set_central_dir_offset (set_have_error st 0)
        (le_value (read_callback st) (u32 (o + 16)) 4).
Proof.
  intros Hcb. unfold lowzip_init_archive. cbv zeta.
  remember (Z.to_nat (LOWZIP_MAX_EOCDIR_LENGTH - LOWZIP_MIN_EOCDIR_LENGTH + 1))
    as n eqn:En.
  remember (set_have_error st 0) as st0 eqn:E0.
  assert (Hc0 : read_callback st0 = read_callback st) by (subst st0; reflexivity).
  assert (Hz0 : zip_length st0 = zip_length st) by (subst st0; reflexivity).
  rewrite Hz0.
  remember (to_int (zip_length st) - LOWZIP_MIN_EOCDIR_LENGTH) as top eqn:Et.
  remember (init_archive_scan n top st0) as st' eqn:Hs.
  intros He. symmetry in Hs.
  apply init_archive_scan_clean in Hs; [|rewrite Hc0; exact Hcb|exact He].
  destruct Hs as (k & Hk & Hat & Hnot & Hst).
  rewrite Hc0, Hz0 in *.
  exists (top - Z.of_nat k).
  unfold LOWZIP_MAX_EOCDIR_LENGTH, LOWZIP_MIN_EOCDIR_LENGTH in *.
  split; [lia|]. split; [exact Hat|]. split; [|exact Hst].
  intros o' Ho'.
  replace o' with (top - Z.of_nat (Z.to_nat (top - o'))) by lia.
  apply Hnot. lia.
Qed.

(** ** Stored entries *)

Lemma read1_holds st off b :
  0 <= off < 2 ^ 32 -> read_callback st off = b -> 0 <= b < 256 ->
  lowzip_read1 st off = (st, b).
Proof.
  intros Ho Hb Hr. unfold lowzip_read1.
  assert (Ea : add32 off (Z.of_nat 0) = off).
  { unfold add32. change (Z.of_nat 0) with 0. rewrite Z.add_0_r.
    apply u32_small. exact Ho. }
  destruct (read_little_endian_cases st off 1) as [[_ E]|[Hn _]].
  - rewrite E. cbn [le_value]. rewrite Ea, Hb.
    change (256 ^ Z.of_nat 0) with 1. rewrite Z.add_0_l, Z.mul_1_r.
    rewrite u32_small by lia. reflexivity.
  - exfalso. apply Hn. cbn [readable]. rewrite Ea, Hb.
    split; [apply byte_no_flag; exact Hr|exact I].
Qed.

(** The copy loop of a stored entry, on readable data that fits the output
    window, runs to its end and leaves the data behind the old cursor. *)
Lemma store_copy_holds data : forall off st,
  have_error st = 0 -> 0 <= off ->
  off + Z.of_nat (length data) < 2 ^ 32 ->
  input_holds (read_callback st) off data ->
  output_next st + Z.of_nat (length data) <= output_end st ->
  exists st',
    store_copy (length data) off st = Continue st' /\
    have_error st' = 0 /\
    output_next st' = output_next st + Z.of_nat (length data) /\
    memory_holds (memory st') (output_next st) data /\
    (forall a, a < output_next st -> memory st' a = memory st a).
Proof.
  induction data as [|b data IH]; intros off st He Ho Hw Hin Hfit.
  - exists st. cbn [store_copy length]. split; [reflexivity|].
    split; [exact He|]. split; [cbn; lia|].
    split; [intros k Hk; cbn in Hk; lia|]. intros a _. reflexivity.
  - cbn [length] in Hw, Hfit. cbn [store_copy length]. rewrite He.
    change (negb (0 =? 0)) with false. cbv iota.
    destruct (Hin 0%nat ltac:(cbn; lia)) as [Hb Hr]. cbn [nth] in Hb, Hr.
    rewrite Z.add_0_r in Hb.
    rewrite (read1_holds st off b) by (try assumption; lia).
    rewrite u8_small by exact Hr.
    assert (Ea : add32 off 1 = off + 1) by (unfold add32; apply u32_small; lia).
    rewrite Ea.
    unfold lowzip_write_byte.
    destruct (output_end st <=? output_next st) eqn:Eo;
      [apply Z.leb_le in Eo; lia|].
    set (st1 := set_output_next _ _).
    destruct (IH (off + 1) st1) as (st' & Hc & He' & Hn' & Hm' & Hk').
    + exact He.
    + lia.
    + lia.
    + change (read_callback st1) with (read_callback st).
      intros k Hk. specialize (Hin (S k) ltac:(cbn; lia)).
      cbn [nth] in Hin.
      replace (off + 1 + Z.of_nat k) with (off + Z.of_nat (S k)) by lia.
      exact Hin.
    + change (output_next st1) with (output_next st + 1).
      change (output_end st1) with (output_end st). lia.
    + change (output_next st1) with (output_next st + 1) in Hn', Hm', Hk'.
      change (memory st1) with (upd (memory st) (output_next st) b) in Hk'.
      exists st'. split; [exact Hc|]. split; [exact He'|].
      split; [lia|]. split.
      * intros k Hk. destruct k as [|k].
        -- cbn [nth]. rewrite Z.add_0_r. rewrite Hk' by lia.
           apply upd_same.
        -- cbn [nth].
           replace (output_next st + Z.of_nat (S k))
             with (output_next st + 1 + Z.of_nat k) by lia.
           apply Hm'. cbn in Hk. lia.
      * intros a Ha. rewrite Hk' by lia. apply upd_other. lia.
Qed.

(** Extracting a stored entry without data descriptor whose data is
    readable and fits the output window: the data ends up in the output,
    and the error flag tells whether the header's CRC-32 is the data's. *)
Lemma get_data_stored fuel st data :
  compression_method (file st) = LOWZIP_COMPRESSION_STORE ->
  have_data_descriptor (file st) = 0 ->
  uncompressed_size (file st) = Z.of_nat (length data) ->
  0 <= data_offset (file st) ->
  data_offset (file st) + Z.of_nat (length data) < 2 ^ 32 ->
  input_holds (read_callback st) (data_offset (file st)) data ->
  output_next st = output_start st ->
  output_start st + Z.of_nat (length data) <= output_end st ->
  exists st',
    lowzip_get_data fuel st = Some st' /\
    output_bytes st' = data /\
    (have_error st' = 0 <-> crc32 (file st) = crc32_of_bytes data).
Proof.
  intros Hm Hd Hu Ho Hw Hin Hn Hfit.
  unfold lowzip_get_data. cbv zeta.
  change (file (set_have_error st 0)) with (file st).
  rewrite Hm, Hd, Hu. change (LOWZIP_COMPRESSION_STORE =? LOWZIP_COMPRESSION_STORE) with true.
  cbv iota.
  assert (Ea : add32 (data_offset (file st)) (Z.of_nat (length data))
               = data_offset (file st) + Z.of_nat (length data))
    by (unfold add32; apply u32_small; lia).
  rewrite Ea.
  replace (Z.to_nat (data_offset (file st) + Z.of_nat (length data)
                     - data_offset (file st))) with (length data) by lia.
  destruct (store_copy_holds data (data_offset (file st)) (set_have_error st 0))
    as (st1 & Hc & He1 & Hn1 & Hm1 & _).
  - reflexivity.
  - exact Ho.
  - exact Hw.
  - exact Hin.
  - change (output_next (set_have_error st 0)) with (output_next st).
    change (output_end (set_have_error st 0)) with (output_end st). lia.
  - rewrite Hc.
    destruct (store_copy_frame _ _ _ _ (or_introl Hc)) as (Sf & _ & _).
    destruct Sf as (_ & _ & Hs & _).
    change (output_start (set_have_error st 0)) with (output_start st) in Hs.
    change (output_next (set_have_error st 0)) with (output_next st) in Hn1, Hm1.
    assert (Hob : output_bytes st1 = data).
    { unfold output_bytes. rewrite Hs, Hn1, Hn.
      replace (Z.to_nat (output_start st + Z.of_nat (length data) - output_start st))
        with (length data) by lia.
      apply memory_holds_output. rewrite <- Hn. exact Hm1. }
    unfold get_data_validate. rewrite He1.
    change (negb (0 =? 0)) with false. cbv iota.
    replace (output_next st1 - output_start st1) with (Z.of_nat (length data))
      by (rewrite Hs, Hn1, Hn; lia).
    rewrite Z.eqb_refl. cbn [negb]. rewrite zip_crc32_output, Hob.
    destruct (crc32_of_bytes data =? crc32 (file st)) eqn:Ec; cbn [negb].
    + apply Z.eqb_eq in Ec. exists st1. split; [reflexivity|].
      split; [exact Hob|]. split; [intros _; symmetry; exact Ec|intros _; exact He1].
    + apply Z.eqb_neq in Ec. exists (set_have_error st1 1).
      split; [reflexivity|]. split; [exact Hob|].
      split; [intros C; cbn in C; discriminate C|].
      intros C. exfalso. apply Ec. symmetry. exact C.
Qed.

(** The same for an entry that announces a data descriptor: the offset of
    the bit reader is left alone, and the CRC-32 the data must match is the
    one of the descriptor read at that offset. *)
Lemma get_data_stored_descriptor fuel st data :
  callback_contract (read_callback st) ->
  compression_method (file st) = LOWZIP_COMPRESSION_STORE ->
  have_data_descriptor (file st) <> 0 ->
  uncompressed_size (file st) = Z.of_nat (length data) ->
  0 <= data_offset (file st) ->
  data_offset (file st) + Z.of_nat (length data) < 2 ^ 32 ->
  input_holds (read_callback st) (data_offset (file st)) data ->
  output_next st = output_start st ->
  output_start st + Z.of_nat (length data) <= output_end st ->
  readable (read_callback st) (read_offset st) 4 ->
  (le_value (read_callback st) (read_offset st) 4 = 0x08074b50 ->
   readable (read_callback st) (add32 (read_offset st) 4) 4) ->
  exists st',
    lowzip_get_data fuel st = Some st' /\
    read_offset st' = read_offset st /\
    output_bytes st' = data /\
    (have_error st' = 0 <->
     crc32_of_bytes data = descriptor_crc (read_callback st) (read_offset st)).
Proof.
  intros Hcb Hm Hd Hu Ho Hw Hin Hn Hfit Hr1 Hr2.
  unfold lowzip_get_data. cbv zeta.
  change (file (set_have_error st 0)) with (file st).
  rewrite Hm, Hu.
  change (LOWZIP_COMPRESSION_STORE =? LOWZIP_COMPRESSION_STORE) with true.
  cbv iota.
  assert (Ea : add32 (data_offset (file st)) (Z.of_nat (length data))
               = data_offset (file st) + Z.of_nat (length data))
    by (unfold add32; apply u32_small; lia).
  rewrite Ea.
  replace (Z.to_nat (data_offset (file st) + Z.of_nat (length data)
                     - data_offset (file st))) with (length data) by lia.
  destruct (store_copy_holds data (data_offset (file st)) (set_have_error st 0))
    as (st1 & Hc & He1 & Hn1 & Hm1 & _).
  - reflexivity.
  - exact Ho.
  - exact Hw.
  - exact Hin.
  - change (output_next (set_have_error st 0)) with (output_next st).
    change (output_end (set_have_error st 0)) with (output_end st). lia.
  - rewrite Hc.
    destruct (store_copy_frame _ _ _ _ (or_introl Hc)) as (Sf & Hro & _).
    destruct Sf as (Hcb1 & _ & Hs & _).
    change (read_callback (set_have_error st 0)) with (read_callback st) in Hcb1.
    change (read_offset (set_have_error st 0)) with (read_offset st) in Hro.
    change (output_start (set_have_error st 0)) with (output_start st) in Hs.
    change (output_next (set_have_error st 0)) with (output_next st) in Hn1, Hm1.
    assert (Hob : output_bytes st1 = data).
    { unfold output_bytes. rewrite Hs, Hn1, Hn.
      replace (Z.to_nat (output_start st + Z.of_nat (length data) - output_start st))
        with (length data) by lia.
      apply memory_holds_output. rewrite <- Hn. exact Hm1. }
    unfold get_data_validate. rewrite He1.
    change (negb (0 =? 0)) with false. cbv iota.
    replace (output_next st1 - output_start st1) with (Z.of_nat (length data))
      by (rewrite Hs, Hn1, Hn; lia).
    rewrite Z.eqb_refl. cbn [negb]. rewrite zip_crc32_output, Hob.
    apply Z.eqb_neq in Hd. rewrite Hd. cbn [negb].
    unfold lowzip_read4. rewrite Hro.
    rewrite (read_little_endian_readable st1 (read_offset st) 4)
      by (rewrite ?Hcb1; try assumption; lia).
    rewrite Hro, Hcb1. unfold descriptor_crc.
    destruct (le_value (read_callback st) (read_offset st) 4 =? 134695760) eqn:Es.
    + apply Z.eqb_eq in Es.
      rewrite (read_little_endian_readable st1 (add32 (read_offset st) 4) 4)
        by (rewrite ?Hcb1; try assumption; try lia; apply Hr2; exact Es).
      rewrite Hcb1.
      match goal with
      | |- context [negb (?a =? ?b)] => destruct (a =? b) eqn:Ec; cbn [negb]
      end.
      * apply Z.eqb_eq in Ec. exists st1. split; [reflexivity|].
        split; [exact Hro|]. split; [exact Hob|].
        split; [intros _; exact Ec|intros _; exact He1].
      * apply Z.eqb_neq in Ec. exists (set_have_error st1 1).
        split; [reflexivity|]. split; [exact Hro|]. split; [exact Hob|].
        split; [intros C; cbn in C; discriminate C|].
        intros C. exfalso. apply Ec. exact C.
    + rewrite (read_little_endian_readable st1 (read_offset st) 4)
        by (rewrite ?Hcb1; try assumption; lia).
      rewrite Hcb1.
      match goal with
      | |- context [negb (?a =? ?b)] => destruct (a =? b) eqn:Ec; cbn [negb]
      end.
      * apply Z.eqb_eq in Ec. exists st1. split; [reflexivity|].
        split; [exact Hro|]. split; [exact Hob|].
        split; [intros _; exact Ec|intros _; exact He1].
      * apply Z.eqb_neq in Ec. exists (set_have_error st1 1).
        split; [reflexivity|]. split; [exact Hro|]. split; [exact Hob|].
        split; [intros C; cbn in C; discriminate C|].
        intros C. exfalso. apply Ec. exact C.
Qed.

Lemma bytes_callback_holds_at data (off : nat) chunk :
  all_bytes chunk = true ->
  firstn (length chunk) (skipn off data) = chunk ->
  input_holds (bytes_callback data) (Z.of_nat off) chunk.
Proof.
  unfold all_bytes, input_holds, bytes_callback. intros H Hf k Hk.
  rewrite forallb_forall in H.
  assert (Hl : (off + length chunk <= length data)%nat).
  { pose proof (f_equal (@length Z) Hf) as L.
    rewrite length_firstn, length_skipn in L. lia. }
  assert (E : (0 <=? Z.of_nat off + Z.of_nat k)
              && (Z.of_nat off + Z.of_nat k <? Z.of_nat (length data)) = true).
  { apply andb_true_iff. split; [apply Z.leb_le; lia|apply Z.ltb_lt; lia]. }
  rewrite E. replace (Z.to_nat (Z.of_nat off + Z.of_nat k)) with (off + k)%nat by lia.
  split.
  - transitivity (nth k (firstn (length chunk) (skipn off data)) 0);
      [|rewrite Hf; reflexivity].
    rewrite nth_firstn_below by exact Hk.
    rewrite nth_skipn. reflexivity.
  - assert (Hin : In (nth k chunk 0) chunk) by (apply nth_In; exact Hk).
    apply H in Hin. lia.
Qed.

(** ** Deflated entries *)

(** Extracting a deflated entry without data descriptor whose data is one
    final block with the fixed code: the expansion of the tokens ends up
    in the output, and the error flag tells whether the header's CRC-32
    is the expansion's. *)
Lemma get_data_fixed_block fuel st tks :
  callback_contract (read_callback st) ->
  compression_method (file st) = LOWZIP_COMPRESSION_DEFLATE ->
  have_data_descriptor (file st) = 0 ->
  curr st = 0 ->
  0 <= data_offset (file st) < 2 ^ 32 ->
  output_next st = output_start st ->
  (forall o, data_offset (file st) <= o ->
     8 * (o - data_offset (file st)) < 3 + tokens_bits tks ->
     o < 2 ^ 32 - 1 /\ Z.land (read_callback st o) 0x100 = 0) ->
  stream_holds (read_callback st) (8 * data_offset (file st)) 3 3 ->
  tokens_encoded (read_callback st) (8 * data_offset (file st) + 3) tks ->
  references_in_range tks [] ->
  uncompressed_size (file st) = Z.of_nat (length (expand tks [])) ->
  output_start st + Z.of_nat (length (expand tks [])) <= output_end st ->
  (length tks + 1 < fuel)%nat ->
  exists st',
    lowzip_get_data fuel st = Some st' /\
    output_bytes st' = expand tks [] /\
    (have_error st' = 0 <-> crc32 (file st) = crc32_of_bytes (expand tks [])).
Proof.
  intros Hcb Hm Hd Hc Ho Hn Hav Hhdr Henc Hrange Hu Hroom Hfuel.
  unfold lowzip_get_data. cbv zeta.
  change (file (set_have_error st 0)) with (file st).
  rewrite Hm, Hd, Hu.
  change (LOWZIP_COMPRESSION_DEFLATE =? LOWZIP_COMPRESSION_STORE) with false.
  change (LOWZIP_COMPRESSION_DEFLATE =? LOWZIP_COMPRESSION_DEFLATE) with true.
  cbv iota.
  set (sA := set_read_offset (set_have_error st 0) (data_offset (file st))).
  destruct (inflate_static_block fuel sA tks)
    as (st1 & Hrun & He1 & Hob & _ & _); try assumption.
  - reflexivity.
  - intros o Ho1 Ho2.
    change (read_callback (lowzip_reset_bitstate sA)) with (read_callback st).
    change (read_offset (lowzip_reset_bitstate sA)) with (data_offset (file st))
      in Ho1, Ho2.
    change (have (lowzip_reset_bitstate sA)) with 0 in Ho2.
    apply Hav; [exact Ho1|lia].
  - rewrite Hrun.
    pose proof (inflate_raw_inflate_step fuel sA st1 Hrun) as Sf.
    destruct Sf as (_ & _ & Hs & _ & _ & _ & Hnx & _).
    change (output_start sA) with (output_start st) in Hs.
    change (output_next sA) with (output_next st) in Hnx.
    pose proof (length_output_bytes st1) as Hl. rewrite Hob in Hl.
    unfold get_data_validate. rewrite He1.
    change (negb (0 =? 0)) with false. cbv iota.
    replace (output_next st1 - output_start st1)
      with (Z.of_nat (length (expand tks []))) by lia.
    rewrite Z.eqb_refl. cbn [negb]. rewrite zip_crc32_output, Hob.
    destruct (crc32_of_bytes (expand tks []) =? crc32 (file st)) eqn:Ec;
      cbn [negb].
    + apply Z.eqb_eq in Ec. exists st1. split; [reflexivity|].
      split; [exact Hob|]. split; [intros _; symmetry; exact Ec|intros _; exact He1].
    + apply Z.eqb_neq in Ec. exists (set_have_error st1 1).
      split; [reflexivity|]. split; [exact Hob|].
      split; [intros C; cbn in C; discriminate C|].
      intros C. exfalso. apply Ec. symmetry. exact C.
Qed.

(** ** The read callback of the test program *)

(** With a chunk that agrees with the file, [my_read] gives the byte of
    the file at the offset, or 0x100 from the end of the file on, and the
    chunk still agrees with the file afterwards. *)
Lemma my_read_file rs offset :
  chunk_valid rs ->
  Z.of_nat (length (input rs)) <= 2 ^ 31 + 128 ->
  0 <= offset < 2 ^ 32 ->
  chunk_valid (fst (my_read rs offset)) /\
  snd (my_read rs offset) = bytes_callback (input rs) offset /\
  input (fst (my_read rs offset)) = input rs /\
  input_length (fst (my_read rs offset)) = input_length rs.
Proof.
  intros (Hl & Hse & Hend & Hch) Hlen Ho.
  assert (Hv : chunk_valid rs) by (repeat split; assumption || lia).
  unfold my_read, bytes_callback.
  destruct ((input_chunk_start rs <=? offset) && (offset <? input_chunk_end rs))
    eqn:Ec.
  - apply andb_true_iff in Ec. destruct Ec as [E1 E2].
    apply Z.leb_le in E1. apply Z.ltb_lt in E2. cbn [fst snd].
    split; [exact Hv|]. split; [|split; reflexivity].
    assert (E : (0 <=? offset) && (offset <? Z.of_nat (length (input rs))) = true).
    { apply andb_true_iff. split; [apply Z.leb_le; lia|apply Z.ltb_lt; lia]. }
    rewrite E. apply Hch. lia.
  - destruct (Z.leb_spec (input_length rs) offset) as [Eo|Eo].
    + cbn [fst snd]. split; [exact Hv|]. split; [|split; reflexivity].
      destruct (Z.ltb_spec offset (Z.of_nat (length (input rs)))) as [C|_];
        [lia|]. rewrite andb_false_r. reflexivity.
    + change (256 / 2) with 128.
      set (cs0 := to_int (u32 (offset - 128))).
      set (cs := if cs0 <? 0 then 0 else cs0).
      assert (Hcs : cs = Z.max 0 (offset - 128)).
      { subst cs cs0. unfold to_int.
        destruct (Z.lt_ge_cases offset 128) as [Hs|Hb].
        - assert (Eu : u32 (offset - 128) = offset - 128 + 2 ^ 32).
          { unfold u32. symmetry. apply (Z.mod_unique _ _ (-1)); lia. }
          rewrite Eu. destruct (Z.ltb_spec (offset - 128 + 2 ^ 32) (2 ^ 31)); [lia|].
          destruct (Z.ltb_spec (offset - 128 + 2 ^ 32 - 2 ^ 32) 0); lia.
        - rewrite u32_small by lia.
          destruct (Z.ltb_spec (offset - 128) (2 ^ 31)) as [_|C]; [|lia].
          destruct (Z.ltb_spec (offset - 128) 0); lia. }
      clearbody cs. clear cs0.
      unfold fread_chunk. cbv zeta.
      set (data := firstn 256 (skipn (Z.to_nat cs) (input rs))).
      assert (Hd : length data
                   = Nat.min 256 (length (input rs) - Z.to_nat cs))
        by (subst data; rewrite length_firstn, length_skipn; reflexivity).
      assert (Hin : offset < cs + Z.of_nat (length data)) by lia.
      cbn [input_chunk_start input_chunk_end].
      rewrite (u32_small cs) by lia.
      rewrite (u32_small (cs + Z.of_nat (length data))) by lia.
      assert (E : (cs <=? offset) && (offset <? cs + Z.of_nat (length data)) = true).
      { apply andb_true_iff. split; [apply Z.leb_le; lia|apply Z.ltb_lt; lia]. }
      rewrite E. cbn [fst snd input input_length].
      assert (Hnth : forall i, cs <= i < cs + Z.of_nat (length data) ->
                nth (Z.to_nat (i - cs)) (data ++ skipn (length data) (input_chunk rs)) 0
                = nth (Z.to_nat i) (input rs) 0).
      { intros i Hi. rewrite app_nth1 by lia. subst data.
        rewrite nth_firstn_below by lia. rewrite nth_skipn. f_equal. lia. }
      split.
      * unfold chunk_valid.
        cbn [input input_length input_chunk input_chunk_start input_chunk_end].
        split; [exact Hl|]. split; [lia|]. split; [lia|exact Hnth].
      * split; [|split; reflexivity].
        assert (E' : (0 <=? offset) && (offset <? Z.of_nat (length (input rs))) = true).
        { apply andb_true_iff. split; [apply Z.leb_le; lia|apply Z.ltb_lt; lia]. }
        rewrite E'. apply Hnth. lia.
Qed.

(** ** The claims *)

(** C1.  Whenever [lowzip_get_data] returns with [have_error = 0], the
    bytes between [output_start] and [output_next] are exactly
    [uncompressed_size] many and their CRC-32 (polynomial 0xEDB88320,
    initial value and final XOR 0xFFFFFFFF) is the authoritative one: the
    CRC of the local header, or the CRC of the trailing record at
    [read_offset] when the header announced a data descriptor.  In every
    other case the flag is set. *)
Theorem get_data_success_length_and_crc (fuel : nat) (st st' : lowzip_state) :
  callback_contract (read_callback st) ->
  output_start st <= output_next st ->
  lowzip_get_data fuel st = Some st' ->
  have_error st' = 0 ->
  output_next st' - output_start st' = uncompressed_size (file st) /\
  Z.of_nat (length (output_bytes st')) = uncompressed_size (file st) /\
  crc32_of_bytes (output_bytes st') =
    authoritative_crc (file st) (read_callback st) (read_offset st').
Proof.
  intros Hcb Hw Hrun Herr.
  destruct (get_data_cases fuel st st' Hcb Hrun) as (S & _ & _ & _ & Hok).
  destruct (Hok Herr) as [Hlen Hcrc].
  destruct S as (S1 & S2 & S3 & S4 & S5).
  split; [exact Hlen|]. split; [|exact Hcrc].
  rewrite length_output_bytes. lia.
Qed.

Lemma get_data_success_length_and_crc_witness :
  let st := located_state sample_deflate_archive 1000 32 0 in
  let st' := after (lowzip_get_data 100 st) st in
  output_next st' - output_start st' = 32 /\
  Z.of_nat (length (output_bytes st')) = 32 /\
  crc32_of_bytes (output_bytes st') = 0x9a152e83.
Proof.
  intros st st'.
  apply (get_data_success_length_and_crc 100 st st').
  - refine (bytes_callback_contract sample_deflate_archive _).
    vm_compute. reflexivity.
  - vm_compute. discriminate.
  - vm_compute. reflexivity.
  - vm_compute. reflexivity.
Defined.

(** C9.  The three public ZIP operations start by setting [have_error] to
    0.  So, first, what each of them does and reports is the same for every
    value of the flag an earlier operation left behind: a raised flag makes
    none of them fail fast.  And, second, the flag really is cleared, for a
    run that meets no error of its own ends with [have_error] 0 whatever the
    flag was on entry: [lowzip_init_archive] on an archive in memory that
    holds an acceptable end of central directory record,
    [lowzip_locate_file] for entry 0 when the first directory record and its
    local header are readable and carry their signatures, and
    [lowzip_get_data] on a stored entry whose data is readable, fits the
    output window and has the CRC-32 of the header. *)
Theorem public_operations_clear_error :
  (forall st e, lowzip_init_archive (set_have_error st e) = lowzip_init_archive st)
  /\
  (forall fuel st e idx name,
     lowzip_locate_file fuel (set_have_error st e) idx name
     = lowzip_locate_file fuel st idx name)
  /\
  (forall fuel st e, lowzip_get_data fuel (set_have_error st e) = lowzip_get_data fuel st)
  /\
  (forall st data o,
     read_callback st = bytes_callback data ->
     zip_length st = Z.of_nat (length data) ->
     all_bytes data = true ->
     Z.of_nat (length data) < 2 ^ 31 ->
     0 <= o <= Z.of_nat (length data) - LOWZIP_MIN_EOCDIR_LENGTH ->
     Z.of_nat (length data) - LOWZIP_MAX_EOCDIR_LENGTH <= o ->
     eocd_at (bytes_callback data) (Z.of_nat (length data)) o ->
     (forall o', o < o' <= Z.of_nat (length data) - LOWZIP_MIN_EOCDIR_LENGTH ->
        ~ eocd_at (bytes_callback data) (Z.of_nat (length data)) o') ->
     have_error (lowzip_init_archive st) = 0)
  /\
  (forall fuel st,
     callback_contract (read_callback st) ->
     entry_readable (read_callback st) (central_dir_offset st) ->
     exists st' fi,
       lowzip_locate_file (S fuel) st 0 None = Some (st', Some fi) /\
       have_error st' = 0)
  /\
  (forall fuel st data,
     compression_method (file st) = LOWZIP_COMPRESSION_STORE ->
     have_data_descriptor (file st) = 0 ->
     uncompressed_size (file st) = Z.of_nat (length data) ->
     0 <= data_offset (file st) ->
     data_offset (file st) + Z.of_nat (length data) < 2 ^ 32 ->
     input_holds (read_callback st) (data_offset (file st)) data ->
     output_next st = output_start st ->
     output_start st + Z.of_nat (length data) <= output_end st ->
     crc32 (file st) = crc32_of_bytes data ->
     exists st', lowzip_get_data fuel st = Some st' /\ have_error st' = 0).
Proof.
  split.
  { intros st e. unfold lowzip_init_archive. cbv zeta.
    rewrite !set_have_error_twice. reflexivity. }
  split.
  { intros fuel st e idx name. unfold lowzip_locate_file. cbv zeta.
    rewrite !set_have_error_twice. reflexivity. }
  split.
  { intros fuel st e. unfold lowzip_get_data. cbv zeta.
    rewrite !set_have_error_twice. reflexivity. }
  split.
  { intros st data o H1 H2 H3 H4 H5 H6 H7 H8.
    rewrite (init_archive_in_memory st data o H1 H2 H3 H4 H5 H6 H7 H8).
    reflexivity. }
  split.
  { intros fuel st Hcb He.
    destruct (locate_first_entry fuel st Hcb He) as [fi E].
    exists (put_file (set_have_error st 0) fi), fi.
    split; [exact E|reflexivity]. }
  intros fuel st data H1 H2 H3 H4 H5 H6 H7 H8 Hc.
  destruct (get_data_stored fuel st data H1 H2 H3 H4 H5 H6 H7 H8)
    as (st' & E & _ & Hi).
  exists st'. split; [exact E|]. apply Hi. exact Hc.
Qed.

Lemma public_operations_clear_error_witness :
  let s0 := initial_state sample_stored_archive 1000 32 in
  let s1 := set_have_error s0 1 in
  let s2 := set_have_error (lowzip_init_archive s0) 1 in
  let s3 := set_have_error (located_state sample_stored_archive 1000 32 0) 1 in
  (have_error s1 = 1 /\ have_error (lowzip_init_archive s1) = 0) /\
  (have_error s2 = 1 /\
   exists st' fi,
     lowzip_locate_file 1 s2 0 None = Some (st', Some fi) /\ have_error st' = 0) /\
  (have_error s3 = 1 /\
   exists st', lowzip_get_data 0 s3 = Some st' /\ have_error st' = 0).
Proof.
  intros s0 s1 s2 s3.
  destruct public_operations_clear_error as (_ & _ & _ & Hi & Hl & Hg).
  split; [split; [reflexivity|]|split; split; try reflexivity].
  - apply (Hi s1 sample_stored_archive 96).
    + reflexivity.
    + reflexivity.
    + vm_compute. reflexivity.
    + vm_compute. reflexivity.
    + vm_compute. split; discriminate.
    + vm_compute. discriminate.
    + split; vm_compute; reflexivity.
    + intros o' Ho'. exfalso.
      assert (L : Z.of_nat (length sample_stored_archive)
                  - LOWZIP_MIN_EOCDIR_LENGTH = 96) by (vm_compute; reflexivity).
      rewrite L in Ho'. lia.
  - assert (E1 : read_callback s2 = bytes_callback sample_stored_archive)
      by (vm_compute; reflexivity).
    assert (E2 : central_dir_offset s2 = 45) by (vm_compute; reflexivity).
    apply (Hl 0%nat s2).
    + rewrite E1. refine (bytes_callback_contract sample_stored_archive _).
      vm_compute. reflexivity.
    + rewrite E1, E2.
      apply (entry_readable_in_memory sample_stored_archive 45).
      * vm_compute. reflexivity.
      * vm_compute. reflexivity.
      * lia.
      * vm_compute. discriminate.
      * vm_compute. discriminate.
      * vm_compute. discriminate.
      * vm_compute. reflexivity.
      * vm_compute. reflexivity.
  - assert (E1 : read_callback s3 = bytes_callback sample_stored_archive)
      by (vm_compute; reflexivity).
    assert (E2 : data_offset (file s3) = Z.of_nat 35)
      by (vm_compute; reflexivity).
    apply (Hg 0%nat s3 [104; 101; 108; 108; 111; 44; 32; 122; 105; 112]).
    + vm_compute. reflexivity.
    + vm_compute. reflexivity.
    + vm_compute. reflexivity.
    + vm_compute. discriminate.
    + vm_compute. reflexivity.
    + rewrite E1, E2.
      refine (bytes_callback_holds_at sample_stored_archive 35 _ _ _);
        vm_compute; reflexivity.
    + vm_compute. reflexivity.
    + vm_compute. discriminate.
    + vm_compute. reflexivity.
Defined.

(** C10.  For a stored entry [lowzip_get_data] returns and leaves
    [read_offset] as it found it.  It copies the bytes at the absolute
    offsets [data_offset], [data_offset + 1], ...: when these are readable
    and fit the output window, the output is exactly these bytes.  So an
    announced data descriptor is read at the offset the bit reader held
    before the call, wherever the data ends: with the descriptor readable
    there, [have_error] ends as 0 exactly when the CRC-32 of the data is the
    CRC-32 of the descriptor at that offset.  For a deflated entry the
    offset is set to [data_offset] before inflating, whatever it was. *)
Theorem stored_entry_keeps_read_offset (fuel : nat) (st : lowzip_state)
    (data : list Z) (ro : Z) :
  callback_contract (read_callback st) ->
  (compression_method (file st) = LOWZIP_COMPRESSION_STORE ->
   (exists st',
      lowzip_get_data fuel st = Some st' /\
      read_offset st' = read_offset st /\
      (have_data_descriptor (file st) <> 0 -> have_error st' = 0 ->
       crc32_of_bytes (output_bytes st') =
         descriptor_crc (read_callback st) (read_offset st))) /\
   (have_data_descriptor (file st) <> 0 ->
    uncompressed_size (file st) = Z.of_nat (length data) ->
    0 <= data_offset (file st) ->
    data_offset (file st) + Z.of_nat (length data) < 2 ^ 32 ->
    input_holds (read_callback st) (data_offset (file st)) data ->
    output_next st = output_start st ->
    output_start st + Z.of_nat (length data) <= output_end st ->
    readable (read_callback st) (read_offset st) 4 ->
    (le_value (read_callback st) (read_offset st) 4 = 0x08074b50 ->
     readable (read_callback st) (add32 (read_offset st) 4) 4) ->
    exists st',
      lowzip_get_data fuel st = Some st' /\
      read_offset st' = read_offset st /\
      output_bytes st' = data /\
      (have_error st' = 0 <->
       crc32_of_bytes data =
         descriptor_crc (read_callback st) (read_offset st))))
  /\ (compression_method (file st) = LOWZIP_COMPRESSION_DEFLATE ->
      lowzip_get_data fuel (set_read_offset st ro) = lowzip_get_data fuel st /\
      lowzip_get_data fuel st =
        match lowzip_inflate_raw fuel
                (set_read_offset (set_have_error st 0) (data_offset (file st))) with
        | None => None
        | Some st1 =>
            Some (get_data_validate st1 (crc32 (file st))
                    (uncompressed_size (file st)) (have_data_descriptor (file st)))
        end).
Proof.
  intros Hcb. split.
  - intros M. split.
    + assert (Hsome : exists st', lowzip_get_data fuel st = Some st').
      { unfold lowzip_get_data. cbv zeta.
        change (file (set_have_error st 0)) with (file st). rewrite M.
        change (LOWZIP_COMPRESSION_STORE =? LOWZIP_COMPRESSION_STORE) with true.
        cbv iota.
        match goal with
        | |- context [store_copy ?n ?o ?s] => destruct (store_copy n o s)
        end; eexists; reflexivity. }
      destruct Hsome as [st' Hrun]. exists st'. split; [exact Hrun|].
      destruct (get_data_cases fuel st st' Hcb Hrun) as (_ & _ & _ & Ho & Hok).
      split; [exact (Ho M)|].
      intros Hdd Herr. destruct (Hok Herr) as [_ Hcrc]. rewrite Hcrc.
      unfold authoritative_crc. apply Z.eqb_neq in Hdd. rewrite Hdd.
      rewrite (Ho M). reflexivity.
    + intros Hdd Hu Ho Hw Hin Hn Hfit Hr1 Hr2.
      exact (get_data_stored_descriptor fuel st data Hcb M Hdd Hu Ho Hw Hin Hn
               Hfit Hr1 Hr2).
  - intros M. unfold lowzip_get_data. cbv zeta.
    change (file (set_have_error (set_read_offset st ro) 0)) with (file st).
    change (file (set_have_error st 0)) with (file st).
    rewrite M.
    change (LOWZIP_COMPRESSION_DEFLATE =? LOWZIP_COMPRESSION_STORE) with false.
    change (LOWZIP_COMPRESSION_DEFLATE =? LOWZIP_COMPRESSION_DEFLATE) with true.
    cbv iota.
    change (set_read_offset (set_have_error (set_read_offset st ro) 0)
              (data_offset (file st)))
      with (set_read_offset (set_have_error st 0) (data_offset (file st))).
    split; [reflexivity|].
    destruct (lowzip_inflate_raw fuel
                (set_read_offset (set_have_error st 0) (data_offset (file st))));
      reflexivity.
Qed.

Lemma stored_entry_keeps_read_offset_witness :
  let st := sample_stored_descriptor_state in
  let data := [104; 105] in
  read_offset st = 5 /\
  data_offset (file st) + uncompressed_size (file st) = 2 /\
  descriptor_crc (read_callback st) 2 <> crc32_of_bytes data /\
  exists st',
    lowzip_get_data 0 st = Some st' /\
    read_offset st' = 5 /\
    output_bytes st' = data /\
    (have_error st' = 0 <->
     crc32_of_bytes data = descriptor_crc (read_callback st) 5) /\
    have_error st' = 0.
Proof.
  intros st data.
  split; [reflexivity|]. split; [reflexivity|].
  split; [vm_compute; discriminate|].
  assert (Hcb : callback_contract (read_callback st)).
  { refine (bytes_callback_contract [104; 105; 0; 0; 0; 172; 42; 147; 216] _).
    vm_compute. reflexivity. }
  destruct (proj2 (proj1 (stored_entry_keeps_read_offset 0 st data 0 Hcb)
                     eq_refl))
    as (st' & H1 & H2 & H3 & H4).
  - vm_compute. discriminate.
  - reflexivity.
  - vm_compute. discriminate.
  - vm_compute. reflexivity.
  - refine (bytes_callback_holds_at [104; 105; 0; 0; 0; 172; 42; 147; 216]
              0 data _ _); vm_compute; reflexivity.
  - reflexivity.
  - vm_compute. discriminate.
  - refine (bytes_callback_readable [104; 105; 0; 0; 0; 172; 42; 147; 216]
              5 4 _ _ _ _).
    + vm_compute. reflexivity.
    + lia.
    + vm_compute. discriminate.
    + vm_compute. reflexivity.
  - intros C. exfalso. vm_compute in C. discriminate C.
  - exists st'. split; [exact H1|]. split; [exact H2|]. split; [exact H3|].
    split; [exact H4|]. apply H4. vm_compute. reflexivity.
Defined.

(** ** Further properties of the code *)

(** X1.  A little-endian read of up to four bytes returns the little-endian
    value of the bytes and leaves the state as it was when every byte is
    in bounds; when the callback flags any of them it returns 0 and only
    raises [have_error]. *)
Theorem read_little_endian_value (st : lowzip_state) (off : Z) (n : nat) :
  callback_contract (read_callback st) -> (n <= 4)%nat ->
  (readable (read_callback st) off n ->
   lowzip_read_little_endian st off n = (st, le_value (read_callback st) off n))
  /\ (~ readable (read_callback st) off n ->
      lowzip_read_little_endian st off n = (set_have_error st 1, 0)).
Proof.
  intros Hcb Hn.
  destruct (read_little_endian_cases st off n) as [[Hr E]|[Hr E]].
  - split; [|tauto]. intros _. rewrite E. f_equal. apply u32_small.
    pose proof (le_value_range _ off n Hcb Hr) as R.
    assert (256 ^ Z.of_nat n <= 256 ^ 4) by (apply Z.pow_le_mono_r; lia).
    change (256 ^ 4) with (2 ^ 32) in *. lia.
  - split; [tauto|]. intros _. exact E.
Qed.

Lemma read_little_endian_value_witness :
  let st := initial_state [1; 2; 3; 4] 0 0 in
  (readable (read_callback st) 0 4 ->
   lowzip_read_little_endian st 0 4 = (st, le_value (read_callback st) 0 4))
  /\ (~ readable (read_callback st) 0 4 ->
      lowzip_read_little_endian st 0 4 = (set_have_error st 1, 0)).
Proof.
  intros st. apply (read_little_endian_value st 0 4).
  - refine (bytes_callback_contract [1; 2; 3; 4] _). vm_compute. reflexivity.
  - lia.
Defined.

(** X2.  On a bit reader in step with the input, [lowzip_read_bits] delivers
    the next [nbits] bits of the stream, the first one as the least
    significant bit of the result, moves the stream position on by [nbits]
    and stays in step; it raises no error and leaves output and scratch
    alone.  The input is the stream of the bits of its bytes, least
    significant bit first. *)
Theorem read_bits_delivers_stream_bits (st st' : lowzip_state) (nbits v : Z) :
  callback_contract (read_callback st) ->
  0 <= nbits <= 24 ->
  bit_reader_synced st ->
  bits_available st nbits ->
  lowzip_read_bits st nbits = (st', v) ->
  (forall i, 0 <= i ->
     Z.testbit v i =
     (i <? nbits) && stream_bit (read_callback st) (stream_position st + i)) /\
  bit_reader_synced st' /\
  stream_position st' = stream_position st + nbits /\
  have_error st' = have_error st /\
  output_next st' = output_next st /\ memory st' = memory st /\
  scratch st' = scratch st.
Proof.
  intros Hcb Hn Hs Ha H.
  destruct (read_bits_synced st nbits st' v Hcb Hn Hs Ha H)
    as (A1 & A2 & A3 & A4 & A5 & A6 & A7 & A8).
  repeat match goal with |- _ /\ _ => split end; assumption.
Qed.

Lemma sample_bits_available :
  bits_available (initial_state [165; 15] 0 0) 12.
Proof.
  unfold bits_available, initial_state. cbn [read_offset have read_callback].
  intros o Ho1 Ho2.
  assert (Ho : o = 0 \/ o = 1) by lia.
  destruct Ho as [-> | ->]; split; try lia; reflexivity.
Qed.

Lemma read_bits_delivers_stream_bits_witness :
  let st := initial_state [165; 15] 0 0 in
  let st' := fst (lowzip_read_bits st 12) in
  let v := snd (lowzip_read_bits st 12) in
  (forall i, 0 <= i ->
     Z.testbit v i =
     (i <? 12) && stream_bit (read_callback st) (stream_position st + i)) /\
  bit_reader_synced st' /\
  stream_position st' = stream_position st + 12 /\
  have_error st' = have_error st /\
  output_next st' = output_next st /\ memory st' = memory st /\
  scratch st' = scratch st.
Proof.
  intros st st' v.
  apply (read_bits_delivers_stream_bits st st' 12 v).
  - refine (bytes_callback_contract [165; 15] _). vm_compute. reflexivity.
  - lia.
  - apply initial_state_synced.
  - exact sample_bits_available.
  - vm_compute. reflexivity.
Defined.

(** X3.  [lowzip_reset_bitstate] only zeroes the bit count.  The bits left
    in [curr] stay there, and the next [lowzip_read_bits] of up to eight
    bits returns the low bits of [curr] OR-ed with the next input byte: the
    abandoned bits reach the result. *)
Theorem reset_bitstate_keeps_stale_bits (st st' : lowzip_state) (nbits v : Z) :
  1 <= nbits <= 8 ->
  Z.land (read_callback st (read_offset st)) 0x100 = 0 ->
  lowzip_read_bits (lowzip_reset_bitstate st) nbits = (st', v) ->
  v = Z.land (Z.lor (curr st) (read_callback st (read_offset st)))
             (Z.ones nbits).
Proof.
  intros Hn Hr H.
  apply (read_bits_stale (lowzip_reset_bitstate st) nbits st' v);
    [reflexivity|exact Hn|exact Hr|exact H].
Qed.

Lemma reset_bitstate_keeps_stale_bits_witness :
  let st := set_have (set_curr (initial_state [1] 0 0) 31) 5 in
  snd (lowzip_read_bits (lowzip_reset_bitstate st) 3) = 7.
Proof.
  intros st.
  apply (reset_bitstate_keeps_stale_bits st
           (fst (lowzip_read_bits (lowzip_reset_bitstate st) 3)) 3
           (snd (lowzip_read_bits (lowzip_reset_bitstate st) 3))).
  - lia.
  - reflexivity.
  - vm_compute. reflexivity.
Defined.

(** X4.  On a bit reader in step with the input,
    [lowzip_read_bits_reversed] delivers the next [nbits] bits of the stream
    with the first one as the most significant bit of the result, moves the
    stream position on by [nbits] and stays in step. *)
Theorem read_bits_reversed_delivers_msb_first (st st' : lowzip_state)
    (nbits v : Z) :
  callback_contract (read_callback st) ->
  0 <= nbits <= 24 ->
  bit_reader_synced st ->
  bits_available st nbits ->
  lowzip_read_bits_reversed st nbits = (st', v) ->
  (forall i, 0 <= i ->
     Z.testbit v i =
     (i <? nbits) &&
     stream_bit (read_callback st) (stream_position st + (nbits - 1 - i))) /\
  bit_reader_synced st' /\
  stream_position st' = stream_position st + nbits /\
  have_error st' = have_error st.
Proof.
  intros Hcb Hn Hs Ha H.
  destruct (read_bits_reversed_synced st nbits st' v Hcb Hn Hs Ha H)
    as (A1 & A2 & A3 & A4 & A5 & A6 & A7 & A8).
  repeat match goal with |- _ /\ _ => split end; assumption.
Qed.

Lemma read_bits_reversed_delivers_msb_first_witness :
  let st := initial_state [165; 15] 0 0 in
  let st' := fst (lowzip_read_bits_reversed st 12) in
  let v := snd (lowzip_read_bits_reversed st 12) in
  (forall i, 0 <= i ->
     Z.testbit v i =
     (i <? 12) &&
     stream_bit (read_callback st) (stream_position st + (12 - 1 - i))) /\
  bit_reader_synced st' /\
  stream_position st' = stream_position st + 12 /\
  have_error st' = have_error st.
Proof.
  intros st st' v.
  apply (read_bits_reversed_delivers_msb_first st st' 12 v).
  - refine (bytes_callback_contract [165; 15] _). vm_compute. reflexivity.
  - lia.
  - apply initial_state_synced.
  - exact sample_bits_available.
  - vm_compute. reflexivity.
Defined.

(** X5.  The hand-written decoder of static Huffman blocks implements the
    fixed code of RFC 1951: when the next bits of the stream spell the
    codeword of a literal/length symbol [s] in 0..287, most significant bit
    first, [static_literal_length] returns [s], consumes exactly the bits
    of that codeword, raises no error and leaves the bit reader in step. *)
Theorem static_literal_length_decodes_fixed_code (st st' : lowzip_state)
    (t s : Z) :
  callback_contract (read_callback st) ->
  0 <= s <= 287 ->
  bit_reader_synced st ->
  bits_available st (fixed_code_length s) ->
  stream_spells (read_callback st) (stream_position st)
                (fixed_code_length s) (fixed_code s) ->
  static_literal_length st = (st', t) ->
  t = s /\ bit_reader_synced st' /\
  stream_position st' = stream_position st + fixed_code_length s /\
  have_error st' = have_error st.
Proof.
  intros Hcb Hs Hsync Hav Hsp H.
  destruct (static_literal_length_fixed st st' t s Hcb Hs Hsync Hav Hsp H)
    as (A1 & A2 & A3 & A4 & _).
  repeat match goal with |- _ /\ _ => split end; assumption.
Qed.

Lemma sample_code_available : bits_available (initial_state [142] 0 0) 8.
Proof.
  unfold bits_available, initial_state. cbn [read_offset have read_callback].
  intros o Ho1 Ho2. assert (Ho : o = 0) by lia. subst o.
  split; [lia|reflexivity].
Qed.

Lemma sample_code_spelled :
  stream_spells (bytes_callback [142]) 0 8 113.
Proof.
  unfold stream_spells. intros i Hi.
  assert (Hc : i = 0 \/ i = 1 \/ i = 2 \/ i = 3 \/ i = 4 \/ i = 5 \/ i = 6 \/ i = 7)
    by lia.
  destruct Hc as [->|[->|[->|[->|[->|[->|[->| ->]]]]]]]; reflexivity.
Qed.

Lemma static_literal_length_decodes_fixed_code_witness :
  let st := initial_state [142] 0 0 in
  let st' := fst (static_literal_length st) in
  snd (static_literal_length st) = 65 /\ bit_reader_synced st' /\
  stream_position st' = stream_position st + fixed_code_length 65 /\
  have_error st' = have_error st.
Proof.
  intros st st'.
  apply (static_literal_length_decodes_fixed_code st st'
           (snd (static_literal_length st)) 65).
  - refine (bytes_callback_contract [142] _). vm_compute. reflexivity.
  - lia.
  - apply initial_state_synced.
  - exact sample_code_available.
  - exact sample_code_spelled.
  - vm_compute. reflexivity.
Defined.

(** X6.  Whatever the input, the static literal/length decoder returns a
    symbol between 0 and 287 and touches neither the output nor the scratch
    area. *)
Theorem static_literal_length_symbol_range (st st' : lowzip_state) (t : Z) :
  static_literal_length st = (st', t) ->
  0 <= t <= 287 /\ reads_only st st'.
Proof.
  intros H. split.
  - eapply static_literal_length_range. exact H.
  - eapply static_literal_length_reads_only. exact H.
Qed.

Lemma static_literal_length_symbol_range_witness :
  let st := initial_state [255; 255] 0 0 in
  0 <= snd (static_literal_length st) <= 287 /\
  reads_only st (fst (static_literal_length st)).
Proof.
  intros st.
  apply (static_literal_length_symbol_range st (fst (static_literal_length st))
           (snd (static_literal_length st))).
  vm_compute. reflexivity.
Defined.

(** X7.  A run of [lowzip_inflate_raw] keeps the callback and the bounds of
    the output window, moves the cursor only forward and never past the end
    of a window it started inside of, changes no byte of memory outside the
    range between the old and the new cursor, and never clears a raised
    error flag. *)
Theorem inflate_raw_confined (fuel : nat) (st st' : lowzip_state) :
  lowzip_inflate_raw fuel st = Some st' ->
  read_callback st' = read_callback st /\
  output_start st' = output_start st /\
  output_end st' = output_end st /\
  output_next st <= output_next st' /\
  (output_next st <= output_end st -> output_next st' <= output_end st') /\
  (forall a, ~ (output_next st <= a < output_next st') ->
             memory st' a = memory st a) /\
  (have_error st <> 0 -> have_error st' <> 0).
Proof.
  intros H. apply inflate_raw_inflate_step in H.
  destruct H as (A1 & A2 & A3 & A4 & A5 & A6 & A7 & A8 & A9 & A10).
  repeat match goal with |- _ /\ _ => split end; assumption.
Qed.

Lemma inflate_raw_confined_witness :
  let st := initial_state sample_stored_stream 1000 100 in
  let st' := after (lowzip_inflate_raw 4 st) st in
  read_callback st' = read_callback st /\
  output_start st' = output_start st /\
  output_end st' = output_end st /\
  output_next st <= output_next st' /\
  (output_next st <= output_end st -> output_next st' <= output_end st') /\
  (forall a, ~ (output_next st <= a < output_next st') ->
             memory st' a = memory st a) /\
  (have_error st <> 0 -> have_error st' <> 0).
Proof.
  intros st st'. apply (inflate_raw_confined 4 st st').
  vm_compute. reflexivity.
Defined.

(** X8.  On an input of [N] bytes (the callback flags every offset from [N]
    on) [lowzip_inflate_raw] always returns: whatever the bytes are, the
    block loop, the literal/length/distance loop and the code length loop
    all end, and every amount of fuel from [8 * N + 324] on gives the same
    final state. *)
Theorem inflate_raw_returns_on_finite_input (N : Z) (st : lowzip_state) :
  0 <= N < 2 ^ 32 ->
  input_ends_at (read_callback st) N ->
  0 <= read_offset st ->
  exists st', forall fuel, (Z.to_nat (8 * N) + 324 <= fuel)%nat ->
                           lowzip_inflate_raw fuel st = Some st'.
Proof. apply inflate_raw_terminates. Qed.

Lemma inflate_raw_returns_on_finite_input_witness :
  exists st', forall fuel, (Z.to_nat (8 * 12) + 324 <= fuel)%nat ->
    lowzip_inflate_raw fuel (initial_state sample_stored_stream 1000 100) = Some st'.
Proof.
  apply (inflate_raw_returns_on_finite_input 12
           (initial_state sample_stored_stream 1000 100)).
  - lia.
  - exact (bytes_callback_ends sample_stored_stream).
  - vm_compute. discriminate.
Defined.

(** X9.  On an input of [N] bytes [lowzip_get_data] always returns, for a
    stored, a deflated and an unsupported entry alike, with the same final
    state for every amount of fuel from [8 * N + 324] on. *)
Theorem get_data_returns_on_finite_input (N : Z) (st : lowzip_state) :
  0 <= N < 2 ^ 32 ->
  input_ends_at (read_callback st) N ->
  0 <= data_offset (file st) ->
  exists st', forall fuel, (Z.to_nat (8 * N) + 324 <= fuel)%nat ->
                           lowzip_get_data fuel st = Some st'.
Proof. apply get_data_terminates. Qed.

Lemma get_data_returns_on_finite_input_witness :
  exists st', forall fuel, (Z.to_nat (8 * 114) + 324 <= fuel)%nat ->
    lowzip_get_data fuel (located_state sample_deflate_archive 1000 32 0) = Some st'.
Proof.
  apply (get_data_returns_on_finite_input 114
           (located_state sample_deflate_archive 1000 32 0)).
  - lia.
  - exact (bytes_callback_ends sample_deflate_archive).
  - vm_compute. discriminate.
Defined.

(** X10.  Stored data round trip: for every payload of at most 65535 bytes,
    every header byte with low bits 1,0,0 and every pair of NLEN bytes,
    inflating the stored block (header, LEN, NLEN, payload) with room for
    the payload ends without error, leaves exactly the payload in the
    output and the read offset just behind the block. *)
Theorem stored_block_round_trip (fuel : nat) (st : lowzip_state)
    (hdr nlen0 nlen1 : Z) (payload : list Z) :
  (1 <= fuel)%nat ->
  have_error st = 0 -> curr st = 0 ->
  output_next st = output_start st ->
  input_holds (read_callback st) (read_offset st)
              (stored_block hdr nlen0 nlen1 payload) ->
  hdr mod 8 = 1 ->
  Z.of_nat (length payload) <= 65535 ->
  0 <= read_offset st ->
  read_offset st + 5 + Z.of_nat (length payload) < 2 ^ 32 ->
  Z.of_nat (length payload) <= output_end st - output_next st ->
  exists st',
    lowzip_inflate_raw fuel st = Some st' /\
    have_error st' = 0 /\
    output_bytes st' = payload /\
    read_offset st' = read_offset st + 5 + Z.of_nat (length payload).
Proof.
  intros Hfuel Herr Hcurr Hstart Hin Hhdr Hlen Hro Hw Hroom.
  destruct (inflate_stored_block fuel st hdr nlen0 nlen1 payload
              Hfuel Herr Hcurr Hin Hhdr Hlen Hro Hw Hroom)
    as (st' & Hrun & He & Ho & Hn & Hm).
  exists st'. split; [exact Hrun|]. split; [exact He|]. split; [|exact Ho].
  pose proof (inflate_raw_inflate_step fuel st st' Hrun) as S.
  destruct S as (_ & _ & S3 & _).
  unfold output_bytes. rewrite S3, Hn, <- Hstart.
  replace (output_next st + Z.of_nat (length payload) - output_next st)
    with (Z.of_nat (length payload)) by lia.
  rewrite Nat2Z.id. apply memory_holds_output. exact Hm.
Qed.

Lemma stored_block_round_trip_witness :
  exists st',
    lowzip_inflate_raw 1
      (initial_state (stored_block 1 248 255 [115; 116; 111; 114; 101; 100; 33])
                     1000 100) = Some st' /\
    have_error st' = 0 /\
    output_bytes st' = [115; 116; 111; 114; 101; 100; 33] /\
    read_offset st' = 0 + 5 + Z.of_nat 7.
Proof.
  apply (stored_block_round_trip 1
           (initial_state (stored_block 1 248 255 [115; 116; 111; 114; 101; 100; 33])
                          1000 100)
           1 248 255 [115; 116; 111; 114; 101; 100; 33]).
  - lia.
  - reflexivity.
  - reflexivity.
  - reflexivity.
  - refine (bytes_callback_holds
              (stored_block 1 248 255 [115; 116; 111; 114; 101; 100; 33]) _).
    vm_compute. reflexivity.
  - reflexivity.
  - vm_compute. discriminate.
  - vm_compute. discriminate.
  - vm_compute. reflexivity.
  - vm_compute. discriminate.
Defined.

(** X11.  [lowzip_locate_file] returns a null pointer only with [have_error]
    set to 1, and then the scratch area and the file entry are untouched.
    When it returns an entry, the scratch area is the old one with the
    entry written to it: the six fields, the name of at most 255 bytes and
    a zero byte behind it, all within the first 280 bytes; every other byte
    of the scratch area is as before, and reading the fields and the name
    back from the scratch area gives the entry returned.  Either way it
    changes nothing else: callback, output window, cursor, memory, directory
    offset and bit reader are as before. *)
Theorem locate_file_result (fuel : nat) (st st' : lowzip_state) (idx : Z)
    (name : option (list Z)) (r : option lowzip_file) :
  lowzip_locate_file fuel st idx name = Some (st', r) ->
  match r with
  | None =>
      have_error st' = 1 /\ file st' = file st /\ scratch st' = scratch st
  | Some fi =>
      file st' = fi /\ (length (filename fi) <= 255)%nat /\
      scratch st' = store_file (scratch st) fi /\
      (forall a, ~ (0 <= a < file_size) -> scratch st' a = scratch st a) /\
      file_in_scratch (scratch st') fi
  end /\
  read_callback st' = read_callback st /\
  output_start st' = output_start st /\ output_end st' = output_end st /\
  output_next st' = output_next st /\ memory st' = memory st /\
  central_dir_offset st' = central_dir_offset st /\
  read_offset st' = read_offset st /\
  curr st' = curr st /\ have st' = have st.
Proof.
  unfold lowzip_locate_file. cbv zeta. intros H.
  apply locate_file_loop_cases in H.
  change (central_dir_offset (set_have_error st 0)) with (central_dir_offset st)
    in H.
  destruct H as [(-> & He & Ss)|(fi & st1 & -> & -> & Ss & Hl & Hf)];
    destruct Ss as (A1 & A2 & A3 & A4 & A5 & A6 & A7 & A8 & A9 & A10 & A11 & A12 & A13).
  - split; [split; [exact He|split; [exact A12|exact A8]]|].
    repeat match goal with |- _ /\ _ => split end; assumption.
  - unfold put_file in *.
    cbn [file scratch read_callback output_start output_end output_next memory
         central_dir_offset read_offset curr have set_file set_scratch] in *.
    change (scratch (set_have_error st 0)) with (scratch st) in A8.
    rewrite A8 in *.
    split.
    { split; [reflexivity|]. split; [exact Hl|]. split; [reflexivity|].
      split; [|exact Hf].
      intros a Ha. apply store_file_outside; assumption. }
    repeat match goal with |- _ /\ _ => split end; assumption.
Qed.

Lemma locate_file_result_witness :
  let st := lowzip_init_archive (initial_state sample_deflate_archive 1000 32) in
  let r := lowzip_locate_file 8 st 0 None in
  match r with
  | Some (st', Some fi) =>
      file st' = fi /\ scratch st' = store_file (scratch st) fi /\
      file_in_scratch (scratch st') fi /\
      read_callback st' = read_callback st
  | _ => False
  end.
Proof.
  intros st r.
  pose proof (locate_file_result 8 st
                (located_state sample_deflate_archive 1000 32 0) 0 None
                (Some (file (located_state sample_deflate_archive 1000 32 0))))
    as H.
  assert (E : r = Some (located_state sample_deflate_archive 1000 32 0,
                        Some (file (located_state sample_deflate_archive 1000 32 0))))
    by (vm_compute; reflexivity).
  rewrite E. specialize (H E). cbv beta iota in H.
  destruct H as ((H1 & _ & H2 & _ & H4) & H3 & _).
  split; [exact H1|]. split; [exact H2|]. split; [exact H4|exact H3].
Defined.

(** X12.  On a finite archive that ends at least 196651 bytes before 2^32,
    with the callback keeping its contract and the directory offset a 32-bit
    value, looking up an entry by a negative [int] index never finds one:
    the scan runs to the end of the directory and the call returns a null
    pointer with [have_error] set.  (The archive is too short for the
    counter, which wraps around below the least [int], to come back to
    0.) *)
Theorem locate_file_negative_index (N : Z) (fuel : nat) (st st' : lowzip_state)
    (idx : Z) (r : option lowzip_file) :
  callback_contract (read_callback st) ->
  input_ends_at (read_callback st) N ->
  N + 196651 <= 2 ^ 32 ->
  0 <= central_dir_offset st < 2 ^ 32 ->
  - 2 ^ 31 <= idx < 0 ->
  lowzip_locate_file fuel st idx None = Some (st', r) ->
  r = None /\ have_error st' = 1.
Proof.
  unfold lowzip_locate_file. cbv zeta. intros Hcb Hend HN Ho Hidx H.
  pose proof (locate_file_loop_negative N fuel (set_have_error st 0)
                (central_dir_offset st) idx st' r Hcb Hend HN Ho Hidx H) as ->.
  split; [reflexivity|].
  apply locate_file_loop_cases in H.
  destruct H as [(_ & He & _)|(fi & st1 & Hr & _)]; [exact He|discriminate Hr].
Qed.

Lemma locate_file_negative_index_witness :
  let st := lowzip_init_archive (initial_state sample_deflate_archive 1000 32) in
  snd (after_locate (lowzip_locate_file 8 st (-1) None) st) = None /\
  have_error (fst (after_locate (lowzip_locate_file 8 st (-1) None) st)) = 1.
Proof.
  intros st.
  assert (E1 : read_callback st = bytes_callback sample_deflate_archive)
    by (vm_compute; reflexivity).
  apply (locate_file_negative_index 114 8 st
           (fst (after_locate (lowzip_locate_file 8 st (-1) None) st)) (-1)
           (snd (after_locate (lowzip_locate_file 8 st (-1) None) st))).
  - rewrite E1. refine (bytes_callback_contract sample_deflate_archive _).
    vm_compute. reflexivity.
  - rewrite E1. exact (bytes_callback_ends sample_deflate_archive).
  - vm_compute. discriminate.
  - vm_compute. split; [discriminate|reflexivity].
  - lia.
  - vm_compute. reflexivity.
Defined.

(** X13.  On a finite archive that ends at least 196651 bytes before 2^32
    (so that neither a directory offset nor the [int] counter [idx] can wrap
    around), with the callback keeping its contract and the directory offset
    a 32-bit value: when a lookup by an [int] index returns an entry with
    [have_error] still 0, the
    index is not negative, each of the directory records 0 to [idx]
    (chained by 46 + name + extra + comment length) carries the signature
    0x02014B50, and the entry holds the fields of the local file header
    that record [idx] points to: signature 0x04034B50, bit 3 of the flags,
    method, CRC-32, sizes, and the data offset behind the header's name and
    extra field. *)
Theorem locate_file_by_index_reads_header (N : Z) (fuel : nat)
    (st st' : lowzip_state) (idx : Z) (fi : lowzip_file) :
  callback_contract (read_callback st) ->
  input_ends_at (read_callback st) N ->
  N + 196651 <= 2 ^ 32 ->
  0 <= central_dir_offset st < 2 ^ 32 ->
  - 2 ^ 31 <= idx < 2 ^ 31 ->
  lowzip_locate_file fuel st idx None = Some (st', Some fi) ->
  have_error st' = 0 ->
  0 <= idx /\
  (forall k, (k <= Z.to_nat idx)%nat ->
     le_value (read_callback st)
       (directory_entry (read_callback st) (central_dir_offset st) k) 4
     = 0x02014b50) /\
  local_header_fields (read_callback st)
    (le_value (read_callback st)
       (add32 (directory_entry (read_callback st) (central_dir_offset st)
                 (Z.to_nat idx)) 42) 4)
    fi.
Proof.
  unfold lowzip_locate_file. cbv zeta. intros Hcb Hend HN Ho Hidx H He.
  destruct (locate_by_index_round N fuel (set_have_error st 0)
              (central_dir_offset st) idx st' fi Hcb Hend HN Ho Hidx H)
    as [H0 _].
  split; [exact H0|].
  apply (locate_by_index_clean fuel (set_have_error st 0)
           (central_dir_offset st) idx st' fi Hcb ltac:(lia) H He).
Qed.

Lemma locate_file_by_index_reads_header_witness :
  let st := lowzip_init_archive (initial_state sample_deflate_archive 1000 32) in
  let fi := file (located_state sample_deflate_archive 1000 32 0) in
  0 <= 0 /\
  (forall k, (k <= Z.to_nat 0)%nat ->
     le_value (read_callback st)
       (directory_entry (read_callback st) (central_dir_offset st) k) 4
     = 0x02014b50) /\
  local_header_fields (read_callback st)
    (le_value (read_callback st)
       (add32 (directory_entry (read_callback st) (central_dir_offset st)
                 (Z.to_nat 0)) 42) 4)
    fi.
Proof.
  intros st fi.
  assert (E1 : read_callback st = bytes_callback sample_deflate_archive)
    by (vm_compute; reflexivity).
  apply (locate_file_by_index_reads_header 114 8 st
           (located_state sample_deflate_archive 1000 32 0) 0 fi).
  - rewrite E1. refine (bytes_callback_contract sample_deflate_archive _).
    vm_compute. reflexivity.
  - rewrite E1. exact (bytes_callback_ends sample_deflate_archive).
  - vm_compute. discriminate.
  - vm_compute. split; [discriminate|reflexivity].
  - lia.
  - vm_compute. reflexivity.
  - vm_compute. reflexivity.
Defined.

(** X14.  When a lookup by name returns an entry with [have_error] still 0,
    there is a directory record number [k] such that: the records 0 to [k]
    all carry the signature 0x02014B50; record [k] carries the requested
    name (its name length field equals the length of the name and its name
    bytes equal the name's bytes); no earlier record carries that name; the
    entry holds the fields of the local file header record [k] points to;
    and the entry's stored file name is the first 255 bytes of the
    requested name. *)
Theorem locate_file_by_name_finds_first_match (fuel : nat)
    (st st' : lowzip_state) (idx : Z) (name : list Z) (fi : lowzip_file) :
  callback_contract (read_callback st) ->
  lowzip_locate_file fuel st idx (Some name) = Some (st', Some fi) ->
  have_error st' = 0 ->
  exists k,
    (forall j, (j <= k)%nat ->
       le_value (read_callback st)
         (directory_entry (read_callback st) (central_dir_offset st) j) 4
       = 0x02014b50) /\
    (forall j, (j < k)%nat ->
       ~ entry_named (read_callback st)
           (directory_entry (read_callback st) (central_dir_offset st) j) name) /\
    entry_named (read_callback st)
      (directory_entry (read_callback st) (central_dir_offset st) k) name /\
    local_header_fields (read_callback st)
      (le_value (read_callback st)
         (add32 (directory_entry (read_callback st) (central_dir_offset st) k)
                42) 4) fi /\
    filename fi = firstn 255 name.
Proof.
  unfold lowzip_locate_file. cbv zeta. intros Hcb H He.
  apply (locate_by_name_clean fuel (set_have_error st 0)
           (central_dir_offset st) idx name st' fi Hcb H He).
Qed.

Lemma locate_file_by_name_finds_first_match_witness :
  let st := lowzip_init_archive (initial_state sample_deflate_archive 1000 32) in
  let fi := file (located_state sample_deflate_archive 1000 32 0) in
  exists k,
    (forall j, (j <= k)%nat ->
       le_value (read_callback st)
         (directory_entry (read_callback st) (central_dir_offset st) j) 4
       = 0x02014b50) /\
    (forall j, (j < k)%nat ->
       ~ entry_named (read_callback st)
           (directory_entry (read_callback st) (central_dir_offset st) j) [98]) /\
    entry_named (read_callback st)
      (directory_entry (read_callback st) (central_dir_offset st) k) [98] /\
    local_header_fields (read_callback st)
      (le_value (read_callback st)
         (add32 (directory_entry (read_callback st) (central_dir_offset st) k)
                42) 4) fi /\
    filename fi = firstn 255 [98].
Proof.
  intros st fi.
  apply (locate_file_by_name_finds_first_match 8 st
           (located_state sample_deflate_archive 1000 32 0) 7 [98] fi).
  - refine (bytes_callback_contract sample_deflate_archive _).
    vm_compute. reflexivity.
  - vm_compute. reflexivity.
  - vm_compute. reflexivity.
Defined.

(** X15.  Extracting a stored entry (method 0) without data descriptor:
    when the entry's data bytes are readable from the callback at the data
    offset, the offsets do not wrap around 2^32, the output cursor is at
    the start of the window and the window has room for the data, then
    [lowzip_get_data] returns with exactly the data in the output, and
    [have_error] is 0 if and only if the CRC-32 of the local header is the
    CRC-32 of the data. *)
Theorem get_data_stored_entry (fuel : nat) (st : lowzip_state) (data : list Z) :
  compression_method (file st) = LOWZIP_COMPRESSION_STORE ->
  have_data_descriptor (file st) = 0 ->
  uncompressed_size (file st) = Z.of_nat (length data) ->
  0 <= data_offset (file st) ->
  data_offset (file st) + Z.of_nat (length data) < 2 ^ 32 ->
  input_holds (read_callback st) (data_offset (file st)) data ->
  output_next st = output_start st ->
  output_start st + Z.of_nat (length data) <= output_end st ->
  exists st',
    lowzip_get_data fuel st = Some st' /\
    output_bytes st' = data /\
    (have_error st' = 0 <-> crc32 (file st) = crc32_of_bytes data).
Proof.
  exact (get_data_stored fuel st data).
Qed.

Lemma get_data_stored_entry_witness :
  let st := located_state sample_stored_archive 1000 32 0 in
  let data := [104; 101; 108; 108; 111; 44; 32; 122; 105; 112] in
  exists st',
    lowzip_get_data 0 st = Some st' /\
    output_bytes st' = data /\
    (have_error st' = 0 <-> crc32 (file st) = crc32_of_bytes data).
Proof.
  intros st data.
  assert (E1 : read_callback st = bytes_callback sample_stored_archive)
    by (vm_compute; reflexivity).
  assert (E2 : data_offset (file st) = Z.of_nat 35)
    by (vm_compute; reflexivity).
  apply (get_data_stored_entry 0 st data).
  - vm_compute. reflexivity.
  - vm_compute. reflexivity.
  - vm_compute. reflexivity.
  - vm_compute. discriminate.
  - vm_compute. reflexivity.
  - rewrite E1, E2.
    refine (bytes_callback_holds_at sample_stored_archive 35 data _ _);
      vm_compute; reflexivity.
  - vm_compute. reflexivity.
  - vm_compute. discriminate.
Defined.

(** X16.  When [lowzip_init_archive] ends with [have_error] 0, there is a
    signed offset [o] between [zip_length - 65557] and [zip_length - 22]
    (no lower limit at 0: below the start the offset wraps to a huge
    unsigned one) at which the four bytes read 0x06054B50 and [o + 22] plus
    the 16-bit comment length at [o + 20] is the archive length; no higher
    offset of the range has both; and the call changed nothing but the
    error flag, now 0, and [central_dir_offset], now the 32-bit value at
    [o + 16]. *)
Theorem init_archive_accepts_highest_record (st : lowzip_state) :
  callback_contract (read_callback st) ->
  have_error (lowzip_init_archive st) = 0 ->
  exists o,
    to_int (zip_length st) - LOWZIP_MAX_EOCDIR_LENGTH <= o
      <= to_int (zip_length st) - LOWZIP_MIN_EOCDIR_LENGTH /\
    eocd_at (read_callback st) (zip_length st) o /\
    (forall o', o < o' <= to_int (zip_length st) - LOWZIP_MIN_EOCDIR_LENGTH ->
       ~ eocd_at (read_callback st) (zip_length st) o') /\
    lowzip_init_archive st
    = set_central_dir_offset (set_have_error st 0)
        (le_value (read_callback st) (u32 (o + 16)) 4).
Proof.
  exact (init_archive_clean st).
Qed.

Lemma init_archive_accepts_highest_record_witness :
  let st := initial_state sample_deflate_archive 1000 32 in
  exists o,
    to_int (zip_length st) - LOWZIP_MAX_EOCDIR_LENGTH <= o
      <= to_int (zip_length st) - LOWZIP_MIN_EOCDIR_LENGTH /\
    eocd_at (read_callback st) (zip_length st) o /\
    (forall o', o < o' <= to_int (zip_length st) - LOWZIP_MIN_EOCDIR_LENGTH ->
       ~ eocd_at (read_callback st) (zip_length st) o') /\
    lowzip_init_archive st
    = set_central_dir_offset (set_have_error st 0)
        (le_value (read_callback st) (u32 (o + 16)) 4).
Proof.
  intros st.
  apply (init_archive_accepts_highest_record st).
  - refine (bytes_callback_contract sample_deflate_archive _).
    vm_compute. reflexivity.
  - vm_compute. reflexivity.
Defined.

(** X17.  On an archive of fewer than 2^31 bytes held in memory (the
    callback gives the byte at an offset inside the archive and flags every
    other offset), [lowzip_init_archive] succeeds whenever an acceptable
    end of central directory record exists among the offsets from
    [max 0 (length - 65557)] to [length - 22]: it takes the highest such
    offset [o], clears the error flag and stores the 32-bit value at
    [o + 16] as the directory offset. *)
Theorem init_archive_finds_record_in_memory (st : lowzip_state)
    (data : list Z) (o : Z) :
  read_callback st = bytes_callback data ->
  zip_length st = Z.of_nat (length data) ->
  all_bytes data = true ->
  Z.of_nat (length data) < 2 ^ 31 ->
  0 <= o <= Z.of_nat (length data) - LOWZIP_MIN_EOCDIR_LENGTH ->
  Z.of_nat (length data) - LOWZIP_MAX_EOCDIR_LENGTH <= o ->
  eocd_at (bytes_callback data) (Z.of_nat (length data)) o ->
  (forall o', o < o' <= Z.of_nat (length data) - LOWZIP_MIN_EOCDIR_LENGTH ->
     ~ eocd_at (bytes_callback data) (Z.of_nat (length data)) o') ->
  lowzip_init_archive st
  = set_central_dir_offset (set_have_error st 0)
      (le_value (bytes_callback data) (o + 16) 4).
Proof.
  exact (init_archive_in_memory st data o).
Qed.

Lemma init_archive_finds_record_in_memory_witness :
  let st := initial_state sample_deflate_archive 1000 32 in
  lowzip_init_archive st
  = set_central_dir_offset (set_have_error st 0)
      (le_value (bytes_callback sample_deflate_archive) (92 + 16) 4).
Proof.
  intros st.
  apply (init_archive_finds_record_in_memory st sample_deflate_archive 92).
  - reflexivity.
  - reflexivity.
  - vm_compute. reflexivity.
  - vm_compute. reflexivity.
  - vm_compute. split; discriminate.
  - vm_compute. discriminate.
  - split; vm_compute; reflexivity.
  - intros o' Ho'. exfalso.
    assert (L : Z.of_nat (length sample_deflate_archive)
                - LOWZIP_MIN_EOCDIR_LENGTH = 92) by (vm_compute; reflexivity).
    rewrite L in Ho'. lia.
Defined.

(** X18.  The back-reference branch of the literal/length loop.  When it
    goes on with the loop it has appended [len] bytes with 3 <= len <= 258
    at a distance 1 <= dist <= 32768 (so the distance is never 0) that
    reaches no further back than the start of the output, with [len]
    bytes of room; byte [k] of the copy is the byte at [k mod dist] of
    the [dist] bytes that stood before the cursor (an overlapping
    reference repeats them periodically), and no other byte of memory
    changed.  When it leaves through the error label, [have_error] is 1
    and neither the cursor nor the memory changed. *)
Theorem back_reference_repeats_history (st : lowzip_state)
    (static_huffman : bool) (t : Z) :
  match back_reference st static_huffman t with
  | Continue st' =>
      exists len dist,
        3 <= len <= 258 /\ 1 <= dist <= 32768 /\
        dist <= output_next st - output_start st /\
        len <= output_end st - output_next st /\
        output_next st' = output_next st + len /\
        (forall k, 0 <= k < len ->
           memory st' (output_next st + k)
           = memory st (output_next st - dist + k mod dist)) /\
        (forall a, ~ (output_next st <= a < output_next st + len) ->
           memory st' a = memory st a)
  | Failed st' =>
      have_error st' = 1 /\ output_next st' = output_next st /\
      memory st' = memory st
  end.
Proof.
  destruct (back_reference st static_huffman t) as [st'|st'] eqn:E.
  - exact (back_reference_continue st static_huffman t st' E).
  - exact (back_reference_failed st static_huffman t st' E).
Qed.

(** X19.  Inflating one final block compressed with the fixed code of
    RFC 1951, from a state whose error flag is down, whose bit buffer
    [curr] is 0 ([lowzip_reset_bitstate] does not clear it), whose read
    offset is a 32-bit value and whose output cursor is at the start of the
    window, with the callback keeping its contract.  When the
    stream from the read offset on holds the header
    bits 1,1,0 and then a sequence of well-formed tokens (literals as
    their fixed codewords; references as the codeword of a length symbol
    257..285, its extra bits, a five-bit distance symbol 0..29 and its
    extra bits) followed by the end-of-block codeword, the bytes holding
    these bits are in bounds, no reference reaches before the start of
    the output and the output window has room, then [lowzip_inflate_raw]
    returns without error and the output is exactly the expansion of the
    tokens: each literal appended, each reference appending
    [len_base + 3 + extra] bytes, one at a time, each the byte
    [dist_base + extra] places before the end. *)
Theorem inflate_fixed_block_expands_tokens (fuel : nat) (st : lowzip_state)
    (tks : list token) :
  callback_contract (read_callback st) ->
  have_error st = 0 -> curr st = 0 ->
  0 <= read_offset st < 2 ^ 32 ->
  output_next st = output_start st ->
  bits_available (lowzip_reset_bitstate st) (3 + tokens_bits tks) ->
  stream_holds (read_callback st) (8 * read_offset st) 3 3 ->
  tokens_encoded (read_callback st) (8 * read_offset st + 3) tks ->
  references_in_range tks [] ->
  output_start st + Z.of_nat (length (expand tks [])) <= output_end st ->
  (length tks + 1 < fuel)%nat ->
  exists st',
    lowzip_inflate_raw fuel st = Some st' /\
    have_error st' = 0 /\
    output_bytes st' = expand tks [] /\
    bit_reader_synced st' /\
    stream_position st' = 8 * read_offset st + 3 + tokens_bits tks.
Proof.
  exact (inflate_static_block fuel st tks).
Qed.

Lemma inflate_fixed_block_expands_tokens_witness :
  let st := initial_state sample_fixed_stream 1000 100 in
  exists st',
    lowzip_inflate_raw 8 st = Some st' /\
    have_error st' = 0 /\
    output_bytes st' = expand sample_fixed_tokens [] /\
    bit_reader_synced st' /\
    stream_position st' = 8 * read_offset st + 3 + tokens_bits sample_fixed_tokens.
Proof.
  intros st.
  apply (inflate_fixed_block_expands_tokens 8 st sample_fixed_tokens).
  - refine (bytes_callback_contract sample_fixed_stream _).
    vm_compute. reflexivity.
  - reflexivity.
  - reflexivity.
  - vm_compute. split; [discriminate|reflexivity].
  - reflexivity.
  - refine (bytes_callback_bits_available _ sample_fixed_stream _ _ _ _ _ _ _).
    + reflexivity.
    + vm_compute. reflexivity.
    + vm_compute. discriminate.
    + vm_compute. discriminate.
    + vm_compute. discriminate.
    + vm_compute. reflexivity.
  - apply stream_holds_check. vm_compute. reflexivity.
  - unfold sample_fixed_tokens.
    cbn [tokens_encoded token_encoded well_formed];
    repeat match goal with
           | |- _ /\ _ => split
           | |- stream_spells _ _ _ _ =>
               apply stream_spells_check; vm_compute; reflexivity
           | |- stream_holds _ _ _ _ =>
               apply stream_holds_check; vm_compute; reflexivity
           | |- _ <= _ => vm_compute; discriminate
           | |- _ < _ => vm_compute; reflexivity
           end.
  - vm_compute. split; [discriminate|]. exact I.
  - vm_compute. discriminate.
  - vm_compute. lia.
Defined.

(** X20.  The read callback [my_read] of the test program is a plain
    lookup in the file, whatever its cached chunk holds: when the chunk
    agrees with the file (as it does after the [memset] of [main], with
    an empty chunk) and the file has at most 2^31 + 128 bytes, a call
    returns the byte of the file at the offset, or 0x100 for an offset at
    or behind the end of the file, and leaves a chunk that again agrees
    with the file. *)
Theorem my_read_is_file_lookup (rs : read_state) (offset : Z) :
  chunk_valid rs ->
  Z.of_nat (length (input rs)) <= 2 ^ 31 + 128 ->
  0 <= offset < 2 ^ 32 ->
  chunk_valid (fst (my_read rs offset)) /\
  snd (my_read rs offset) = bytes_callback (input rs) offset /\
  input (fst (my_read rs offset)) = input rs /\
  input_length (fst (my_read rs offset)) = input_length rs.
Proof.
  exact (my_read_file rs offset).
Qed.

Lemma my_read_is_file_lookup_witness :
  let rs := mkReadState sample_deflate_archive 114 (repeat 0 256) 0 0 in
  chunk_valid (fst (my_read rs 100)) /\
  snd (my_read rs 100) = bytes_callback (input rs) 100 /\
  input (fst (my_read rs 100)) = input rs /\
  input_length (fst (my_read rs 100)) = input_length rs.
Proof.
  intros rs.
  apply (my_read_is_file_lookup rs 100).
  - unfold chunk_valid.
    cbn [input input_length input_chunk input_chunk_start input_chunk_end rs].
    split; [vm_compute; reflexivity|].
    split; [lia|]. split; [lia|]. intros i Hi. lia.
  - vm_compute. discriminate.
  - lia.
Defined.

(** X21.  Whatever the table and the input hold, [lowzip_decode_huffman]
    either fails (result 0, [have_error] 1: no codeword ended within 15
    bits) or returns entry [idx] of the codes part of the table with
    [idx] below the sum of the counts of the lengths 1 to 15: it never
    reads the codes part past the entries that the counts part
    announces. *)
Theorem decode_huffman_reads_within_counts (st st' : lowzip_state)
    (huff t : Z) :
  byte_store (scratch st) ->
  lowzip_decode_huffman st huff = (st', t) ->
  (exists idx, 0 <= idx < counts_upto (scratch st) huff 15 /\
               t = table_symbol (scratch st) huff idx)
  \/ (t = 0 /\ have_error st' = 1).
Proof.
  exact (decode_huffman_in_table st huff st' t).
Qed.

Lemma decode_huffman_reads_within_counts_witness :
  let st := lowzip_prepare_huffman sample_lengths_state 100 4 0 in
  let r := lowzip_decode_huffman st 0 in
  counts_upto (scratch st) 0 15 = 4 /\
  snd r = 2 /\ have_error (fst r) = 0 /\
  exists idx, 0 <= idx < counts_upto (scratch st) 0 15 /\
              snd r = table_symbol (scratch st) 0 idx.
Proof.
  intros st r.
  split; [vm_compute; reflexivity|].
  split; [vm_compute; reflexivity|].
  split; [vm_compute; reflexivity|].
  assert (Hb : byte_store (scratch st)).
  { apply (prepare_huffman_spec sample_lengths_state 100 4 0).
    - exact sample_lengths_bytes.
    - vm_compute. reflexivity.
    - left. vm_compute. discriminate. }
  assert (Hr : lowzip_decode_huffman st 0 = (fst r, snd r))
    by (vm_compute; reflexivity).
  destruct (decode_huffman_reads_within_counts st (fst r) 0 (snd r) Hb Hr)
    as [H|[H _]].
  - exact H.
  - exfalso. vm_compute in H. discriminate H.
Defined.

(** X22.  The decoding loop follows the numbering of codewords of RFC
    1951 section 3.2.2 for any counts: with [first] the first codeword of
    [len] bits (twice the end of the codewords one bit shorter, starting
    from 0), if the next [len] bits of the stream spell, most significant
    bit first, a codeword [c] with [first <= c < first + count len], then
    [lowzip_decode_huffman] returns the entry of the codes part numbered
    (count of the shorter codewords) + (c - first), consumes exactly
    [len] bits and raises no error. *)
Theorem decode_huffman_finds_codeword (st st' : lowzip_state) (huff : Z)
    (len : nat) (c t : Z) :
  callback_contract (read_callback st) ->
  byte_store (scratch st) ->
  bit_reader_synced st ->
  (1 <= len <= 15)%nat ->
  bits_available st (Z.of_nat len) ->
  stream_spells (read_callback st) (stream_position st) (Z.of_nat len) c ->
  0 <= c < 2 ^ Z.of_nat len ->
  first_code (scratch st) huff (len - 1) <= c
    < first_code (scratch st) huff (len - 1)
      + table_count (scratch st) huff (Z.of_nat len) ->
  lowzip_decode_huffman st huff = (st', t) ->
  t = table_symbol (scratch st) huff
        (counts_upto (scratch st) huff (len - 1) + c
         - first_code (scratch st) huff (len - 1)) /\
  bit_reader_synced st' /\
  stream_position st' = stream_position st + Z.of_nat len /\
  read_callback st' = read_callback st /\
  have_error st' = have_error st /\
  scratch st' = scratch st.
Proof.
  exact (decode_huffman_finds st huff len c st' t).
Qed.

Lemma decode_huffman_finds_codeword_witness :
  let st := lowzip_prepare_huffman sample_lengths_state 100 4 0 in
  let r := lowzip_decode_huffman st 0 in
  snd r = table_symbol (scratch st) 0
            (counts_upto (scratch st) 0 (3 - 1) + 6
             - first_code (scratch st) 0 (3 - 1)) /\
  bit_reader_synced (fst r) /\
  stream_position (fst r) = stream_position st + Z.of_nat 3 /\
  read_callback (fst r) = read_callback st /\
  have_error (fst r) = have_error st /\
  scratch (fst r) = scratch st.
Proof.
  intros st r.
  apply (decode_huffman_finds_codeword st (fst r) 0 3 6 (snd r)).
  - refine (bytes_callback_contract [3] _). vm_compute. reflexivity.
  - apply (prepare_huffman_spec sample_lengths_state 100 4 0).
    + exact sample_lengths_bytes.
    + vm_compute. reflexivity.
    + left. vm_compute. discriminate.
  - exact (initial_state_synced [3] 1000 10).
  - lia.
  - refine (bytes_callback_bits_available st [3] _ _ _ _ _ _ _).
    + reflexivity.
    + vm_compute. reflexivity.
    + vm_compute. discriminate.
    + vm_compute. discriminate.
    + vm_compute. discriminate.
    + vm_compute. reflexivity.
  - apply stream_spells_check. vm_compute. reflexivity.
  - vm_compute. split; [discriminate|reflexivity].
  - vm_compute. split; [discriminate|reflexivity].
  - vm_compute. reflexivity.
Defined.

(** X23.  [lowzip_prepare_huffman] on [n] code lengths that do not overlap
    the table (32 + 2n bytes at [out]).  If some length exceeds 15 it sets
    [have_error].  Otherwise it leaves [have_error] alone and builds the
    table of the canonical code: count [l], for l from 0 to 15, is the
    number of symbols of length [l]; the codes part lists the symbols of
    lengths 1 to 15 by length and, within one length, by value; and no
    byte of the scratch area outside the counts and the listed symbols
    changes. *)
Theorem prepare_huffman_builds_table (st : lowzip_state) (code_lens : Z)
    (n : nat) (out : Z) :
  byte_store (scratch st) -> Z.of_nat n < 65536 ->
  out + 32 + 2 * Z.of_nat n <= code_lens \/ code_lens + Z.of_nat n <= out ->
  let ls := code_lengths (scratch st) code_lens n in
  let syms := symbols_by_length 15 1 ls in
  let st' := lowzip_prepare_huffman st code_lens n out in
  byte_store (scratch st') /\
  (~ Forall (fun x => x <= 15) ls -> have_error st' = 1) /\
  (Forall (fun x => x <= 15) ls ->
   have_error st' = have_error st /\
   (forall l, 0 <= l <= 15 -> table_count (scratch st') out l = count_of l ls) /\
   (forall k, (k < length syms)%nat ->
      table_symbol (scratch st') out (Z.of_nat k) = nth k syms 0) /\
   (forall a, ~ (out <= a < out + 32 + 2 * Z.of_nat (length syms)) ->
      scratch st' a = scratch st a)).
Proof.
  exact (prepare_huffman_spec st code_lens n out).
Qed.

Lemma prepare_huffman_builds_table_witness :
  let st := sample_lengths_state in
  let ls := code_lengths (scratch st) 100 4 in
  let syms := symbols_by_length 15 1 ls in
  let st' := lowzip_prepare_huffman st 100 4 0 in
  byte_store (scratch st') /\
  (~ Forall (fun x => x <= 15) ls -> have_error st' = 1) /\
  (Forall (fun x => x <= 15) ls ->
   have_error st' = have_error st /\
   (forall l, 0 <= l <= 15 -> table_count (scratch st') 0 l = count_of l ls) /\
   (forall k, (k < length syms)%nat ->
      table_symbol (scratch st') 0 (Z.of_nat k) = nth k syms 0) /\
   (forall a, ~ (0 <= a < 0 + 32 + 2 * Z.of_nat (length syms)) ->
      scratch st' a = scratch st a)).
Proof.
  apply (prepare_huffman_builds_table sample_lengths_state 100 4 0).
  - exact sample_lengths_bytes.
  - vm_compute. reflexivity.
  - left. vm_compute. discriminate.
Defined.

(** X24.  Preparing a table and decoding with it implement the canonical
    Huffman code of RFC 1951 section 3.2.2: for code lengths all at most
    15 that do not overlap the table, and a symbol [s] of length [len]
    between 1 and 15 whose canonical codeword (first codeword of its
    length plus the number of smaller symbols of that length) fits [len]
    bits, if the next [len] bits of the stream spell that codeword then
    [lowzip_decode_huffman] on the prepared table returns [s], consumes
    exactly [len] bits and raises no error. *)
Theorem prepared_table_decodes_canonical_code (st st' : lowzip_state)
    (code_lens : Z) (n : nat) (out : Z) (s len : nat) (t : Z) :
  callback_contract (read_callback st) ->
  byte_store (scratch st) -> Z.of_nat n < 65536 ->
  out + 32 + 2 * Z.of_nat n <= code_lens \/ code_lens + Z.of_nat n <= out ->
  Forall (fun x => x <= 15) (code_lengths (scratch st) code_lens n) ->
  (s < n)%nat ->
  nth s (code_lengths (scratch st) code_lens n) 0 = Z.of_nat len ->
  (1 <= len <= 15)%nat ->
  canonical_code (code_lengths (scratch st) code_lens n) s < 2 ^ Z.of_nat len ->
  bit_reader_synced st ->
  bits_available st (Z.of_nat len) ->
  stream_spells (read_callback st) (stream_position st) (Z.of_nat len)
    (canonical_code (code_lengths (scratch st) code_lens n) s) ->
  lowzip_decode_huffman (lowzip_prepare_huffman st code_lens n out) out
  = (st', t) ->
  t = Z.of_nat s /\ bit_reader_synced st' /\
  stream_position st' = stream_position st + Z.of_nat len /\
  have_error st' = have_error st.
Proof.
  exact (prepared_table_decodes st code_lens n out s len st' t).
Qed.

Lemma prepared_table_decodes_canonical_code_witness :
  let st := sample_lengths_state in
  let r := lowzip_decode_huffman (lowzip_prepare_huffman st 100 4 0) 0 in
  snd r = Z.of_nat 2 /\ bit_reader_synced (fst r) /\
  stream_position (fst r) = stream_position st + Z.of_nat 3 /\
  have_error (fst r) = have_error st.
Proof.
  intros st r.
  apply (prepared_table_decodes_canonical_code st (fst r) 100 4 0 2 3 (snd r)).
  - refine (bytes_callback_contract [3] _). vm_compute. reflexivity.
  - exact sample_lengths_bytes.
  - vm_compute. reflexivity.
  - left. vm_compute. discriminate.
  - vm_compute. repeat constructor; discriminate.
  - lia.
  - vm_compute. reflexivity.
  - lia.
  - vm_compute. reflexivity.
  - exact (initial_state_synced [3] 1000 10).
  - refine (bytes_callback_bits_available st [3] _ _ _ _ _ _ _).
    + reflexivity.
    + vm_compute. reflexivity.
    + vm_compute. discriminate.
    + vm_compute. discriminate.
    + vm_compute. discriminate.
    + vm_compute. reflexivity.
  - apply stream_spells_check. vm_compute. reflexivity.
  - vm_compute. reflexivity.
Defined.

(** X25.  A table prepared from [n] code lengths, all at most 15, only
    yields symbols of those lengths: whatever the input bits,
    [lowzip_decode_huffman] on the table either fails (result 0,
    [have_error] 1) or returns a symbol [t < n] whose code length is
    between 1 and 15.  So right after the table of the 19 code length
    codes is prepared, a result above 18 cannot occur. *)
Theorem prepared_table_yields_coded_symbols (st st' : lowzip_state)
    (code_lens : Z) (n : nat) (out t : Z) :
  byte_store (scratch st) -> Z.of_nat n < 65536 ->
  out + 32 + 2 * Z.of_nat n <= code_lens \/ code_lens + Z.of_nat n <= out ->
  Forall (fun x => x <= 15) (code_lengths (scratch st) code_lens n) ->
  lowzip_decode_huffman (lowzip_prepare_huffman st code_lens n out) out
  = (st', t) ->
  (t = 0 /\ have_error st' = 1)
  \/ (0 <= t < Z.of_nat n /\
      1 <= nth (Z.to_nat t) (code_lengths (scratch st) code_lens n) 0 <= 15).
Proof.
  exact (prepared_table_symbols st code_lens n out st' t).
Qed.

Lemma prepared_table_yields_coded_symbols_witness :
  let st := sample_lengths_state in
  let r := lowzip_decode_huffman (lowzip_prepare_huffman st 100 4 0) 0 in
  (snd r = 0 /\ have_error (fst r) = 1)
  \/ (0 <= snd r < Z.of_nat 4 /\
      1 <= nth (Z.to_nat (snd r)) (code_lengths (scratch st) 100 4) 0 <= 15).
Proof.
  intros st r.
  apply (prepared_table_yields_coded_symbols st (fst r) 100 4 0 (snd r)).
  - exact sample_lengths_bytes.
  - vm_compute. reflexivity.
  - left. vm_compute. discriminate.
  - vm_compute. repeat constructor; discriminate.
  - vm_compute. reflexivity.
Defined.

(** X26.  A block header with the reserved block type 3 (both type bits
    set): [lowzip_inflate_raw] returns with [have_error] 1, whether or
    not the header says the block is the last one, and has written no
    output. *)
Theorem inflate_rejects_reserved_block_type (fuel : nat) (st : lowzip_state) :
  callback_contract (read_callback st) ->
  have_error st = 0 -> curr st = 0 ->
  0 <= read_offset st < 2 ^ 32 ->
  bits_available (lowzip_reset_bitstate st) 3 ->
  stream_bit (read_callback st) (8 * read_offset st + 1) = true ->
  stream_bit (read_callback st) (8 * read_offset st + 2) = true ->
  (2 <= fuel)%nat ->
  exists st',
    lowzip_inflate_raw fuel st = Some st' /\
    have_error st' = 1 /\
    output_next st' = output_next st /\
    memory st' = memory st.
Proof.
  exact (inflate_reserved_block_type fuel st).
Qed.

Lemma inflate_rejects_reserved_block_type_witness :
  let st := initial_state [6; 0] 1000 10 in
  exists st',
    lowzip_inflate_raw 2 st = Some st' /\
    have_error st' = 1 /\
    output_next st' = output_next st /\
    memory st' = memory st.
Proof.
  intros st.
  apply (inflate_rejects_reserved_block_type 2 st).
  - refine (bytes_callback_contract [6; 0] _). vm_compute. reflexivity.
  - reflexivity.
  - reflexivity.
  - vm_compute. split; [discriminate|reflexivity].
  - refine (bytes_callback_bits_available _ [6; 0] _ _ _ _ _ _ _).
    + reflexivity.
    + vm_compute. reflexivity.
    + vm_compute. discriminate.
    + vm_compute. discriminate.
    + vm_compute. discriminate.
    + vm_compute. reflexivity.
  - vm_compute. reflexivity.
  - vm_compute. reflexivity.
  - lia.
Defined.

(** X27.  Extracting a deflated entry (method 8) without data descriptor
    whose data is one final block with the fixed code, from a state whose
    bit buffer [curr] is 0: when the stream at the data offset holds the
    header bits 1,1,0, well-formed tokens and the end-of-block codeword,
    all in bounds, no reference reaches before the start of the output,
    the header's uncompressed size is the length of the expansion and the
    output window has room for it, [lowzip_get_data] returns with exactly
    the expansion of the tokens in the output, and [have_error] is 0 if
    and only if the CRC-32 of the local header is the CRC-32 of the
    expansion. *)
Theorem get_data_deflated_fixed_entry (fuel : nat) (st : lowzip_state)
    (tks : list token) :
  callback_contract (read_callback st) ->
  compression_method (file st) = LOWZIP_COMPRESSION_DEFLATE ->
  have_data_descriptor (file st) = 0 ->
  curr st = 0 ->
  0 <= data_offset (file st) < 2 ^ 32 ->
  output_next st = output_start st ->
  (forall o, data_offset (file st) <= o ->
     8 * (o - data_offset (file st)) < 3 + tokens_bits tks ->
     o < 2 ^ 32 - 1 /\ Z.land (read_callback st o) 0x100 = 0) ->
  stream_holds (read_callback st) (8 * data_offset (file st)) 3 3 ->
  tokens_encoded (read_callback st) (8 * data_offset (file st) + 3) tks ->
  references_in_range tks [] ->
  uncompressed_size (file st) = Z.of_nat (length (expand tks [])) ->
  output_start st + Z.of_nat (length (expand tks [])) <= output_end st ->
  (length tks + 1 < fuel)%nat ->
  exists st',
    lowzip_get_data fuel st = Some st' /\
    output_bytes st' = expand tks [] /\
    (have_error st' = 0 <-> crc32 (file st) = crc32_of_bytes (expand tks [])).
Proof.
  exact (get_data_fixed_block fuel st tks).
Qed.

Lemma get_data_deflated_fixed_entry_witness :
  let st := located_state sample_deflate_archive 1000 32 0 in
  exists st',
    lowzip_get_data 13 st = Some st' /\
    output_bytes st' = expand sample_deflate_tokens [] /\
    (have_error st' = 0
     <-> crc32 (file st) = crc32_of_bytes (expand sample_deflate_tokens [])).
Proof.
  intros st.
  assert (E1 : read_callback st = bytes_callback sample_deflate_archive)
    by (vm_compute; reflexivity).
  assert (E2 : data_offset (file st) = 31) by (vm_compute; reflexivity).
  assert (E3 : tokens_bits sample_deflate_tokens = 106)
    by (vm_compute; reflexivity).
  apply (get_data_deflated_fixed_entry 13 st sample_deflate_tokens).
  - rewrite E1. refine (bytes_callback_contract sample_deflate_archive _).
    vm_compute. reflexivity.
  - vm_compute. reflexivity.
  - vm_compute. reflexivity.
  - vm_compute. reflexivity.
  - rewrite E2. lia.
  - vm_compute. reflexivity.
  - rewrite E2, E3. intros o Ho1 Ho2.
    refine (bytes_callback_bits_available
              (set_have (set_read_offset st 31) 0) sample_deflate_archive 109
              E1 _ _ _ _ _ o Ho1 _).
    + vm_compute. reflexivity.
    + vm_compute. discriminate.
    + vm_compute. discriminate.
    + vm_compute. discriminate.
    + vm_compute. reflexivity.
    + cbn [have read_offset set_have set_read_offset]. lia.
  - rewrite E1, E2. apply stream_holds_check. vm_compute. reflexivity.
  - rewrite E1, E2. unfold sample_deflate_tokens.
    cbn [tokens_encoded token_encoded well_formed];
    repeat match goal with
           | |- _ /\ _ => split
           | |- stream_spells _ _ _ _ =>
               apply stream_spells_check; vm_compute; reflexivity
           | |- stream_holds _ _ _ _ =>
               apply stream_holds_check; vm_compute; reflexivity
           | |- _ <= _ => vm_compute; discriminate
           | |- _ < _ => vm_compute; reflexivity
           end.
  - vm_compute. repeat split; discriminate.
  - vm_compute. reflexivity.
  - vm_compute. discriminate.
  - vm_compute. lia.
Defined.

(** X28.  [lowzip_locate_file] returns on every finite archive that ends
    at least 196651 bytes before 2^32 (so that no directory offset wraps
    around): the walk moves at least 46 bytes forward in each round and
    finds no signature behind the end, so a lookup by index or by name,
    for whatever bytes the archive holds, ends within one round per 46
    bytes of archive and one more. *)
Theorem locate_file_returns_on_finite_archive (N : Z) (fuel : nat)
    (st : lowzip_state) (idx : Z) (name : option (list Z)) :
  callback_contract (read_callback st) ->
  input_ends_at (read_callback st) N ->
  0 <= N -> N + 196651 <= 2 ^ 32 ->
  0 <= central_dir_offset st < 2 ^ 32 ->
  N <= 46 * (Z.of_nat fuel - 1) ->
  exists r, lowzip_locate_file fuel st idx name = Some r.
Proof.
  intros Hcb Hend HN0 HN Ho Hf. unfold lowzip_locate_file. cbv zeta.
  apply (locate_file_loop_terminates N fuel (set_have_error st 0)
           (central_dir_offset st) idx name Hcb Hend HN Ho); lia.
Qed.

Lemma locate_file_returns_on_finite_archive_witness :
  exists r,
    lowzip_locate_file 4
      (lowzip_init_archive (initial_state sample_deflate_archive 1000 32))
      5 None = Some r.
Proof.
  apply (locate_file_returns_on_finite_archive 114 4
           (lowzip_init_archive (initial_state sample_deflate_archive 1000 32))
           5 None).
  - refine (bytes_callback_contract sample_deflate_archive _).
    vm_compute. reflexivity.
  - exact (bytes_callback_ends sample_deflate_archive).
  - lia.
  - vm_compute. discriminate.
  - vm_compute. split; [discriminate|reflexivity].
  - lia.
Defined.

(** X29.  Where the inflate engine writes to the scratch area.
    [lowzip_inflate_raw] as a whole, whatever the input, changes no byte
    outside the 1020 bytes of the area and leaves bytes in it.  Inside,
    for a scratch area that holds bytes: a stored block writes nothing to
    it; the decoding of the data of a block, with the fixed or with a
    dynamic code, writes nothing to it; reading the code length code
    lengths writes only the bytes 70 to 88; expanding the code lengths up
    to a limit of at most 320 writes only the bytes 700 to 1019; and
    [lowzip_prepare_huffman] for [n] < 65536 symbols, with its
    table at [out] apart from the code lengths, writes only the
    [32 + 2 * n] bytes from [out] on: the bytes 0 to 69 for the 19 code
    length codes, at most the bytes 0 to 607 for up to 288 literal/length
    codes, and at most the bytes 604 to 699 for up to 32 distance codes. *)
Theorem inflate_raw_writes_within_scratch :
  (forall fuel st st',
     byte_store (scratch st) ->
     lowzip_inflate_raw fuel st = Some st' ->
     byte_store (scratch st') /\
     forall a, ~ (0 <= a < 1020) -> scratch st' a = scratch st a) /\
  (forall st, scratch (lowzip_decode_uncompressed_block st) = scratch st) /\
  (forall fuel st static_huffman st',
     lowzip_decode_huffman_block_data fuel st static_huffman = Some st' ->
     scratch st' = scratch st) /\
  (forall fuel st st',
     lowzip_decode_static_huffman_block fuel st = Some st' ->
     scratch st' = scratch st) /\
  (forall n i st a,
     byte_store (scratch st) -> ~ (70 <= a < 89) ->
     scratch (read_codelen_code_lens n i st) a = scratch st a) /\
  (forall fuel st i limit c a,
     byte_store (scratch st) -> 0 <= i -> limit <= 320 ->
     decode_code_lengths fuel st i limit = Some c ->
     ~ (700 <= a < 1020) ->
     scratch (match c with Continue s => s | Failed s => s end) a
     = scratch st a) /\
  (forall st code_lens n out a,
     byte_store (scratch st) -> Z.of_nat n < 65536 ->
     out + 32 + 2 * Z.of_nat n <= code_lens \/ code_lens + Z.of_nat n <= out ->
     ~ (out <= a < out + 32 + 2 * Z.of_nat n) ->
     scratch (lowzip_prepare_huffman st code_lens n out) a = scratch st a) /\
  32 + 2 * 19 = 70 /\
  LOWZIP_SCRATCH_HUFF_LIT + 32 + 2 * 288 = 608 /\
  LOWZIP_SCRATCH_HUFF_DIST + 32 + 2 * 32 = 700.
Proof.
  split.
  { intros fuel st st' Hb H. exact (inflate_raw_scratch fuel st st' H Hb). }
  split; [exact decode_uncompressed_block_scratch|].
  split; [exact decode_huffman_block_data_scratch|].
  split.
  { intros fuel st st' H.
    exact (decode_huffman_block_data_scratch fuel st true st' H). }
  split.
  { intros n i st a Hb Ha.
    apply (read_codelen_code_lens_footprint n i st Hb). exact Ha. }
  split.
  { intros fuel st i limit c a Hb Hi Hl H Ha.
    apply (decode_code_lengths_footprint fuel st i limit c Hb Hi Hl H).
    exact Ha. }
  split.
  { intros st code_lens n out a Hb Hn Hd Ha.
    apply (prepare_huffman_footprint st code_lens n out Hb Hn Hd). exact Ha. }
  split; [reflexivity|]. split; reflexivity.
Qed.

Lemma inflate_raw_writes_within_scratch_witness :
  let st := initial_state sample_dynamic_stream 1000 64 in
  let st' := after (lowzip_inflate_raw 40 st) st in
  (byte_store (scratch st') /\
   forall a, ~ (0 <= a < 1020) -> scratch st' a = scratch st a) /\
  scratch st' 0 <> scratch st 0 /\ scratch st' 966 <> scratch st 966.
Proof.
  intros st st'.
  split; [|split; vm_compute; discriminate].
  apply (proj1 inflate_raw_writes_within_scratch 40%nat st st').
  - intros a. cbn. lia.
  - vm_compute. reflexivity.
Defined.

(** X30.  In a dynamic block no table preparation can fail.  After the
    19 code length code lengths are zeroed and read as three-bit values,
    [lowzip_prepare_huffman] on them leaves [have_error] as it was; and
    when the expansion of the code lengths ends normally, every one of
    the [limit] (at most 320) expanded code lengths is at most 15, so
    [lowzip_prepare_huffman] on any run of them, with its table below
    them, leaves [have_error] as it was too: the error checks behind the
    three preparations only catch errors raised before. *)
Theorem dynamic_block_tables_never_fail (fuel : nat) (st3 st7 : lowzip_state)
    (nclen : nat) (limit : Z) :
  byte_store (scratch st3) -> 0 <= limit <= 320 ->
  let st4 := set_scratch st3 (memset (scratch st3) codelen_code_lens 0 19) in
  let st5 := read_codelen_code_lens nclen 0 st4 in
  let st6 := lowzip_prepare_huffman st5 codelen_code_lens 19 0 in
  have_error st6 = have_error st5 /\
  (decode_code_lengths fuel st6 0 limit = Some (Continue st7) ->
   (forall k, 0 <= k < limit -> scratch st7 (temp_code_lens + k) <= 15) /\
   forall off n out,
     0 <= off -> off + Z.of_nat n <= limit ->
     out + 32 + 2 * Z.of_nat n <= temp_code_lens + off ->
     have_error (lowzip_prepare_huffman st7 (temp_code_lens + off) n out)
     = have_error st7).
Proof.
  exact (dynamic_code_lengths_small fuel st3 nclen limit st7).
Qed.

Lemma dynamic_block_tables_never_fail_witness :
  let st3 := sample_dynamic_header_state in
  let st4 := set_scratch st3 (memset (scratch st3) codelen_code_lens 0 19) in
  let st5 := read_codelen_code_lens 18 0 st4 in
  let st6 := lowzip_prepare_huffman st5 codelen_code_lens 19 0 in
  let st7 := match decode_code_lengths 300 st6 0 267 with
             | Some (Continue s) => s
             | _ => st6
             end in
  have_error st6 = have_error st5 /\
  (decode_code_lengths 300 st6 0 267 = Some (Continue st7) ->
   (forall k, 0 <= k < 267 -> scratch st7 (temp_code_lens + k) <= 15) /\
   forall off n out,
     0 <= off -> off + Z.of_nat n <= 267 ->
     out + 32 + 2 * Z.of_nat n <= temp_code_lens + off ->
     have_error (lowzip_prepare_huffman st7 (temp_code_lens + off) n out)
     = have_error st7).
Proof.
  intros st3 st4 st5 st6 st7.
  apply (dynamic_block_tables_never_fail 300 st3 st7 18 267).
  - assert (E : scratch sample_dynamic_header_state = fun _ => 0)
      by (vm_compute; reflexivity).
    intros a. unfold st3. rewrite E. lia.
  - lia.
Defined.
